(* ===== verification/_CoqProject ===== *)
-Q . S2P
Prelude.v
RustText.v
StableSort.v
Host.v
Contract.v
SampleChain.v
RegistryTypes.v
RegistryInternal.v
RegistryReputation.v
RegistryTask.v
RegistryStaking.v
RegistryAdmin.v
RegistryBatch.v
RegistryViews.v
RegistrySystem.v
RegistrySample.v
RegistryInvariants.v
RegistrySolvency.v
RegistryLifecycle.v
RegistryLiveness.v
RegistryFrame.v
RegistryStakes.v
RegistryDisputes.v
RegistryClaims.v
RegistryReads.v
RegistryReplay.v
TreasuryTypes.v
Treasury.v
TreasurySpec.v
TreasurySystem.v
TreasuryProps.v
KprsToken.v
KprsTokenSpec.v
KprsTokenProps.v
KprsTokenVesting.v
Governance.v
GovernanceSpec.v
GovernanceProps.v
GovernanceLifecycle.v
GovernanceSystem.v
Conditions.v
IndexerEvents.v
IndexerWire.v
IndexerState.v
IndexerAddress.v
IndexerReorg.v
IndexerProgress.v
IndexerStore.v
IndexerStoreSpec.v
IndexerGovernance.v
IndexerPaging.v
IndexerTasks.v
IndexerIngest.v
IndexerIngestSpec.v
IndexerBackfill.v
IndexerService.v
IndexerMirror.v
IndexerEndToEnd.v
IndexerSample.v
IndexerLeaderboard.v
IndexerLeaderboardSpec.v
IndexerFeeds.v
IndexerQueries.v
IndexerCache.v
IndexerApi.v
IndexerWebsocket.v
IndexerWebsocketSpec.v
Sha256.v
IndexerAuth.v
IndexerRateLimit.v
IndexerAlerts.v
IndexerAlertsSpec.v
SdkRetry.v
SdkEvents.v
SdkStream.v
IndexerRpc.v
SdkClient.v
SdkInProcess.v
IndexerConfig.v
ServicesSample.v
