(* ===== verification/Prelude.v ===== *)
(** * Soroban Keeper Network: a verification library

    The program is a marketplace of on-chain tasks.  Owners escrow a reward for
    a task in the keeper registry; keepers claim and execute tasks for the
    reward less a protocol fee; the fee goes to a treasury that splits it among
    recipients; holders of the KPRS token vote on parameter changes; condition
    contracts gate claims; an off-chain indexer and a client SDK read and drive
    the contracts.  This library translates the Rust sources under src/ into
    executable definitions and proves what makes each part correct.

    ** Layout

    - Prelude.v (this file): record update, machine integers, sums over maps
      and lists, list lemmas, tactics and hints shared by all files.
    - Host.v: the Soroban host as the contracts use it: [Address], [Env],
      the state of an invocation [Sys] (the contract's storage, the effects
      published so far, the rest of the chain), the fallible state monad [M]
      with typed errors and traps, and the interface [Ledger] to the contracts
      outside the program (reward token, verifiers, conditions), with the laws
      [LawfulToken] that theorems assume of the reward token.
      The classes [Runs] and [Ensures] derive what a monadic program does when
      it succeeds from what its parts do.
    - Contract.v: what all contracts share: a call commits or is rolled back;
      [reachable] states (any interleaving of calls with transactions of other
      contracts); [chronicle], the same with the ledger sequence of the last
      call; and the invariant rules of both.
    - SampleChain.v: a concrete chain with a lawful token, on which the
      witnesses run.

    ** The keeper registry (src/contracts/keeper-registry/src/)

    - RegistryTypes.v: types.rs, errors.rs, events.rs, constants.rs.  Storage is
      the record [Store], one field per [DataKey]; an instance entry is an
      option, a persistent family a finite map.
    - RegistryInternal.v: internal.rs, one definition per function, each with
      its [Runs] instance.  RegistryReputation.v: reputation.rs.
    - RegistryTask.v: task.rs, with condition.rs and verifier.rs.
      RegistryStaking.v: staking.rs.  RegistryAdmin.v: admin.rs.
      RegistryBatch.v: batch.rs.  RegistryViews.v: views.rs.
    - RegistrySystem.v: every state-changing entry point as a constructor of
      [Op], run by [exec].  RegistrySample.v: a deployment and its run.
    - RegistryInvariants.v: the storage invariant [wf] and its preservation.
      RegistrySolvency.v: what the registry owes against what it holds, entry
      point by entry point.  RegistryLifecycle.v: the status graph, frozen
      settled tasks, counters, pause, uninitialized registry.
      RegistryLiveness.v: overdue tasks can be expired, earned balances and
      unbonded stakes withdrawn, paused or not, exactly if the token delivers
      the transfer, which the registry can always afford.  RegistryFrame.v: what each
      entry point may write, and which authorization it needs.
      RegistryStakes.v: slashing, unbonding, appeals.  RegistryDisputes.v: held
      credits, disputes, withdrawals.  RegistryClaims.v: when a claim or an
      execution goes through and what it pays; verifier and condition vetoes;
      reputation.  RegistryReads.v: well-formed storage, page reads against
      pointwise reads, registration against the storage lifetime.

    ** The treasury (src/contracts/treasury/src/)

    TreasuryTypes.v and Treasury.v: the data and the entry points (recipients,
    distribution, withdrawal, administration, views).  TreasurySpec.v: what each
    does when it succeeds.  TreasurySystem.v: the step function.
    TreasuryProps.v: solvency, the type of storage, the exact distribution,
    withdrawals that only the token can refuse.

    ** The governance token (src/contracts/governance-token/src/lib.rs)

    KprsToken.v: the token with vesting, allowances and balance checkpoints.
    KprsTokenSpec.v: the abstract history of an account and its refinement by
    the stored checkpoints; the binary search of [balance_at] ends and reads
    that history.  KprsTokenProps.v, KprsTokenVesting.v: past balances are
    final, the supply moves exactly as the calls say, unvested tokens cannot
    leave, allowances are spent exactly.

    ** Governance (src/contracts/governance/src/lib.rs)

    Governance.v: the contract over the class [VotingToken], all it asks of the
    token.  GovernanceSpec.v, GovernanceProps.v, GovernanceLifecycle.v: entry
    point specifications, the proposal state machine, exact tallies, timelock,
    bounded parameters, when a vote is accepted, what an execution applies.
    GovernanceSystem.v: the token's model as an instance of [VotingToken], so
    that a vote weighs what its voter held at the end of the creation ledger.

    ** Conditions and the oracle client

    Conditions.v: src/contracts/conditions/ (time-window, price-threshold,
    oracle-deviation) and src/contracts/oracle-client/src/lib.rs
    ([read_normalized]), over the oracle as an interface.

    ** The event log

    - RegistryReplay.v: [replay] rebuilds the registry's settings (admin, token,
      fee, pause flag, the four minima and windows) and every task's owner,
      status, reward, deadline, condition, claimer and claim ledger from the
      events alone; in every reachable state the log determines them.  A task's
      type, calldata, TTL, lock and verifier are not in the events it reads.

    ** The indexer (src/indexer/src/)

    - IndexerEvents.v: events.rs, the raw events of rpc.rs and the parser of
      ingest/parse.rs.  IndexerWire.v: the payload tuples the registry's
      events.rs publishes, against that parser: 17 types of event parse back,
      the other 15 are not recognised.
    - IndexerState.v: the folds of state.rs; Rust's panic on an overflowing sum
      is [None].  IndexerAddress.v: address.rs over the class [Strkey].
      IndexerReorg.v: the fingerprints of reorg.rs.  IndexerProgress.v:
      progress.rs.
    - IndexerStore.v: store.rs.  The database is the record [Db] (the tables of
      src/indexer/migrations), a statement is an operation on it that may fail
      ([io] consumes one bit of [faults]); the process is the record [World].
      AUTOINCREMENT draws a number for every insertion, also for one that ON
      CONFLICT then discards, so cursors ascend with gaps.  JSON is the class
      [JsonCodec].
    - IndexerIngest.v: ingest/mod.rs, [observe] of reorg.rs and the walk of
      backfill.rs over the class [EventSource].  The walk's fuel is the number of
      ledgers between the resume point and the tip; each page covers at least
      one, and the theorems on runs without faults show that it suffices.
    - IndexerStoreSpec.v: [holds], the database that stores a list of entries
      under ascending cursors, and what each statement does to it and reads from
      it; [contents] forgets the cursors.  IndexerPaging.v: a client's traversal
      of the feed while rows are appended, whatever the cursors.
      IndexerIngestSpec.v: batches and fingerprints.  IndexerBackfill.v: the
      walk interrupted at any statement and resumed, over an honest source,
      while cursors are left ([roomy]); over any source, nothing stored is
      changed.
    - IndexerService.v: the polling loop of backfill.rs and service.rs as a step
      relation; passes, sleeps, the signal, the drain windows, failures, kills
      and restarts in any order lose nothing.
    - IndexerMirror.v, IndexerEndToEnd.v: the folds of the stored events are the
      views of the registry that published them, by way of [replay].
      IndexerSample.v: concrete codecs and an honest source, on which the
      witnesses run.
    - IndexerTasks.v: the task lookups of store.rs, whole, paged and batched.
      IndexerFeeds.v: open_tasks_by_feed.  IndexerLeaderboard.v,
      IndexerLeaderboardSpec.v, IndexerQueries.v: queries/ (leaderboard,
      statistics, activity).  A query without ORDER BY returns its rows in the
      order of the class [Scan]; the theorems hold for every order.
    - IndexerGovernance.v: ingest/governance.rs over the tables and views of
      schema/governance.sql; any number of interrupted ingestions and retries,
      then the views against the events.

    ** The services around the index (src/indexer/src/)

    - RustText.v: trimming, splitting, padding and number parsing as the
      standard library does them.  StableSort.v: [sort_by].
    - IndexerCache.v: cache.rs.  A request that misses computes without the
      lock, so requests interleave: a step relation over pending computations, with
      the history of what was stored, by which a cached answer's age is judged.
    - IndexerApi.v: api/rest.rs, one definition per handler, and a client's
      traversal of the task pages.
    - IndexerWebsocket.v, IndexerWebsocketSpec.v: api/websocket.rs.  A session
      (subscribe, replay, announce, live) interleaved with the ingestion that
      stores and broadcasts, meets duplicates and failed insertions: a step
      relation; what a subscriber has been sent against what was stored, by
      cursor values.
    - Sha256.v: the hash of api/auth.rs, against the definition on lists of
      bits.  IndexerAuth.v: API keys.  IndexerRateLimit.v: api/rate_limit.rs,
      with the tokens as binary64 numbers (Stdlib's SpecFloat).
    - IndexerRpc.v: rpc.rs over interfaces for XDR, hex and dates; the answers
      of a documented node, and the walk of backfill.rs over this client, which
      is not an honest source: it skips events when a page is full.  The symbol
      arm of [decode_scval] does not type-check; the class [SymbolArm] leaves it
      open.
    - IndexerAlerts.v, IndexerAlertsSpec.v: alerts.rs, the rules, the tracker of
      open votes, the manager; when an incident is due, by the events so far.
    - IndexerConfig.v: config.rs, every variable, every reported problem.

    ** The client SDK (src/rust-sdk/src/)

    - SdkRetry.v: retry.rs, the delays and the loop.  SdkEvents.v: events.rs.
    - SdkStream.v: stream.rs over any transport; over an honest one, a consumer
      that restarts from its last cursor gets every event once, in order.
    - SdkClient.v: the RPC client of client.rs, error.rs and signing.rs over
      interfaces for transport, signer and codec.  The fuel of the retry loops
      is the number of attempts.
    - SdkInProcess.v: the state-changing calls of KeeperClient and
      TreasuryClient over the contracts' models: a call answers what the contract
      answers, in the client's terms.  Their reads are modelled but not compared.
      And the builder of cross_contract.rs, whose invocations reach the entry
      points they name.
    - ServicesSample.v: codecs, transports and runs for the witnesses.

    ** Conventions

    A Rust integer is a [Z] with the range of its type ([int_type] below).  The
    workspace's release profile compiles with overflow checks (src/Cargo.toml),
    so plain arithmetic out of range traps; [checked_*] returns [None],
    [saturating_*] clamps, [as u32] truncates.  A storage TTL extension is an
    effect in the log and not an expiry of entries: an entry never disappears
    in the model, and theorems about lifetimes speak of the logged extensions.
    [require_auth] is the boolean [authorized] of the environment; nested
    authorization trees are not modelled.  A cross-contract call to code
    outside the program is a function of the chain's state and may do anything
    but spend the caller's tokens ([LawfulToken]); re-entrance is rejected by
    the Soroban host and so does not occur in a call.  Loops over input lists
    are structural recursions.  The binary search of [balance_at] and the other
    loops without structural recursion take fuel, and a theorem shows that the
    fuel given by the definitions always suffices.

    ** Sources with merge damage

    governance/src/lib.rs holds three implementations interleaved by an
    unresolved merge: [initialize], [create_proposal] and [ProposalStatus] of
    [GovernanceContract] are cut by lines of the others.  The model takes the
    implementation that lib.rs continues with (typed errors, storage helpers
    [internal_*], [GovernableAction]), reading the cut items across the foreign
    lines.  governance-token/src/lib.rs is cut in [initialize] and
    [transfer_from] by an older token without checkpoints, which is not
    modelled.  register_task of the registry names [condition] twice in its
    struct literal, with the same value.  batch_register_tasks names
    [condition] twice, with the same value, and [verifier] twice, with
    [params.verifier] and with [None]: which of them the merge meant cannot be
    read off the source, so the class [VerifierInit] of RegistryBatch.v leaves it
    open, and every theorem on the registry holds of both.

    ** Not modelled

    The older governance implementation (its helper files types, internal,
    constants, errors, events), which refers to items the merged file lacks; test
    code, mocks, fuzz targets and benches; the emission of logs and metrics.  Of
    the indexer: process start (main.rs) and the router; opening the database;
    the timestamps, metadata and HTTP delivery of alerts; ApiKeys::list and the
    cache's hit rate, which are for display.  HTTP, JSON, XDR, hex, dates and the
    SQL engine are interfaces.  Of the SDK: network presets and
    governance_client.rs, which calls a version of the contract that lib.rs no
    longer defines whole; the redaction of secrets in printed arguments.
    TypeScript and JavaScript code.  The manifest lists each with its reason. *)

From Stdlib Require Export ZArith Lia.
From stdpp Require Export base gmap strings list fin_maps numbers.

#[global] Open Scope Z_scope.

(** ** Record update

    [s <| f ::= g |>] applies [g] to the field [f] of [s]; [s <| f := v |>]
    overwrites it.  Each record type gives one [Update] instance per field. *)

Class Update {R T : Type} (proj : R -> T) := update : (T -> T) -> R -> R.
Arguments update {R T} proj {_} _ _ /.

Notation "s <| f ::= g |>" := (update f g s)
  (at level 1, f at next level, left associativity, format "s  <| f  ::=  g |>").
Notation "s <| f := v |>" := (update f (fun _ => v) s)
  (at level 1, f at next level, left associativity, format "s  <| f  :=  v |>").

(** ** Machine integers

    A Rust integer is a [Z] together with the range of its type.  The release
    profile compiles with overflow checks (src/Cargo.toml), so a plain [a + b]
    that leaves the range panics, [checked_*] returns [None] and
    [saturating_*] clamps. *)

Record int_type := IntType { int_min : Z; int_max : Z }.

Definition i128 : int_type := IntType (-(2 ^ 127)) (2 ^ 127 - 1).
Definition i64 : int_type := IntType (-(2 ^ 63)) (2 ^ 63 - 1).
Definition u32 : int_type := IntType 0 (2 ^ 32 - 1).
Definition u64 : int_type := IntType 0 (2 ^ 64 - 1).
Definition u128 : int_type := IntType 0 (2 ^ 128 - 1).

Definition in_range (t : int_type) (z : Z) : Prop := int_min t <= z <= int_max t.

#[export] Instance in_range_dec t z : Decision (in_range t z).
Proof. unfold in_range. apply _. Defined.

Definition checked (t : int_type) (z : Z) : option Z :=
  if decide (in_range t z) then Some z else None.

Definition checked_add (t : int_type) (a b : Z) : option Z := checked t (a + b).
Definition checked_sub (t : int_type) (a b : Z) : option Z := checked t (a - b).
Definition checked_mul (t : int_type) (a b : Z) : option Z := checked t (a * b).

Definition clamp (t : int_type) (z : Z) : Z := Z.max (int_min t) (Z.min (int_max t) z).
Definition saturating_add (t : int_type) (a b : Z) : Z := clamp t (a + b).
Definition saturating_sub (t : int_type) (a b : Z) : Z := clamp t (a - b).

(** [z as u32]: the low 32 bits. *)
Definition as_u32 (z : Z) : Z := z mod 2 ^ 32.

Lemma as_u32_id z : in_range u32 z -> as_u32 z = z.
Proof. unfold in_range, as_u32; cbn. intros. apply Z.mod_small. lia. Qed.

#[global] Arguments in_range : simpl never.
#[global] Arguments checked : simpl never.
#[global] Arguments checked_add : simpl never.
#[global] Arguments checked_sub : simpl never.
#[global] Arguments checked_mul : simpl never.
#[global] Arguments clamp : simpl never.
#[global] Arguments saturating_add : simpl never.
#[global] Arguments saturating_sub : simpl never.

Lemma checked_Some t z r : checked t z = Some r <-> r = z /\ in_range t z.
Proof. unfold checked. case_decide; naive_solver. Qed.

Lemma checked_None t z : checked t z = None <-> ~ in_range t z.
Proof. unfold checked. case_decide; naive_solver. Qed.

Lemma checked_in_range t z : in_range t z -> checked t z = Some z.
Proof. intros. by apply checked_Some. Qed.

Lemma checked_add_Some t a b r : checked_add t a b = Some r <-> r = a + b /\ in_range t (a + b).
Proof. apply checked_Some. Qed.

Lemma checked_sub_Some t a b r : checked_sub t a b = Some r <-> r = a - b /\ in_range t (a - b).
Proof. apply checked_Some. Qed.

Lemma checked_mul_Some t a b r : checked_mul t a b = Some r <-> r = a * b /\ in_range t (a * b).
Proof. apply checked_Some. Qed.

Lemma saturating_add_u32 a b :
  0 <= a -> 0 <= b -> saturating_add u32 a b = Z.min (2 ^ 32 - 1) (a + b).
Proof. unfold saturating_add, clamp; cbn. lia. Qed.

Lemma saturating_sub_nonneg t a b :
  int_min t = 0 -> a <= int_max t -> 0 <= b -> saturating_sub t a b = Z.max 0 (a - b).
Proof. unfold saturating_sub, clamp. lia. Qed.

(** ** An answer that is there *)

Definition delivered {A} (o : option A) : bool := match o with Some _ => true | None => false end.

Lemma granted {A} (o : option A) (P : A -> Prop) :
  (forall l, o = Some l -> P l) -> delivered o = true -> exists l, P l.
Proof. destruct o as [l|]; [intros HP _; exists l; by apply HP | done]. Qed.

(** ** Sums over finite maps *)

Section MapSum.
Context {K V : Type} `{Countable K}.
Implicit Types (f : V -> Z) (m : gmap K V).

(** The sum of [f v] over the values of a map. *)
Definition map_sum f m : Z := map_fold (fun _ v acc => f v + acc) 0 m.

Lemma map_sum_empty f : map_sum f ∅ = 0.
Proof. apply map_fold_empty. Qed.

Lemma map_sum_insert_None f m k v :
  m !! k = None -> map_sum f (<[k := v]> m) = f v + map_sum f m.
Proof.
  intros Hk. unfold map_sum. rewrite map_fold_insert_L; [done | | done].
  intros; lia.
Qed.

Lemma map_sum_delete f m k :
  map_sum f (delete k m) = map_sum f m - from_option f 0 (m !! k).
Proof.
  destruct (m !! k) as [v|] eqn:Hk; cbn.
  - rewrite <- (insert_delete_id m k v) at 2 by done.
    rewrite map_sum_insert_None by apply lookup_delete_eq. lia.
  - rewrite delete_id by done. lia.
Qed.

Lemma map_sum_insert f m k v :
  map_sum f (<[k := v]> m) = map_sum f m + f v - from_option f 0 (m !! k).
Proof.
  rewrite <- insert_delete_eq, map_sum_insert_None by apply lookup_delete_eq.
  rewrite map_sum_delete. lia.
Qed.

Lemma map_sum_nonneg f m :
  (forall k v, m !! k = Some v -> 0 <= f v) -> 0 <= map_sum f m.
Proof.
  induction m as [|k v m Hk IH] using map_ind; intros Hf.
  - by rewrite map_sum_empty.
  - rewrite map_sum_insert_None by done.
    assert (0 <= f v) by (eapply Hf, lookup_insert_eq).
    assert (0 <= map_sum f m); [|lia].
    apply IH. intros k' v' Hk'. eapply (Hf k'). rewrite lookup_insert_ne; [done | congruence].
Qed.

Lemma map_sum_lookup_le f m k v :
  (forall k v, m !! k = Some v -> 0 <= f v) -> m !! k = Some v -> f v <= map_sum f m.
Proof.
  intros Hf Hk. pose proof (map_sum_delete f m k) as Hd. rewrite Hk in Hd; cbn in Hd.
  assert (0 <= map_sum f (delete k m)); [|lia].
  apply map_sum_nonneg. intros k' v' [_ Hk']%lookup_delete_Some. eauto.
Qed.
End MapSum.

(** The sum of [f x] over a list. *)
Definition list_sum {A} (f : A -> Z) (l : list A) : Z := foldr (fun x acc => f x + acc) 0 l.

Lemma list_sum_cons {A} (f : A -> Z) x l : list_sum f (x :: l) = f x + list_sum f l.
Proof. done. Qed.

Lemma list_sum_app {A} (f : A -> Z) l1 l2 : list_sum f (l1 ++ l2) = list_sum f l1 + list_sum f l2.
Proof. unfold list_sum. induction l1; cbn in *; lia. Qed.

Lemma list_sum_nonneg {A} (f : A -> Z) l : Forall (fun x => 0 <= f x) l -> 0 <= list_sum f l.
Proof. unfold list_sum. induction 1; cbn in *; lia. Qed.

Lemma list_sum_insert {A} (f : A -> Z) l i x y :
  l !! i = Some x -> list_sum f (<[i := y]> l) = list_sum f l + f y - f x.
Proof.
  revert i. induction l as [|z l IH]; intros [|i] Hi; cbn in Hi; simplify_eq.
  - change (<[0%nat := y]> (x :: l)) with (y :: l). rewrite !list_sum_cons. lia.
  - change (<[S i := y]> (z :: l)) with (z :: <[i := y]> l).
    rewrite !list_sum_cons, IH by done. lia.
Qed.

Lemma list_sum_delete {A} (f : A -> Z) l i x :
  l !! i = Some x -> list_sum f (delete i l) = list_sum f l - f x.
Proof.
  revert i. induction l as [|z l IH]; intros [|i] Hi; cbn in Hi; simplify_eq.
  - change (delete 0%nat (x :: l)) with l. rewrite list_sum_cons. lia.
  - change (delete (S i) (z :: l)) with (z :: delete i l).
    rewrite !list_sum_cons, IH by done. lia.
Qed.

Lemma list_sum_filter_split {A} (f : A -> Z) (P : A -> Prop) `{!forall x, Decision (P x)} l :
  list_sum f (filter P l) + list_sum f (filter (fun x => ~ P x) l) = list_sum f l.
Proof.
  induction l as [|x l IH]; [done|].
  rewrite !filter_cons. unfold list_sum in *. repeat case_decide; cbn; first [lia | tauto].
Qed.

Lemma Forall_filter {A} (Q P : A -> Prop) `{!forall x, Decision (P x)} l :
  Forall Q l -> Forall Q (filter P l).
Proof. induction 1; [constructor|]. rewrite filter_cons. case_decide; auto. Qed.

Lemma filter_all {A} (P : A -> Prop) `{!forall x, Decision (P x)} l : Forall P l -> filter P l = l.
Proof. induction 1 as [|x l Hx Hl IH]; [done|]. rewrite filter_cons, decide_True by done. by rewrite IH. Qed.

Lemma bool_decide_and_false (P Q : Prop) `{!Decision P, !Decision Q} :
  bool_decide P && bool_decide Q = false <-> (P -> ~ Q).
Proof. repeat case_bool_decide; naive_solver. Qed.

(** ** Searching a list *)

(** [iter().enumerate()] *)
Fixpoint enumerate {A} (i : nat) (l : list A) : list (nat * A) :=
  match l with [] => [] | x :: l' => (i, x) :: enumerate (S i) l' end.

(** [iter().position(p)] *)
Definition position {A} (p : A -> bool) (l : list A) : option nat :=
  fst <$> list_find (fun x => p x = true) l.

Lemma position_Some {A} (p : A -> bool) l i :
  position p l = Some i ->
  exists x, l !! i = Some x /\ p x = true /\
    forall j y, l !! j = Some y -> (j < i)%nat -> p y = false.
Proof.
  unfold position. intros Hi. apply fmap_Some in Hi as ([j x] & Hf & ->).
  apply list_find_Some in Hf as (Hl & Hp & Hmin). exists x. split_and!; [done..|].
  intros j' y Hy Hj. destruct (p y) eqn:Hpy; [|done]. exfalso. eapply Hmin; eauto.
Qed.

(** ** Lists whose elements are told apart by a key *)

Section Keyed.
Context {A K : Type} (f : A -> K).
Implicit Types (l : list A).

Lemma keyed_lookup_inj l i j x y :
  NoDup (f <$> l) -> l !! i = Some x -> l !! j = Some y -> f x = f y -> i = j.
Proof.
  intros Hnd Hi Hj Hf. eapply NoDup_lookup; [exact Hnd|..]; rewrite list_lookup_fmap.
  - by rewrite Hi.
  - rewrite Hj. cbn. by rewrite Hf.
Qed.

Lemma keyed_elem_inj l x y : NoDup (f <$> l) -> x ∈ l -> y ∈ l -> f x = f y -> x = y.
Proof.
  intros Hnd [i Hi]%list_elem_of_lookup [j Hj]%list_elem_of_lookup Hf.
  by rewrite (keyed_lookup_inj _ _ _ _ _ Hnd Hi Hj Hf), Hj in Hi; simplify_eq.
Qed.

(** A search by key finds the one element with that key. *)
Lemma keyed_position l i x (p : A -> bool) :
  NoDup (f <$> l) -> l !! i = Some x -> p x = true -> (forall y, p y = true -> f y = f x) ->
  position p l = Some i.
Proof.
  intros Hnd Hi Hp Hk. unfold position.
  rewrite (proj2 (list_find_Some _ _ i x)); [done|]. split_and!; [done..|].
  intros j y Hj Hlt Hy. apply Hk in Hy. pose proof (keyed_lookup_inj _ _ _ _ _ Hnd Hi Hj ltac:(done)). lia.
Qed.

Lemma keyed_elem_delete l i x y :
  NoDup (f <$> l) -> l !! i = Some x -> y ∈ delete i l <-> y ∈ l /\ y <> x.
Proof.
  intros Hnd Hi. pose proof (delete_Permutation _ _ _ Hi) as Hp. split.
  - intros Hy. split; [by eapply list_elem_of_delete_inv|]. intros ->.
    apply (fmap_Permutation f) in Hp. rewrite Hp in Hnd. cbn in Hnd.
    apply list.NoDup_cons in Hnd as [Hnd _]. by apply Hnd, list_elem_of_fmap_2.
  - intros [Hy Hne]. rewrite Hp in Hy. by apply elem_of_cons in Hy as [?|?].
Qed.

Lemma keyed_elem_insert l i x x' y :
  NoDup (f <$> l) -> l !! i = Some x ->
  y ∈ <[i := x']> l <-> y = x' \/ (y ∈ l /\ y <> x).
Proof.
  intros Hnd Hi. rewrite <- (keyed_elem_delete l i x y) by done.
  rewrite (insert_take_drop l i x') by (by eapply lookup_lt_Some).
  rewrite delete_take_drop, !elem_of_app, elem_of_cons. tauto.
Qed.
End Keyed.

(** ** Automation *)

Create HintDb keeper.
Create Rewrite HintDb keeper_rw.

#[export] Hint Rewrite @map_sum_empty @map_sum_insert @map_sum_delete @list_sum_app
  : keeper_rw.

(** Split a successful computation into its branches: every failing branch is
    discarded, the surviving one leaves its guards as hypotheses. *)
Ltac split_matches :=
  repeat (first [ progress simplify_eq/= | progress destruct_and? | case_match ]).
