(* ===== verification/RustText.v ===== *)
(** * Text

    The methods of Rust's [str] that the off-chain components use, on strings of
    ASCII characters. *)

From Stdlib Require Import Ascii.
From S2P Require Import Prelude.

Definition text_of (l : list ascii) : string := String.string_of_list_ascii l.
Definition chars (s : string) : list ascii := String.list_ascii_of_string s.

(** [char::is_whitespace], ASCII *)
Definition is_whitespace (c : ascii) : bool :=
  let n := Ascii.nat_of_ascii c in
  bool_decide (n = 32%nat) || (bool_decide (9 <= n)%nat && bool_decide (n <= 13)%nat).

Fixpoint drop_while (p : ascii -> bool) (l : list ascii) : list ascii :=
  match l with c :: l' => if p c then drop_while p l' else l | [] => [] end.

Definition trim (s : string) : string :=
  text_of (reverse (drop_while is_whitespace (reverse (drop_while is_whitespace (chars s))))).

Fixpoint strip_prefix (prefix s : string) : option string :=
  match prefix, s with
  | EmptyString, _ => Some s
  | String a prefix, String b s => if bool_decide (a = b) then strip_prefix prefix s else None
  | String _ _, EmptyString => None
  end.

(** [split_once(c)]: at the first [c]. *)
Fixpoint split_once (c : ascii) (s : string) : option (string * string) :=
  match s with
  | EmptyString => None
  | String a s =>
      if bool_decide (a = c) then Some (EmptyString, s)
      else '(x, y) ← split_once c s; Some (String a x, y)
  end.

(** The characters before the first [c]. *)
Fixpoint before (c : ascii) (l : list ascii) : list ascii :=
  match l with a :: l => if bool_decide (a = c) then [] else a :: before c l | [] => [] end.

(** [rsplit(c).next()]: what follows the last [c], all of it if there is none. *)
Definition rsplit_first (c : ascii) (s : string) : string := text_of (reverse (before c (reverse (chars s)))).

(** [char::to_digit(10)] *)
Definition digit (c : ascii) : option Z :=
  let n := Z.of_nat (Ascii.nat_of_ascii c) in
  if bool_decide (48 <= n <= 57) then Some (n - 48) else None.

(** The digits from the left, overflow checked at each. *)
Fixpoint parse_digits (t : int_type) (acc : Z) (l : list ascii) : option Z :=
  match l with
  | [] => Some acc
  | c :: l =>
      d ← digit c;
      acc ← checked_mul t acc 10;
      acc ← checked_add t acc d;
      parse_digits t acc l
  end.

(** [str::parse] into an unsigned type: one leading plus sign is allowed. *)
Definition parse_uint (t : int_type) (s : string) : option Z :=
  let l := match chars s with "+"%char :: l => l | l => l end in
  match l with [] => None | _ => parse_digits t 0 l end.

(** ** Debug *)

Definition lower_hex (n : nat) : ascii := Ascii.ascii_of_nat (if bool_decide (n < 10)%nat then n + 48 else n + 87).

(** [{:?}] of a string: in quotes, escaped. *)
Definition escape_debug (c : ascii) : list ascii :=
  let n := Ascii.nat_of_ascii c in
  match n with
  | 0%nat => ["\"; "0"]
  | 9%nat => ["\"; "t"]
  | 10%nat => ["\"; "n"]
  | 13%nat => ["\"; "r"]
  | 34%nat => ["\"; c]
  | 92%nat => ["\"; c]
  | _ =>
      if bool_decide (n < 32)%nat || bool_decide (n = 127)%nat
      then ["\"; "u"; "{"] ++ (if bool_decide (n < 16)%nat then [] else [lower_hex (n / 16)]) ++ [lower_hex (n mod 16); "}"]
      else [c]
  end%char.

Definition quote : ascii := Ascii.ascii_of_nat 34.

Definition debug_str (s : string) : string := text_of (quote :: mjoin (escape_debug <$> chars s) ++ [quote]).

(** ** Round trips *)

Lemma append_nil_l s : ("" +:+ s)%string = s.
Proof. done. Qed.

Lemma append_cons a x s : (String a x +:+ s)%string = String a (x +:+ s).
Proof. done. Qed.

Lemma split_once_app c x y : c ∉ chars x -> split_once c (x +:+ String c y) = Some (x, y).
Proof.
  induction x as [|a x IH]; intros Hc.
  - rewrite append_nil_l. cbn [split_once]. by rewrite bool_decide_true.
  - apply not_elem_of_cons in Hc as [Hca Hc]. rewrite append_cons. cbn [split_once].
    rewrite bool_decide_false by done. by rewrite IH.
Qed.

Lemma split_once_Some c s x y :
  split_once c s = Some (x, y) -> s = (x +:+ String c y)%string /\ c ∉ chars x.
Proof.
  revert x y. induction s as [|a s IH]; intros x y Hs; cbn [split_once] in Hs; [done|].
  case_bool_decide as Hac; [simplify_eq; split; [done | apply not_elem_of_nil]|].
  destruct (split_once c s) as [[x' y']|]; [|done]. cbn in Hs. simplify_eq.
  destruct (IH _ _ eq_refl) as [-> Hx]. split; [done|]. by apply not_elem_of_cons.
Qed.

Lemma strip_prefix_app p s : strip_prefix p (p +:+ s) = Some s.
Proof. induction p as [|a p IH]; [done|]. rewrite append_cons. cbn [strip_prefix]. by rewrite bool_decide_true. Qed.

Lemma strip_prefix_Some p s r : strip_prefix p s = Some r -> s = (p +:+ r)%string.
Proof.
  revert s. induction p as [|a p IH]; intros [|b s] Hs; cbn [strip_prefix] in Hs; try by simplify_eq.
  case_bool_decide; [|done]. subst. rewrite append_cons. f_equal. by apply IH.
Qed.
