(* ===== verification/StableSort.v ===== *)
(** * Stable sorting

    [slice::sort_by] as a stable insertion sort over a boolean "not greater",
    what a sorted permutation determines, and the lexicographic order of
    strings. *)

From Stdlib Require Import Sorted Permutation String Ascii.
From stdpp Require Import sorting.
From S2P Require Import Prelude.

Section Sort.
Context {A : Type} (le : A -> A -> bool).

Fixpoint insert_by (x : A) (l : list A) : list A :=
  match l with
  | [] => [x]
  | y :: l' => if le x y then x :: y :: l' else y :: insert_by x l'
  end.

(** [sort_by]: the stable sort. *)
Definition sort_by (l : list A) : list A := foldr insert_by [] l.

Definition order (a b : A) : Prop := le a b = true.

Lemma insert_by_perm x l : Permutation (insert_by x l) (x :: l).
Proof.
  induction l as [|y l IH]; [done|]; cbn. destruct (le x y); [done|].
  rewrite IH. apply perm_swap.
Qed.

Lemma sort_by_perm l : Permutation (sort_by l) l.
Proof. induction l as [|x l IH]; [done|]; cbn. rewrite insert_by_perm. by f_equiv. Qed.

Context (le_trans : forall a b c, order a b -> order b c -> order a c).
Context (le_total : forall a b, le a b = false -> order b a).

Lemma insert_by_sorted x l : StronglySorted order l -> StronglySorted order (insert_by x l).
Proof.
  induction 1 as [|y l Hl IH Hy]; cbn; [by repeat constructor|].
  destruct (le x y) eqn:E.
  - constructor; [by constructor|]. constructor; [done|].
    eapply list.Forall_impl; [exact Hy|]. intros z. by apply le_trans.
  - constructor; [done|]. rewrite insert_by_perm. constructor; [by apply le_total | done].
Qed.

Lemma sort_by_sorted l : StronglySorted order (sort_by l).
Proof. induction l as [|x l IH]; cbn; [constructor | by apply insert_by_sorted]. Qed.

(** Elements the order tells apart by a distinct key have one sorted order. *)
Lemma sort_by_unique {K} (key : A -> K) l1 l2 :
  (forall a b, order a b -> order b a -> key a = key b) ->
  Permutation l1 l2 -> NoDup (key <$> l1) -> sort_by l1 = sort_by l2.
Proof.
  intros Hanti Hp Hk. eapply (sorting.StronglySorted_unique_strong order); [|apply sort_by_sorted..|].
  - intros a b Ha Hb Hab Hba. rewrite sort_by_perm in Ha, Hb. rewrite <- Hp in Hb.
    pose proof (Hanti _ _ Hab Hba) as Heq.
    apply list_elem_of_lookup in Ha as [i Hi]; apply list_elem_of_lookup in Hb as [j Hj].
    assert (i = j) as ->; [|congruence].
    eapply (NoDup_lookup _ i j); [exact Hk | by rewrite list_lookup_fmap, Hi |].
    rewrite list_lookup_fmap, Hj; cbn. by rewrite Heq.
  - by rewrite !sort_by_perm.
Qed.
End Sort.

(** ** Strings *)

Lemma string_compare_refl a : String.compare a a = Eq.
Proof.
  induction a as [|x a IH]; cbn; [done|]. unfold Ascii.compare. by rewrite N.compare_refl.
Qed.

Lemma string_compare_trans_lt a b c :
  String.compare a b = Lt -> String.compare b c = Lt -> String.compare a c = Lt.
Proof.
  revert b c. induction a as [|x a IH]; intros [|y b] [|z c]; cbn; try done.
  unfold Ascii.compare.
  destruct (N.compare_spec (N_of_ascii x) (N_of_ascii y));
    destruct (N.compare_spec (N_of_ascii y) (N_of_ascii z)); intros; try done;
    destruct (N.compare_spec (N_of_ascii x) (N_of_ascii z)); try done; try lia. by eapply IH.
Qed.
