(* ===== verification/Host.v ===== *)
(** * The Soroban host as the contracts use it

    Addresses, the per-invocation environment ([soroban_sdk::Env]), the effect
    log, the fallible state monad in which every entry point is written, and
    the interface [Ledger] to the contracts that are not part of the program
    (the reward token, verifiers, conditions). *)

From S2P Require Import Prelude.

(** ** Values *)

Record Address := mkAddress { addr_id : N }.

#[export] Instance Address_eq_dec : EqDecision Address.
Proof. solve_decision. Defined.

#[export] Instance Address_countable : Countable Address.
Proof. refine (inj_countable' addr_id mkAddress _). by intros []. Defined.

(** [soroban_sdk::Symbol], [Bytes] and [BytesN<32>]. *)
Definition Symbol := string.
Definition Bytes := list Byte.byte.
Definition len (b : Bytes) : Z := Z.of_nat (length b).

(** The arguments and results of a cross-contract call. *)
Inductive Val :=
  | VBool (b : bool)
  | VU32 (n : Z)
  | VU64 (n : Z)
  | VI128 (n : Z)
  | VAddress (a : Address)
  | VBytes (b : Bytes)
  | VVoid.

(** ** The environment of one invocation

    [authorized a] says whether [a.require_auth()] succeeds. *)
Record Env := mkEnv {
  current_contract_address : Address;
  ledger_sequence : Z;
  ledger_timestamp : Z;
  authorized : Address -> bool;
}.

(** ** Contracts outside the program

    The rest of the chain is an abstract state [ledger].  [transfer l e tok
    from to amt] is the token client's [transfer] ([None]: the callee panicked,
    which aborts the caller); [try_invoke l e c f args] is a [try_] call of
    function [f] of contract [c] ([None]: any outcome but [Ok(Ok(v))]). *)
Class Ledger := {
  ledger : Type;
  balance : ledger -> Address -> Address -> Z;
  transfer : ledger -> Env -> Address -> Address -> Address -> Z -> option ledger;
  try_invoke : ledger -> Env -> Address -> string -> list Val -> option Val * ledger;
}.

(** What the contract at [self] relies on about the token [tok]: SEP-41's
    [transfer] rejects a negative amount and an amount above the sender's
    balance, and moves exactly the amount; a call [self] makes into another
    contract never spends [self]'s tokens ([self] has authorized nothing);
    a balance is never negative. *)
Class LawfulToken `{Ledger} (self tok : Address) : Prop := {
  transfer_amount l e from to amt l' :
    transfer l e tok from to amt = Some l' -> 0 <= amt <= balance l tok from;
  transfer_balance l e from to amt l' a :
    transfer l e tok from to amt = Some l' ->
    balance l' tok a =
      balance l tok a + (if decide (a = to) then amt else 0)
                      - (if decide (a = from) then amt else 0);
  try_invoke_balance l e c f args :
    balance l tok self <= balance (try_invoke l e c f args).2 tok self;
  balance_nonneg l a : 0 <= balance l tok a;
}.

(** ** The monad of entry points *)

Inductive Res (S E A : Type) :=
  | Ok (a : A) (s : S)
  | Err (x : E) (s : S)   (** a typed error, with the state at that point *)
  | Panic.                (** the host traps *)
Arguments Ok {S E A} a s.
Arguments Err {S E A} x s.
Arguments Panic {S E A}.

Definition M (S E A : Type) : Type := S -> Res S E A.

#[export] Instance M_ret S E : MRet (M S E) := fun A a s => Ok a s.
#[export] Instance M_bind S E : MBind (M S E) := fun A B f m s =>
  match m s with
  | Ok a s' => f a s'
  | Err x s' => Err x s'
  | Panic => Panic
  end.

Section Combinators.
Context {S E : Type}.

Definition fail {A} (x : E) : M S E A := fun s => Err x s.
Definition panic {A} : M S E A := fun _ => Panic.
Definition gets {A} (f : S -> A) : M S E A := fun s => Ok (f s) s.
Definition modify (f : S -> S) : M S E unit := fun s => Ok tt (f s).

(** [opt.ok_or(x)?] and [opt.expect(..)] *)
Definition ok_or {A} (o : option A) (x : E) : M S E A :=
  match o with Some a => mret a | None => fail x end.
Definition expect {A} (o : option A) : M S E A :=
  match o with Some a => mret a | None => panic end.

(** [r?] on a pure result *)
Definition lift {A} (r : E + A) : M S E A :=
  match r with inl x => fail x | inr a => mret a end.

(** [if b { return Err(x) }] *)
Definition fail_if (b : bool) (x : E) : M S E unit :=
  if b then fail x else mret tt.

(** [for x in l { f(x) }] *)
Fixpoint for_each {A} (l : list A) (f : A -> M S E unit) : M S E unit :=
  match l with
  | [] => mret tt
  | x :: l' => f x;; for_each l' f
  end.

(** A loop that carries an accumulator. *)
Fixpoint for_fold {A B} (l : list A) (b : B) (f : B -> A -> M S E B) : M S E B :=
  match l with
  | [] => mret b
  | x :: l' => b' ← f b x; for_fold l' b' f
  end.
End Combinators.

(** ** The state an invocation runs on *)

(** What an invocation asks of the host besides storage writes: events, TTL
    extensions and the wasm swap. *)
Inductive Effect (K Ev : Type) :=
  | Publish (ev : Ev)
  | ExtendInstance (threshold extend_to : Z)
  | ExtendPersistent (k : K) (threshold extend_to : Z)
  | UpdateWasm (hash : Bytes).
Arguments Publish {K Ev} ev.
Arguments ExtendInstance {K Ev} threshold extend_to.
Arguments ExtendPersistent {K Ev} k threshold extend_to.
Arguments UpdateWasm {K Ev} hash.

(** A contract's storage, the effects so far (newest first), and the rest of
    the chain. *)
Record Sys `{Ledger} (St K Ev : Type) := mkSys {
  store : St;
  effects : list (Effect K Ev);
  chain : ledger;
}.
Arguments mkSys {_ St K Ev} store effects chain.
Arguments store {_ St K Ev} _.
Arguments effects {_ St K Ev} _.
Arguments chain {_ St K Ev} _.

Section Sys.
Context `{Ledger} {St K Ev E : Type}.
Abbreviation S := (Sys St K Ev).

#[export] Instance update_store : Update (store (St:=St) (K:=K) (Ev:=Ev)) :=
  fun f s => mkSys (f (store s)) (effects s) (chain s).
#[export] Instance update_effects : Update (effects (St:=St) (K:=K) (Ev:=Ev)) :=
  fun f s => mkSys (store s) (f (effects s)) (chain s).
#[export] Instance update_chain : Update (chain (St:=St) (K:=K) (Ev:=Ev)) :=
  fun f s => mkSys (store s) (effects s) (f (chain s)).

Definition read {A} (f : St -> A) : M S E A := gets (fun s => f (store s)).
Definition write (f : St -> St) : M S E unit := modify (fun s => s <| store ::= f |>).
Definition log (x : Effect K Ev) : M S E unit :=
  modify (fun s => s <| effects ::= cons x |>).
Definition publish (ev : Ev) : M S E unit := log (Publish ev).

Definition require_auth (e : Env) (a : Address) : M S E unit :=
  if authorized e a then mret tt else panic.

Definition token_transfer (e : Env) (tok from to : Address) (amt : Z) : M S E unit :=
  fun s => match transfer (chain s) e tok from to amt with
           | Some l => Ok tt (s <| chain := l |>)
           | None => Panic
           end.

Definition try_call (e : Env) (c : Address) (f : string) (args : list Val)
  : M S E (option Val) :=
  fun s => let '(r, l) := try_invoke (chain s) e c f args in Ok r (s <| chain := l |>).
End Sys.

(** What a caller observes.  An invocation that returns an error or traps is
    rolled back by the host: storage, events and nested calls alike. *)
Inductive Outcome (E A : Type) := Returned (a : A) | Rejected (x : E) | Trapped.
Arguments Returned {E A} a.
Arguments Rejected {E A} x.
Arguments Trapped {E A}.

Definition invoke {S E A} (m : M S E A) (s : S) : Outcome E A * S :=
  match m s with
  | Ok a s' => (Returned a, s')
  | Err x _ => (Rejected x, s)
  | Panic => (Trapped, s)
  end.

(** ** Lemmas on the monad *)

Section Lemmas.
Context {S E : Type}.
Implicit Types s : S.

Lemma bind_Ok {A B} (m : M S E A) (f : A -> M S E B) s b s' :
  (m ≫= f) s = Ok b s' <-> exists a s1, m s = Ok a s1 /\ f a s1 = Ok b s'.
Proof. unfold mbind, M_bind. destruct (m s); naive_solver. Qed.

Lemma bind_assoc {A B C} (m : M S E A) (f : A -> M S E B) (g : B -> M S E C) s :
  ((m ≫= f) ≫= g) s = (m ≫= fun a => f a ≫= g) s.
Proof. unfold mbind, M_bind. by destruct (m s). Qed.

Lemma fail_if_Ok b (x : E) s a s' :
  fail_if b x s = Ok a s' <-> b = false /\ s' = s.
Proof. unfold fail_if, fail, mret, M_ret. destruct a, b; naive_solver. Qed.

Lemma for_each_app {A} (l1 l2 : list A) (f : A -> M S E unit) s :
  for_each (l1 ++ l2) f s = (for_each l1 f;; for_each l2 f) s.
Proof.
  revert s. induction l1 as [|x l1 IH]; intros s; [done|].
  cbn. unfold mbind, M_bind in *. destruct (f x s); by rewrite ?IH.
Qed.

(** A property every iteration preserves holds after the loop. *)
Lemma for_fold_invariant {A B} (P : B -> S -> Prop) (l : list A) b
    (f : B -> A -> M S E B) s b' s' :
  (forall b x s b' s', x ∈ l -> P b s -> f b x s = Ok b' s' -> P b' s') ->
  P b s -> for_fold l b f s = Ok b' s' -> P b' s'.
Proof.
  revert b s. induction l as [|x l IH]; intros b s Hf HP Hrun; cbn in Hrun.
  - unfold mret, M_ret in Hrun. by simplify_eq.
  - apply bind_Ok in Hrun as (b1 & s1 & H1 & H2).
    eapply IH; [| |exact H2].
    + intros; eapply Hf; [by right|done..].
    + eapply Hf; [by left|done..].
Qed.

(** A rejected or trapped invocation changes nothing. *)
Lemma invoke_rollback {A} (m : M S E A) s o s' :
  invoke m s = (o, s') -> (forall a, o <> Returned a) -> s' = s.
Proof. unfold invoke. destruct (m s); naive_solver. Qed.

Lemma invoke_Returned {A} (m : M S E A) s a s' :
  invoke m s = (Returned a, s') <-> m s = Ok a s'.
Proof. unfold invoke. destruct (m s); naive_solver. Qed.
End Lemmas.

(** ** What a successful run does

    [Runs m P] says that [m] succeeds exactly as the relation [P] between the
    state before, the result and the state after describes.  Every primitive
    and every helper of a contract has an instance, so that [run H] inverts a
    successful run of an entry point into its guards and its final state. *)

Class Runs {S E A} (m : M S E A) (P : S -> A -> S -> Prop) : Prop :=
  runs s a s' : m s = Ok a s' <-> P s a s'.
#[export] Hint Mode Runs + + + ! - : typeclass_instances.

Section Runs.
Context {S E : Type}.

Lemma runs_proper {A} (m : M S E A) P Q :
  Runs m P -> (forall s a s', P s a s' <-> Q s a s') -> Runs m Q.
Proof. intros Hm HPQ s a s'. rewrite (Hm s a s'). apply HPQ. Qed.

#[export] Instance runs_bind {A B} (m : M S E A) (f : A -> M S E B) P Q :
  Runs m P -> (forall a, Runs (f a) (Q a)) ->
  Runs (m ≫= f) (fun s b s' => exists a s1, P s a s1 /\ Q a s1 b s') | 10.
Proof.
  intros Hm Hf s b s'. rewrite bind_Ok. split.
  - intros (a & s1 & Ha & Hb). exists a, s1. split; [by apply Hm | by apply Hf].
  - intros (a & s1 & Ha & Hb). exists a, s1. split; [by apply Hm | by apply Hf].
Qed.

#[export] Instance runs_ret {A} (x : A) :
  Runs (mret x : M S E A) (fun s a s' => a = x /\ s' = s).
Proof. intros s a s'. unfold mret, M_ret. naive_solver. Qed.

#[export] Instance runs_fail {A} (x : E) :
  Runs (fail x : M S E A) (fun _ _ _ => False).
Proof. intros s a s'. unfold fail. naive_solver. Qed.

#[export] Instance runs_panic {A} :
  Runs (panic : M S E A) (fun _ _ _ => False).
Proof. intros s a s'. unfold panic. naive_solver. Qed.

#[export] Instance runs_gets {A} (f : S -> A) :
  Runs (gets f : M S E A) (fun s a s' => a = f s /\ s' = s).
Proof. intros s a s'. unfold gets. naive_solver. Qed.

#[export] Instance runs_modify (f : S -> S) :
  Runs (modify f : M S E unit) (fun s _ s' => s' = f s).
Proof. intros s [] s'. unfold modify. naive_solver. Qed.

#[export] Instance runs_ok_or {A} (o : option A) (x : E) :
  Runs (ok_or o x : M S E A) (fun s a s' => o = Some a /\ s' = s).
Proof. intros s a s'. unfold ok_or, fail, mret, M_ret. destruct o; naive_solver. Qed.

#[export] Instance runs_expect {A} (o : option A) :
  Runs (expect o : M S E A) (fun s a s' => o = Some a /\ s' = s).
Proof. intros s a s'. unfold expect, panic, mret, M_ret. destruct o; naive_solver. Qed.

#[export] Instance runs_lift {A} (r : E + A) :
  Runs (lift r : M S E A) (fun s a s' => r = inr a /\ s' = s) | 5.
Proof. intros s a s'. unfold lift, fail, mret, M_ret. destruct r; naive_solver. Qed.

#[export] Instance runs_fail_if b (x : E) :
  Runs (fail_if b x : M S E unit) (fun s _ s' => b = false /\ s' = s).
Proof. intros s a s'. apply fail_if_Ok. Qed.
End Runs.

Section RunsSys.
Context `{Ledger} {St K Ev E : Type}.
Abbreviation S := (Sys St K Ev).

#[export] Instance runs_read {A} (f : St -> A) :
  Runs (read f : M S E A) (fun s a s' => a = f (store s) /\ s' = s).
Proof. intros s a s'. unfold read, gets. naive_solver. Qed.

#[export] Instance runs_write (f : St -> St) :
  Runs (write f : M S E unit) (fun s _ s' => s' = s <| store ::= f |>).
Proof. intros s [] s'. unfold write, publish, log, modify. naive_solver. Qed.

#[export] Instance runs_log x :
  Runs (log x : M S E unit) (fun s _ s' => s' = s <| effects ::= cons x |>).
Proof. intros s [] s'. unfold write, publish, log, modify. naive_solver. Qed.

#[export] Instance runs_publish ev :
  Runs (publish ev : M S E unit) (fun s _ s' => s' = s <| effects ::= cons (Publish ev) |>).
Proof. intros s [] s'. unfold write, publish, log, modify. naive_solver. Qed.

#[export] Instance runs_require_auth e a :
  Runs (require_auth e a : M S E unit) (fun s _ s' => authorized e a = true /\ s' = s).
Proof. intros s [] s'. unfold require_auth, panic, mret, M_ret. case_match; naive_solver. Qed.

#[export] Instance runs_token_transfer e tok from to amt :
  Runs (token_transfer e tok from to amt : M S E unit) (fun s _ s' =>
    exists l, transfer (chain s) e tok from to amt = Some l /\ s' = s <| chain := l |>).
Proof. intros s [] s'. unfold token_transfer. case_match; naive_solver. Qed.

#[export] Instance runs_try_call e c f args :
  Runs (try_call e c f args : M S E (option Val)) (fun s a s' =>
    a = (try_invoke (chain s) e c f args).1 /\
    s' = s <| chain := (try_invoke (chain s) e c f args).2 |>).
Proof. intros s a s'. unfold try_call. destruct (try_invoke _ _ _ _ _); cbn. naive_solver. Qed.
End RunsSys.

(** The events of an invocation so far, newest first. *)
Definition events `{Ledger} {St K Ev} (s : Sys St K Ev) : list Ev :=
  omap (fun x => match x with Publish ev => Some ev | _ => None end) (effects s).

(** [Ensures m P]: a successful run of [m] satisfies [P].  The specification of
    an entry point is such an instance. *)
Class Ensures {S E A} (m : M S E A) (P : S -> A -> S -> Prop) : Prop :=
  ensures s a s' : m s = Ok a s' -> P s a s'.
#[export] Hint Mode Ensures + + + ! - : typeclass_instances.

#[export] Hint Unfold mret mbind M_ret M_bind fail panic gets modify ok_or expect lift fail_if
  read write log publish require_auth token_transfer try_call : keeper.

(** [run1 H] inverts one step of the successful run [H]; [run] inverts every
    successful run in the context; [runs_solve] proves a [Runs] fact of a
    helper from those of its parts. *)
Ltac run_simpl :=
  repeat match goal with
  | H : False |- _ => destruct H
  | H : _ /\ _ |- _ => destruct H
  | H : exists _, _ |- _ => destruct H
  | u : unit |- _ => destruct u
  | H : bool_decide _ = true |- _ => apply bool_decide_eq_true_1 in H
  | H : bool_decide _ = false |- _ => apply bool_decide_eq_false_1 in H
  | H : negb _ = true |- _ => apply negb_true_iff in H
  | H : negb _ = false |- _ => apply negb_false_iff in H
  | H : checked _ _ = Some _ |- _ => apply checked_Some in H
  | H : checked_add _ _ _ = Some _ |- _ => apply checked_add_Some in H
  | H : checked_sub _ _ _ = Some _ |- _ => apply checked_sub_Some in H
  | H : checked_mul _ _ _ = Some _ |- _ => apply checked_mul_Some in H
  | H : bool_decide _ && bool_decide _ = false |- _ => rewrite bool_decide_and_false in H
  | H : ~ (_ <> _) |- _ => apply dec_stable in H
  | H : ~ (_ <= _) |- _ => apply Z.nle_gt in H
  | H : ~ (_ < _) |- _ => apply Z.nlt_ge in H
  | H : ~ (_ >= _) |- _ => apply Znot_ge_lt in H
  | H : ~ (_ > _) |- _ => apply Znot_gt_le in H
  | _ => progress simplify_eq/=
  end.

Ltac run1 H :=
  lazymatch type of H with
  | mbind _ _ _ = Ok _ _ =>
      let H1 := fresh "Hrun" in
      apply bind_Ok in H as (? & ? & H1 & H); try run1 H1
  | match _ with _ => _ end _ = Ok _ _ => case_match
  | (let _ := _ in _) _ = Ok _ _ => cbn zeta in H
  | _ = Ok _ _ => first [apply runs in H | apply ensures in H]; cbn beta in H
  end; run_simpl.

Ltac run :=
  repeat match goal with
  | H : _ _ = Ok _ _ |- _ => run1 H
  end.

Ltac head_of t := lazymatch t with ?f _ => head_of f | _ => t end.

Ltac runs_solve :=
  lazymatch goal with |- Runs ?m _ => let h := head_of m in unfold h end;
  eapply runs_proper; [apply _ |];
  intros ???; split; intros; run_simpl;
  repeat match goal with |- exists _, _ => eexists | |- _ /\ _ => split end;
  try reflexivity; eauto;
  repeat first
    [ rewrite bool_decide_eq_false | rewrite bool_decide_eq_true
    | rewrite negb_false_iff | rewrite negb_true_iff
    | rewrite checked_Some | rewrite checked_add_Some
    | rewrite checked_sub_Some | rewrite checked_mul_Some ];
  try tauto; eauto.

(** Two states that differ at most in the TTL extensions asked for. *)
Definition sys_equiv `{Ledger} {St K Ev} (s1 s2 : Sys St K Ev) : Prop :=
  store s1 = store s2 /\ chain s1 = chain s2 /\ events s1 = events s2.

#[export] Instance sys_equiv_equivalence `{Ledger} {St K Ev} :
  Equivalence (@sys_equiv _ St K Ev).
Proof. unfold sys_equiv. split; red; naive_solver congruence. Qed.

(** [forward] runs an entry point whose guards are in the context. *)
Ltac forward1 :=
  apply bind_Ok; first [exists tt; eexists | do 2 eexists];
  split; [apply runs; split_and?; eauto; reflexivity | cbn beta].

(** [pass] passes a [fail_if] whose condition is still to be refuted. *)
Ltac pass :=
  apply bind_Ok; exists tt; eexists; split;
  [apply runs; split;
   [first [rewrite bool_decide_and_false | rewrite bool_decide_eq_false
          | rewrite negb_false_iff, bool_decide_eq_true | idtac]
   | reflexivity]
  | cbn beta].

(** [ensures_solve] proves the specification of an entry point by running it. *)
Ltac ensures_solve :=
  lazymatch goal with |- Ensures ?m _ => let h := head_of m in unfold h end;
  let H := fresh "Hrun" in
  intros ? ? ? H; run;
  repeat match goal with |- exists _, _ => eexists | |- _ /\ _ => split end;
  try eassumption; try reflexivity; eauto.
