(* ===== verification/Contract.v ===== *)
(** * A contract as a transition system

    What every contract of the program shares: its entry points are a type [Op]
    run by [exec]; a call commits or is rolled back; a state is [reachable] when
    a deployment followed by any interleaving of calls and of transactions of
    other contracts leads to it. *)

From S2P Require Import Prelude Host.

(** An environment in which the contract at [self] is invoked from outside: the
    contract itself has authorized nothing. *)
Record valid_env (self : Address) (e : Env) : Prop := {
  env_self : current_contract_address e = self;
  env_auth : authorized e self = false;
  env_sequence : in_range u32 (ledger_sequence e);
  env_timestamp : in_range u64 (ledger_timestamp e);
}.

Section Forget.
Context {S E : Type}.

(** An entry point run for its effect only. *)
Definition forget {A} (m : M S E A) : M S E unit := m;; mret tt.

Lemma runs_forget {A} (m : M S E A) s u s' :
  forget m s = Ok u s' <-> exists a, m s = Ok a s'.
Proof.
  unfold forget. rewrite bind_Ok. destruct u. unfold mret, M_ret. naive_solver.
Qed.
End Forget.

Section Contract.
Context `{Ledger} {St K Ev E Op : Type}.
Variable exec : Env -> Op -> M (Sys St K Ev) E unit.
Variable typed_op : Op -> Prop.
Variable init : St.
Implicit Types (e : Env) (op : Op) (s : Sys St K Ev).

(** One call, committed or rolled back. *)
Definition call e op s : Sys St K Ev := (invoke (exec e op) s).2.

(** Whether the call commits. *)
Definition succeeds e op s : bool :=
  match exec e op s with Ok _ _ => true | _ => false end.

Lemma succeeds_call e op s : succeeds e op s = true -> exec e op s = Ok tt (call e op s).
Proof. unfold succeeds, call, invoke. by destruct (exec e op s) as [[] s'|x s'|]. Qed.

(** A call that does not commit changes nothing. *)
Lemma call_rejected e op s : succeeds e op s = false -> call e op s = s.
Proof. unfold succeeds, call, invoke. by destruct (exec e op s). Qed.

(** Either way, a property that commits preserve is preserved by calls. *)
Lemma call_preserves (P : Sys St K Ev -> Prop) e op s :
  P s -> (forall s', exec e op s = Ok tt s' -> P s') -> P (call e op s).
Proof.
  intros Hs Hstep. unfold call, invoke.
  destruct (exec e op s) as [[] s'|x s'|] eqn:Hx; cbn; [by apply Hstep|done..].
Qed.

(** The states of the contract deployed at [self], as far as the token [tok]
    goes: other transactions may do anything but spend the contract's [tok]. *)
Inductive reachable (self tok : Address) : Sys St K Ev -> Prop :=
  | reachable_deploy efs l : reachable self tok (mkSys init efs l)
  | reachable_call s e op :
      reachable self tok s -> valid_env self e -> typed_op op -> reachable self tok (call e op s)
  | reachable_other s l :
      reachable self tok s -> balance (chain s) tok self <= balance l tok self ->
      reachable self tok (s <| chain := l |>).

(** A property of storage that holds after every successful call holds in every
    reachable state. *)
Lemma reachable_store_ind (self tok : Address) (P : St -> Prop) :
  P init ->
  (forall s e op s', P (store s) -> valid_env self e -> typed_op op ->
     exec e op s = Ok tt s' -> P (store s')) ->
  forall s, reachable self tok s -> P (store s).
Proof.
  intros H0 Hstep s. induction 1 as [efs l|s e op Hs IH He Ht|s l Hs IH Hl]; [done| |done].
  apply (call_preserves (fun s => P (store s))); [done|]. intros s' Hx. by eapply Hstep.
Qed.

(** A sequence of calls. *)
Definition run_calls (calls : list (Env * Op)) s : Sys St K Ev :=
  foldl (fun s '(e, op) => call e op s) s calls.

Lemma reachable_run (self tok : Address) calls s :
  reachable self tok s -> Forall (fun '(e, op) => valid_env self e /\ typed_op op) calls ->
  reachable self tok (run_calls calls s).
Proof.
  intros Hs Hc. revert s Hs. induction Hc as [|[e op] calls [He Ht] Hc IH]; intros s Hs; [done|].
  apply IH. by apply reachable_call.
Qed.

(** The same states together with the ledger of the last call: the chain's
    ledger sequence never goes back. *)
Inductive chronicle (self : Address) : Z -> Sys St K Ev -> Prop :=
  | chronicle_deploy n efs l : chronicle self n (mkSys init efs l)
  | chronicle_call n s e op :
      chronicle self n s -> n <= ledger_sequence e -> valid_env self e -> typed_op op ->
      chronicle self (ledger_sequence e) (call e op s)
  | chronicle_other n m s l : chronicle self n s -> n <= m -> chronicle self m (s <| chain := l |>).

(** Calls in the order of the ledgers they are in, from ledger [n] on. *)
Inductive chronological (self : Address) : Z -> list (Env * Op) -> Prop :=
  | chronological_nil n : chronological self n []
  | chronological_cons n e op calls :
      n <= ledger_sequence e -> valid_env self e -> typed_op op ->
      chronological self (ledger_sequence e) calls -> chronological self n ((e, op) :: calls).

(** An invariant over ledgers: one that the passing of time keeps, and that a
    successful call in the current ledger keeps. *)
Section Chronicle.
Context (self : Address) (P : Z -> Sys St K Ev -> Prop).
Hypothesis P_time : forall n m s, P n s -> n <= m -> P m s.
Hypothesis P_step : forall s e op s', P (ledger_sequence e) s -> valid_env self e -> typed_op op ->
  exec e op s = Ok tt s' -> P (ledger_sequence e) s'.

Lemma chronicle_ind' n s :
  (forall n efs l, P n (mkSys init efs l)) -> (forall n s l, P n s -> P n (s <| chain := l |>)) ->
  chronicle self n s -> P n s.
Proof.
  intros H0 Ho. induction 1 as [n efs l|n s e op Hs IH Hn He Ht|n m s l Hs IH Hn].
  - apply H0.
  - pose proof (P_time _ _ _ IH Hn) as HP. apply call_preserves; [exact HP|].
    intros s' Hx. by eapply P_step.
  - apply Ho. by eapply P_time.
Qed.

Lemma chronological_ind' n calls s :
  chronological self n calls -> P n s -> exists m, P m (foldl (fun s '(e, op) => call e op s) s calls).
Proof.
  intros Hc. revert s. induction Hc as [n|n e op calls Hn He Ht Hc IH]; intros s Hs; [by exists n|].
  cbn. apply IH. pose proof (P_time _ _ _ Hs Hn) as HP. apply call_preserves; [exact HP|].
  intros s' Hx. by eapply P_step.
Qed.
End Chronicle.

(** The ledger a sequence of calls ends in. *)
Definition end_ledger (n : Z) (calls : list (Env * Op)) : Z :=
  foldl (fun _ '(e, _) => ledger_sequence e) n calls.

Lemma chronicle_run (self : Address) n calls s :
  chronicle self n s -> chronological self n calls ->
  chronicle self (end_ledger n calls) (run_calls calls s).
Proof.
  intros Hs Hc. revert s Hs. induction Hc as [n|n e op calls Hn He Ht Hc IH]; intros s Hs; [done|].
  apply IH. by eapply chronicle_call.
Qed.

(** A property every admissible successful call preserves holds along a run. *)
Lemma run_calls_ind (P : Sys St K Ev -> Prop) (Q : Env -> Op -> Prop) calls s :
  (forall s e op s', P s -> Q e op -> exec e op s = Ok tt s' -> P s') ->
  Forall (fun '(e, op) => Q e op) calls -> P s -> P (run_calls calls s).
Proof.
  intros Hstep Hc. revert s. induction Hc as [|[e op] calls HQ Hc IH]; intros s Hs; [done|].
  apply IH, call_preserves; [done|]. intros s' Hx. by eapply Hstep.
Qed.
End Contract.
#[global] Arguments succeeds_call {_ _ _ _ _ _ exec} e op s _.
#[global] Arguments call_rejected {_ _ _ _ _ _ exec} e op s _.
#[global] Arguments call_preserves {_ _ _ _ _ _ exec} P e op s _ _.
#[global] Arguments reachable_deploy {_ _ _ _ _ _ exec typed_op init} self tok efs l.
#[global] Arguments reachable_call {_ _ _ _ _ _ exec typed_op init} self tok s e op _ _ _.
#[global] Arguments reachable_other {_ _ _ _ _ _ exec typed_op init} self tok s l _ _.
#[global] Arguments reachable_store_ind {_ _ _ _ _ _ exec typed_op init} self tok P _ _ s _.
#[global] Arguments reachable_run {_ _ _ _ _ _ exec typed_op init} self tok calls s _ _.
#[global] Arguments run_calls_ind {_ _ _ _ _ _ exec} P Q calls s _ _ _.
#[global] Arguments chronicle_deploy {_ _ _ _ _ _ exec typed_op init} self n efs l.
#[global] Arguments chronicle_call {_ _ _ _ _ _ exec typed_op init} self n s e op _ _ _ _.
#[global] Arguments chronicle_other {_ _ _ _ _ _ exec typed_op init} self n m s l _ _.
#[global] Arguments chronicle_ind' {_ _ _ _ _ _ exec typed_op init} self P _ _ n s _ _ _.
#[global] Arguments chronological_ind' {_ _ _ _ _ _ exec typed_op} self P _ _ n calls s _ _.
#[global] Arguments chronicle_run {_ _ _ _ _ _ exec typed_op init} self n calls s _ _.
