(* ===== verification/SampleChain.v ===== *)
(** * A concrete chain

    An executable instance of [Ledger]: token balances are a finite map, a
    transfer moves exactly the amount or fails, and a call into another contract
    answers [true] or [false] by the parity of its address.  It satisfies
    [LawfulToken], so the theorems that assume it are not
    vacuous; the witnesses of the development run on it. *)

From S2P Require Import Prelude Host.

Abbreviation Balances := (gmap (Address * Address) Z).

Definition bal (l : Balances) (tok a : Address) : Z := Z.max 0 (default 0 (l !! (tok, a))).

Definition move (l : Balances) (tok from to : Address) (amt : Z) : Balances :=
  let l1 := <[(tok, from) := bal l tok from - amt]> l in
  <[(tok, to) := bal l1 tok to + amt]> l1.

#[export] Instance sample_ledger : Ledger := {
  ledger := Balances;
  balance := bal;
  transfer l e tok from to amt :=
    if decide (0 <= amt <= bal l tok from) then Some (move l tok from to amt) else None;
  try_invoke l e c f args := (Some (VBool (N.even (addr_id c))), l);
}.

Lemma bal_move l tok from to amt a :
  0 <= amt <= bal l tok from ->
  bal (move l tok from to amt) tok a =
    bal l tok a + (if decide (a = to) then amt else 0) - (if decide (a = from) then amt else 0).
Proof.
  intros Hamt. unfold move, bal in *. rewrite !fin_maps.lookup_insert.
  repeat case_decide; simplify_eq; cbn; lia.
Qed.

#[export] Instance sample_lawful self tok : LawfulToken self tok.
Proof.
  split.
  - intros l e from to amt l'. cbn. by case_decide.
  - intros l e from to amt l' a. cbn. case_decide; [|done]. intros [= <-]. by apply bal_move.
  - intros l e c f args. done.
  - intros l a. cbn. unfold bal. lia.
Qed.

(** Addresses and environments of the samples. *)
Definition addr (n : N) : Address := mkAddress n.
Definition self : Address := addr 0.
Definition token : Address := addr 2.
Definition at_ledger (seq time : Z) : Env :=
  mkEnv self seq time (fun a => negb (bool_decide (a = self))).
