(* ===== verification/RegistryTypes.v ===== *)
(** * Keeper registry: storage keys, domain types, errors, events, constants

    The data of src/contracts/keeper-registry/src/{types,errors,events,constants}.rs
    and the [ReputationRecord] of reputation.rs.  The contract's storage is the
    record [Store]: one field per [DataKey] constructor (and one for
    [ReputationKey]); a field of type [option] is an instance entry, a map is a
    family of persistent entries. *)

From S2P Require Import Prelude Host.

(** ** Storage keys (types.rs, reputation.rs) *)

Inductive DataKey :=
  | Admin
  | FeeBps
  | Paused
  | TaskCounter
  | RewardToken
  | TaskKey (id : Z)
  | KeeperReward (a : Address)
  | FeesAccrued
  | MinReward
  | KeeperStake (a : Address)
  | UnbondRequestKey (a : Address)
  | MinStake
  | SlashCounter
  | SlashKey (id : Z)
  | DisputeWindowLedgers
  | PendingReward (a : Address)
  | SlashHistoryKey (a : Address)
  | ReputationFloor.

Inductive ReputationKey :=
  | ReputationOf (a : Address).

Inductive Key :=
  | Data (k : DataKey)
  | Reputation (k : ReputationKey).

(** ** Domain types (types.rs) *)

Inductive TaskType :=
  | Liquidation
  | OraclePricePush
  | FundingRateUpdate
  | LiquidityRebalance
  | TtlExtension
  | Custom.

Inductive TaskStatus :=
  | Pending
  | Claimed
  | Executed
  | Cancelled
  | Expired.

#[export] Instance TaskStatus_eq_dec : EqDecision TaskStatus.
Proof. solve_decision. Defined.

Record Task := mkTask {
  t_owner : Address;
  t_task_type : TaskType;
  t_calldata : Bytes;
  t_reward : Z;                       (* i128 *)
  t_deadline : Z;                     (* u64, unix seconds *)
  t_ttl_ledgers : Z;                  (* u32 *)
  t_status : TaskStatus;
  t_claimer : option Address;
  t_claim_ledger : option Z;          (* u32 *)
  t_lock_ledgers : Z;                 (* u32 *)
  t_verifier : option Address;
  t_condition : option Address;
}.

#[export] Instance update_t_owner : Update t_owner :=
  fun f s => mkTask (f (t_owner s)) (t_task_type s) (t_calldata s) (t_reward s) (t_deadline s) (t_ttl_ledgers s) (t_status s) (t_claimer s) (t_claim_ledger s) (t_lock_ledgers s) (t_verifier s) (t_condition s).
#[export] Instance update_t_task_type : Update t_task_type :=
  fun f s => mkTask (t_owner s) (f (t_task_type s)) (t_calldata s) (t_reward s) (t_deadline s) (t_ttl_ledgers s) (t_status s) (t_claimer s) (t_claim_ledger s) (t_lock_ledgers s) (t_verifier s) (t_condition s).
#[export] Instance update_t_calldata : Update t_calldata :=
  fun f s => mkTask (t_owner s) (t_task_type s) (f (t_calldata s)) (t_reward s) (t_deadline s) (t_ttl_ledgers s) (t_status s) (t_claimer s) (t_claim_ledger s) (t_lock_ledgers s) (t_verifier s) (t_condition s).
#[export] Instance update_t_reward : Update t_reward :=
  fun f s => mkTask (t_owner s) (t_task_type s) (t_calldata s) (f (t_reward s)) (t_deadline s) (t_ttl_ledgers s) (t_status s) (t_claimer s) (t_claim_ledger s) (t_lock_ledgers s) (t_verifier s) (t_condition s).
#[export] Instance update_t_deadline : Update t_deadline :=
  fun f s => mkTask (t_owner s) (t_task_type s) (t_calldata s) (t_reward s) (f (t_deadline s)) (t_ttl_ledgers s) (t_status s) (t_claimer s) (t_claim_ledger s) (t_lock_ledgers s) (t_verifier s) (t_condition s).
#[export] Instance update_t_ttl_ledgers : Update t_ttl_ledgers :=
  fun f s => mkTask (t_owner s) (t_task_type s) (t_calldata s) (t_reward s) (t_deadline s) (f (t_ttl_ledgers s)) (t_status s) (t_claimer s) (t_claim_ledger s) (t_lock_ledgers s) (t_verifier s) (t_condition s).
#[export] Instance update_t_status : Update t_status :=
  fun f s => mkTask (t_owner s) (t_task_type s) (t_calldata s) (t_reward s) (t_deadline s) (t_ttl_ledgers s) (f (t_status s)) (t_claimer s) (t_claim_ledger s) (t_lock_ledgers s) (t_verifier s) (t_condition s).
#[export] Instance update_t_claimer : Update t_claimer :=
  fun f s => mkTask (t_owner s) (t_task_type s) (t_calldata s) (t_reward s) (t_deadline s) (t_ttl_ledgers s) (t_status s) (f (t_claimer s)) (t_claim_ledger s) (t_lock_ledgers s) (t_verifier s) (t_condition s).
#[export] Instance update_t_claim_ledger : Update t_claim_ledger :=
  fun f s => mkTask (t_owner s) (t_task_type s) (t_calldata s) (t_reward s) (t_deadline s) (t_ttl_ledgers s) (t_status s) (t_claimer s) (f (t_claim_ledger s)) (t_lock_ledgers s) (t_verifier s) (t_condition s).
#[export] Instance update_t_lock_ledgers : Update t_lock_ledgers :=
  fun f s => mkTask (t_owner s) (t_task_type s) (t_calldata s) (t_reward s) (t_deadline s) (t_ttl_ledgers s) (t_status s) (t_claimer s) (t_claim_ledger s) (f (t_lock_ledgers s)) (t_verifier s) (t_condition s).
#[export] Instance update_t_verifier : Update t_verifier :=
  fun f s => mkTask (t_owner s) (t_task_type s) (t_calldata s) (t_reward s) (t_deadline s) (t_ttl_ledgers s) (t_status s) (t_claimer s) (t_claim_ledger s) (t_lock_ledgers s) (f (t_verifier s)) (t_condition s).
#[export] Instance update_t_condition : Update t_condition :=
  fun f s => mkTask (t_owner s) (t_task_type s) (t_calldata s) (t_reward s) (t_deadline s) (t_ttl_ledgers s) (t_status s) (t_claimer s) (t_claim_ledger s) (t_lock_ledgers s) (t_verifier s) (f (t_condition s)).

Record BatchTaskParams := mkBatchTaskParams {
  b_task_type : TaskType;
  b_calldata : Bytes;
  b_reward : Z;
  b_deadline : Z;
  b_ttl_ledgers : Z;
  b_lock_ledgers : Z;
  b_verifier : option Address;
  b_condition : option Address;
}.

Record UnbondRequest := mkUnbondRequest {
  ur_amount : Z;                      (* i128 *)
  ur_unlock_ledger : Z;               (* u32 *)
}.

Record SlashHistory := mkSlashHistory {
  sh_count : Z;                       (* u32 *)
  sh_total_slashed : Z;               (* i128 *)
}.

Record SlashRecord := mkSlashRecord {
  sr_keeper : Address;
  sr_amount : Z;                      (* i128 *)
  sr_reason : Symbol;
  sr_ledger : Z;                      (* u32 *)
  sr_appealed : bool;
}.

Record PendingCredit := mkPendingCredit {
  pc_task_id : Z;                     (* u64 *)
  pc_net_reward : Z;                  (* i128 *)
  pc_unlock_ledger : Z;               (* u32 *)
  pc_disputed : bool;
}.

(** The stored history of one keeper (reputation.rs). *)
Record ReputationRecord := mkReputationRecord {
  rr_successes : Z;                   (* u64 *)
  rr_missed_claims : Z;               (* u64 *)
  rr_score_bps : Z;                   (* u32 *)
  rr_last_updated_ledger : Z;         (* u32 *)
}.

(** ** The contract's storage *)

Record Store := mkStore {
  (* instance entries *)
  s_admin : option Address;
  s_fee_bps : option Z;
  s_paused : option bool;
  s_task_counter : option Z;
  s_reward_token : option Address;
  s_fees_accrued : option Z;
  s_min_reward : option Z;
  s_min_stake : option Z;
  s_slash_counter : option Z;
  s_dispute_window : option Z;
  s_reputation_floor : option Z;
  (* persistent entries *)
  s_task : gmap Z Task;
  s_keeper_reward : gmap Address Z;
  s_keeper_stake : gmap Address Z;
  s_unbond_request : gmap Address UnbondRequest;
  s_slash : gmap Z SlashRecord;
  s_pending_reward : gmap Address (list PendingCredit);
  s_slash_history : gmap Address SlashHistory;
  s_reputation : gmap Address ReputationRecord;
}.

#[export] Instance update_s_admin : Update s_admin :=
  fun f s => mkStore (f (s_admin s)) (s_fee_bps s) (s_paused s) (s_task_counter s) (s_reward_token s) (s_fees_accrued s) (s_min_reward s) (s_min_stake s) (s_slash_counter s) (s_dispute_window s) (s_reputation_floor s) (s_task s) (s_keeper_reward s) (s_keeper_stake s) (s_unbond_request s) (s_slash s) (s_pending_reward s) (s_slash_history s) (s_reputation s).
#[export] Instance update_s_fee_bps : Update s_fee_bps :=
  fun f s => mkStore (s_admin s) (f (s_fee_bps s)) (s_paused s) (s_task_counter s) (s_reward_token s) (s_fees_accrued s) (s_min_reward s) (s_min_stake s) (s_slash_counter s) (s_dispute_window s) (s_reputation_floor s) (s_task s) (s_keeper_reward s) (s_keeper_stake s) (s_unbond_request s) (s_slash s) (s_pending_reward s) (s_slash_history s) (s_reputation s).
#[export] Instance update_s_paused : Update s_paused :=
  fun f s => mkStore (s_admin s) (s_fee_bps s) (f (s_paused s)) (s_task_counter s) (s_reward_token s) (s_fees_accrued s) (s_min_reward s) (s_min_stake s) (s_slash_counter s) (s_dispute_window s) (s_reputation_floor s) (s_task s) (s_keeper_reward s) (s_keeper_stake s) (s_unbond_request s) (s_slash s) (s_pending_reward s) (s_slash_history s) (s_reputation s).
#[export] Instance update_s_task_counter : Update s_task_counter :=
  fun f s => mkStore (s_admin s) (s_fee_bps s) (s_paused s) (f (s_task_counter s)) (s_reward_token s) (s_fees_accrued s) (s_min_reward s) (s_min_stake s) (s_slash_counter s) (s_dispute_window s) (s_reputation_floor s) (s_task s) (s_keeper_reward s) (s_keeper_stake s) (s_unbond_request s) (s_slash s) (s_pending_reward s) (s_slash_history s) (s_reputation s).
#[export] Instance update_s_reward_token : Update s_reward_token :=
  fun f s => mkStore (s_admin s) (s_fee_bps s) (s_paused s) (s_task_counter s) (f (s_reward_token s)) (s_fees_accrued s) (s_min_reward s) (s_min_stake s) (s_slash_counter s) (s_dispute_window s) (s_reputation_floor s) (s_task s) (s_keeper_reward s) (s_keeper_stake s) (s_unbond_request s) (s_slash s) (s_pending_reward s) (s_slash_history s) (s_reputation s).
#[export] Instance update_s_fees_accrued : Update s_fees_accrued :=
  fun f s => mkStore (s_admin s) (s_fee_bps s) (s_paused s) (s_task_counter s) (s_reward_token s) (f (s_fees_accrued s)) (s_min_reward s) (s_min_stake s) (s_slash_counter s) (s_dispute_window s) (s_reputation_floor s) (s_task s) (s_keeper_reward s) (s_keeper_stake s) (s_unbond_request s) (s_slash s) (s_pending_reward s) (s_slash_history s) (s_reputation s).
#[export] Instance update_s_min_reward : Update s_min_reward :=
  fun f s => mkStore (s_admin s) (s_fee_bps s) (s_paused s) (s_task_counter s) (s_reward_token s) (s_fees_accrued s) (f (s_min_reward s)) (s_min_stake s) (s_slash_counter s) (s_dispute_window s) (s_reputation_floor s) (s_task s) (s_keeper_reward s) (s_keeper_stake s) (s_unbond_request s) (s_slash s) (s_pending_reward s) (s_slash_history s) (s_reputation s).
#[export] Instance update_s_min_stake : Update s_min_stake :=
  fun f s => mkStore (s_admin s) (s_fee_bps s) (s_paused s) (s_task_counter s) (s_reward_token s) (s_fees_accrued s) (s_min_reward s) (f (s_min_stake s)) (s_slash_counter s) (s_dispute_window s) (s_reputation_floor s) (s_task s) (s_keeper_reward s) (s_keeper_stake s) (s_unbond_request s) (s_slash s) (s_pending_reward s) (s_slash_history s) (s_reputation s).
#[export] Instance update_s_slash_counter : Update s_slash_counter :=
  fun f s => mkStore (s_admin s) (s_fee_bps s) (s_paused s) (s_task_counter s) (s_reward_token s) (s_fees_accrued s) (s_min_reward s) (s_min_stake s) (f (s_slash_counter s)) (s_dispute_window s) (s_reputation_floor s) (s_task s) (s_keeper_reward s) (s_keeper_stake s) (s_unbond_request s) (s_slash s) (s_pending_reward s) (s_slash_history s) (s_reputation s).
#[export] Instance update_s_dispute_window : Update s_dispute_window :=
  fun f s => mkStore (s_admin s) (s_fee_bps s) (s_paused s) (s_task_counter s) (s_reward_token s) (s_fees_accrued s) (s_min_reward s) (s_min_stake s) (s_slash_counter s) (f (s_dispute_window s)) (s_reputation_floor s) (s_task s) (s_keeper_reward s) (s_keeper_stake s) (s_unbond_request s) (s_slash s) (s_pending_reward s) (s_slash_history s) (s_reputation s).
#[export] Instance update_s_reputation_floor : Update s_reputation_floor :=
  fun f s => mkStore (s_admin s) (s_fee_bps s) (s_paused s) (s_task_counter s) (s_reward_token s) (s_fees_accrued s) (s_min_reward s) (s_min_stake s) (s_slash_counter s) (s_dispute_window s) (f (s_reputation_floor s)) (s_task s) (s_keeper_reward s) (s_keeper_stake s) (s_unbond_request s) (s_slash s) (s_pending_reward s) (s_slash_history s) (s_reputation s).
#[export] Instance update_s_task : Update s_task :=
  fun f s => mkStore (s_admin s) (s_fee_bps s) (s_paused s) (s_task_counter s) (s_reward_token s) (s_fees_accrued s) (s_min_reward s) (s_min_stake s) (s_slash_counter s) (s_dispute_window s) (s_reputation_floor s) (f (s_task s)) (s_keeper_reward s) (s_keeper_stake s) (s_unbond_request s) (s_slash s) (s_pending_reward s) (s_slash_history s) (s_reputation s).
#[export] Instance update_s_keeper_reward : Update s_keeper_reward :=
  fun f s => mkStore (s_admin s) (s_fee_bps s) (s_paused s) (s_task_counter s) (s_reward_token s) (s_fees_accrued s) (s_min_reward s) (s_min_stake s) (s_slash_counter s) (s_dispute_window s) (s_reputation_floor s) (s_task s) (f (s_keeper_reward s)) (s_keeper_stake s) (s_unbond_request s) (s_slash s) (s_pending_reward s) (s_slash_history s) (s_reputation s).
#[export] Instance update_s_keeper_stake : Update s_keeper_stake :=
  fun f s => mkStore (s_admin s) (s_fee_bps s) (s_paused s) (s_task_counter s) (s_reward_token s) (s_fees_accrued s) (s_min_reward s) (s_min_stake s) (s_slash_counter s) (s_dispute_window s) (s_reputation_floor s) (s_task s) (s_keeper_reward s) (f (s_keeper_stake s)) (s_unbond_request s) (s_slash s) (s_pending_reward s) (s_slash_history s) (s_reputation s).
#[export] Instance update_s_unbond_request : Update s_unbond_request :=
  fun f s => mkStore (s_admin s) (s_fee_bps s) (s_paused s) (s_task_counter s) (s_reward_token s) (s_fees_accrued s) (s_min_reward s) (s_min_stake s) (s_slash_counter s) (s_dispute_window s) (s_reputation_floor s) (s_task s) (s_keeper_reward s) (s_keeper_stake s) (f (s_unbond_request s)) (s_slash s) (s_pending_reward s) (s_slash_history s) (s_reputation s).
#[export] Instance update_s_slash : Update s_slash :=
  fun f s => mkStore (s_admin s) (s_fee_bps s) (s_paused s) (s_task_counter s) (s_reward_token s) (s_fees_accrued s) (s_min_reward s) (s_min_stake s) (s_slash_counter s) (s_dispute_window s) (s_reputation_floor s) (s_task s) (s_keeper_reward s) (s_keeper_stake s) (s_unbond_request s) (f (s_slash s)) (s_pending_reward s) (s_slash_history s) (s_reputation s).
#[export] Instance update_s_pending_reward : Update s_pending_reward :=
  fun f s => mkStore (s_admin s) (s_fee_bps s) (s_paused s) (s_task_counter s) (s_reward_token s) (s_fees_accrued s) (s_min_reward s) (s_min_stake s) (s_slash_counter s) (s_dispute_window s) (s_reputation_floor s) (s_task s) (s_keeper_reward s) (s_keeper_stake s) (s_unbond_request s) (s_slash s) (f (s_pending_reward s)) (s_slash_history s) (s_reputation s).
#[export] Instance update_s_slash_history : Update s_slash_history :=
  fun f s => mkStore (s_admin s) (s_fee_bps s) (s_paused s) (s_task_counter s) (s_reward_token s) (s_fees_accrued s) (s_min_reward s) (s_min_stake s) (s_slash_counter s) (s_dispute_window s) (s_reputation_floor s) (s_task s) (s_keeper_reward s) (s_keeper_stake s) (s_unbond_request s) (s_slash s) (s_pending_reward s) (f (s_slash_history s)) (s_reputation s).
#[export] Instance update_s_reputation : Update s_reputation :=
  fun f s => mkStore (s_admin s) (s_fee_bps s) (s_paused s) (s_task_counter s) (s_reward_token s) (s_fees_accrued s) (s_min_reward s) (s_min_stake s) (s_slash_counter s) (s_dispute_window s) (s_reputation_floor s) (s_task s) (s_keeper_reward s) (s_keeper_stake s) (s_unbond_request s) (s_slash s) (s_pending_reward s) (s_slash_history s) (f (s_reputation s)).

(** A freshly deployed contract: nothing stored. *)
Definition empty_store : Store :=
  mkStore None None None None None None None None None None None
          ∅ ∅ ∅ ∅ ∅ ∅ ∅ ∅.

(** ** Errors (errors.rs) *)

Inductive KeeperError :=
  | AlreadyInitialized
  | Unauthorized
  | ContractPaused
  | TaskNotFound
  | InvalidTaskStatus
  | DeadlinePassed
  | DeadlineNotPassed
  | InvalidReward
  | LockPeriodActive
  | InvalidFeeBps
  | NotTaskOwner
  | NotTaskClaimer
  | NoRewardsAvailable
  | NotInitialized
  | TtlTooShort
  | CalldataTooLarge
  | InvalidTaskParams
  | ArithmeticOverflow
  | ProofTooLarge
  | IncompatibleVerifierInterface
  | VerificationFailed
  | BatchTooLarge
  | EmptyBatch
  | BatchRewardCeilingExceeded
  | InsufficientStake
  | UnbondNotReady
  | UnbondAlreadyPending
  | NoPendingUnbond
  | MinStakeNotMet
  | SlashNotFound
  | AppealWindowClosed
  | AppealAlreadyRaised
  | NotSlashedKeeper
  | NoPendingCredit
  | ExecutionAlreadyDisputed
  | DisputeWindowClosed
  | NoDisputedCredit
  | ReputationBelowFloor
  | InvalidReputationFloor
  | ConditionNotMet.

#[export] Instance KeeperError_eq_dec : EqDecision KeeperError.
Proof. solve_decision. Defined.

(** The published discriminants. *)
Definition keeper_error_code (x : KeeperError) : Z :=
  match x with
  | AlreadyInitialized => 1 | Unauthorized => 2 | ContractPaused => 3
  | TaskNotFound => 4 | InvalidTaskStatus => 5 | DeadlinePassed => 6
  | DeadlineNotPassed => 7 | InvalidReward => 8 | LockPeriodActive => 9
  | InvalidFeeBps => 10 | NotTaskOwner => 11 | NotTaskClaimer => 12
  | NoRewardsAvailable => 13 | NotInitialized => 15 | TtlTooShort => 16
  | CalldataTooLarge => 17 | InvalidTaskParams => 18 | ArithmeticOverflow => 19
  | ProofTooLarge => 14 | IncompatibleVerifierInterface => 20
  | VerificationFailed => 24 | BatchTooLarge => 21 | EmptyBatch => 22
  | BatchRewardCeilingExceeded => 23 | InsufficientStake => 25
  | UnbondNotReady => 26 | UnbondAlreadyPending => 27 | NoPendingUnbond => 28
  | MinStakeNotMet => 29 | SlashNotFound => 30 | AppealWindowClosed => 31
  | AppealAlreadyRaised => 32 | NotSlashedKeeper => 33 | NoPendingCredit => 34
  | ExecutionAlreadyDisputed => 35 | DisputeWindowClosed => 36
  | NoDisputedCredit => 37 | ReputationBelowFloor => 38
  | InvalidReputationFloor => 39 | ConditionNotMet => 40
  end.

(** ** Events (events.rs): one constructor per [emit_] function, its payload
    in the order the contract publishes it. *)

Inductive Event :=
  | TaskRegistered (task_id : Z) (owner : Address) (reward deadline : Z)
      (condition : option Address)
  | TaskConditionNotMet (task_id : Z) (condition : Address)
  | TaskClaimed (task_id : Z) (keeper : Address) (ledger : Z)
  | TaskExecuted (task_id : Z) (keeper : Address) (net_reward : Z) (proof : Bytes)
  | TaskExpired (task_id : Z)
  | TaskCancelled (task_id : Z) (owner : Address)
  | RewardsWithdrawn (keeper : Address) (amount : Z)
  | RewardIncreased (task_id new_reward : Z)
  | DeadlineExtended (task_id new_deadline : Z)
  | PausedSet (paused : bool)
  | FeeUpdated (old_bps new_bps : Z)
  | AdminTransferred (old_admin new_admin : Address)
  | MinRewardUpdated (old_min new_min : Z)
  | FeesSwept (treasury : Address) (amount remaining : Z)
  | Initialized (admin reward_token : Address) (fee_bps : Z)
  | Upgraded (admin : Address) (new_wasm_hash : Bytes)
  | TaskVerificationFailed (task_id : Z) (keeper : Address)
  | VerifierAttached (task_id : Z) (verifier : Address)
  | VerifierUpdated (task_id : Z) (old_verifier new_verifier : option Address)
  | StakeDeposited (keeper : Address) (amount new_total : Z)
  | UnbondInitiated (keeper : Address) (amount unlock_ledger : Z)
  | StakeWithdrawn (keeper : Address) (amount : Z)
  | Slashed (slash_id : Z) (keeper : Address) (amount : Z) (reason : Symbol)
  | MinStakeUpdated (old_min new_min : Z)
  | SlashAppealRaised (slash_id : Z) (keeper : Address)
  | SlashAppealResolved (slash_id : Z) (upheld : bool)
  | DisputeWindowUpdated (old_ledgers new_ledgers : Z)
  | ExecutionDisputed (task_id : Z) (keeper : Address)
  | ExecutionDisputeResolved (task_id : Z) (upheld : bool)
  | RewardsFinalized (keeper : Address) (task_id amount : Z)
  | ReputationFloorUpdated (old_floor_bps new_floor_bps : Z)
  | OraclePriceConditionSet (task_id : Z) (oracle : Address) (asset : Symbol) (threshold : Z).

(** The [(verb, noun)] topic pair each event is published under. *)
Definition event_topics (ev : Event) : string * string :=
  (match ev with
  | TaskRegistered _ _ _ _ _ => ("reg", "task")
  | TaskConditionNotMet _ _ => ("condfail", "task")
  | TaskClaimed _ _ _ => ("claim", "task")
  | TaskExecuted _ _ _ _ => ("exec", "task")
  | TaskExpired _ => ("exp", "task")
  | TaskCancelled _ _ => ("cancel", "task")
  | RewardsWithdrawn _ _ => ("wdraw", "reward")
  | RewardIncreased _ _ => ("topup", "task")
  | DeadlineExtended _ _ => ("extend", "task")
  | PausedSet _ => ("paused", "admin")
  | FeeUpdated _ _ => ("fee", "admin")
  | AdminTransferred _ _ => ("admin", "xfer")
  | MinRewardUpdated _ _ => ("minrwd", "admin")
  | FeesSwept _ _ _ => ("sweep", "admin")
  | Initialized _ _ _ => ("init", "admin")
  | Upgraded _ _ => ("upgrade", "admin")
  | TaskVerificationFailed _ _ => ("verfail", "task")
  | VerifierAttached _ _ => ("vattach", "task")
  | VerifierUpdated _ _ _ => ("vupdate", "task")
  | StakeDeposited _ _ _ => ("stkdep", "stake")
  | UnbondInitiated _ _ _ => ("unbond", "stake")
  | StakeWithdrawn _ _ => ("stkwd", "stake")
  | Slashed _ _ _ _ => ("slash", "stake")
  | MinStakeUpdated _ _ => ("minstk", "admin")
  | SlashAppealRaised _ _ => ("appeal", "stake")
  | SlashAppealResolved _ _ => ("resolve", "stake")
  | DisputeWindowUpdated _ _ => ("disptwin", "admin")
  | ExecutionDisputed _ _ => ("exdisp", "task")
  | ExecutionDisputeResolved _ _ => ("exresolv", "task")
  | RewardsFinalized _ _ _ => ("finalize", "reward")
  | ReputationFloorUpdated _ _ => ("repfloor", "admin")
  | OraclePriceConditionSet _ _ _ _ => ("oracond", "task")
  end)%string.

(** ** Constants (constants.rs, reputation.rs) *)

Definition MIN_LOCK_LEDGERS : Z := 12.
Definition MAX_LOCK_LEDGERS : Z := 17280.
Definition MIN_TTL_LEDGERS : Z := 1000.
Definition INSTANCE_BUMP_LEDGERS : Z := 100000.
Definition INSTANCE_BUMP_THRESHOLD : Z := 50000.
Definition KEEPER_BALANCE_BUMP_LEDGERS : Z := 100000.
Definition KEEPER_BALANCE_BUMP_THRESHOLD : Z := 50000.
Definition VERSION : Z := 6.
Definition MAX_CALLDATA_LEN : Z := 1024.
Definition MAX_PROOF_LEN : Z := 256.
Definition MAX_BATCH_READ : Z := 50.
Definition MAX_BATCH_SIZE : Z := 50.
Definition SECONDS_PER_LEDGER : Z := 5.
Definition TTL_SAFETY_MARGIN_LEDGERS : Z := 17280.
Definition DEFAULT_FEE_BPS : Z := 0.
Definition KEEPER_STAKE_BUMP_LEDGERS : Z := 100000.
Definition KEEPER_STAKE_BUMP_THRESHOLD : Z := 50000.
Definition UNBOND_DELAY_LEDGERS : Z := 86400.
Definition DISPUTE_WINDOW_LEDGERS : Z := 51840.
Definition MAX_EXECUTION_DISPUTE_WINDOW_LEDGERS : Z := 86400.
Definition MAX_REPUTATION_FLOOR_BPS : Z := 10000.
Definition REPUTATION_DECAY_HALF_LIFE_LEDGERS : Z := 100000.
Definition REPUTATION_TTL_THRESHOLD : Z := 50000.
Definition REPUTATION_TTL_LEDGERS : Z := 6300000.

#[export] Instance update_pc_disputed : Update pc_disputed :=
  fun f c => mkPendingCredit (pc_task_id c) (pc_net_reward c) (pc_unlock_ledger c)
               (f (pc_disputed c)).
#[export] Instance update_sr_appealed : Update sr_appealed :=
  fun f r => mkSlashRecord (sr_keeper r) (sr_amount r) (sr_reason r) (sr_ledger r)
               (f (sr_appealed r)).
#[export] Instance update_ur_amount : Update ur_amount :=
  fun f r => mkUnbondRequest (f (ur_amount r)) (ur_unlock_ledger r).
