(* ===== verification/RegistryInternal.v ===== *)
(** * Keeper registry: helpers shared by the entry points

    src/contracts/keeper-registry/src/internal.rs, one definition per function,
    each followed by the [Runs] instance that says when it succeeds and what it
    leaves behind. *)

From S2P Require Import Prelude Host RegistryTypes.

(** The state of an invocation of the registry, and its monad. *)
Abbreviation RS := (Sys Store Key Event).
Abbreviation RM := (M (Sys Store Key Event) KeeperError).

Section Internal.
Context `{Ledger}.
Implicit Types (e : Env) (task : Task) (keeper caller : Address).

Definition bump_instance : RM unit :=
  log (ExtendInstance INSTANCE_BUMP_THRESHOLD INSTANCE_BUMP_LEDGERS).

(** [e.storage().persistent().extend_ttl(&key, threshold, extend_to)] *)
Definition extend_ttl (k : DataKey) (threshold extend_to : Z) : RM unit :=
  log (ExtendPersistent (Data k) threshold extend_to).

Definition require_not_paused : RM unit :=
  paused ← read (fun st => default false (s_paused st));
  fail_if paused ContractPaused.

Definition require_initialized : RM unit :=
  init ← read (fun st => bool_decide (is_Some (s_admin st)));
  fail_if (negb init) NotInitialized.

Definition require_admin e caller : RM unit :=
  stored ← read s_admin;
  admin ← ok_or stored NotInitialized;
  require_auth e caller;;
  fail_if (bool_decide (caller <> admin)) Unauthorized.

Definition next_task_id : RM Z :=
  id ← read (fun st => default 0 (s_task_counter st));
  next ← expect (checked_add u64 id 1);
  write (fun st => st <| s_task_counter := Some next |>);;
  mret next.

Definition required_ttl_ledgers e (deadline : Z) : Z :=
  let seconds_until_deadline := saturating_sub u64 deadline (ledger_timestamp e) in
  let ledgers_until_deadline := seconds_until_deadline / SECONDS_PER_LEDGER in
  ledgers_until_deadline + TTL_SAFETY_MARGIN_LEDGERS.

Definition load_task (task_id : Z) : RM Task :=
  stored ← read (fun st => s_task st !! task_id);
  ok_or stored TaskNotFound.

Definition save_task (task_id : Z) (task : Task) : RM unit :=
  write (fun st => st <| s_task ::= <[task_id := task]> |>);;
  extend_ttl (TaskKey task_id) (t_ttl_ledgers task) (t_ttl_ledgers task).

(** The token client is represented by the token's address. *)
Definition reward_token : RM Address :=
  stored ← read s_reward_token;
  ok_or stored NotInitialized.

Definition fee_bps (st : Store) : Z := default DEFAULT_FEE_BPS (s_fee_bps st).

Definition split_reward (reward fee_bps : Z) : KeeperError + (Z * Z) :=
  match checked_mul i128 reward fee_bps with
  | None => inl ArithmeticOverflow
  | Some product =>
      let fee := Z.quot product 10000 in
      match checked_sub i128 reward fee with
      | None => inl ArithmeticOverflow
      | Some net => inr (net, fee)
      end
  end.

Definition keeper_reward_of (st : Store) keeper : Z := default 0 (s_keeper_reward st !! keeper).

Definition credit_keeper keeper (amount : Z) : RM unit :=
  current ← read (fun st => keeper_reward_of st keeper);
  updated ← ok_or (checked_add i128 current amount) ArithmeticOverflow;
  write (fun st => st <| s_keeper_reward ::= <[keeper := updated]> |>);;
  extend_ttl (KeeperReward keeper) KEEPER_BALANCE_BUMP_THRESHOLD KEEPER_BALANCE_BUMP_LEDGERS.

Definition read_slash_history (st : Store) keeper : SlashHistory :=
  default (mkSlashHistory 0 0) (s_slash_history st !! keeper).

Definition write_slash_history keeper (amount : Z) : RM unit :=
  current ← read (fun st => read_slash_history st keeper);
  count ← ok_or (checked_add u32 (sh_count current) 1) ArithmeticOverflow;
  total_slashed ← ok_or (checked_add i128 (sh_total_slashed current) amount) ArithmeticOverflow;
  write (fun st => st <| s_slash_history ::= <[keeper := mkSlashHistory count total_slashed]> |>);;
  extend_ttl (SlashHistoryKey keeper) KEEPER_STAKE_BUMP_THRESHOLD KEEPER_STAKE_BUMP_LEDGERS.

Definition fees_accrued (st : Store) : Z := default 0 (s_fees_accrued st).

Definition accrue_fee (amount : Z) : RM unit :=
  if bool_decide (amount = 0) then mret tt else
  current ← read fees_accrued;
  updated ← ok_or (checked_add i128 current amount) ArithmeticOverflow;
  write (fun st => st <| s_fees_accrued := Some updated |>).

Definition validate_task_params e (reward min_reward deadline calldata_len ttl_ledgers
    lock_ledgers : Z) (condition : option Address) : KeeperError + unit :=
  if bool_decide (reward <= 0) || bool_decide (reward < min_reward) then inl InvalidReward else
  if bool_decide (deadline <= ledger_timestamp e) then inl DeadlinePassed else
  if bool_decide (calldata_len > MAX_CALLDATA_LEN) then inl CalldataTooLarge else
  if negb (bool_decide (MIN_LOCK_LEDGERS <= lock_ledgers <= MAX_LOCK_LEDGERS))
  then inl InvalidTaskParams else
  if bool_decide (ttl_ledgers < MIN_TTL_LEDGERS) then inl InvalidTaskParams else
  if bool_decide (ttl_ledgers < required_ttl_ledgers e deadline) then inl TtlTooShort else
  inr tt.

Definition min_reward_floor (st : Store) : Z := default 0 (s_min_reward st).

Definition lock_expired e task : bool :=
  match t_claim_ledger task with
  | Some claimed_at =>
      let unlock_at := saturating_add u32 claimed_at (t_lock_ledgers task) in
      bool_decide (ledger_sequence e >= unlock_at)
  | None => true
  end.

Definition keeper_stake_of (st : Store) keeper : Z := default 0 (s_keeper_stake st !! keeper).

Definition min_stake_floor (st : Store) : Z := default 0 (s_min_stake st).

Definition next_slash_id : RM Z :=
  id ← read (fun st => default 0 (s_slash_counter st));
  next ← expect (checked_add u64 id 1);
  write (fun st => st <| s_slash_counter := Some next |>);;
  mret next.

Definition dispute_window_ledgers (st : Store) : Z := default 0 (s_dispute_window st).

Definition pending_credits_of (st : Store) keeper : list PendingCredit :=
  default [] (s_pending_reward st !! keeper).

Definition save_pending_credits keeper (credits : list PendingCredit) : RM unit :=
  match credits with
  | [] => write (fun st => st <| s_pending_reward ::= delete keeper |>)
  | _ =>
      write (fun st => st <| s_pending_reward ::= <[keeper := credits]> |>);;
      extend_ttl (PendingReward keeper)
        KEEPER_BALANCE_BUMP_THRESHOLD KEEPER_BALANCE_BUMP_LEDGERS
  end.

Definition add_pending_credit e keeper (task_id net_reward window_ledgers : Z) : RM unit :=
  credits ← read (fun st => pending_credits_of st keeper);
  let credit := mkPendingCredit task_id net_reward
                  (saturating_add u32 (ledger_sequence e) window_ledgers) false in
  save_pending_credits keeper (credits ++ [credit]).

(** Whether [finalize_rewards] moves a credit at ledger [now]. *)
Definition finalizable (now : Z) (credit : PendingCredit) : bool :=
  negb (pc_disputed credit) && bool_decide (now >= pc_unlock_ledger credit).

Definition finalize_rewards e keeper : RM (list (Z * Z)) :=
  credits ← read (fun st => pending_credits_of st keeper);
  match credits with
  | [] => mret []
  | _ =>
      let now := ledger_sequence e in
      acc ← for_fold credits ([], []) (fun '(remaining, finalized) credit =>
        if finalizable now credit then
          credit_keeper keeper (pc_net_reward credit);;
          mret (remaining, finalized ++ [(pc_task_id credit, pc_net_reward credit)])
        else mret (remaining ++ [credit], finalized));
      let '(remaining, finalized) := acc in
      (match finalized with [] => mret tt | _ => save_pending_credits keeper remaining end);;
      mret finalized
  end.

#[global] Arguments split_reward : simpl never.
#[global] Arguments validate_task_params : simpl never.

#[export] Typeclasses Opaque bump_instance extend_ttl require_not_paused require_initialized
  require_admin next_task_id load_task save_task reward_token credit_keeper write_slash_history
  accrue_fee next_slash_id save_pending_credits add_pending_credit finalize_rewards.

(** ** Success of each helper *)

#[export] Instance runs_bump_instance :
  Runs bump_instance (fun s _ s' =>
    s' = s <| effects ::= cons (ExtendInstance INSTANCE_BUMP_THRESHOLD INSTANCE_BUMP_LEDGERS) |>).
Proof. unfold bump_instance. apply _. Qed.

#[export] Instance runs_extend_ttl k lo hi :
  Runs (extend_ttl k lo hi) (fun s _ s' =>
    s' = s <| effects ::= cons (ExtendPersistent (Data k) lo hi) |>).
Proof. unfold extend_ttl. apply _. Qed.

#[export] Instance runs_require_not_paused :
  Runs require_not_paused (fun s _ s' => default false (s_paused (store s)) = false /\ s' = s).
Proof. runs_solve. Qed.

#[export] Instance runs_require_initialized :
  Runs require_initialized (fun s _ s' => is_Some (s_admin (store s)) /\ s' = s).
Proof. runs_solve. Qed.

#[export] Instance runs_require_admin e caller :
  Runs (require_admin e caller) (fun s _ s' =>
    s_admin (store s) = Some caller /\ authorized e caller = true /\ s' = s).
Proof. runs_solve. Qed.

#[export] Instance runs_next_task_id :
  Runs next_task_id (fun s id s' =>
    id = default 0 (s_task_counter (store s)) + 1 /\ in_range u64 id /\
    s' = s <| store ::= fun st => st <| s_task_counter := Some id |> |>).
Proof. runs_solve. Qed.

#[export] Instance runs_load_task task_id :
  Runs (load_task task_id) (fun s task s' => s_task (store s) !! task_id = Some task /\ s' = s).
Proof. runs_solve. Qed.

#[export] Instance runs_save_task task_id task :
  Runs (save_task task_id task) (fun s _ s' =>
    s' = s <| store ::= fun st => st <| s_task ::= <[task_id := task]> |> |>
           <| effects ::= cons (ExtendPersistent (Data (TaskKey task_id))
                (t_ttl_ledgers task) (t_ttl_ledgers task)) |>).
Proof. runs_solve. Qed.

#[export] Instance runs_reward_token :
  Runs reward_token (fun s tok s' => s_reward_token (store s) = Some tok /\ s' = s).
Proof. runs_solve. Qed.

#[export] Instance runs_credit_keeper keeper amount :
  Runs (credit_keeper keeper amount) (fun s _ s' =>
    in_range i128 (keeper_reward_of (store s) keeper + amount) /\
    s' = s <| store ::= fun st => st <| s_keeper_reward ::=
                <[keeper := keeper_reward_of (store s) keeper + amount]> |> |>
           <| effects ::= cons (ExtendPersistent (Data (KeeperReward keeper))
                KEEPER_BALANCE_BUMP_THRESHOLD KEEPER_BALANCE_BUMP_LEDGERS) |>).
Proof. runs_solve. Qed.

#[export] Instance runs_write_slash_history keeper amount :
  Runs (write_slash_history keeper amount) (fun s _ s' =>
    let h := read_slash_history (store s) keeper in
    in_range u32 (sh_count h + 1) /\ in_range i128 (sh_total_slashed h + amount) /\
    s' = s <| store ::= fun st => st <| s_slash_history ::=
                <[keeper := mkSlashHistory (sh_count h + 1) (sh_total_slashed h + amount)]> |> |>
           <| effects ::= cons (ExtendPersistent (Data (SlashHistoryKey keeper))
                KEEPER_STAKE_BUMP_THRESHOLD KEEPER_STAKE_BUMP_LEDGERS) |>).
Proof. runs_solve. Qed.

(** The fee pot after [accrue_fee]: an amount of zero leaves the entry alone. *)
Definition accrued (amount : Z) (st : Store) : Store :=
  if bool_decide (amount = 0) then st
  else st <| s_fees_accrued := Some (fees_accrued st + amount) |>.

#[export] Instance runs_accrue_fee amount :
  Runs (accrue_fee amount) (fun s _ s' =>
    (amount = 0 \/ in_range i128 (fees_accrued (store s) + amount)) /\
    s' = s <| store ::= accrued amount |>).
Proof.
  unfold accrue_fee, accrued. case_bool_decide.
  - eapply runs_proper; [apply _|]. intros [] [] ?; cbn. naive_solver.
  - eapply runs_proper; [apply _|].
    intros ? [] ?; setoid_rewrite checked_add_Some. cbn. naive_solver.
Qed.

#[export] Instance runs_next_slash_id :
  Runs next_slash_id (fun s id s' =>
    id = default 0 (s_slash_counter (store s)) + 1 /\ in_range u64 id /\
    s' = s <| store ::= fun st => st <| s_slash_counter := Some id |> |>).
Proof. runs_solve. Qed.

(** A keeper's pending list after it is saved: an empty list removes the entry. *)
Definition put_pending keeper (credits : list PendingCredit)
    (m : gmap Address (list PendingCredit)) : gmap Address (list PendingCredit) :=
  match credits with [] => delete keeper m | _ => <[keeper := credits]> m end.

#[export] Instance runs_save_pending_credits keeper credits :
  Runs (save_pending_credits keeper credits) (fun s _ s' =>
    s' = s <| store ::= fun st => st <| s_pending_reward ::= put_pending keeper credits |> |>
           <| effects ::= match credits with
                          | [] => id
                          | _ => cons (ExtendPersistent (Data (PendingReward keeper))
                                   KEEPER_BALANCE_BUMP_THRESHOLD KEEPER_BALANCE_BUMP_LEDGERS)
                          end |>).
Proof. destruct credits; runs_solve; by destruct s. Qed.

(** The credit [execute_task] records while a dispute window of [window]
    ledgers is in force. *)
Definition new_credit e (task_id net_reward window : Z) : PendingCredit :=
  mkPendingCredit task_id net_reward (saturating_add u32 (ledger_sequence e) window) false.

#[export] Instance runs_add_pending_credit e keeper task_id net_reward window :
  Runs (add_pending_credit e keeper task_id net_reward window) (fun s _ s' =>
    let credits := pending_credits_of (store s) keeper ++ [new_credit e task_id net_reward window] in
    s' = s <| store ::= fun st => st <| s_pending_reward ::= <[keeper := credits]> |> |>
           <| effects ::= cons (ExtendPersistent (Data (PendingReward keeper))
                                   KEEPER_BALANCE_BUMP_THRESHOLD KEEPER_BALANCE_BUMP_LEDGERS) |>).
Proof.
  unfold add_pending_credit. eapply runs_proper; [apply _|].
  intros s [] s'. unfold new_credit.
  destruct (pending_credits_of (store s) keeper); cbn; naive_solver.
Qed.

(** ** [finalize_rewards] as a whole *)

(** One credit moved into the withdrawable balance. *)
Definition credited keeper (st : Store) (c : PendingCredit) : Store :=
  st <| s_keeper_reward ::= <[keeper := keeper_reward_of st keeper + pc_net_reward c]> |>.

(** The credits of a list that ledger [now] finalizes, and those it leaves. *)
Definition due (now : Z) : list PendingCredit -> list PendingCredit :=
  filter (fun c => finalizable now c = true).
Definition undue (now : Z) : list PendingCredit -> list PendingCredit :=
  filter (fun c => ~ (finalizable now c = true)).

(** What a successful finalization leaves in storage. *)
Definition finalized_store e keeper (st : Store) : Store :=
  let credits := pending_credits_of st keeper in
  match due (ledger_sequence e) credits with
  | [] => st
  | done => (foldl (credited keeper) st done)
              <| s_pending_reward ::= put_pending keeper (undue (ledger_sequence e) credits) |>
  end.

Lemma finalize_loop now keeper credits rem fin (s : RS) r s' :
  for_fold credits (rem, fin) (fun '(remaining, finalized) credit =>
    if finalizable now credit then
      credit_keeper keeper (pc_net_reward credit);;
      mret (remaining, finalized ++ [(pc_task_id credit, pc_net_reward credit)])
    else mret (remaining ++ [credit], finalized)) s = Ok r s' ->
  r = (rem ++ undue now credits,
       fin ++ map (fun c => (pc_task_id c, pc_net_reward c)) (due now credits)) /\
  store s' = foldl (credited keeper) (store s) (due now credits) /\
  chain s' = chain s /\ events s' = events s.
Proof.
  revert rem fin s. induction credits as [|c credits IH]; intros rem fin s Hr; cbn in Hr.
  - run. by rewrite !app_nil_r.
  - unfold due, undue. rewrite !filter_cons.
    destruct (finalizable now c) eqn:Hc; run;
      match goal with Hl : for_fold _ _ _ _ = _ |- _ => apply IH in Hl as (-> & Hs & Hch & Hev) end;
      cbn in *; rewrite ?decide_True, ?decide_False by congruence; cbn;
      rewrite <- !app_assoc; auto.
Qed.

#[export] Instance ensures_finalize_rewards e keeper :
  Ensures (finalize_rewards e keeper) (fun s fin s' =>
    fin = map (fun c => (pc_task_id c, pc_net_reward c))
            (due (ledger_sequence e) (pending_credits_of (store s) keeper)) /\
    store s' = finalized_store e keeper (store s) /\ chain s' = chain s /\
    events s' = events s).
Proof.
  unfold finalize_rewards, finalized_store. intros s fin s' Hr. run1 Hr.
  destruct (pending_credits_of (store s) keeper) as [|c l] eqn:Hp.
  { run. by cbn. }
  rewrite <- Hp in *. clear Hp. run1 Hr.
  match goal with Hl : for_fold _ _ _ _ = _ |- _ =>
    apply finalize_loop in Hl as (-> & Hs & Hch & Hev) end.
  destruct (due _ _) as [|d ds]; cbn in *; run; cbn; [by rewrite Hs|].
  split; [done|]. split; [by rewrite Hs|]. split; [done|]. rewrite <- Hev.
  by destruct (undue _ _).
Qed.

Lemma credited_other_fields keeper l st :
  let st' := foldl (credited keeper) st l in
  st' = st <| s_keeper_reward := s_keeper_reward st' |>.
Proof.
  cbn. revert st. induction l as [|c l IH]; intros st; cbn; [by destruct st|].
  rewrite IH. by destruct st.
Qed.

Lemma credited_balance keeper l st keeper' :
  keeper_reward_of (foldl (credited keeper) st l) keeper' =
    keeper_reward_of st keeper' + if decide (keeper' = keeper) then list_sum pc_net_reward l else 0.
Proof.
  revert st. induction l as [|c l IH]; intros st; cbn; [case_decide; lia|].
  rewrite IH. unfold keeper_reward_of at 1; cbn. case_decide; subst.
  - rewrite lookup_insert_eq. cbn. unfold list_sum. lia.
  - by rewrite lookup_insert_ne by congruence.
Qed.

Lemma finalized_store_other_fields e keeper st :
  let st' := finalized_store e keeper st in
  st' = st <| s_keeper_reward := s_keeper_reward st' |>
           <| s_pending_reward := s_pending_reward st' |>.
Proof.
  cbn. unfold finalized_store. destruct (due _ _) as [|c l]; [by destruct st|].
  rewrite credited_other_fields. by destruct st.
Qed.

Lemma finalized_store_token e keeper st :
  s_reward_token (finalized_store e keeper st) = s_reward_token st.
Proof. by rewrite finalized_store_other_fields. Qed.

Lemma finalized_balance e keeper st :
  keeper_reward_of (finalized_store e keeper st) keeper =
    keeper_reward_of st keeper
    + list_sum pc_net_reward (due (ledger_sequence e) (pending_credits_of st keeper)).
Proof.
  unfold finalized_store. destruct (due _ _) as [|c l] eqn:Hd.
  - unfold list_sum; cbn. lia.
  - rewrite <- Hd. pose proof (credited_balance keeper
      (due (ledger_sequence e) (pending_credits_of st keeper)) st keeper) as Hb.
    by rewrite decide_True in Hb.
Qed.

(** [finalize_rewards] cannot fail while the finalized balance fits an i128. *)
Lemma finalize_loop_total now keeper credits rem fin (s : RS) :
  Forall (fun c => 0 <= pc_net_reward c) credits ->
  0 <= keeper_reward_of (store s) keeper ->
  keeper_reward_of (store s) keeper + list_sum pc_net_reward (due now credits) <= int_max i128 ->
  exists r s', for_fold credits (rem, fin) (fun '(remaining, finalized) credit =>
    if finalizable now credit then
      credit_keeper keeper (pc_net_reward credit);;
      mret (remaining, finalized ++ [(pc_task_id credit, pc_net_reward credit)])
    else mret (remaining ++ [credit], finalized)) s = Ok r s'.
Proof.
  intros Hc. revert rem fin s. induction Hc as [|c credits Hpos Hc IH]; intros rem fin s H0 Hmax.
  - by repeat eexists.
  - cbn. unfold due in *. rewrite filter_cons in Hmax.
    assert (0 <= list_sum pc_net_reward (due now credits)).
    { apply list_sum_nonneg. by apply Forall_filter. }
    destruct (finalizable now c) eqn:Hf;
      rewrite ?decide_True, ?decide_False in Hmax by congruence; cbn in Hmax.
    + unfold list_sum in *.
      assert (in_range i128 (keeper_reward_of (store s) keeper + pc_net_reward c)).
      { unfold in_range; cbn in *. unfold due in *. lia. }
      edestruct (IH rem (fin ++ [(pc_task_id c, pc_net_reward c)])
        (s <| store ::= fun st => credited keeper st c |>
           <| effects ::= cons (ExtendPersistent (Data (KeeperReward keeper))
                KEEPER_BALANCE_BUMP_THRESHOLD KEEPER_BALANCE_BUMP_LEDGERS) |>))
        as (r & s' & Hr).
      { unfold keeper_reward_of at 1; cbn. rewrite lookup_insert_eq. cbn. lia. }
      { unfold keeper_reward_of at 1; cbn. rewrite lookup_insert_eq. cbn. lia. }
      exists r, s'. apply bind_Ok. do 2 eexists. split; [|exact Hr].
      apply bind_Ok. exists tt. eexists. split; [by apply runs|]. done.
    + destruct (IH (rem ++ [c]) fin s) as (r & s' & Hr); [done..|].
      exists r, s'. apply bind_Ok. do 2 eexists. split; [done | exact Hr].
Qed.

Lemma finalize_rewards_total e keeper (s : RS) :
  Forall (fun c => 0 <= pc_net_reward c) (pending_credits_of (store s) keeper) ->
  0 <= keeper_reward_of (store s) keeper ->
  keeper_reward_of (store s) keeper
    + list_sum pc_net_reward (due (ledger_sequence e) (pending_credits_of (store s) keeper))
    <= int_max i128 ->
  exists fin s', finalize_rewards e keeper s = Ok fin s'.
Proof.
  intros Hc H0 Hmax. unfold finalize_rewards, read, gets, mbind at 1, M_bind at 1.
  destruct (pending_credits_of (store s) keeper) as [|c l] eqn:Hp; [by repeat eexists|].
  edestruct (finalize_loop_total (ledger_sequence e) keeper (c :: l) [] [] s)
    as ([rem fin] & s1 & Hr); [by rewrite ?Hp..|].
  unfold mbind at 1, M_bind at 1. rewrite Hr.
  destruct fin; [by repeat eexists|].
  unfold mbind, M_bind. destruct (save_pending_credits keeper rem s1) eqn:Hs; [by repeat eexists|..];
    destruct rem; discriminate Hs.
Qed.

(** ** Pure helpers *)

(** The split is total below the overflow bound, exact, and rounds the fee
    down. *)
Lemma split_reward_inr reward bps net fee :
  0 <= reward -> 0 <= bps <= 10000 -> split_reward reward bps = inr (net, fee) ->
  fee = reward * bps / 10000 /\ net = reward - fee /\ 0 <= fee <= reward.
Proof.
  intros Hr Hb. unfold split_reward. intros Hs. split_matches. run_simpl.
  assert (Hq : Z.quot (reward * bps) 10000 = reward * bps / 10000)
    by (apply Z.quot_div_nonneg; nia).
  rewrite Hq. repeat split; try lia; [apply Z.div_pos; nia|].
  apply Z.div_le_upper_bound; nia.
Qed.

Lemma split_reward_total reward bps :
  0 <= reward -> 0 <= bps <= 10000 -> in_range i128 (reward * bps) -> in_range i128 reward ->
  split_reward reward bps = inr (reward - reward * bps / 10000, reward * bps / 10000).
Proof.
  intros Hr Hb Hm Hi. unfold split_reward, checked_mul, checked_sub.
  rewrite (checked_in_range _ _ Hm).
  rewrite Z.quot_div_nonneg by nia.
  assert (0 <= reward * bps / 10000 <= reward).
  { split; [apply Z.div_pos; nia | apply Z.div_le_upper_bound; nia]. }
  rewrite checked_in_range; [done|]. unfold in_range in *; cbn in *. lia.
Qed.

(** The parameters a registration accepts. *)
Definition valid_params e (reward min_reward deadline calldata_len ttl_ledgers
    lock_ledgers : Z) : Prop :=
  0 < reward /\ min_reward <= reward /\ ledger_timestamp e < deadline /\
  calldata_len <= MAX_CALLDATA_LEN /\
  MIN_LOCK_LEDGERS <= lock_ledgers <= MAX_LOCK_LEDGERS /\
  MIN_TTL_LEDGERS <= ttl_ledgers /\ required_ttl_ledgers e deadline <= ttl_ledgers.

Lemma validate_task_params_inr e reward floor deadline clen ttl lock condition u :
  validate_task_params e reward floor deadline clen ttl lock condition = inr u <->
  valid_params e reward floor deadline clen ttl lock.
Proof.
  unfold validate_task_params, valid_params. destruct u.
  repeat case_bool_decide; cbn; repeat case_bool_decide; cbn; (split; [intros [=]; lia | lia || done]).
Qed.

#[export] Instance runs_validate_task_params e reward floor deadline clen ttl lock condition :
  Runs (lift (validate_task_params e reward floor deadline clen ttl lock condition) : RM unit)
    (fun s _ s' => valid_params e reward floor deadline clen ttl lock /\ s' = s).
Proof.
  eapply runs_proper; [apply _|]. intros s u s'. cbn. by rewrite validate_task_params_inr.
Qed.

Lemma lock_expired_true e task n :
  t_claim_ledger task = Some n -> 0 <= n -> 0 <= t_lock_ledgers task ->
  lock_expired e task = true <->
  Z.min (2 ^ 32 - 1) (n + t_lock_ledgers task) <= ledger_sequence e.
Proof.
  intros Hn H0 Hl. unfold lock_expired. rewrite Hn, bool_decide_eq_true.
  rewrite saturating_add_u32 by done. lia.
Qed.
End Internal.
