(* ===== verification/RegistryReputation.v ===== *)
(** * Keeper registry: reputation

    src/contracts/keeper-registry/src/reputation.rs: the success rate of a
    keeper, its lazy decay, and the floor [claim_task] checks. *)

From S2P Require Import Prelude Host RegistryTypes RegistryInternal.

Definition u32_bits : Z := 32.

(** [ReputationRecord::zero] *)
Definition zero : ReputationRecord := mkReputationRecord 0 0 0 0.

(** [(successes as u128 * 10_000 / actions as u128) as u32] *)
Definition recompute (r : ReputationRecord) : ReputationRecord :=
  let actions := saturating_add u64 (rr_successes r) (rr_missed_claims r) in
  let score_bps :=
    if bool_decide (actions = 0) then 0
    else (rr_successes r * 10000 / actions) mod 2 ^ 32 in
  mkReputationRecord (rr_successes r) (rr_missed_claims r) score_bps (rr_last_updated_ledger r).

Definition stored_record (st : Store) (keeper : Address) : ReputationRecord :=
  default zero (s_reputation st !! keeper).

(** The record [update] writes back. *)
Definition updated_record (e : Env) (success : bool) (r : ReputationRecord) : ReputationRecord :=
  let successes :=
    if success then saturating_add u64 (rr_successes r) 1 else rr_successes r in
  let missed_claims :=
    if success then rr_missed_claims r else saturating_add u64 (rr_missed_claims r) 1 in
  recompute (mkReputationRecord successes missed_claims (rr_score_bps r) (ledger_sequence e)).

Definition reputation_floor_bps (st : Store) : Z := default 0 (s_reputation_floor st).

Definition effective_record (r : ReputationRecord) (current_ledger : Z) : ReputationRecord :=
  let elapsed := saturating_sub u32 current_ledger (rr_last_updated_ledger r) in
  let halvings := elapsed / REPUTATION_DECAY_HALF_LIFE_LEDGERS in
  let score_bps :=
    if bool_decide (halvings >= u32_bits) then 0 else Z.shiftr (rr_score_bps r) halvings in
  mkReputationRecord (rr_successes r) (rr_missed_claims r) score_bps (rr_last_updated_ledger r).

Section Reputation.
Context `{Ledger}.
Implicit Types (e : Env) (keeper : Address).

Definition update_reputation e keeper (success : bool) : RM unit :=
  record ← read (fun st => stored_record st keeper);
  write (fun st => st <| s_reputation ::= <[keeper := updated_record e success record]> |>);;
  log (ExtendPersistent (Reputation (ReputationOf keeper))
         REPUTATION_TTL_THRESHOLD REPUTATION_TTL_LEDGERS).

Definition record_success e keeper : RM unit := update_reputation e keeper true.

Definition record_missed_claim e keeper : RM unit := update_reputation e keeper false.

Definition require_reputation_floor keeper : RM unit :=
  floor ← read reputation_floor_bps;
  if bool_decide (floor = 0) then mret tt else
  record ← read (fun st => stored_record st keeper);
  fail_if (bool_decide (rr_score_bps record < floor)) ReputationBelowFloor.

(** The views of this file. *)
Definition keeper_reputation (st : Store) keeper : ReputationRecord := stored_record st keeper.

Definition effective_reputation e (st : Store) keeper : ReputationRecord :=
  effective_record (stored_record st keeper) (ledger_sequence e).

(** ** Success of each helper *)

(** What [update] leaves in storage. *)
Definition bump_reputation e success keeper (st : Store) : Store :=
  st <| s_reputation ::= <[keeper := updated_record e success (stored_record st keeper)]> |>.

#[export] Instance runs_update_reputation e keeper success :
  Runs (update_reputation e keeper success) (fun s _ s' =>
    s' = s <| store ::= bump_reputation e success keeper |>
           <| effects ::= cons (ExtendPersistent (Reputation (ReputationOf keeper))
                REPUTATION_TTL_THRESHOLD REPUTATION_TTL_LEDGERS) |>).
Proof. runs_solve. Qed.

#[export] Typeclasses Opaque update_reputation record_success record_missed_claim
  require_reputation_floor.

#[export] Instance runs_record_success e keeper :
  Runs (record_success e keeper) (fun s _ s' =>
    s' = s <| store ::= bump_reputation e true keeper |>
           <| effects ::= cons (ExtendPersistent (Reputation (ReputationOf keeper))
                REPUTATION_TTL_THRESHOLD REPUTATION_TTL_LEDGERS) |>).
Proof. exact (runs_update_reputation e keeper true). Qed.

#[export] Instance runs_record_missed_claim e keeper :
  Runs (record_missed_claim e keeper) (fun s _ s' =>
    s' = s <| store ::= bump_reputation e false keeper |>
           <| effects ::= cons (ExtendPersistent (Reputation (ReputationOf keeper))
                REPUTATION_TTL_THRESHOLD REPUTATION_TTL_LEDGERS) |>).
Proof. exact (runs_update_reputation e keeper false). Qed.

(** A floor of zero admits every keeper. *)
Definition meets_floor (st : Store) keeper : Prop :=
  reputation_floor_bps st = 0 \/
  reputation_floor_bps st <= rr_score_bps (stored_record st keeper).

#[export] Instance runs_require_reputation_floor keeper :
  Runs (require_reputation_floor keeper) (fun s _ s' => meets_floor (store s) keeper /\ s' = s).
Proof.
  unfold require_reputation_floor, meets_floor.
  intros s [] s'. split.
  - intros Hr. run; (split; [lia | done]).
  - intros [Hf ->]. apply bind_Ok. do 2 eexists. split; [by apply runs|].
    case_bool_decide; [done|].
    apply bind_Ok. do 2 eexists. split; [by apply runs|].
    apply runs. rewrite bool_decide_eq_false. split; [lia | done].
Qed.
End Reputation.

(** ** The rate and its decay *)

(** A reputation record as the contract writes it. *)
Definition wf_reputation (r : ReputationRecord) : Prop :=
  in_range u64 (rr_successes r) /\ in_range u64 (rr_missed_claims r) /\
  0 <= rr_score_bps r <= 10000 /\ in_range u32 (rr_last_updated_ledger r).

Lemma saturating_add_u64 a b :
  0 <= a -> 0 <= b -> saturating_add u64 a b = Z.min (2 ^ 64 - 1) (a + b).
Proof. unfold saturating_add, clamp; cbn. lia. Qed.

(** The score is the floor of the success rate, in basis points. *)
Lemma recompute_score r :
  in_range u64 (rr_successes r) -> 0 <= rr_missed_claims r ->
  let actions := Z.min (2 ^ 64 - 1) (rr_successes r + rr_missed_claims r) in
  rr_score_bps (recompute r) =
    (if decide (actions = 0) then 0 else rr_successes r * 10000 / actions) /\
  0 <= rr_score_bps (recompute r) <= 10000.
Proof.
  intros [H1 H1'] H2 a. unfold recompute. cbn in H1, H1'.
  rewrite saturating_add_u64 by lia. fold a. cbn [rr_score_bps].
  rewrite <- decide_bool_decide. case_decide; [lia|].
  assert (0 <= rr_successes r * 10000 / a <= 10000).
  { split; [apply Z.div_pos; lia | apply Z.div_le_upper_bound; nia]. }
  rewrite Z.mod_small by lia. lia.
Qed.

Lemma updated_record_wf e success r :
  in_range u32 (ledger_sequence e) -> wf_reputation r -> wf_reputation (updated_record e success r).
Proof.
  intros He ([Hs Hs'] & [Hm Hm'] & _ & _). unfold updated_record, wf_reputation.
  rewrite !saturating_add_u64 by done. cbn in Hs', Hm'.
  split; [|split; [|split; [apply recompute_score|done]]];
    unfold in_range; destruct success; cbn in *; lia.
Qed.

Lemma stored_record_wf st keeper :
  map_Forall (fun _ => wf_reputation) (s_reputation st) -> wf_reputation (stored_record st keeper).
Proof.
  intros Hw. unfold stored_record. destruct (_ !! _) eqn:Hk; cbn; [by eapply Hw|].
  unfold wf_reputation, in_range; cbn. lia.
Qed.

(** The decayed score is the floor of the stored score over [2 ^ n]. *)
Lemma effective_record_div r now :
  0 <= rr_score_bps r < 2 ^ 32 -> 0 <= rr_last_updated_ledger r -> in_range u32 now ->
  rr_score_bps (effective_record r now) =
    rr_score_bps r / 2 ^ (Z.max 0 (now - rr_last_updated_ledger r)
                            / REPUTATION_DECAY_HALF_LIFE_LEDGERS).
Proof.
  intros Hs Hl Hn. unfold effective_record.
  rewrite saturating_sub_nonneg by (cbn in *; unfold in_range in Hn; cbn in Hn; lia).
  set (n := _ / REPUTATION_DECAY_HALF_LIFE_LEDGERS).
  assert (0 <= n) by (apply Z.div_pos; unfold REPUTATION_DECAY_HALF_LIFE_LEDGERS; lia).
  cbn. case_bool_decide as Hb; unfold u32_bits in Hb.
  - symmetry. apply Z.div_small. split; [lia|].
    apply Z.lt_le_trans with (2 ^ 32); [lia|]. apply Z.pow_le_mono_r; lia.
  - by apply Z.shiftr_div_pow2.
Qed.
