(* ===== verification/RegistryTask.v ===== *)
(** * Keeper registry: the task lifecycle

    src/contracts/keeper-registry/src/task.rs: registration, top-up, deadline
    extension, verifier update, claim, execution, the two refund paths and the
    withdrawal of rewards.  The calls into a condition (condition.rs) and a
    verifier (verifier.rs) go through [try_call]. *)

From S2P Require Import Prelude Host RegistryTypes RegistryInternal RegistryReputation.

(** [matches!(result, Ok(Ok(true)))] *)
Definition is_ok_true (result : option Val) : bool :=
  match result with Some (VBool true) => true | _ => false end.

(** The statuses in which a task still holds its escrow. *)
Definition open_status (st : TaskStatus) : bool :=
  match st with Pending | Claimed => true | _ => false end.

Section Task.
Context `{Ledger}.
Implicit Types (e : Env) (owner keeper : Address) (task_id : Z).

(** [TaskConditionClient::try_is_met] *)
Definition try_is_met e (condition : Address) task_id : RM (option Val) :=
  try_call e condition "is_met" [VU64 task_id].

(** [KeeperVerifierClient::try_verify] *)
Definition try_verify e (verifier : Address) task_id keeper (proof : Bytes) : RM (option Val) :=
  try_call e verifier "verify" [VU64 task_id; VAddress keeper; VBytes proof].

Definition register_task e owner (task_type : TaskType) (calldata : Bytes)
    (reward deadline ttl_ledgers lock_ledgers : Z) (verifier condition : option Address) : RM Z :=
  require_not_paused;;
  require_auth e owner;;
  floor ← read min_reward_floor;
  lift (validate_task_params e reward floor deadline (len calldata) ttl_ledgers lock_ledgers
          condition);;
  bump_instance;;
  token ← reward_token;
  token_transfer e token owner (current_contract_address e) reward;;
  task_id ← next_task_id;
  save_task task_id
    (mkTask owner task_type calldata reward deadline ttl_ledgers Pending None None
       lock_ledgers verifier condition);;
  publish (TaskRegistered task_id owner reward deadline condition);;
  mret task_id.

(** The status guards of the entry points below. *)
Definition require_open (task : Task) : RM unit :=
  match t_status task with
  | Pending | Claimed => mret tt
  | _ => fail InvalidTaskStatus
  end.

Definition claimable_from e (task : Task) : RM (option Address) :=
  match t_status task with
  | Pending => mret None
  | Claimed =>
      fail_if (negb (lock_expired e task)) LockPeriodActive;;
      mret (t_claimer task)
  | _ => fail InvalidTaskStatus
  end.

Definition cancellable e (task : Task) : RM unit :=
  match t_status task with
  | Pending => mret tt
  | Claimed => fail_if (negb (lock_expired e task)) LockPeriodActive
  | _ => fail InvalidTaskStatus
  end.

Definition increase_reward e owner task_id (additional : Z) : RM unit :=
  require_not_paused;;
  require_auth e owner;;
  fail_if (bool_decide (additional <= 0)) InvalidReward;;
  task ← load_task task_id;
  fail_if (bool_decide (t_owner task <> owner)) NotTaskOwner;;
  require_open task;;
  bump_instance;;
  token ← reward_token;
  token_transfer e token owner (current_contract_address e) additional;;
  reward ← expect (checked_add i128 (t_reward task) additional);
  save_task task_id (task <| t_reward := reward |>);;
  publish (RewardIncreased task_id reward).

Definition extend_deadline e owner task_id (new_deadline : Z) : RM unit :=
  require_not_paused;;
  require_auth e owner;;
  task ← load_task task_id;
  fail_if (bool_decide (t_owner task <> owner)) NotTaskOwner;;
  require_open task;;
  fail_if (bool_decide (new_deadline <= t_deadline task)) DeadlinePassed;;
  bump_instance;;
  save_task task_id (task <| t_deadline := new_deadline |>);;
  publish (DeadlineExtended task_id new_deadline).

Definition update_verifier e owner task_id (new_verifier : option Address) : RM unit :=
  require_not_paused;;
  require_auth e owner;;
  task ← load_task task_id;
  fail_if (bool_decide (t_owner task <> owner)) NotTaskOwner;;
  fail_if (bool_decide (t_status task <> Pending)) InvalidTaskStatus;;
  bump_instance;;
  save_task task_id (task <| t_verifier := new_verifier |>);;
  publish (VerifierUpdated task_id (t_verifier task) new_verifier).

(** The claim guard on the task's condition. *)
Definition require_condition e task_id (task : Task) : RM unit :=
  match t_condition task with
  | Some condition =>
      result ← try_is_met e condition task_id;
      if is_ok_true result then mret tt
      else publish (TaskConditionNotMet task_id condition);; fail ConditionNotMet
  | None => mret tt
  end.

(** The claim as it is written on the task. *)
Definition claimed_task e keeper (task : Task) : Task :=
  task <| t_status := Claimed |>
       <| t_claimer := Some keeper |>
       <| t_claim_ledger := Some (ledger_sequence e) |>.

Definition claim_task e keeper task_id : RM unit :=
  require_not_paused;;
  require_auth e keeper;;
  min_stake ← read min_stake_floor;
  stake ← read (fun st => keeper_stake_of st keeper);
  fail_if (bool_decide (min_stake > 0) && bool_decide (stake < min_stake)) MinStakeNotMet;;
  task ← load_task task_id;
  fail_if (bool_decide (ledger_timestamp e >= t_deadline task)) DeadlinePassed;;
  missed_claimer ← claimable_from e task;
  require_reputation_floor keeper;;
  require_condition e task_id task;;
  bump_instance;;
  match missed_claimer with
  | Some missed => record_missed_claim e missed
  | None => mret tt
  end;;
  save_task task_id (claimed_task e keeper task);;
  publish (TaskClaimed task_id keeper (ledger_sequence e)).

(** The execution guard on the task's verifier. *)
Definition require_verified e keeper task_id (proof : Bytes) (task : Task) : RM unit :=
  match t_verifier task with
  | Some verifier =>
      result ← try_verify e verifier task_id keeper proof;
      if is_ok_true result then mret tt
      else publish (TaskVerificationFailed task_id keeper);; fail VerificationFailed
  | None => mret tt
  end.

(** Execution's credit: held while a dispute window is configured, withdrawable
    at once otherwise. *)
Definition hold_or_credit e keeper task_id (keeper_net : Z) : RM unit :=
  window ← read dispute_window_ledgers;
  if bool_decide (window > 0) then add_pending_credit e keeper task_id keeper_net window
  else credit_keeper keeper keeper_net.

Definition execute_task e keeper task_id (proof : Bytes) : RM unit :=
  require_not_paused;;
  require_auth e keeper;;
  fail_if (bool_decide (len proof > MAX_PROOF_LEN)) ProofTooLarge;;
  task ← load_task task_id;
  fail_if (bool_decide (t_status task <> Claimed)) InvalidTaskStatus;;
  fail_if (bool_decide (t_claimer task <> Some keeper)) NotTaskClaimer;;
  fail_if (bool_decide (ledger_timestamp e >= t_deadline task)) DeadlinePassed;;
  require_verified e keeper task_id proof task;;
  bump_instance;;
  bps ← read fee_bps;
  split ← lift (split_reward (t_reward task) bps);
  let '(keeper_net, fee) := split in
  hold_or_credit e keeper task_id keeper_net;;
  accrue_fee fee;;
  record_success e keeper;;
  save_task task_id (task <| t_status := Executed |>);;
  publish (TaskExecuted task_id keeper keeper_net proof).

Definition cancel_task e owner task_id : RM unit :=
  require_auth e owner;;
  task ← load_task task_id;
  fail_if (bool_decide (t_owner task <> owner)) NotTaskOwner;;
  cancellable e task;;
  bump_instance;;
  save_task task_id (task <| t_status := Cancelled |>);;
  token ← reward_token;
  token_transfer e token (current_contract_address e) owner (t_reward task);;
  publish (TaskCancelled task_id owner).

Definition expire_task e task_id : RM unit :=
  task ← load_task task_id;
  require_open task;;
  fail_if (bool_decide (ledger_timestamp e < t_deadline task)) DeadlineNotPassed;;
  bump_instance;;
  save_task task_id (task <| t_status := Expired |>);;
  token ← reward_token;
  token_transfer e token (current_contract_address e) (t_owner task) (t_reward task);;
  publish (TaskExpired task_id).

Definition publish_finalized keeper (finalized : list (Z * Z)) : RM unit :=
  for_each finalized (fun '(task_id, amount) => publish (RewardsFinalized keeper task_id amount)).

Definition withdraw_rewards e keeper : RM Z :=
  require_auth e keeper;;
  finalized ← finalize_rewards e keeper;
  publish_finalized keeper finalized;;
  balance ← read (fun st => keeper_reward_of st keeper);
  fail_if (bool_decide (balance <= 0)) NoRewardsAvailable;;
  bump_instance;;
  write (fun st => st <| s_keeper_reward ::= <[keeper := 0]> |>);;
  token ← reward_token;
  token_transfer e token (current_contract_address e) keeper balance;;
  publish (RewardsWithdrawn keeper balance);;
  mret balance.

(** ** Guards *)

#[export] Instance runs_require_open task :
  Runs (require_open task) (fun s _ s' => open_status (t_status task) = true /\ s' = s).
Proof.
  unfold require_open, open_status. case_match; eapply runs_proper; try apply _; cbn; naive_solver.
Qed.

(** The task may be claimed as far as its own state goes; [missed] is the
    claimer a takeover displaces. *)
Definition claim_allowed e (task : Task) (missed : option Address) : Prop :=
  (t_status task = Pending /\ missed = None) \/
  (t_status task = Claimed /\ lock_expired e task = true /\ missed = t_claimer task).

#[export] Instance runs_claimable_from e task :
  Runs (claimable_from e task) (fun s missed s' => claim_allowed e task missed /\ s' = s).
Proof.
  unfold claimable_from, claim_allowed. intros s a s'.
  case_match; (split; [intros Hr; run; naive_solver|]); try naive_solver.
  intros [[[]|(_ & Hl & ->)] ->]; [done|]. rewrite Hl. done.
Qed.

#[export] Instance runs_cancellable e task :
  Runs (cancellable e task) (fun s _ s' =>
    (t_status task = Pending \/ t_status task = Claimed /\ lock_expired e task = true) /\ s' = s).
Proof.
  unfold cancellable. intros s [] s'.
  case_match; (split; [intros Hr; run; naive_solver|]); try naive_solver.
  intros [[|[_ Hl]] ->]; [done|]. rewrite Hl. done.
Qed.

(** The verdict of a task's condition or verifier and the chain after asking
    for it; a task without one passes. *)
Definition verdict (l : ledger) e (callee : option Address) (f : string) (args : list Val)
    : bool * ledger :=
  match callee with
  | Some c => let '(r, l') := try_invoke l e c f args in (is_ok_true r, l')
  | None => (true, l)
  end.

#[export] Instance runs_require_condition e task_id task :
  Runs (require_condition e task_id task) (fun s _ s' =>
    exists l, verdict (chain s) e (t_condition task) "is_met" [VU64 task_id] = (true, l) /\
      s' = s <| chain := l |>).
Proof.
  unfold require_condition, try_is_met, verdict. intros s [] s'. case_match.
  - unfold mbind, M_bind, try_call. destruct (try_invoke _ _ _ _ _) as [r l].
    destruct (is_ok_true r); cbn; unfold mret, M_ret, publish, log, modify, fail; naive_solver.
  - unfold mret, M_ret. destruct s; naive_solver.
Qed.

#[export] Instance runs_require_verified e keeper task_id proof task :
  Runs (require_verified e keeper task_id proof task) (fun s _ s' =>
    exists l, verdict (chain s) e (t_verifier task) "verify"
                [VU64 task_id; VAddress keeper; VBytes proof] = (true, l) /\
      s' = s <| chain := l |>).
Proof.
  unfold require_verified, try_verify, verdict. intros s [] s'. case_match.
  - unfold mbind, M_bind, try_call. destruct (try_invoke _ _ _ _ _) as [r l].
    destruct (is_ok_true r); cbn; unfold mret, M_ret, publish, log, modify, fail; naive_solver.
  - unfold mret, M_ret. destruct s; naive_solver.
Qed.

(** The keeper's share of a task in storage: held as a pending credit while a
    dispute window is configured, withdrawable at once otherwise. *)
Definition pay_keeper e keeper task_id (net : Z) (st : Store) : Store :=
  let window := dispute_window_ledgers st in
  if bool_decide (window > 0)
  then st <| s_pending_reward ::=
         <[keeper := pending_credits_of st keeper ++ [new_credit e task_id net window]]> |>
  else st <| s_keeper_reward ::= <[keeper := keeper_reward_of st keeper + net]> |>.

Lemma pay_keeper_fees e keeper task_id net st :
  s_fees_accrued (pay_keeper e keeper task_id net st) = s_fees_accrued st.
Proof. unfold pay_keeper. by case_bool_decide. Qed.

#[export] Instance runs_hold_or_credit e keeper task_id net :
  Runs (hold_or_credit e keeper task_id net) (fun s _ s' =>
    (0 < dispute_window_ledgers (store s) \/
     in_range i128 (keeper_reward_of (store s) keeper + net)) /\
    s' = s <| store ::= pay_keeper e keeper task_id net |>
           <| effects ::= cons (ExtendPersistent
                (Data (if bool_decide (dispute_window_ledgers (store s) > 0)
                       then PendingReward keeper else KeeperReward keeper))
                KEEPER_BALANCE_BUMP_THRESHOLD KEEPER_BALANCE_BUMP_LEDGERS) |>).
Proof.
  unfold hold_or_credit, pay_keeper. intros s [] s'.
  unfold mbind, M_bind, read, gets. case_bool_decide as Hw.
  - rewrite (runs (m:=add_pending_credit _ _ _ _ _)). unfold update_store. cbn.
    rewrite bool_decide_true by done. split; [intros ->; split; [lia|done] | by intros [_ ->]].
  - rewrite (runs (m:=credit_keeper _ _)). unfold update_store. cbn.
    rewrite bool_decide_false by done.
    split; [intros [? ->]; by split; [right|] | intros [[?|?] ->]; [lia|done]].
Qed.

(** The events of one finalization, newest first. *)
Definition finalized_events keeper (l : list (Z * Z)) : list Event :=
  reverse ((fun '(task_id, amount) => RewardsFinalized keeper task_id amount) <$> l).

#[export] Instance ensures_publish_finalized keeper l :
  Ensures (publish_finalized keeper l) (fun s _ s' =>
    store s' = store s /\ chain s' = chain s /\
    events s' = finalized_events keeper l ++ events s).
Proof.
  unfold publish_finalized. induction l as [|[i a] l IH]; intros s u s' Hr; cbn in Hr.
  - by run.
  - apply bind_Ok in Hr as ([] & s1 & H1 & H2). apply runs in H1. subst s1.
    apply IH in H2 as (-> & -> & ->). split; [done|]. split; [done|].
    unfold finalized_events. by rewrite fmap_cons, reverse_cons, <- app_assoc.
Qed.

#[export] Typeclasses Opaque try_is_met try_verify register_task require_open claimable_from cancellable increase_reward extend_deadline update_verifier require_condition claim_task require_verified hold_or_credit execute_task cancel_task expire_task publish_finalized withdraw_rewards.

Lemma for_each_publish_total keeper l (s : RS) : exists s', publish_finalized keeper l s = Ok tt s'.
Proof.
  unfold publish_finalized. revert s. induction l as [|[i a] l IH]; intros s; [by eexists|].
  destruct (IH (s <| effects ::= cons (Publish (RewardsFinalized keeper i a)) |>)) as [s' Hs'].
  by exists s'.
Qed.

(** ** Specifications of the entry points *)

#[export] Instance ensures_register_task e owner ty calldata reward deadline ttl lock verifier condition :
  Ensures (register_task e owner ty calldata reward deadline ttl lock verifier condition)
    (fun s task_id s' => exists token l,
      default false (s_paused (store s)) = false /\
      authorized e owner = true /\
      valid_params e reward (min_reward_floor (store s)) deadline (len calldata) ttl lock /\
      s_reward_token (store s) = Some token /\
      transfer (chain s) e token owner (current_contract_address e) reward = Some l /\
      task_id = default 0 (s_task_counter (store s)) + 1 /\ in_range u64 task_id /\
      store s' = (store s)
        <| s_task_counter := Some task_id |>
        <| s_task ::= <[task_id := mkTask owner ty calldata reward deadline ttl Pending None None
                                     lock verifier condition]> |> /\
      chain s' = l /\
      events s' = TaskRegistered task_id owner reward deadline condition :: events s).
Proof. ensures_solve. Qed.

#[export] Instance ensures_increase_reward e owner task_id additional :
  Ensures (increase_reward e owner task_id additional) (fun s _ s' => exists task token l,
    default false (s_paused (store s)) = false /\ authorized e owner = true /\
    0 < additional /\
    s_task (store s) !! task_id = Some task /\ t_owner task = owner /\ open_status (t_status task) = true /\
    s_reward_token (store s) = Some token /\
    transfer (chain s) e token owner (current_contract_address e) additional = Some l /\
    in_range i128 (t_reward task + additional) /\
    store s' = (store s) <| s_task ::= <[task_id := task <| t_reward := t_reward task + additional |>]> |> /\
    chain s' = l /\
    events s' = RewardIncreased task_id (t_reward task + additional) :: events s).
Proof. ensures_solve. Qed.

#[export] Instance ensures_extend_deadline e owner task_id new_deadline :
  Ensures (extend_deadline e owner task_id new_deadline) (fun s _ s' => exists task,
    default false (s_paused (store s)) = false /\ authorized e owner = true /\
    s_task (store s) !! task_id = Some task /\ t_owner task = owner /\ open_status (t_status task) = true /\
    t_deadline task < new_deadline /\
    store s' = (store s) <| s_task ::= <[task_id := task <| t_deadline := new_deadline |>]> |> /\
    chain s' = chain s /\
    events s' = DeadlineExtended task_id new_deadline :: events s).
Proof. ensures_solve. Qed.

#[export] Instance ensures_update_verifier e owner task_id new_verifier :
  Ensures (update_verifier e owner task_id new_verifier) (fun s _ s' => exists task,
    default false (s_paused (store s)) = false /\ authorized e owner = true /\
    s_task (store s) !! task_id = Some task /\ t_owner task = owner /\ t_status task = Pending /\
    store s' = (store s) <| s_task ::= <[task_id := task <| t_verifier := new_verifier |>]> |> /\
    chain s' = chain s /\
    events s' = VerifierUpdated task_id (t_verifier task) new_verifier :: events s).
Proof. ensures_solve. Qed.

(** A claim in storage: the displaced claimer's miss, then the task. *)
Definition claim_store e keeper task_id (task : Task) (missed : option Address) (st : Store) : Store :=
  (from_option (fun k => bump_reputation e false k st) st missed)
    <| s_task ::= <[task_id := claimed_task e keeper task]> |>.

#[export] Instance ensures_claim_task e keeper task_id :
  Ensures (claim_task e keeper task_id) (fun s _ s' => exists task missed,
    default false (s_paused (store s)) = false /\ authorized e keeper = true /\
    (0 < min_stake_floor (store s) -> min_stake_floor (store s) <= keeper_stake_of (store s) keeper) /\
    s_task (store s) !! task_id = Some task /\
    ledger_timestamp e < t_deadline task /\
    claim_allowed e task missed /\
    meets_floor (store s) keeper /\
    verdict (chain s) e (t_condition task) "is_met" [VU64 task_id] = (true, chain s') /\
    store s' = claim_store e keeper task_id task missed (store s) /\
    events s' = TaskClaimed task_id keeper (ledger_sequence e) :: events s).
Proof. ensures_solve; intros; lia. Qed.

Definition execute_store e keeper task_id (task : Task) (net fee : Z) (st : Store) : Store :=
  (bump_reputation e true keeper (accrued fee (pay_keeper e keeper task_id net st)))
    <| s_task ::= <[task_id := task <| t_status := Executed |>]> |>.

#[export] Instance ensures_execute_task e keeper task_id proof :
  Ensures (execute_task e keeper task_id proof) (fun s _ s' => exists task net fee,
    default false (s_paused (store s)) = false /\ authorized e keeper = true /\
    len proof <= MAX_PROOF_LEN /\
    s_task (store s) !! task_id = Some task /\
    t_status task = Claimed /\ t_claimer task = Some keeper /\
    ledger_timestamp e < t_deadline task /\
    verdict (chain s) e (t_verifier task) "verify"
      [VU64 task_id; VAddress keeper; VBytes proof] = (true, chain s') /\
    split_reward (t_reward task) (fee_bps (store s)) = inr (net, fee) /\
    (0 < dispute_window_ledgers (store s) \/
     in_range i128 (keeper_reward_of (store s) keeper + net)) /\
    (fee = 0 \/ in_range i128 (fees_accrued (store s) + fee)) /\
    store s' = execute_store e keeper task_id task net fee (store s) /\
    events s' = TaskExecuted task_id keeper net proof :: events s).
Proof. ensures_solve. unfold fees_accrued in *. by rewrite pay_keeper_fees in *. Qed.

#[export] Instance ensures_cancel_task e owner task_id :
  Ensures (cancel_task e owner task_id) (fun s _ s' => exists task token l,
    authorized e owner = true /\
    s_task (store s) !! task_id = Some task /\ t_owner task = owner /\
    (t_status task = Pending \/ t_status task = Claimed /\ lock_expired e task = true) /\
    s_reward_token (store s) = Some token /\
    transfer (chain s) e token (current_contract_address e) owner (t_reward task) = Some l /\
    store s' = (store s) <| s_task ::= <[task_id := task <| t_status := Cancelled |>]> |> /\
    chain s' = l /\ events s' = TaskCancelled task_id owner :: events s).
Proof. ensures_solve. Qed.

#[export] Instance ensures_expire_task e task_id :
  Ensures (expire_task e task_id) (fun s _ s' => exists task token l,
    s_task (store s) !! task_id = Some task /\ open_status (t_status task) = true /\
    t_deadline task <= ledger_timestamp e /\
    s_reward_token (store s) = Some token /\
    transfer (chain s) e token (current_contract_address e) (t_owner task) (t_reward task) = Some l /\
    store s' = (store s) <| s_task ::= <[task_id := task <| t_status := Expired |>]> |> /\
    chain s' = l /\ events s' = TaskExpired task_id :: events s).
Proof. ensures_solve. Qed.

#[export] Instance ensures_withdraw_rewards e keeper :
  Ensures (withdraw_rewards e keeper) (fun s amount s' => exists token l,
    let st := finalized_store e keeper (store s) in
    authorized e keeper = true /\
    amount = keeper_reward_of st keeper /\ 0 < amount /\
    s_reward_token (store s) = Some token /\
    transfer (chain s) e token (current_contract_address e) keeper amount = Some l /\
    store s' = st <| s_keeper_reward ::= <[keeper := 0]> |> /\
    chain s' = l /\
    events s' = RewardsWithdrawn keeper amount ::
      finalized_events keeper
        (map (fun c => (pc_task_id c, pc_net_reward c))
           (due (ledger_sequence e) (pending_credits_of (store s) keeper))) ++ events s).
Proof.
  unfold withdraw_rewards. intros s a s' Hr. run.
  match goal with
  | Hf : store ?s1 = finalized_store _ _ _, Hp : store _ = store ?s1 |- _ =>
      rewrite Hf in Hp; rewrite Hp, ?finalized_store_token in *
  end.
  eexists _, _. split_and!; eauto; try congruence.
  apply (f_equal (cons _)).
  match goal with Hv : events ?s2 = _ ++ _ |- _ => trans (events s2); [done | congruence] end.
Qed.
End Task.
