(* ===== verification/RegistryStaking.v ===== *)
(** * Keeper registry: staking, slashing and execution disputes

    src/contracts/keeper-registry/src/staking.rs. *)

From S2P Require Import Prelude Host RegistryTypes RegistryInternal.

Section Staking.
Context `{Ledger}.
Implicit Types (e : Env) (owner keeper admin treasury : Address).

Definition bump_balance (k : DataKey) : RM unit :=
  extend_ttl k KEEPER_BALANCE_BUMP_THRESHOLD KEEPER_BALANCE_BUMP_LEDGERS.

Definition stake_deposit e keeper (amount : Z) : RM unit :=
  require_initialized;;
  require_not_paused;;
  fail_if (bool_decide (amount <= 0)) InvalidReward;;
  require_auth e keeper;;
  bump_instance;;
  current ← read (fun st => keeper_stake_of st keeper);
  updated ← ok_or (checked_add i128 current amount) ArithmeticOverflow;
  write (fun st => st <| s_keeper_stake ::= <[keeper := updated]> |>);;
  bump_balance (KeeperStake keeper);;
  token ← reward_token;
  token_transfer e token keeper (current_contract_address e) amount;;
  publish (StakeDeposited keeper amount updated).

Definition initiate_unbond e keeper (amount : Z) : RM unit :=
  require_initialized;;
  require_not_paused;;
  fail_if (bool_decide (amount <= 0)) InvalidReward;;
  require_auth e keeper;;
  current_stake ← read (fun st => keeper_stake_of st keeper);
  fail_if (bool_decide (amount > current_stake)) InsufficientStake;;
  pending ← read (fun st => s_unbond_request st !! keeper);
  fail_if (bool_decide (is_Some pending)) UnbondAlreadyPending;;
  bump_instance;;
  remaining ← ok_or (checked_sub i128 current_stake amount) ArithmeticOverflow;
  write (fun st => st <| s_keeper_stake ::= <[keeper := remaining]> |>);;
  bump_balance (KeeperStake keeper);;
  let unlock_ledger := saturating_add u32 (ledger_sequence e) UNBOND_DELAY_LEDGERS in
  write (fun st => st <| s_unbond_request ::= <[keeper := mkUnbondRequest amount unlock_ledger]> |>);;
  bump_balance (UnbondRequestKey keeper);;
  publish (UnbondInitiated keeper amount unlock_ledger).

Definition withdraw_stake e keeper : RM Z :=
  require_initialized;;
  require_auth e keeper;;
  pending ← read (fun st => s_unbond_request st !! keeper);
  request ← ok_or pending NoPendingUnbond;
  fail_if (bool_decide (ledger_sequence e < ur_unlock_ledger request)) UnbondNotReady;;
  bump_instance;;
  write (fun st => st <| s_unbond_request ::= delete keeper |>);;
  token ← reward_token;
  token_transfer e token (current_contract_address e) keeper (ur_amount request);;
  publish (StakeWithdrawn keeper (ur_amount request));;
  mret (ur_amount request).

(** The part of a slash drawn from a pending unbond request. *)
Definition draw_unbond keeper (pending_unbond : option UnbondRequest) (from_unbond : Z) : RM unit :=
  if bool_decide (from_unbond > 0) then
    request ← ok_or pending_unbond ArithmeticOverflow;
    remaining_unbond ← ok_or (checked_sub i128 (ur_amount request) from_unbond) ArithmeticOverflow;
    if bool_decide (remaining_unbond = 0) then
      write (fun st => st <| s_unbond_request ::= delete keeper |>)
    else
      write (fun st => st <| s_unbond_request ::=
               <[keeper := request <| ur_amount := remaining_unbond |>]> |>);;
      bump_balance (UnbondRequestKey keeper)
  else mret tt.

Definition slash e admin keeper (amount : Z) (reason : Symbol) treasury : RM Z :=
  require_admin e admin;;
  fail_if (bool_decide (amount <= 0)) InvalidReward;;
  current_stake ← read (fun st => keeper_stake_of st keeper);
  pending_unbond ← read (fun st => s_unbond_request st !! keeper);
  let pending_unbond_amount := from_option ur_amount 0 pending_unbond in
  total_slashable ← ok_or (checked_add i128 current_stake pending_unbond_amount) ArithmeticOverflow;
  fail_if (bool_decide (amount > total_slashable)) InsufficientStake;;
  bump_instance;;
  let from_stake := Z.min amount current_stake in
  remaining_stake ← ok_or (checked_sub i128 current_stake from_stake) ArithmeticOverflow;
  write (fun st => st <| s_keeper_stake ::= <[keeper := remaining_stake]> |>);;
  bump_balance (KeeperStake keeper);;
  from_unbond ← ok_or (checked_sub i128 amount from_stake) ArithmeticOverflow;
  draw_unbond keeper pending_unbond from_unbond;;
  slash_id ← next_slash_id;
  write (fun st => st <| s_slash ::=
           <[slash_id := mkSlashRecord keeper amount reason (ledger_sequence e) false]> |>);;
  bump_balance (SlashKey slash_id);;
  write_slash_history keeper amount;;
  token ← reward_token;
  token_transfer e token (current_contract_address e) treasury amount;;
  publish (Slashed slash_id keeper amount reason);;
  mret slash_id.

Definition set_min_stake e admin (min_stake : Z) : RM unit :=
  require_admin e admin;;
  fail_if (bool_decide (min_stake < 0)) InvalidReward;;
  bump_instance;;
  old_min ← read min_stake_floor;
  write (fun st => st <| s_min_stake := Some min_stake |>);;
  publish (MinStakeUpdated old_min min_stake).

Definition raise_slash_appeal e keeper (slash_id : Z) : RM unit :=
  require_auth e keeper;;
  stored ← read (fun st => s_slash st !! slash_id);
  record ← ok_or stored SlashNotFound;
  fail_if (bool_decide (sr_keeper record <> keeper)) NotSlashedKeeper;;
  fail_if (sr_appealed record) AppealAlreadyRaised;;
  let appeal_deadline := saturating_add u32 (sr_ledger record) DISPUTE_WINDOW_LEDGERS in
  fail_if (bool_decide (ledger_sequence e > appeal_deadline)) AppealWindowClosed;;
  bump_instance;;
  write (fun st => st <| s_slash ::= <[slash_id := record <| sr_appealed := true |>]> |>);;
  bump_balance (SlashKey slash_id);;
  publish (SlashAppealRaised slash_id keeper).

(** The refund of an upheld appeal. *)
Definition refund_slash e admin (record : SlashRecord) : RM unit :=
  current ← read (fun st => keeper_stake_of st (sr_keeper record));
  restored ← ok_or (checked_add i128 current (sr_amount record)) ArithmeticOverflow;
  write (fun st => st <| s_keeper_stake ::= <[sr_keeper record := restored]> |>);;
  bump_balance (KeeperStake (sr_keeper record));;
  token ← reward_token;
  token_transfer e token admin (current_contract_address e) (sr_amount record).

Definition resolve_slash_appeal e admin (slash_id : Z) (uphold_appeal : bool) : RM unit :=
  require_admin e admin;;
  stored ← read (fun st => s_slash st !! slash_id);
  record ← ok_or stored SlashNotFound;
  fail_if (negb (sr_appealed record)) SlashNotFound;;
  bump_instance;;
  write (fun st => st <| s_slash ::= delete slash_id |>);;
  (if uphold_appeal then refund_slash e admin record else mret tt);;
  publish (SlashAppealResolved slash_id uphold_appeal).

Definition set_dispute_window e admin (ledgers : Z) : RM unit :=
  require_admin e admin;;
  fail_if (bool_decide (ledgers > MAX_EXECUTION_DISPUTE_WINDOW_LEDGERS)) InvalidTaskParams;;
  bump_instance;;
  old_ledgers ← read dispute_window_ledgers;
  write (fun st => st <| s_dispute_window := Some ledgers |>);;
  publish (DisputeWindowUpdated old_ledgers ledgers).

Definition dispute_execution e owner (task_id : Z) : RM unit :=
  require_auth e owner;;
  task ← load_task task_id;
  fail_if (bool_decide (t_owner task <> owner)) NotTaskOwner;;
  keeper ← ok_or (t_claimer task) NoPendingCredit;
  credits ← read (fun st => pending_credits_of st keeper);
  index ← ok_or (position (fun c => bool_decide (pc_task_id c = task_id)) credits) NoPendingCredit;
  credit ← ok_or (credits !! index) NoPendingCredit;
  fail_if (pc_disputed credit) ExecutionAlreadyDisputed;;
  fail_if (bool_decide (ledger_sequence e >= pc_unlock_ledger credit)) DisputeWindowClosed;;
  bump_instance;;
  write (fun st => st <| s_pending_reward ::=
           <[keeper := <[index := credit <| pc_disputed := true |>]> credits]> |>);;
  bump_balance (PendingReward keeper);;
  publish (ExecutionDisputed task_id keeper).

Definition resolve_execution_dispute e admin (task_id : Z) (uphold_dispute : bool) : RM unit :=
  require_admin e admin;;
  task ← load_task task_id;
  keeper ← ok_or (t_claimer task) NoDisputedCredit;
  credits ← read (fun st => pending_credits_of st keeper);
  index ← ok_or (position (fun c => bool_decide (pc_task_id c = task_id) && pc_disputed c) credits)
            NoDisputedCredit;
  bump_instance;;
  acc ← for_fold (enumerate 0 credits) ([], 0) (fun '(remaining, forfeited) '(i, c) =>
    if bool_decide (i = index) then
      if uphold_dispute then
        forfeited' ← ok_or (checked_add i128 forfeited (pc_net_reward c)) ArithmeticOverflow;
        mret (remaining, forfeited')
      else mret (remaining ++ [c <| pc_disputed := false |>], forfeited)
    else mret (remaining ++ [c], forfeited));
  let '(remaining, forfeited) := acc in
  save_pending_credits keeper remaining;;
  (if bool_decide (forfeited > 0) then accrue_fee forfeited else mret tt);;
  publish (ExecutionDisputeResolved task_id uphold_dispute).
#[export] Typeclasses Opaque bump_balance draw_unbond refund_slash.

#[export] Typeclasses Opaque stake_deposit initiate_unbond withdraw_stake slash set_min_stake raise_slash_appeal resolve_slash_appeal set_dispute_window dispute_execution resolve_execution_dispute.

(** ** Specifications *)

#[export] Instance runs_bump_balance k :
  Runs (bump_balance k) (fun s _ s' =>
    s' = s <| effects ::= cons (ExtendPersistent (Data k)
                KEEPER_BALANCE_BUMP_THRESHOLD KEEPER_BALANCE_BUMP_LEDGERS) |>).
Proof. unfold bump_balance. apply _. Qed.

#[export] Instance ensures_stake_deposit e keeper amount :
  Ensures (stake_deposit e keeper amount) (fun s _ s' => exists token l,
    let total := keeper_stake_of (store s) keeper + amount in
    is_Some (s_admin (store s)) /\ default false (s_paused (store s)) = false /\
    0 < amount /\ authorized e keeper = true /\ in_range i128 total /\
    s_reward_token (store s) = Some token /\
    transfer (chain s) e token keeper (current_contract_address e) amount = Some l /\
    store s' = (store s) <| s_keeper_stake ::= <[keeper := total]> |> /\
    chain s' = l /\ events s' = StakeDeposited keeper amount total :: events s).
Proof. ensures_solve. Qed.

(** The request [initiate_unbond] records. *)
Definition new_unbond e (amount : Z) : UnbondRequest :=
  mkUnbondRequest amount (saturating_add u32 (ledger_sequence e) UNBOND_DELAY_LEDGERS).

#[export] Instance ensures_initiate_unbond e keeper amount :
  Ensures (initiate_unbond e keeper amount) (fun s _ s' =>
    let stake := keeper_stake_of (store s) keeper in
    is_Some (s_admin (store s)) /\ default false (s_paused (store s)) = false /\
    0 < amount <= stake /\ authorized e keeper = true /\
    s_unbond_request (store s) !! keeper = None /\
    store s' = (store s) <| s_keeper_stake ::= <[keeper := stake - amount]> |>
                 <| s_unbond_request ::= <[keeper := new_unbond e amount]> |> /\
    chain s' = chain s /\
    events s' = UnbondInitiated keeper amount (ur_unlock_ledger (new_unbond e amount)) :: events s).
Proof. ensures_solve. by apply eq_None_not_Some. Qed.

#[export] Instance ensures_withdraw_stake e keeper :
  Ensures (withdraw_stake e keeper) (fun s amount s' => exists unlock token l,
    is_Some (s_admin (store s)) /\ authorized e keeper = true /\
    s_unbond_request (store s) !! keeper = Some (mkUnbondRequest amount unlock) /\
    unlock <= ledger_sequence e /\
    s_reward_token (store s) = Some token /\
    transfer (chain s) e token (current_contract_address e) keeper amount = Some l /\
    store s' = (store s) <| s_unbond_request ::= delete keeper |> /\
    chain s' = l /\ events s' = StakeWithdrawn keeper amount :: events s).
Proof. ensures_solve; match goal with H : _ !! _ = Some ?r |- _ => by destruct r end. Qed.

(** The unbond requests after [amount] is drawn from [keeper]'s one. *)
Definition drawn keeper (pending : option UnbondRequest) (amount : Z)
    (m : gmap Address UnbondRequest) : gmap Address UnbondRequest :=
  match pending with
  | Some r =>
      if bool_decide (0 < amount) then
        if bool_decide (ur_amount r - amount = 0) then delete keeper m
        else <[keeper := r <| ur_amount := ur_amount r - amount |>]> m
      else m
  | None => m
  end.

Definition drawn_effects keeper (pending : option UnbondRequest) (amount : Z)
    : list (Effect Key Event) :=
  if bool_decide (amount <= 0) || bool_decide (from_option ur_amount 0 pending - amount = 0) then []
  else [ExtendPersistent (Data (UnbondRequestKey keeper))
          KEEPER_BALANCE_BUMP_THRESHOLD KEEPER_BALANCE_BUMP_LEDGERS].

#[export] Instance runs_draw_unbond keeper pending amount :
  Runs (draw_unbond keeper pending amount) (fun s _ s' =>
    (0 < amount -> exists r, pending = Some r /\ in_range i128 (ur_amount r - amount)) /\
    s' = s <| store ::= fun st => st <| s_unbond_request ::= drawn keeper pending amount |> |>
           <| effects ::= app (drawn_effects keeper pending amount) |>).
Proof.
  unfold draw_unbond, drawn, drawn_effects. intros s [] s'.
  destruct (decide (0 < amount)) as [Ha|Ha].
  - rewrite (bool_decide_true (amount > 0)), (bool_decide_true (0 < amount)),
      (bool_decide_false (amount <= 0)) by lia.
    destruct pending as [r|].
    2:{ split; [by intros Hr; run | by intros [(? & ? & _) _]]. }
    cbn [ok_or]. unfold mbind, M_bind, mret, M_ret, checked_sub, checked. case_decide; cbn.
    2:{ split; [done | intros [(? & [= <-] & ?) _]; done]. }
    case_bool_decide; cbn; destruct s;
      (split; [intros [= <-]; split; [by eexists | done] | by intros [_ ->]]).
  - rewrite (bool_decide_false (amount > 0)), (bool_decide_false (0 < amount)),
      (bool_decide_true (amount <= 0)) by lia. unfold mret, M_ret.
    destruct s as [[] ef ch], pending; cbn; (split; [intros Hr; split; [lia|by simplify_eq]|]);
      intros [_ ->]; done.
Qed.

#[export] Instance ensures_slash e admin keeper amount reason treasury :
  Ensures (slash e admin keeper amount reason treasury) (fun s id s' => exists token l,
    let st := store s in
    let stake := keeper_stake_of st keeper in
    let from_stake := Z.min amount stake in
    let h := read_slash_history st keeper in
    s_admin st = Some admin /\ authorized e admin = true /\
    0 < amount <= stake + from_option ur_amount 0 (s_unbond_request st !! keeper) /\
    s_reward_token st = Some token /\
    transfer (chain s) e token (current_contract_address e) treasury amount = Some l /\
    id = default 0 (s_slash_counter st) + 1 /\ in_range u64 id /\
    in_range u32 (sh_count h + 1) /\ in_range i128 (sh_total_slashed h + amount) /\
    store s' = st
      <| s_keeper_stake ::= <[keeper := stake - from_stake]> |>
      <| s_unbond_request ::= drawn keeper (s_unbond_request st !! keeper) (amount - from_stake) |>
      <| s_slash_counter := Some id |>
      <| s_slash ::= <[id := mkSlashRecord keeper amount reason (ledger_sequence e) false]> |>
      <| s_slash_history ::=
           <[keeper := mkSlashHistory (sh_count h + 1) (sh_total_slashed h + amount)]> |> /\
    chain s' = l /\ events s' = Slashed id keeper amount reason :: events s).
Proof. ensures_solve. unfold drawn_effects. by destruct (_ || _). Qed.

#[export] Instance ensures_set_min_stake e admin min_stake :
  Ensures (set_min_stake e admin min_stake) (fun s _ s' =>
    s_admin (store s) = Some admin /\ authorized e admin = true /\ 0 <= min_stake /\
    store s' = (store s) <| s_min_stake := Some min_stake |> /\
    chain s' = chain s /\
    events s' = MinStakeUpdated (min_stake_floor (store s)) min_stake :: events s).
Proof. ensures_solve. Qed.

#[export] Instance ensures_raise_slash_appeal e keeper slash_id :
  Ensures (raise_slash_appeal e keeper slash_id) (fun s _ s' => exists record,
    authorized e keeper = true /\
    s_slash (store s) !! slash_id = Some record /\ sr_keeper record = keeper /\
    sr_appealed record = false /\
    ledger_sequence e <= saturating_add u32 (sr_ledger record) DISPUTE_WINDOW_LEDGERS /\
    store s' = (store s) <| s_slash ::= <[slash_id := record <| sr_appealed := true |>]> |> /\
    chain s' = chain s /\ events s' = SlashAppealRaised slash_id keeper :: events s).
Proof. ensures_solve. Qed.

(** The refund of an upheld appeal in storage. *)
Definition refunded (record : SlashRecord) (st : Store) : Store :=
  st <| s_keeper_stake ::=
          <[sr_keeper record := keeper_stake_of st (sr_keeper record) + sr_amount record]> |>.

#[export] Instance ensures_resolve_slash_appeal e admin slash_id uphold :
  Ensures (resolve_slash_appeal e admin slash_id uphold) (fun s _ s' => exists record,
    s_admin (store s) = Some admin /\ authorized e admin = true /\
    s_slash (store s) !! slash_id = Some record /\ sr_appealed record = true /\
    events s' = SlashAppealResolved slash_id uphold :: events s /\
    let st := (store s) <| s_slash ::= delete slash_id |> in
    if uphold then exists token,
      in_range i128 (keeper_stake_of (store s) (sr_keeper record) + sr_amount record) /\
      s_reward_token (store s) = Some token /\
      transfer (chain s) e token admin (current_contract_address e) (sr_amount record)
        = Some (chain s') /\
      store s' = refunded record st
    else store s' = st /\ chain s' = chain s).
Proof.
  unfold resolve_slash_appeal, refund_slash, refunded. intros s [] s' Hr.
  destruct uphold; run; eexists; split_and!; eauto; by eexists.
Qed.

#[export] Instance ensures_set_dispute_window e admin ledgers :
  Ensures (set_dispute_window e admin ledgers) (fun s _ s' =>
    s_admin (store s) = Some admin /\ authorized e admin = true /\
    ledgers <= MAX_EXECUTION_DISPUTE_WINDOW_LEDGERS /\
    store s' = (store s) <| s_dispute_window := Some ledgers |> /\
    chain s' = chain s /\
    events s' = DisputeWindowUpdated (dispute_window_ledgers (store s)) ledgers :: events s).
Proof. ensures_solve. Qed.

#[export] Instance ensures_dispute_execution e owner task_id :
  Ensures (dispute_execution e owner task_id) (fun s _ s' => exists task keeper index credit,
    let credits := pending_credits_of (store s) keeper in
    authorized e owner = true /\
    s_task (store s) !! task_id = Some task /\ t_owner task = owner /\
    t_claimer task = Some keeper /\
    credits !! index = Some credit /\ pc_task_id credit = task_id /\ pc_disputed credit = false /\
    ledger_sequence e < pc_unlock_ledger credit /\
    store s' = (store s) <| s_pending_reward ::=
      <[keeper := <[index := credit <| pc_disputed := true |>]> credits]> |> /\
    chain s' = chain s /\ events s' = ExecutionDisputed task_id keeper :: events s).
Proof.
  unfold dispute_execution. intros s [] s' Hr. run.
  match goal with Hp : position _ _ = Some _ |- _ =>
    apply position_Some in Hp as (c & Hc & Hid & _) end.
  apply bool_decide_eq_true in Hid. simplify_eq. repeat eexists; eauto.
Qed.

(** The credits after the dispute over the one at [index] is resolved. *)
Definition resolved (uphold : bool) (index : nat) (credit : PendingCredit)
    (credits : list PendingCredit) : list PendingCredit :=
  if uphold then delete index credits else <[index := credit <| pc_disputed := false |>]> credits.

Lemma resolve_loop index uphold credits i rem forfeited (s : RS) r s' :
  for_fold (enumerate i credits) (rem, forfeited) (fun '(remaining, forfeited) '(i, c) =>
    if bool_decide (i = index) then
      if (uphold : bool) then
        forfeited' ← ok_or (checked_add i128 forfeited (pc_net_reward c)) ArithmeticOverflow;
        mret (remaining, forfeited')
      else mret (remaining ++ [c <| pc_disputed := false |>], forfeited)
    else mret (remaining ++ [c], forfeited)) s = Ok r s' ->
  s' = s /\
  if decide (i <= index)%nat then
    match credits !! (index - i)%nat with
    | Some c => r = (rem ++ resolved uphold (index - i) c credits,
                     forfeited + if uphold then pc_net_reward c else 0)
    | None => r = (rem ++ credits, forfeited)
    end
  else r = (rem ++ credits, forfeited).
Proof.
  revert i rem forfeited s. induction credits as [|c credits IH]; intros i rem forfeited s Hr; cbn in Hr.
  - run. rewrite app_nil_r. by case_decide.
  - apply bind_Ok in Hr as ([rem1 f1] & s1 & Hb & Hr). apply IH in Hr as [-> Hr].
    case_bool_decide as Hi; [subst i|].
    + rewrite decide_True by lia. rewrite decide_False in Hr by lia.
      replace (index - index)%nat with 0%nat by lia.
      destruct uphold; run; (split; [done|]); rewrite <- ?app_assoc; cbn; by rewrite ?Z.add_0_r.
    + run. split; [done|]. destruct (decide (i <= index)%nat) as [Hle|Hle].
      * replace (index - i)%nat with (S (index - S i)) by lia. cbn.
        rewrite decide_True in Hr by lia.
        destruct (credits !! _); subst r; rewrite <- app_assoc; cbn; [|done].
        by destruct uphold.
      * rewrite decide_False in Hr by lia. subst r. by rewrite <- app_assoc.
Qed.

#[export] Instance ensures_resolve_execution_dispute e admin task_id uphold :
  Ensures (resolve_execution_dispute e admin task_id uphold) (fun s _ s' =>
    exists task keeper index credit,
    let credits := pending_credits_of (store s) keeper in
    let forfeited := if uphold then pc_net_reward credit else 0 in
    let pot := if bool_decide (forfeited > 0) then accrued forfeited else id in
    s_admin (store s) = Some admin /\ authorized e admin = true /\
    s_task (store s) !! task_id = Some task /\ t_claimer task = Some keeper /\
    credits !! index = Some credit /\ pc_task_id credit = task_id /\ pc_disputed credit = true /\
    (forfeited <= 0 \/ in_range i128 (fees_accrued (store s) + forfeited)) /\
    store s' = pot ((store s) <| s_pending_reward ::=
                      put_pending keeper (resolved uphold index credit credits) |>) /\
    chain s' = chain s /\ events s' = ExecutionDisputeResolved task_id uphold :: events s).
Proof.
  unfold resolve_execution_dispute. intros s [] s' Hr. run;
  match goal with
  | Hp : position _ _ = Some _, Hl : for_fold _ _ _ _ = _ |- _ =>
      apply position_Some in Hp as (c & Hc & Hid & _); apply resolve_loop in Hl as [-> Hl];
      rewrite Nat.sub_0_r, Hc, decide_True in Hl by lia; cbn in Hl
  end;
  apply andb_true_iff in Hid as [Hid%bool_decide_eq_true Hdis]; simplify_eq;
  eexists _, _, _, c; (split_and!; eauto; try (by destruct (resolved _ _ _ _))); cbn;
  set (f := if uphold then _ else _) in *; rewrite ?Z.add_0_l in *.
  - by destruct H6 as [->|]; [left|right].
  - by rewrite bool_decide_true.
  - by rewrite bool_decide_false by lia.
Qed.
End Staking.
