(* ===== verification/RegistryAdmin.v ===== *)
(** * Keeper registry: administration

    src/contracts/keeper-registry/src/admin.rs: initialization, the pause
    switch, the configuration setters, the admin handover, the upgrade hook and
    the fee sweep. *)

From S2P Require Import Prelude Host RegistryTypes RegistryInternal RegistryReputation.

Section Admin.
Context `{Ledger}.
Implicit Types (e : Env) (admin treasury : Address).

Definition initialize e admin (token : Address) (bps : Z) : RM unit :=
  stored ← read s_admin;
  fail_if (bool_decide (is_Some stored)) AlreadyInitialized;;
  fail_if (bool_decide (bps > 10000)) InvalidFeeBps;;
  require_auth e admin;;
  write (fun st => st <| s_admin := Some admin |>);;
  write (fun st => st <| s_reward_token := Some token |>);;
  write (fun st => st <| s_fee_bps := Some bps |>);;
  write (fun st => st <| s_paused := Some false |>);;
  write (fun st => st <| s_task_counter := Some 0 |>);;
  bump_instance;;
  publish (Initialized admin token bps).

Definition pause e admin : RM unit :=
  require_admin e admin;;
  bump_instance;;
  write (fun st => st <| s_paused := Some true |>);;
  publish (PausedSet true).

Definition unpause e admin : RM unit :=
  require_admin e admin;;
  bump_instance;;
  write (fun st => st <| s_paused := Some false |>);;
  publish (PausedSet false).

Definition set_fee_bps e admin (new_bps : Z) : RM unit :=
  require_admin e admin;;
  fail_if (bool_decide (new_bps > 10000)) InvalidFeeBps;;
  bump_instance;;
  old_bps ← read fee_bps;
  write (fun st => st <| s_fee_bps := Some new_bps |>);;
  publish (FeeUpdated old_bps new_bps).

Definition set_min_reward e admin (min_reward : Z) : RM unit :=
  require_admin e admin;;
  fail_if (bool_decide (min_reward < 0)) InvalidReward;;
  bump_instance;;
  old_min ← read min_reward_floor;
  write (fun st => st <| s_min_reward := Some min_reward |>);;
  publish (MinRewardUpdated old_min min_reward).

Definition set_reputation_floor e admin (floor_bps : Z) : RM unit :=
  require_admin e admin;;
  fail_if (bool_decide (floor_bps > MAX_REPUTATION_FLOOR_BPS)) InvalidReputationFloor;;
  bump_instance;;
  old_floor ← read reputation_floor_bps;
  write (fun st => st <| s_reputation_floor := Some floor_bps |>);;
  publish (ReputationFloorUpdated old_floor floor_bps).

Definition transfer_admin e admin (new_admin : Address) : RM unit :=
  require_admin e admin;;
  require_auth e new_admin;;
  bump_instance;;
  write (fun st => st <| s_admin := Some new_admin |>);;
  publish (AdminTransferred admin new_admin).

Definition upgrade e admin (new_wasm_hash : Bytes) : RM unit :=
  require_admin e admin;;
  bump_instance;;
  publish (Upgraded admin new_wasm_hash);;
  log (UpdateWasm new_wasm_hash).

Definition sweep_fees e admin treasury (amount : Z) : RM unit :=
  require_admin e admin;;
  fail_if (bool_decide (amount <= 0)) InvalidReward;;
  accrued ← read fees_accrued;
  fail_if (bool_decide (amount > accrued)) NoRewardsAvailable;;
  bump_instance;;
  write (fun st => st <| s_fees_accrued := Some (accrued - amount) |>);;
  token ← reward_token;
  token_transfer e token (current_contract_address e) treasury amount;;
  publish (FeesSwept treasury amount (accrued - amount)).

#[export] Typeclasses Opaque initialize pause unpause set_fee_bps set_min_reward set_reputation_floor transfer_admin upgrade sweep_fees.

(** ** Specifications *)

#[export] Instance ensures_initialize e admin token bps :
  Ensures (initialize e admin token bps) (fun s _ s' =>
    s_admin (store s) = None /\ bps <= 10000 /\ authorized e admin = true /\
    store s' = (store s)
      <| s_admin := Some admin |> <| s_reward_token := Some token |> <| s_fee_bps := Some bps |>
      <| s_paused := Some false |> <| s_task_counter := Some 0 |> /\
    chain s' = chain s /\ events s' = Initialized admin token bps :: events s).
Proof. ensures_solve. by apply eq_None_not_Some. Qed.

#[export] Instance ensures_pause e admin :
  Ensures (pause e admin) (fun s _ s' =>
    s_admin (store s) = Some admin /\ authorized e admin = true /\
    store s' = (store s) <| s_paused := Some true |> /\
    chain s' = chain s /\ events s' = PausedSet true :: events s).
Proof. ensures_solve. Qed.

#[export] Instance ensures_unpause e admin :
  Ensures (unpause e admin) (fun s _ s' =>
    s_admin (store s) = Some admin /\ authorized e admin = true /\
    store s' = (store s) <| s_paused := Some false |> /\
    chain s' = chain s /\ events s' = PausedSet false :: events s).
Proof. ensures_solve. Qed.

#[export] Instance ensures_set_fee_bps e admin new_bps :
  Ensures (set_fee_bps e admin new_bps) (fun s _ s' =>
    s_admin (store s) = Some admin /\ authorized e admin = true /\ new_bps <= 10000 /\
    store s' = (store s) <| s_fee_bps := Some new_bps |> /\
    chain s' = chain s /\ events s' = FeeUpdated (fee_bps (store s)) new_bps :: events s).
Proof. ensures_solve. Qed.

#[export] Instance ensures_set_min_reward e admin min_reward :
  Ensures (set_min_reward e admin min_reward) (fun s _ s' =>
    s_admin (store s) = Some admin /\ authorized e admin = true /\ 0 <= min_reward /\
    store s' = (store s) <| s_min_reward := Some min_reward |> /\
    chain s' = chain s /\
    events s' = MinRewardUpdated (min_reward_floor (store s)) min_reward :: events s).
Proof. ensures_solve. Qed.

#[export] Instance ensures_set_reputation_floor e admin floor_bps :
  Ensures (set_reputation_floor e admin floor_bps) (fun s _ s' =>
    s_admin (store s) = Some admin /\ authorized e admin = true /\
    floor_bps <= MAX_REPUTATION_FLOOR_BPS /\
    store s' = (store s) <| s_reputation_floor := Some floor_bps |> /\
    chain s' = chain s /\
    events s' = ReputationFloorUpdated (reputation_floor_bps (store s)) floor_bps :: events s).
Proof. ensures_solve. Qed.

#[export] Instance ensures_transfer_admin e admin new_admin :
  Ensures (transfer_admin e admin new_admin) (fun s _ s' =>
    s_admin (store s) = Some admin /\ authorized e admin = true /\
    authorized e new_admin = true /\
    store s' = (store s) <| s_admin := Some new_admin |> /\
    chain s' = chain s /\ events s' = AdminTransferred admin new_admin :: events s).
Proof. ensures_solve. Qed.

#[export] Instance ensures_upgrade e admin hash :
  Ensures (upgrade e admin hash) (fun s _ s' =>
    s_admin (store s) = Some admin /\ authorized e admin = true /\
    store s' = store s /\ chain s' = chain s /\ events s' = Upgraded admin hash :: events s).
Proof. ensures_solve. Qed.

#[export] Instance ensures_sweep_fees e admin treasury amount :
  Ensures (sweep_fees e admin treasury amount) (fun s _ s' => exists token l,
    s_admin (store s) = Some admin /\ authorized e admin = true /\
    0 < amount <= fees_accrued (store s) /\
    s_reward_token (store s) = Some token /\
    transfer (chain s) e token (current_contract_address e) treasury amount = Some l /\
    store s' = (store s) <| s_fees_accrued := Some (fees_accrued (store s) - amount) |> /\
    chain s' = l /\
    events s' = FeesSwept treasury amount (fees_accrued (store s) - amount) :: events s).
Proof. ensures_solve. Qed.
End Admin.
