(* ===== verification/RegistryBatch.v ===== *)
(** * Keeper registry: batch registration and batch reads

    src/contracts/keeper-registry/src/batch.rs. *)

From S2P Require Import Prelude Host RegistryTypes RegistryInternal RegistryTask.

Section Batch.
Context `{Ledger}.
Implicit Types (e : Env) (owner : Address).

(** The first pass: every entry is validated and the rewards are totalled
    before any funds move. *)
Definition validate_batch e (min_reward : Z) (tasks : list BatchTaskParams) : RM Z :=
  for_fold tasks 0 (fun total_reward params =>
    lift (validate_task_params e (b_reward params) min_reward (b_deadline params)
            (len (b_calldata params)) (b_ttl_ledgers params) (b_lock_ledgers params)
            (b_condition params));;
    ok_or (checked_add i128 total_reward (b_reward params)) ArithmeticOverflow).

(** The struct literal of the second pass initialises [verifier] twice, with
    [params.verifier] and with [None]; the model takes either, as the
    deployment goes. *)
Inductive VerifierInit := FromParams | NoVerifier.

(** An entry as it is registered. *)
Definition entry_params (init : VerifierInit) (params : BatchTaskParams) : BatchTaskParams :=
  match init with
  | FromParams => params
  | NoVerifier =>
      mkBatchTaskParams (b_task_type params) (b_calldata params) (b_reward params) (b_deadline params)
        (b_ttl_ledgers params) (b_lock_ledgers params) None (b_condition params)
  end.

Definition entry_verifier (init : VerifierInit) (params : BatchTaskParams) : option Address :=
  match init with FromParams => b_verifier params | NoVerifier => None end.

(** One iteration of the second pass. *)
Definition register_entry e (init : VerifierInit) owner (token : Address) (params : BatchTaskParams) : RM Z :=
  token_transfer e token owner (current_contract_address e) (b_reward params);;
  task_id ← next_task_id;
  save_task task_id
    (mkTask owner (b_task_type params) (b_calldata params) (b_reward params) (b_deadline params)
       (b_ttl_ledgers params) Pending None None (b_lock_ledgers params) (entry_verifier init params)
       (b_condition params));;
  publish (TaskRegistered task_id owner (b_reward params) (b_deadline params) (b_condition params));;
  mret task_id.

Definition batch_register_tasks e (init : VerifierInit) owner (tasks : list BatchTaskParams) (max_total_reward : Z)
    : RM (list Z) :=
  require_not_paused;;
  require_auth e owner;;
  fail_if (bool_decide (tasks = [])) EmptyBatch;;
  fail_if (bool_decide (Z.of_nat (length tasks) > MAX_BATCH_SIZE)) BatchTooLarge;;
  fail_if (bool_decide (max_total_reward <= 0)) InvalidReward;;
  min_reward ← read min_reward_floor;
  total_reward ← validate_batch e min_reward tasks;
  fail_if (bool_decide (total_reward > max_total_reward)) BatchRewardCeilingExceeded;;
  bump_instance;;
  token ← reward_token;
  for_fold tasks [] (fun task_ids params =>
    task_id ← register_entry e init owner token params;
    mret (task_ids ++ [task_id])).

(** ** Reads: pure functions of storage *)

Definition lookup_task (st : Store) (id : Z) : option Task := s_task st !! id.

Definition get_tasks (st : Store) (ids : list Z) : KeeperError + list (option Task) :=
  if bool_decide (Z.of_nat (length ids) > MAX_BATCH_READ) then inl BatchTooLarge
  else inr (map (lookup_task st) ids).

(** [from + i] below is a checked u64 addition in the release profile; the
    guard makes it total. *)
Definition get_tasks_range (st : Store) (from count : Z) : KeeperError + list (option Task) :=
  if bool_decide (count > MAX_BATCH_READ) then inl BatchTooLarge else
  if bool_decide (count > 0) && bool_decide (checked_add u64 from (count - 1) = None)
  then inl ArithmeticOverflow
  else inr (map (fun i => lookup_task st (from + Z.of_nat i)) (seq 0 (Z.to_nat count))).

#[export] Typeclasses Opaque validate_batch register_entry.

#[export] Typeclasses Opaque batch_register_tasks.

(** ** A batch is the sequence of its registrations *)

#[export] Instance runs_register_entry e init owner token params :
  Runs (register_entry e init owner token params) (fun s id s' => exists l,
    let task := mkTask owner (b_task_type params) (b_calldata params) (b_reward params)
                  (b_deadline params) (b_ttl_ledgers params) Pending None None
                  (b_lock_ledgers params) (entry_verifier init params) (b_condition params) in
    transfer (chain s) e token owner (current_contract_address e) (b_reward params) = Some l /\
    id = default 0 (s_task_counter (store s)) + 1 /\ in_range u64 id /\
    s' = s <| chain := l |>
           <| store ::= fun st => st <| s_task_counter := Some id |> <| s_task ::= <[id := task]> |> |>
           <| effects ::= app [Publish (TaskRegistered id owner (b_reward params)
                                  (b_deadline params) (b_condition params));
                               ExtendPersistent (Data (TaskKey id)) (b_ttl_ledgers params)
                                  (b_ttl_ledgers params)] |>).
Proof.
  runs_solve.
Qed.

(** The entry's own registration. *)
Definition register_params e owner (params : BatchTaskParams) : RM Z :=
  register_task e owner (b_task_type params) (b_calldata params) (b_reward params)
    (b_deadline params) (b_ttl_ledgers params) (b_lock_ledgers params) (b_verifier params)
    (b_condition params).

(** The part of storage no registration touches. *)
Definition registration_ready e owner (token : Address) (st : Store) : Prop :=
  default false (s_paused st) = false /\ authorized e owner = true /\
  s_reward_token st = Some token.

Definition valid_entry e (st : Store) (params : BatchTaskParams) : Prop :=
  valid_params e (b_reward params) (min_reward_floor st) (b_deadline params)
    (len (b_calldata params)) (b_ttl_ledgers params) (b_lock_ledgers params).

Lemma register_entry_to_task e init owner token params s1 s2 id s1' :
  sys_equiv s1 s2 -> registration_ready e owner token (store s1) ->
  valid_entry e (store s1) params ->
  register_entry e init owner token params s1 = Ok id s1' ->
  exists s2', register_params e owner (entry_params init params) s2 = Ok id s2' /\ sys_equiv s1' s2'.
Proof.
  intros (Hst & Hch & Hev) (Hp & Ha & Ht) Hv Hr. run. rewrite Hst, Hch in *.
  eexists. split.
  - destruct init; unfold register_params, register_task; do 9 forward1; reflexivity.
  - destruct init; split_and!; cbn; (by rewrite Hst) || done || exact (f_equal (cons _) Hev).
Qed.

Lemma task_to_register_entry e init owner params s1 s2 id s2' :
  sys_equiv s1 s2 -> register_params e owner (entry_params init params) s2 = Ok id s2' ->
  valid_entry e (store s1) params /\
  exists token s1', registration_ready e owner token (store s1) /\
    register_entry e init owner token params s1 = Ok id s1' /\ sys_equiv s1' s2'.
Proof.
  intros (Hst & Hch & Hev) Hr. unfold register_params in Hr. apply ensures in Hr.
  destruct Hr as (token & l & Hp & Ha & Hv & Ht & Htr & -> & Hid & Hst' & Hch' & Hev').
  split; [unfold valid_entry; rewrite Hst; by destruct init|]. exists token. rewrite <- Hst, <- Hch in *.
  eexists. split; [done|]. split.
  - apply runs. exists l. destruct init; split_and!; eauto.
  - destruct init; (split_and!; cbn; [by rewrite Hst' | done | rewrite Hev'; exact (f_equal (cons _) Hev)]).
Qed.

(** Registering an entry changes nothing the next one's guards read. *)
Lemma register_entry_frame e init owner token params s id s' :
  register_entry e init owner token params s = Ok id s' ->
  (registration_ready e owner token (store s') <-> registration_ready e owner token (store s)) /\
  forall p, valid_entry e (store s') p <-> valid_entry e (store s) p.
Proof. intros Hr. by run. Qed.

Lemma batch_loop_to_tasks e init owner token tasks ids s1 s2 r s1' :
  sys_equiv s1 s2 -> registration_ready e owner token (store s1) ->
  Forall (valid_entry e (store s1)) tasks ->
  for_fold tasks ids (fun task_ids params =>
    task_id ← register_entry e init owner token params; mret (task_ids ++ [task_id])) s1 = Ok r s1' ->
  exists s2', for_fold tasks ids (fun task_ids params =>
    task_id ← register_params e owner (entry_params init params); mret (task_ids ++ [task_id])) s2 = Ok r s2' /\
    sys_equiv s1' s2'.
Proof.
  revert ids s1 s2. induction tasks as [|p tasks IH]; intros ids s1 s2 Heq Hrdy Hv Hr; cbn in *.
  - run. by eexists.
  - apply Forall_cons_1 in Hv as [Hp Hv].
    apply bind_Ok in Hr as (ids1 & t1 & H1 & H2). apply bind_Ok in H1 as (id & t & H1 & H3).
    apply runs in H3 as [-> ->].
    destruct (register_entry_frame _ _ _ _ _ _ _ _ H1) as [Hf1 Hf2].
    destruct (register_entry_to_task _ _ _ _ _ _ _ _ _ Heq Hrdy Hp H1) as (s2' & Hs2 & Heq').
    destruct (IH (ids ++ [id]) t s2') as (s3 & Hs3 & Heq3); [done | by apply Hf1 | | exact H2 |].
    { eapply Forall_impl; [|exact Hv]. intros. by apply Hf2. }
    exists s3. split; [|done]. apply bind_Ok. do 2 eexists. split; [|exact Hs3].
    apply bind_Ok. by do 2 eexists.
Qed.

Lemma batch_loop_of_tasks e init owner tasks ids s1 s2 r s2' :
  sys_equiv s1 s2 ->
  for_fold tasks ids (fun task_ids params =>
    task_id ← register_params e owner (entry_params init params); mret (task_ids ++ [task_id])) s2 = Ok r s2' ->
  Forall (valid_entry e (store s1)) tasks /\
  (tasks = [] \/ exists token s1', registration_ready e owner token (store s1) /\
    for_fold tasks ids (fun task_ids params =>
      task_id ← register_entry e init owner token params; mret (task_ids ++ [task_id])) s1 = Ok r s1' /\
    sys_equiv s1' s2').
Proof.
  revert ids s1 s2. induction tasks as [|p tasks IH]; intros ids s1 s2 Heq Hr; cbn in *.
  - by auto.
  - apply bind_Ok in Hr as (ids1 & t1 & H1 & H2). apply bind_Ok in H1 as (id & t & H1 & H3).
    apply runs in H3 as [-> ->].
    destruct (task_to_register_entry _ _ _ _ _ _ _ _ Heq H1) as (Hp & token & s1' & Hrdy & Hs1 & Heq').
    destruct (register_entry_frame _ _ _ _ _ _ _ _ Hs1) as [Hf1 Hf2].
    destruct (IH (ids ++ [id]) s1' _ Heq' H2) as [Hv Hloop]. split.
    { constructor; [done|]. eapply Forall_impl; [|exact Hv]. intros. by apply Hf2. }
    right. exists token.
    assert (exists s3, for_fold tasks (ids ++ [id]) (fun task_ids params =>
      task_id ← register_entry e init owner token params; mret (task_ids ++ [task_id])) s1' = Ok r s3 /\
      sys_equiv s3 s2') as (s3 & Hs3 & Heq3).
    { destruct Hloop as [->|(token' & s3 & Hrdy' & Hs3 & Heq3)].
      - cbn in *. run. eexists. split; [done|]. done.
      - assert (token' = token) as ->; [|by eexists].
        apply Hf1 in Hrdy. unfold registration_ready in *. naive_solver. }
    exists s3. split_and!; try done. apply bind_Ok. do 2 eexists. split; [|exact Hs3].
    apply bind_Ok. by do 2 eexists.
Qed.
(** ** The first pass *)

Lemma validate_loop e floor tasks total (s : RS) r s' :
  for_fold tasks total (fun total_reward params =>
    lift (validate_task_params e (b_reward params) floor (b_deadline params)
            (len (b_calldata params)) (b_ttl_ledgers params) (b_lock_ledgers params)
            (b_condition params));;
    ok_or (checked_add i128 total_reward (b_reward params)) ArithmeticOverflow) s = Ok r s' ->
  s' = s /\ r = total + list_sum b_reward tasks /\
  Forall (fun p => valid_params e (b_reward p) floor (b_deadline p) (len (b_calldata p))
                     (b_ttl_ledgers p) (b_lock_ledgers p)) tasks.
Proof.
  revert total. induction tasks as [|p tasks IH]; intros total Hr; cbn in Hr.
  - run. cbn. split_and!; [done | lia | constructor].
  - run. match goal with Hl : for_fold _ _ _ _ = _ |- _ => apply IH in Hl as (-> & -> & Hv) end.
    split_and!; [done | unfold list_sum; cbn; lia | by constructor].
Qed.

#[export] Instance ensures_validate_batch e floor tasks :
  Ensures (validate_batch e floor tasks) (fun s total s' =>
    s' = s /\ total = list_sum b_reward tasks /\
    Forall (fun p => valid_params e (b_reward p) floor (b_deadline p) (len (b_calldata p))
                       (b_ttl_ledgers p) (b_lock_ledgers p)) tasks).
Proof. intros s total s' Hr. apply validate_loop in Hr. by rewrite Z.add_0_l in Hr. Qed.

Lemma validate_loop_total e floor tasks total (s : RS) :
  Forall (fun p => valid_params e (b_reward p) floor (b_deadline p) (len (b_calldata p))
                     (b_ttl_ledgers p) (b_lock_ledgers p)) tasks ->
  0 <= total -> total + list_sum b_reward tasks <= int_max i128 ->
  for_fold tasks total (fun total_reward params =>
    lift (validate_task_params e (b_reward params) floor (b_deadline params)
            (len (b_calldata params)) (b_ttl_ledgers params) (b_lock_ledgers params)
            (b_condition params));;
    ok_or (checked_add i128 total_reward (b_reward params)) ArithmeticOverflow) s
  = Ok (total + list_sum b_reward tasks) s.
Proof.
  intros Hv. revert total. induction Hv as [|p tasks Hp Hv IH]; intros total H0 Hmax.
  - cbn. by rewrite Z.add_0_r.
  - assert (0 < b_reward p) by apply Hp.
    assert (0 <= list_sum b_reward tasks).
    { apply list_sum_nonneg. eapply Forall_impl; [|exact Hv]. intros q (Hq & _).
      by apply Z.lt_le_incl. }
    rewrite list_sum_cons in *. rewrite Z.add_assoc. cbn [for_fold].
    apply bind_Ok. do 2 eexists. split; [|apply IH; lia].
    forward1. apply runs. split; [|done]. apply checked_in_range. split; [change (int_min i128) with (- 2 ^ 127)|]; lia.
Qed.

(** What a successful batch has checked, and the loop it then runs. *)
#[export] Instance ensures_batch_register_tasks e init owner tasks max :
  Ensures (batch_register_tasks e init owner tasks max) (fun s ids s' => exists token s1,
    registration_ready e owner token (store s) /\
    0 < Z.of_nat (length tasks) <= MAX_BATCH_SIZE /\ 0 < max /\
    list_sum b_reward tasks <= max /\
    Forall (valid_entry e (store s)) tasks /\ sys_equiv s s1 /\
    for_fold tasks [] (fun task_ids params =>
      task_id ← register_entry e init owner token params; mret (task_ids ++ [task_id])) s1 = Ok ids s').
Proof.
  unfold batch_register_tasks. intros s ids s' Hr.
  do 10 run1 Hr. eexists _, _. split_and!; try exact Hr; eauto; try done.
  destruct tasks; [done|]. cbn. lia.
Qed.

(** The sequence of single registrations a batch stands for. *)
Definition register_each e (init : VerifierInit) owner (tasks : list BatchTaskParams) : RM (list Z) :=
  for_fold tasks [] (fun task_ids params =>
    task_id ← register_params e owner (entry_params init params); mret (task_ids ++ [task_id])).

(** C11: a batch succeeds exactly when it has between 1 and [MAX_BATCH_SIZE]
    entries, its rewards sum to at most the caller's ceiling, and registering
    the entries one after another with [register_task] succeeds; it then
    returns the same ids and leaves the same storage, the same token balances
    and the same events.  The source initialises the field [verifier] twice:
    this holds of either reading, an entry being registered with its own
    verifier or with none. *)
Theorem batch_is_sequence e init owner tasks max (s : RS) ids :
  in_range i128 max ->
  (forall s1, batch_register_tasks e init owner tasks max s = Ok ids s1 ->
    (0 < Z.of_nat (length tasks) <= MAX_BATCH_SIZE /\ 0 < max /\ list_sum b_reward tasks <= max) /\
    exists s2, register_each e init owner tasks s = Ok ids s2 /\ sys_equiv s1 s2) /\
  (forall s2, register_each e init owner tasks s = Ok ids s2 ->
    0 < Z.of_nat (length tasks) <= MAX_BATCH_SIZE -> 0 < max -> list_sum b_reward tasks <= max ->
    exists s1, batch_register_tasks e init owner tasks max s = Ok ids s1 /\ sys_equiv s1 s2).
Proof.
  intros Hmax. split.
  - intros s1 Hr. apply ensures in Hr as (token & s0 & Hrdy & Hn & Hm & Hsum & Hv & Heq & Hr).
    split; [done|]. eapply batch_loop_to_tasks; [by symmetry | | | exact Hr];
      destruct Heq as (<- & _); done.
  - intros s2 Hr Hn Hm Hsum.
    set (s0 := s <| effects ::= cons (ExtendInstance INSTANCE_BUMP_THRESHOLD
                                        INSTANCE_BUMP_LEDGERS) |>).
    assert (sys_equiv s0 s) as Heq by done.
    destruct (batch_loop_of_tasks _ _ _ _ _ s0 _ _ _ Heq Hr) as
      [Hv [->|(token & s1 & Hrdy & Hs1 & Heq1)]]; [cbn in Hn; lia|].
    exists s1. split; [|done]. destruct Hrdy as (Hp & Ha & Ht).
    unfold batch_register_tasks. do 2 forward1.
    pass; [intros ->; cbn in Hn; lia|].
    pass; [lia|].
    pass; [lia|].
    forward1. apply bind_Ok. exists (list_sum b_reward tasks), s. split.
    { unfold validate_batch. rewrite <- (Z.add_0_l (list_sum _ _)).
      apply validate_loop_total; [exact Hv | lia |]. destruct Hmax. lia. }
    pass; [lia|].
    do 2 forward1. exact Hs1.
Qed.
End Batch.
