(* ===== verification/RegistryViews.v ===== *)
(** * Keeper registry: read-only views

    src/contracts/keeper-registry/src/views.rs.  A view is a function of
    storage; [is_claimable], which asks the task's condition, runs in the monad
    of the entry points. *)

From S2P Require Import Prelude Host SampleChain RegistryTypes RegistryInternal RegistryReputation RegistryTask.

Definition get_task (st : Store) (task_id : Z) : KeeperError + Task :=
  match s_task st !! task_id with Some task => inr task | None => inl TaskNotFound end.
Definition task_count (st : Store) : Z := default 0 (s_task_counter st).
Definition keeper_balance (st : Store) (keeper : Address) : Z := default 0 (s_keeper_reward st !! keeper).
Definition admin (st : Store) : option Address := s_admin st.
Definition get_fee_bps (st : Store) : Z := fee_bps st.
Definition is_paused (st : Store) : bool := default false (s_paused st).
Definition reward_token_address (st : Store) : option Address := s_reward_token st.
Definition min_reward (st : Store) : Z := min_reward_floor st.
Definition reputation_floor (st : Store) : Z := reputation_floor_bps st.
Definition max_batch_size : Z := MAX_BATCH_SIZE.
Definition version : Z := VERSION.
Definition keeper_stake (st : Store) (keeper : Address) : Z := default 0 (s_keeper_stake st !! keeper).
Definition pending_unbond (st : Store) (keeper : Address) : option UnbondRequest :=
  s_unbond_request st !! keeper.
Definition min_stake (st : Store) : Z := min_stake_floor st.
Definition get_slash (st : Store) (slash_id : Z) : option SlashRecord := s_slash st !! slash_id.
Definition slash_history (st : Store) (keeper : Address) : Z * Z :=
  let history := read_slash_history st keeper in (sh_count history, sh_total_slashed history).
Definition dispute_window (st : Store) : Z := dispute_window_ledgers st.
Definition pending_reward (st : Store) (keeper : Address) : list PendingCredit :=
  pending_credits_of st keeper.

Section Views.
Context `{Ledger}.
Implicit Types (e : Env) (task_id : Z) (keeper : Address).

Definition is_claimable e task_id : RM bool :=
  stored ← read (fun st => s_task st !! task_id);
  match stored with
  | Some task =>
      if bool_decide (ledger_timestamp e >= t_deadline task) then mret false else
      let state_allows_claim := match t_status task with
                                | Pending => true
                                | Claimed => lock_expired e task
                                | _ => false
                                end in
      if negb state_allows_claim then mret false else
      match t_condition task with
      | Some condition =>
          result ← try_is_met e condition task_id;
          mret (is_ok_true result)
      | None => mret true
      end
  | None => mret false
  end.

Lemma is_claimable_true e task_id (s s' : RS) :
  is_claimable e task_id s = Ok true s' <->
  exists task missed, s_task (store s) !! task_id = Some task /\
    ledger_timestamp e < t_deadline task /\ claim_allowed e task missed /\
    verdict (chain s) e (t_condition task) "is_met" [VU64 task_id] = (true, chain s') /\
    s' = s <| chain := chain s' |>.
Proof.
  unfold is_claimable, claim_allowed, verdict, try_is_met. split.
  - intros Hr. run1 Hr. destruct (s_task _ !! _) as [task|] eqn:Hk; [|by run].
    case_bool_decide; [by run|].
    destruct (t_status task) eqn:Ht, (lock_expired e task) eqn:Hl; try (by run);
      destruct (t_condition task) as [c|] eqn:Hc; cbn in Hr; run;
      repeat eexists; split_and?; eauto; try lia; rewrite ?Hc; try (by destruct s);
      destruct (try_invoke _ _ _ _ _); cbn in *; congruence.
  - intros (task & missed & Hk & Hd & Ha & Hv & Hs). unfold read, gets, mbind at 1, M_bind at 1.
    rewrite Hk, bool_decide_false by lia.
    assert (Hst : match t_status task with Pending => true | Claimed => lock_expired e task
                  | _ => false end = true) by (destruct Ha as [[-> _]|(-> & -> & _)]; done).
    rewrite Hst. cbn. destruct (t_condition task) as [c|].
    + unfold mbind, M_bind, try_call. destruct (try_invoke _ _ _ _ _). simplify_eq.
      rewrite Hs. unfold mret, M_ret. cbn. congruence.
    + simplify_eq. rewrite Hs, <- Hv. by destruct s.
Qed.
End Views.

(** ** The claim, decided by the views *)

Section ClaimIff.
Context `{Ledger}.

(** [claim_task] succeeds exactly when the registry is not paused, the
    keeper authorized the call, holds the configured minimum stake and meets
    the reputation floor, and the view [is_claimable] answers [true].  The view
    alone therefore does not decide whether a given keeper can claim. *)
Theorem claim_task_iff (e : Env) (keeper : Address) (task_id : Z) (s : RS) :
  (exists s', claim_task e keeper task_id s = Ok tt s') <->
  is_paused (store s) = false /\ authorized e keeper = true /\
  (0 < min_stake (store s) -> min_stake (store s) <= keeper_stake (store s) keeper) /\
  meets_floor (store s) keeper /\
  exists s', is_claimable e task_id s = Ok true s'.
Proof.
  unfold is_paused, min_stake, keeper_stake. split.
  - intros [s' Hr]. apply ensures in Hr.
    destruct Hr as (task & missed & Hp & Ha & Hm & Hk & Hd & Hc & Hf & Hv & _).
    split_and!; try done. exists (s <| chain := chain s' |>).
    apply is_claimable_true. by exists task, missed.
  - intros (Hp & Ha & Hm & Hf & s1 & Hr).
    apply is_claimable_true in Hr as (task & missed & Hk & Hd & Hc & Hv & _).
    unfold claim_task.
    assert (forall s, exists s', (match missed with
      | Some m => record_missed_claim e m | None => mret tt end : RM unit) s = Ok tt s') as Hrec.
    { intros s0. destruct missed; [eexists; by apply runs | by eexists]. }
    destruct (Hrec (s <| chain := chain s1 |> <| effects ::= cons (ExtendInstance
      INSTANCE_BUMP_THRESHOLD INSTANCE_BUMP_LEDGERS) |>)) as [s2 Hs2].
    eexists. do 4 forward1.
    pass; [intros Hpos; specialize (Hm ltac:(lia)); unfold keeper_stake_of; lia|].
    forward1. pass; [lia|].
    do 4 forward1. apply bind_Ok. do 2 eexists. split; [exact Hs2|]. forward1. reflexivity.
Qed.
End ClaimIff.
