(* ===== verification/RegistrySystem.v ===== *)
(** * Keeper registry: the contract as a transition system

    Every state-changing entry point as one constructor of [Op]; [exec] runs it
    as Contract.v asks. *)

From S2P Require Import Prelude Host Contract SampleChain RegistryTypes RegistryInternal RegistryReputation RegistryTask RegistryStaking RegistryAdmin RegistryBatch.

Inductive Op :=
  | OpInitialize (admin token : Address) (bps : Z)
  | OpPause (admin : Address)
  | OpUnpause (admin : Address)
  | OpSetFeeBps (admin : Address) (new_bps : Z)
  | OpSetMinReward (admin : Address) (min_reward : Z)
  | OpSetReputationFloor (admin : Address) (floor_bps : Z)
  | OpTransferAdmin (admin new_admin : Address)
  | OpUpgrade (admin : Address) (hash : Bytes)
  | OpSweepFees (admin treasury : Address) (amount : Z)
  | OpRegisterTask (owner : Address) (params : BatchTaskParams)
  | OpBatchRegisterTasks (init : VerifierInit) (owner : Address) (tasks : list BatchTaskParams) (max_total_reward : Z)
  | OpIncreaseReward (owner : Address) (task_id additional : Z)
  | OpExtendDeadline (owner : Address) (task_id new_deadline : Z)
  | OpUpdateVerifier (owner : Address) (task_id : Z) (verifier : option Address)
  | OpClaimTask (keeper : Address) (task_id : Z)
  | OpExecuteTask (keeper : Address) (task_id : Z) (proof : Bytes)
  | OpCancelTask (owner : Address) (task_id : Z)
  | OpExpireTask (task_id : Z)
  | OpWithdrawRewards (keeper : Address)
  | OpStakeDeposit (keeper : Address) (amount : Z)
  | OpInitiateUnbond (keeper : Address) (amount : Z)
  | OpWithdrawStake (keeper : Address)
  | OpSlash (admin keeper : Address) (amount : Z) (reason : Symbol) (treasury : Address)
  | OpSetMinStake (admin : Address) (min_stake : Z)
  | OpRaiseSlashAppeal (keeper : Address) (slash_id : Z)
  | OpResolveSlashAppeal (admin : Address) (slash_id : Z) (uphold : bool)
  | OpSetDisputeWindow (admin : Address) (ledgers : Z)
  | OpDisputeExecution (owner : Address) (task_id : Z)
  | OpResolveExecutionDispute (admin : Address) (task_id : Z) (uphold : bool).

(** The arguments have the types of the ABI. *)
Definition typed_params (p : BatchTaskParams) : Prop :=
  in_range i128 (b_reward p) /\ in_range u64 (b_deadline p) /\ in_range u32 (b_ttl_ledgers p) /\
  in_range u32 (b_lock_ledgers p).

Definition typed_op (op : Op) : Prop :=
  match op with
  | OpInitialize _ _ bps | OpSetFeeBps _ bps | OpSetReputationFloor _ bps
  | OpSetDisputeWindow _ bps => in_range u32 bps
  | OpSetMinReward _ amount | OpSweepFees _ _ amount | OpStakeDeposit _ amount
  | OpInitiateUnbond _ amount | OpSlash _ _ amount _ _ | OpSetMinStake _ amount => in_range i128 amount
  | OpRegisterTask _ params => typed_params params
  | OpBatchRegisterTasks _ _ tasks max => Forall typed_params tasks /\ in_range i128 max
  | OpIncreaseReward _ task_id additional => in_range u64 task_id /\ in_range i128 additional
  | OpExtendDeadline _ task_id deadline => in_range u64 task_id /\ in_range u64 deadline
  | OpUpdateVerifier _ task_id _ | OpClaimTask _ task_id | OpExecuteTask _ task_id _
  | OpCancelTask _ task_id | OpExpireTask task_id | OpRaiseSlashAppeal _ task_id
  | OpResolveSlashAppeal _ task_id _ | OpDisputeExecution _ task_id
  | OpResolveExecutionDispute _ task_id _ => in_range u64 task_id
  | OpPause _ | OpUnpause _ | OpTransferAdmin _ _ | OpUpgrade _ _ | OpWithdrawRewards _
  | OpWithdrawStake _ => True
  end.

(** The admin's operations that [invariants.rs] calls I-5: those that may not
    touch a task's escrow or a keeper's credited balance. *)
Definition admin_op (op : Op) : bool :=
  match op with
  | OpPause _ | OpUnpause _ | OpSetFeeBps _ _ | OpSetMinReward _ _ | OpSetReputationFloor _ _
  | OpTransferAdmin _ _ | OpUpgrade _ _ | OpSweepFees _ _ _ | OpSetMinStake _ _
  | OpSetDisputeWindow _ _ => true
  | _ => false
  end.

(** The operations the pause switch blocks. *)
Definition pause_gated (op : Op) : bool :=
  match op with
  | OpRegisterTask _ _ | OpBatchRegisterTasks _ _ _ _ | OpIncreaseReward _ _ _
  | OpExtendDeadline _ _ _ | OpUpdateVerifier _ _ _ | OpClaimTask _ _ | OpExecuteTask _ _ _
  | OpStakeDeposit _ _ | OpInitiateUnbond _ _ => true
  | _ => false
  end.

Section System.
Context `{Ledger}.

Definition exec (e : Env) (op : Op) : RM unit :=
  match op with
  | OpInitialize admin token bps => initialize e admin token bps
  | OpPause admin => pause e admin
  | OpUnpause admin => unpause e admin
  | OpSetFeeBps admin new_bps => set_fee_bps e admin new_bps
  | OpSetMinReward admin min_reward => set_min_reward e admin min_reward
  | OpSetReputationFloor admin floor_bps => set_reputation_floor e admin floor_bps
  | OpTransferAdmin admin new_admin => transfer_admin e admin new_admin
  | OpUpgrade admin hash => upgrade e admin hash
  | OpSweepFees admin treasury amount => sweep_fees e admin treasury amount
  | OpRegisterTask owner params => forget (register_params e owner params)
  | OpBatchRegisterTasks init owner tasks max => forget (batch_register_tasks e init owner tasks max)
  | OpIncreaseReward owner task_id additional => increase_reward e owner task_id additional
  | OpExtendDeadline owner task_id deadline => extend_deadline e owner task_id deadline
  | OpUpdateVerifier owner task_id verifier => update_verifier e owner task_id verifier
  | OpClaimTask keeper task_id => claim_task e keeper task_id
  | OpExecuteTask keeper task_id proof => execute_task e keeper task_id proof
  | OpCancelTask owner task_id => cancel_task e owner task_id
  | OpExpireTask task_id => expire_task e task_id
  | OpWithdrawRewards keeper => forget (withdraw_rewards e keeper)
  | OpStakeDeposit keeper amount => stake_deposit e keeper amount
  | OpInitiateUnbond keeper amount => initiate_unbond e keeper amount
  | OpWithdrawStake keeper => forget (withdraw_stake e keeper)
  | OpSlash admin keeper amount reason treasury => forget (slash e admin keeper amount reason treasury)
  | OpSetMinStake admin min_stake => set_min_stake e admin min_stake
  | OpRaiseSlashAppeal keeper slash_id => raise_slash_appeal e keeper slash_id
  | OpResolveSlashAppeal admin slash_id uphold => resolve_slash_appeal e admin slash_id uphold
  | OpSetDisputeWindow admin ledgers => set_dispute_window e admin ledgers
  | OpDisputeExecution owner task_id => dispute_execution e owner task_id
  | OpResolveExecutionDispute admin task_id uphold => resolve_execution_dispute e admin task_id uphold
  end.

End System.

(** The registry's instance of Contract.v. *)
Abbreviation call := (Contract.call exec).
Abbreviation succeeds := (Contract.succeeds exec).
Abbreviation run_calls := (Contract.run_calls exec).
Abbreviation reachable := (Contract.reachable exec typed_op empty_store).
