(* ===== verification/RegistrySample.v ===== *)
(** * Keeper registry: a sample run

    A deployment on the concrete chain of SampleChain.v, driven through the
    life of three tasks: one executed, one cancelled, one still claimed.  The
    witnesses of the registry's theorems run on its states. *)

From S2P Require Import Prelude Host Contract SampleChain RegistryTypes RegistryInternal RegistryReputation RegistryTask RegistryStaking RegistryAdmin RegistryBatch RegistrySystem.

Definition admin0 : Address := addr 10.
Definition owner0 : Address := addr 11.
Definition keeper0 : Address := addr 12.
Definition treasury0 : Address := addr 13.

(** Verifier [addr 20] approves, condition [addr 21] is never met. *)
Definition accepting : Address := addr 20.
Definition refusing : Address := addr 21.

Definition params0 (reward : Z) (verifier condition : option Address) : BatchTaskParams :=
  mkBatchTaskParams Custom [] reward 1000 20000 12 verifier condition.

Definition funded : ledger := <[(token, owner0) := 10000]> (<[(token, keeper0) := 5000]> ∅).

Definition deployed : RS := mkSys empty_store [] funded.

Definition setup : list (Env * Op) :=
  [ (at_ledger 100 10, OpInitialize admin0 token 300);
    (at_ledger 101 15, OpRegisterTask owner0 (params0 1000 (Some accepting) None));
    (at_ledger 102 20, OpBatchRegisterTasks FromParams owner0 [params0 200 None None; params0 300 None (Some refusing)] 500);
    (at_ledger 103 25, OpStakeDeposit keeper0 900);
    (at_ledger 104 30, OpClaimTask keeper0 1);
    (at_ledger 104 30, OpClaimTask keeper0 2) ].

(** Three tasks registered, tasks 1 and 2 claimed by [keeper0]. *)
Definition claimed_state : RS := run_calls setup deployed.

Definition settle : list (Env * Op) :=
  [ (at_ledger 105 35, OpExecuteTask keeper0 1 []);
    (at_ledger 106 40, OpSetDisputeWindow admin0 50);
    (at_ledger 107 45, OpExecuteTask keeper0 2 []);
    (at_ledger 108 50, OpInitiateUnbond keeper0 400);
    (at_ledger 109 55, OpPause admin0) ].

(** Tasks 1 and 2 executed (2 under a dispute window), part of the stake
    unbonding, the registry paused. *)
Definition settled_state : RS := run_calls settle claimed_state.

Lemma at_ledger_valid seq time :
  in_range u32 seq -> in_range u64 time -> valid_env self (at_ledger seq time).
Proof. by split. Qed.

Ltac sample_calls :=
  repeat constructor; cbn; unfold in_range; cbn; try lia; done.

Lemma claimed_reachable : reachable self token claimed_state.
Proof. apply reachable_run; [apply reachable_deploy|]. sample_calls. Qed.

Lemma settled_reachable : reachable self token settled_state.
Proof. apply reachable_run; [apply claimed_reachable|]. sample_calls. Qed.

(** The model runs: what the registry holds and records at the end. *)
Example settled_summary :
  (t_status <$> s_task (store settled_state) !! 1, t_status <$> s_task (store settled_state) !! 2,
   t_status <$> s_task (store settled_state) !! 3, keeper_reward_of (store settled_state) keeper0,
   fees_accrued (store settled_state), keeper_stake_of (store settled_state) keeper0,
   pending_credits_of (store settled_state) keeper0, balance (chain settled_state) token self)
  = (Some Executed, Some Executed, Some Pending, 970, 36, 500,
     [mkPendingCredit 2 194 157 false], 2400).
Proof. vm_compute. reflexivity. Qed.
