(* ===== verification/RegistryInvariants.v ===== *)
(** * Keeper registry: the storage invariant

    [wf]: every integer is in the range of its type, every amount is
    non-negative, a task's claim fields agree with its status, every pending
    credit belongs to an executed task of its keeper, and a registry that was
    never initialized is empty. *)

From S2P Require Import Prelude Host Contract SampleChain RegistryTypes RegistryInternal RegistryReputation RegistryTask RegistryStaking RegistryAdmin RegistryBatch RegistrySystem.

Definition nat128 (z : Z) : Prop := 0 <= z <= int_max i128.

(** The claim fields of a task, by status. *)
Definition claim_fields (t : Task) : Prop :=
  match t_status t with
  | Pending => t_claimer t = None /\ t_claim_ledger t = None
  | Claimed | Executed => is_Some (t_claimer t) /\ is_Some (t_claim_ledger t)
  | Cancelled | Expired => t_claimer t = None <-> t_claim_ledger t = None
  end.

Definition wf_task (counter task_id : Z) (t : Task) : Prop :=
  1 <= task_id <= counter /\ 0 < t_reward t <= int_max i128 /\ in_range u64 (t_deadline t) /\
  in_range u32 (t_ttl_ledgers t) /\ MIN_LOCK_LEDGERS <= t_lock_ledgers t <= MAX_LOCK_LEDGERS /\
  (forall n, t_claim_ledger t = Some n -> in_range u32 n) /\ claim_fields t.

Definition wf_credit (tasks : gmap Z Task) (keeper : Address) (c : PendingCredit) : Prop :=
  nat128 (pc_net_reward c) /\ in_range u32 (pc_unlock_ledger c) /\
  exists t, tasks !! pc_task_id c = Some t /\ t_status t = Executed /\ t_claimer t = Some keeper.

Definition wf_credits (tasks : gmap Z Task) (keeper : Address) (l : list PendingCredit) : Prop :=
  l <> [] /\ NoDup (pc_task_id <$> l) /\ Forall (wf_credit tasks keeper) l.

Definition wf_unbond (r : UnbondRequest) : Prop :=
  0 < ur_amount r <= int_max i128 /\ in_range u32 (ur_unlock_ledger r).

Definition wf_slash (counter slash_id : Z) (r : SlashRecord) : Prop :=
  1 <= slash_id <= counter /\ 0 < sr_amount r <= int_max i128 /\ in_range u32 (sr_ledger r).

Definition wf_history (h : SlashHistory) : Prop :=
  in_range u32 (sh_count h) /\ nat128 (sh_total_slashed h).

Record wf (st : Store) : Prop := mkWf {
  wf_uninitialized : s_admin st = None -> st = empty_store;
  wf_initialized : is_Some (s_admin st) -> is_Some (s_reward_token st);
  wf_fee_bps : 0 <= fee_bps st <= 10000;
  wf_min_reward : nat128 (min_reward_floor st);
  wf_min_stake : nat128 (min_stake_floor st);
  wf_window : 0 <= dispute_window_ledgers st <= MAX_EXECUTION_DISPUTE_WINDOW_LEDGERS;
  wf_floor : 0 <= reputation_floor_bps st <= MAX_REPUTATION_FLOOR_BPS;
  wf_task_counter : in_range u64 (default 0 (s_task_counter st));
  wf_slash_counter : in_range u64 (default 0 (s_slash_counter st));
  wf_fees : nat128 (fees_accrued st);
  wf_tasks : map_Forall (wf_task (default 0 (s_task_counter st))) (s_task st);
  wf_rewards : map_Forall (fun _ => nat128) (s_keeper_reward st);
  wf_stakes : map_Forall (fun _ => nat128) (s_keeper_stake st);
  wf_unbonds : map_Forall (fun _ => wf_unbond) (s_unbond_request st);
  wf_slashes : map_Forall (wf_slash (default 0 (s_slash_counter st))) (s_slash st);
  wf_pending : map_Forall (wf_credits (s_task st)) (s_pending_reward st);
  wf_histories : map_Forall (fun _ => wf_history) (s_slash_history st);
  wf_reputations : map_Forall (fun _ => wf_reputation) (s_reputation st);
}.

Lemma wf_empty : wf empty_store.
Proof.
  split; try done; try apply map_Forall_empty; unfold in_range, nat128; cbn; lia.
Qed.

(** ** Reading a well-formed store *)

Lemma map_Forall_default {K V} `{Countable K} (P : V -> Prop) (m : gmap K V) k d :
  map_Forall (fun _ => P) m -> P d -> P (default d (m !! k)).
Proof. intros Hm Hd. destruct (m !! k) eqn:Hk; cbn; [by eapply Hm | done]. Qed.

Lemma wf_reward_of st keeper : wf st -> nat128 (keeper_reward_of st keeper).
Proof. intros Hwf. apply (map_Forall_default nat128); [apply Hwf|]. unfold nat128; cbn. lia. Qed.

Lemma wf_stake_of st keeper : wf st -> nat128 (keeper_stake_of st keeper).
Proof. intros Hwf. apply (map_Forall_default nat128); [apply Hwf|]. unfold nat128; cbn. lia. Qed.

Lemma wf_unbond_amount st keeper :
  wf st -> 0 <= from_option ur_amount 0 (s_unbond_request st !! keeper).
Proof.
  intros Hwf. destruct (_ !! _) eqn:Hk; cbn; [|done].
  apply (wf_unbonds _ Hwf) in Hk as [? _]. lia.
Qed.

Lemma wf_history_of st keeper : wf st -> wf_history (read_slash_history st keeper).
Proof.
  intros Hwf. apply (map_Forall_default wf_history); [apply Hwf|].
  unfold wf_history, in_range, nat128; cbn. lia.
Qed.

Lemma wf_credits_of st keeper :
  wf st -> NoDup (pc_task_id <$> pending_credits_of st keeper) /\
    Forall (wf_credit (s_task st) keeper) (pending_credits_of st keeper).
Proof.
  intros Hwf. unfold pending_credits_of. destruct (_ !! _) eqn:Hk; cbn.
  - by apply (wf_pending _ Hwf) in Hk as (_ & ? & ?).
  - split; constructor.
Qed.

Lemma wf_lookup_task st id t : wf st -> s_task st !! id = Some t ->
  wf_task (default 0 (s_task_counter st)) id t.
Proof. intros Hwf Hk. by apply (wf_tasks _ Hwf). Qed.

(** Anything in storage means the registry is initialized. *)
Lemma wf_admin_token st tok : wf st -> s_reward_token st = Some tok -> is_Some (s_admin st).
Proof.
  intros Hwf Ht. destruct (s_admin st) eqn:Ha; [by eexists|].
  by rewrite (wf_uninitialized _ Hwf Ha) in Ht.
Qed.

Lemma wf_admin_task st id t : wf st -> s_task st !! id = Some t -> is_Some (s_admin st).
Proof.
  intros Hwf Ht. destruct (s_admin st) eqn:Ha; [by eexists|].
  by rewrite (wf_uninitialized _ Hwf Ha) in Ht.
Qed.

Lemma wf_admin_slash st id r : wf st -> s_slash st !! id = Some r -> is_Some (s_admin st).
Proof.
  intros Hwf Ht. destruct (s_admin st) eqn:Ha; [by eexists|].
  by rewrite (wf_uninitialized _ Hwf Ha) in Ht.
Qed.

(** ** One lemma per storage write *)

Ltac wf_write :=
  intros Hwf [a Ha]; intros;
  split; cbn; first [by apply Hwf | by rewrite Ha | idtac];
  try (apply map_Forall_insert_2); try (by apply Hwf); try done.

Lemma wf_put_task st id t :
  wf st -> is_Some (s_admin st) ->
  (forall old, s_task st !! id = Some old -> open_status (t_status old) = true) ->
  wf_task (default 0 (s_task_counter st)) id t ->
  wf (st <| s_task ::= <[id := t]> |>).
Proof.
  wf_write. intros k l Hl. apply (wf_pending _ Hwf) in Hl as (Hne & Hnd & Hcr).
  split_and!; [done..|]. eapply Forall_impl; [|exact Hcr].
  intros c (Hn & Hu & t0 & Ht0 & Hst & Hcl). split_and!; [done..|].
  exists t0. rewrite fin_maps.lookup_insert. case_decide; [|done].
  subst id. apply H in Ht0. by rewrite Hst in Ht0.
Qed.

Lemma wf_new_task st id t :
  wf st -> is_Some (s_admin st) ->
  id = default 0 (s_task_counter st) + 1 -> in_range u64 id -> wf_task id id t ->
  wf (st <| s_task_counter := Some id |> <| s_task ::= <[id := t]> |>).
Proof.
  intros Hwf Ha -> Hid Ht. apply wf_put_task; [|done| |done].
  - destruct Ha as [a Ha]. split; cbn; first [by apply Hwf | by rewrite Ha | idtac]; [done|].
    eapply map_Forall_impl; [apply Hwf|]. intros i t0 (Hi & ?). split; [lia|done].
  - cbn. intros old Hold. apply (wf_tasks _ Hwf) in Hold as (Hi & _). lia.
Qed.

Lemma wf_put_reward st k v : wf st -> is_Some (s_admin st) -> nat128 v ->
  wf (st <| s_keeper_reward ::= <[k := v]> |>).
Proof. wf_write. Qed.

Lemma wf_put_stake st k v : wf st -> is_Some (s_admin st) -> nat128 v ->
  wf (st <| s_keeper_stake ::= <[k := v]> |>).
Proof. wf_write. Qed.

Lemma wf_put_unbond st k r : wf st -> is_Some (s_admin st) -> wf_unbond r ->
  wf (st <| s_unbond_request ::= <[k := r]> |>).
Proof. wf_write. Qed.

Lemma wf_delete_unbond st k : wf st -> is_Some (s_admin st) ->
  wf (st <| s_unbond_request ::= delete k |>).
Proof. wf_write. by apply map_Forall_delete, Hwf. Qed.

Lemma wf_put_fees st v : wf st -> is_Some (s_admin st) -> nat128 v ->
  wf (st <| s_fees_accrued := Some v |>).
Proof. wf_write. Qed.

Lemma wf_put_slash st id r : wf st -> is_Some (s_admin st) ->
  wf_slash (default 0 (s_slash_counter st)) id r -> wf (st <| s_slash ::= <[id := r]> |>).
Proof. wf_write. Qed.

Lemma wf_put_slash_counter st : wf st -> is_Some (s_admin st) ->
  in_range u64 (default 0 (s_slash_counter st) + 1) ->
  wf (st <| s_slash_counter := Some (default 0 (s_slash_counter st) + 1) |>).
Proof.
  wf_write. eapply map_Forall_impl; [apply Hwf|]. intros i r (Hi & ?). split; [lia|done].
Qed.

Lemma wf_delete_slash st id : wf st -> is_Some (s_admin st) -> wf (st <| s_slash ::= delete id |>).
Proof. wf_write. by apply map_Forall_delete, Hwf. Qed.

Lemma wf_put_history st k h : wf st -> is_Some (s_admin st) -> wf_history h ->
  wf (st <| s_slash_history ::= <[k := h]> |>).
Proof. wf_write. Qed.

Lemma wf_put_credits st k l : wf st -> is_Some (s_admin st) -> wf_credits (s_task st) k l ->
  wf (st <| s_pending_reward ::= <[k := l]> |>).
Proof. wf_write. Qed.

Lemma wf_put_pending st k l : wf st -> is_Some (s_admin st) ->
  NoDup (pc_task_id <$> l) -> Forall (wf_credit (s_task st) k) l ->
  wf (st <| s_pending_reward ::= put_pending k l |>).
Proof.
  destruct l as [|c l]; cbn [put_pending].
  - wf_write. by apply map_Forall_delete, Hwf.
  - intros. by apply wf_put_credits.
Qed.

Lemma wf_bump_reputation e success k st : wf st -> is_Some (s_admin st) ->
  in_range u32 (ledger_sequence e) -> wf (bump_reputation e success k st).
Proof.
  unfold bump_reputation. wf_write. apply updated_record_wf; [done|].
  apply stored_record_wf, Hwf.
Qed.

(** ** Every entry point preserves the invariant *)

Ltac spec H := apply ensures in H; cbn beta zeta in H; run_simpl.

Section Preservation.
Context `{Ledger}.
Implicit Types (e : Env) (s : RS).

(** A rewrite of an open task that keeps its immutable parts well formed. *)
Lemma wf_rewrite_task st id t (f : Task -> Task) :
  wf st -> s_task st !! id = Some t -> open_status (t_status t) = true ->
  (forall c, wf_task c id t -> wf_task c id (f t)) ->
  wf (st <| s_task ::= <[id := f t]> |>).
Proof.
  intros Hwf Hk Ho Hf. apply wf_put_task; [done | by eapply wf_admin_task | |].
  - intros old Hold. by simplify_eq.
  - by apply Hf, wf_lookup_task.
Qed.

Lemma wf_claimed_task e keeper c id t :
  in_range u32 (ledger_sequence e) -> wf_task c id t -> wf_task c id (claimed_task e keeper t).
Proof.
  intros He (? & ? & ? & ? & ? & ? & ?). unfold wf_task, claim_fields, claimed_task; cbn.
  split_and!; try done; naive_solver.
Qed.

Lemma claim_allowed_open e t missed : claim_allowed e t missed -> open_status (t_status t) = true.
Proof. by intros [[-> _]|(-> & _)]. Qed.

Lemma claim_task_wf e keeper id s s' :
  wf (store s) -> in_range u32 (ledger_sequence e) ->
  claim_task e keeper id s = Ok tt s' -> wf (store s').
Proof.
  intros Hwf He Hr. apply ensures in Hr.
  destruct Hr as (t & missed & _ & _ & _ & Hk & _ & Hc & _ & _ & -> & _).
  pose proof (wf_admin_task _ _ _ Hwf Hk) as Ha.
  assert (wf (from_option (fun k => bump_reputation e false k (store s)) (store s) missed) /\
    s_task (from_option (fun k => bump_reputation e false k (store s)) (store s) missed)
      = s_task (store s)) as [Hwf' Htask].
  { destruct missed; cbn; [split; [by apply wf_bump_reputation | done] | done]. }
  unfold claim_store. apply (wf_rewrite_task _ _ _ (claimed_task e keeper)); [done | | |].
  - by rewrite Htask.
  - by eapply claim_allowed_open.
  - intros c. by apply wf_claimed_task.
Qed.

Lemma accrued_wf amount st :
  wf st -> is_Some (s_admin st) -> 0 <= amount ->
  (amount = 0 \/ in_range i128 (fees_accrued st + amount)) -> wf (accrued amount st).
Proof.
  intros Hwf Ha H0 Hr. unfold accrued. case_bool_decide; [done|].
  apply wf_put_fees; [done..|]. destruct Hr as [|[_ ?]]; [done|].
  pose proof (wf_fees _ Hwf). unfold nat128 in *. lia.
Qed.

Lemma new_credit_wf e id net window tasks keeper t :
  nat128 net -> in_range u32 (ledger_sequence e) -> 0 <= window ->
  tasks !! id = Some t -> t_status t = Executed -> t_claimer t = Some keeper ->
  wf_credit tasks keeper (new_credit e id net window).
Proof.
  intros Hn He Hw Hk Hst Hcl. split_and!; [done| |by eexists].
  cbn. unfold in_range, saturating_add, clamp in *; cbn in *. lia.
Qed.

Lemma execute_task_wf e keeper id proof s s' :
  wf (store s) -> in_range u32 (ledger_sequence e) ->
  execute_task e keeper id proof s = Ok tt s' -> wf (store s').
Proof.
  intros Hwf He Hr. apply ensures in Hr.
  destruct Hr as (t & net & fee & _ & _ & _ & Hk & Hst & Hcl & _ & _ & Hsp & Hw & Hf & -> & _).
  pose proof (wf_admin_task _ _ _ Hwf Hk) as Ha.
  pose proof (wf_lookup_task _ _ _ Hwf Hk) as Ht.
  assert (0 < t_reward t <= int_max i128) as Hrew by apply Ht.
  apply split_reward_inr in Hsp as (_ & -> & Hfee); [|lia|apply Hwf].
  set (st1 := (store s) <| s_task ::= <[id := t <| t_status := Executed |>]> |>).
  assert (wf st1) as Hwf1.
  { apply (wf_rewrite_task _ _ _ (fun t => t <| t_status := Executed |>)); [done..|by rewrite Hst|].
    intros c (? & ? & ? & ? & ? & ? & Hcf). unfold wf_task, claim_fields in *; cbn. by rewrite Hst in Hcf. }
  set (net := t_reward t - fee) in *.
  assert (nat128 net) as Hnet by (unfold nat128; lia).
  enough (wf (bump_reputation e true keeper (accrued fee (pay_keeper e keeper id net st1)))) as Hfin.
  { revert Hfin. unfold execute_store, bump_reputation, accrued, pay_keeper, st1; cbn.
    by repeat case_bool_decide. }
  assert (wf (pay_keeper e keeper id net st1)) as Hwf2.
  { unfold pay_keeper. case_bool_decide as Hwin; [|].
    - apply wf_put_credits; [done..|]. split_and!; [by destruct (pending_credits_of _ _)| |].
      + rewrite fmap_app. apply list.NoDup_app. destruct (wf_credits_of _ keeper Hwf) as [Hnd Hall].
        split_and!; [done| |apply NoDup_singleton].
        intros i (c & -> & Hc)%list_elem_of_fmap Hid%list_elem_of_singleton. cbn in *.
        eapply list.Forall_forall in Hall as (_ & _ & t0 & Ht0 & Hst0 & _); [|exact Hc].
        rewrite Hid, Hk in Ht0. simplify_eq. by rewrite Hst0 in Hst.
      + apply list.Forall_app. split; [apply (wf_credits_of st1 keeper Hwf1)|].
        constructor; [|constructor]. eapply new_credit_wf; [done..| | | |]; cbn.
        * exact (proj1 (wf_window _ Hwf1)).
        * apply lookup_insert_eq.
        * done.
        * done.
    - apply wf_put_reward; [done..|]. pose proof (wf_reward_of _ keeper Hwf).
      destruct Hw as [Hw|[_ Hw]]; [cbn in Hwin; unfold dispute_window_ledgers in *; cbn in *; lia|].
      unfold nat128, keeper_reward_of in *; cbn in *. lia. }
  apply wf_bump_reputation; [|by unfold accrued, pay_keeper; repeat case_bool_decide|done].
  apply accrued_wf; [done|by unfold pay_keeper; case_bool_decide|lia|].
  unfold fees_accrued in *. by rewrite pay_keeper_fees.
Qed.
Lemma credited_overwritten keeper l st v :
  <[keeper := v]> (s_keeper_reward (foldl (credited keeper) st l))
    = <[keeper := v]> (s_keeper_reward st).
Proof.
  revert st. induction l as [|c l IH]; intros st; cbn; [done|].
  rewrite IH. cbn. by rewrite fin_maps.insert_insert_eq.
Qed.

(** After a withdrawal the keeper's balance is zero and its due credits are
    gone; nothing else changed. *)
Lemma withdrawn_store e keeper st :
  (finalized_store e keeper st) <| s_keeper_reward ::= <[keeper := 0]> |> =
    st <| s_keeper_reward ::= <[keeper := 0]> |>
       <| s_pending_reward ::= match due (ledger_sequence e) (pending_credits_of st keeper) with
                               | [] => id
                               | _ => put_pending keeper
                                        (undue (ledger_sequence e) (pending_credits_of st keeper))
                               end |>.
Proof.
  unfold finalized_store. destruct (due _ _) as [|c l] eqn:Hd; [by destruct st|].
  generalize (credited_other_fields keeper (c :: l) st) (credited_overwritten keeper (c :: l) st 0).
  cbv zeta. generalize (foldl (credited keeper) st (c :: l)). intros st' Hf Ho.
  rewrite Hf.
  pose (g r := st <| s_keeper_reward := r |> <| s_pending_reward ::= put_pending keeper
                 (undue (ledger_sequence e) (pending_credits_of st keeper)) |>).
  exact (f_equal g Ho).
Qed.

Lemma undue_wf now keeper st :
  wf st -> NoDup (pc_task_id <$> undue now (pending_credits_of st keeper)) /\
    Forall (wf_credit (s_task st) keeper) (undue now (pending_credits_of st keeper)).
Proof.
  intros Hwf. destruct (wf_credits_of _ keeper Hwf) as [Hnd Hall]. split.
  - eapply sublist_NoDup; [exact Hnd|]. apply fmap_sublist, sublist_filter.
  - by apply Forall_filter.
Qed.

Lemma withdraw_rewards_wf e keeper a s s' :
  wf (store s) -> withdraw_rewards e keeper s = Ok a s' -> wf (store s').
Proof.
  intros Hwf Hr. apply ensures in Hr as (tok & l & _ & _ & _ & Ht & _ & -> & _).
  pose proof (wf_admin_token _ _ Hwf Ht) as Ha. rewrite withdrawn_store.
  assert (wf ((store s) <| s_keeper_reward ::= <[keeper := 0]> |>)) as Hwf1.
  { apply wf_put_reward; [done..|]. unfold nat128; cbn. lia. }
  destruct (due _ _); [exact Hwf1|].
  destruct (undue_wf (ledger_sequence e) keeper _ Hwf). by apply wf_put_pending.
Qed.

Lemma new_task_wf e owner p v c id :
  typed_params p -> in_range u64 id -> 0 <= c -> id = c + 1 ->
  valid_params e (b_reward p) 0 (b_deadline p) (len (b_calldata p)) (b_ttl_ledgers p) (b_lock_ledgers p) ->
  wf_task id id (mkTask owner (b_task_type p) (b_calldata p) (b_reward p) (b_deadline p)
    (b_ttl_ledgers p) Pending None None (b_lock_ledgers p) v (b_condition p)).
Proof.
  intros (Hr & Hd & Ht & Hl) Hid Hc -> (H0 & _ & _ & _ & Hlock & _).
  unfold wf_task, claim_fields; cbn [t_reward t_deadline t_ttl_ledgers t_lock_ledgers
    t_claim_ledger t_status t_claimer]. destruct Hr.
  split_and!; try done; lia.
Qed.

Lemma valid_entry_floor e st p :
  wf st -> valid_entry e st p ->
  valid_params e (b_reward p) 0 (b_deadline p) (len (b_calldata p)) (b_ttl_ledgers p) (b_lock_ledgers p).
Proof.
  intros Hwf (H0 & H1 & H2). pose proof (wf_min_reward _ Hwf). unfold nat128 in *.
  split; [done|]. split; [lia | exact H2].
Qed.

Lemma register_entry_wf e init owner tok p s id s' :
  wf (store s) -> is_Some (s_admin (store s)) -> typed_params p -> valid_entry e (store s) p ->
  register_entry e init owner tok p s = Ok id s' -> wf (store s') /\ is_Some (s_admin (store s')).
Proof.
  intros Hwf Ha Hp Hv Hr. apply runs in Hr as (l & _ & Hid & Hin & ->). cbn. split; [|done].
  apply wf_new_task; [done..|]. eapply new_task_wf; [done..| |exact Hid|by eapply valid_entry_floor].
  apply (wf_task_counter _ Hwf).
Qed.

Lemma register_params_wf e owner p s id s' :
  wf (store s) -> typed_params p -> register_params e owner p s = Ok id s' -> wf (store s').
Proof.
  intros Hwf Hp Hr. destruct (task_to_register_entry e FromParams owner p s s id s') as (Hv & tok & s1 & Hrdy & Hs1 & Heq);
    [done..|]. destruct Heq as (<- & _). destruct Hrdy as (_ & _ & Ht).
  eapply register_entry_wf; [done | by eapply wf_admin_token | done..].
Qed.

Lemma batch_register_tasks_wf e init owner tasks max s ids s' :
  wf (store s) -> Forall typed_params tasks ->
  batch_register_tasks e init owner tasks max s = Ok ids s' -> wf (store s').
Proof.
  intros Hwf Hp Hr. apply ensures in Hr as (tok & s1 & Hrdy & _ & _ & _ & Hv & Heq & Hr).
  assert (is_Some (s_admin (store s))) as Ha by (eapply wf_admin_token, Hrdy; done).
  destruct Heq as (Hs & _). rewrite Hs in *.
  refine (proj1 (for_fold_invariant (fun _ (s2 : RS) => wf (store s2) /\ is_Some (s_admin (store s2))
    /\ Forall (valid_entry e (store s2)) tasks) tasks [] _ _ _ _ _ _ Hr)); [|done].
  cbn beta. intros ids1 p s2 ids2 s3 Hin (Hwf2 & Ha2 & Hv2) (id & s4 & Hx & Hret)%bind_Ok.
  apply runs in Hret as [_ ->].
  assert (typed_params p) by (by eapply list.Forall_forall in Hp).
  assert (valid_entry e (store s2) p) by (by eapply list.Forall_forall in Hv2).
  destruct (register_entry_wf _ _ _ _ _ _ _ _ Hwf2 Ha2 ltac:(done) ltac:(done) Hx).
  split_and!; [done..|]. eapply Forall_impl; [|exact Hv2].
  intros q. by apply (register_entry_frame _ _ _ _ _ _ _ _ Hx).
Qed.
Lemma in_range_nat128 z : in_range i128 z -> 0 <= z -> nat128 z.
Proof. unfold in_range, nat128. lia. Qed.

Lemma stake_deposit_wf e keeper amount s s' :
  wf (store s) -> stake_deposit e keeper amount s = Ok tt s' -> wf (store s').
Proof.
  intros Hwf Hr. apply ensures in Hr as (tok & l & Ha & _ & H0 & _ & Hin & _ & _ & -> & _).
  apply wf_put_stake; [done..|]. apply in_range_nat128; [done|].
  pose proof (wf_stake_of _ keeper Hwf). unfold nat128 in *. lia.
Qed.

Lemma new_unbond_wf e amount :
  in_range u32 (ledger_sequence e) -> 0 < amount <= int_max i128 -> wf_unbond (new_unbond e amount).
Proof.
  intros He Ha. split; [done|]. cbn. unfold in_range, saturating_add, clamp in *. cbn in *.
  unfold UNBOND_DELAY_LEDGERS. lia.
Qed.

Lemma initiate_unbond_wf e keeper amount s s' :
  wf (store s) -> in_range u32 (ledger_sequence e) ->
  initiate_unbond e keeper amount s = Ok tt s' -> wf (store s').
Proof.
  intros Hwf He Hr. apply ensures in Hr as (Ha & _ & H0 & _ & _ & -> & _).
  pose proof (wf_stake_of _ keeper Hwf). unfold nat128 in *.
  apply wf_put_unbond; [apply wf_put_stake; [done..|]|done|].
  - unfold nat128. lia.
  - apply new_unbond_wf; [done | lia].
Qed.

Lemma drawn_wf st keeper amount :
  wf st -> is_Some (s_admin st) ->
  amount <= from_option ur_amount 0 (s_unbond_request st !! keeper) ->
  wf (st <| s_unbond_request ::= drawn keeper (s_unbond_request st !! keeper) amount |>).
Proof.
  intros Hwf Ha Hle. unfold drawn.
  assert (wf (st <| s_unbond_request ::= fun m => m |>)) by (by destruct st).
  destruct (_ !! _) as [r|] eqn:Hk; [|done]. cbn in Hle.
  case_bool_decide; [|done]. case_bool_decide; [by apply wf_delete_unbond|].
  apply (wf_put_unbond st keeper); [done..|].
  apply (wf_unbonds _ Hwf) in Hk as [? ?]. split; [cbn in *; lia|done].
Qed.

Lemma slash_wf e admin keeper amount reason treasury s id s' :
  wf (store s) -> in_range u32 (ledger_sequence e) -> in_range i128 amount ->
  slash e admin keeper amount reason treasury s = Ok id s' -> wf (store s').
Proof.
  intros Hwf He Hi Hr. apply ensures in Hr. cbv zeta in Hr. destruct Hr as
    (tok & l & Had & _ & H0 & _ & _ & -> & Hid & Hc & Ht & -> & _).
  assert (is_Some (s_admin (store s))) as Ha by (by eexists).
  pose proof (wf_stake_of _ keeper Hwf) as Hst. pose proof (wf_history_of _ keeper Hwf) as [_ Hh].
  unfold nat128 in *. destruct Hi as [_ Hi].
  set (from_stake := Z.min amount (keeper_stake_of (store s) keeper)).
  set (st1 := (store s) <| s_keeper_stake ::=
                <[keeper := keeper_stake_of (store s) keeper - from_stake]> |>).
  set (st2 := st1 <| s_unbond_request ::=
                drawn keeper (s_unbond_request st1 !! keeper) (amount - from_stake) |>).
  set (st3 := st2 <| s_slash_counter := Some (default 0 (s_slash_counter st2) + 1) |>).
  assert (wf st1) as Hwf1 by (apply wf_put_stake; [done..|unfold nat128; lia]).
  assert (wf st2) as Hwf2.
  { apply drawn_wf; [done..|]. pose proof (wf_unbond_amount _ keeper Hwf).
    change (s_unbond_request st1) with (s_unbond_request (store s)). lia. }
  assert (wf st3) as Hwf3 by (by apply wf_put_slash_counter).
  apply (wf_put_history (st3 <| s_slash ::= <[default 0 (s_slash_counter st2) + 1 :=
           mkSlashRecord keeper amount reason (ledger_sequence e) false]> |>)); [|done|].
  - apply wf_put_slash; [done..|]. destruct (wf_slash_counter _ Hwf) as [? ?].
    split_and!; cbn in *; try done; lia.
  - split; [done|]. apply in_range_nat128; [exact Ht | cbn; lia].
Qed.

Lemma raise_slash_appeal_wf e keeper id s s' :
  wf (store s) -> raise_slash_appeal e keeper id s = Ok tt s' -> wf (store s').
Proof.
  intros Hwf Hr. apply ensures in Hr as (r & _ & Hk & _ & _ & _ & -> & _).
  apply wf_put_slash; [done | by eapply wf_admin_slash | by apply (wf_slashes _ Hwf) in Hk].
Qed.

Lemma resolve_slash_appeal_wf e admin id uphold s s' :
  wf (store s) -> resolve_slash_appeal e admin id uphold s = Ok tt s' -> wf (store s').
Proof.
  intros Hwf Hr. apply ensures in Hr as (r & Had & _ & Hk & _ & _ & Hst). cbv zeta in Hst.
  assert (is_Some (s_admin (store s))) as Ha by (by eexists).
  assert (wf ((store s) <| s_slash ::= delete id |>)) by (by apply wf_delete_slash).
  destruct uphold; [|by destruct Hst as [-> _]].
  destruct Hst as (tok & Hin & _ & _ & ->). apply wf_put_stake; [done..|].
  apply in_range_nat128; [done|]. pose proof (wf_stake_of _ (sr_keeper r) Hwf) as [? _].
  apply (wf_slashes _ Hwf) in Hk as (_ & ? & _). cbn. unfold keeper_stake_of in *; cbn. lia.
Qed.

Lemma dispute_execution_wf e owner id s s' :
  wf (store s) -> dispute_execution e owner id s = Ok tt s' -> wf (store s').
Proof.
  intros Hwf Hr. apply ensures in Hr as
    (t & keeper & i & c & _ & Hk & _ & _ & Hc & _ & _ & _ & -> & _).
  destruct (wf_credits_of _ keeper Hwf) as [Hnd Hall].
  apply wf_put_credits; [done | by eapply wf_admin_task |]. split_and!.
  - intros Hn. apply (f_equal length) in Hn. rewrite length_insert in Hn.
    apply lookup_lt_Some in Hc. cbn in Hn. lia.
  - rewrite list_fmap_insert. cbn. rewrite list_insert_id; [done|]. by rewrite list_lookup_fmap, Hc.
  - apply Forall_insert; [done|]. exact (list.Forall_lookup_1 _ _ _ _ Hall Hc).
Qed.

Lemma resolve_execution_dispute_wf e admin id uphold s s' :
  wf (store s) -> resolve_execution_dispute e admin id uphold s = Ok tt s' -> wf (store s').
Proof.
  intros Hwf Hr. apply ensures in Hr as
    (t & keeper & i & c & Had & _ & _ & _ & Hc & _ & _ & Hf & Hst & _). cbv zeta in Hst, Hf. rewrite Hst.
  assert (is_Some (s_admin (store s))) as Ha by (by eexists).
  destruct (wf_credits_of _ keeper Hwf) as [Hnd Hall].
  assert (wf ((store s) <| s_pending_reward ::= put_pending keeper
                (resolved uphold i c (pending_credits_of (store s) keeper)) |>)) as Hwf1.
  { apply wf_put_pending; [done..| |]; unfold resolved; destruct uphold.
    - eapply sublist_NoDup; [exact Hnd|]. apply fmap_sublist, sublist_delete.
    - rewrite list_fmap_insert. cbn. rewrite list_insert_id; [done|]. by rewrite list_lookup_fmap, Hc.
    - by apply Forall_delete.
    - apply Forall_insert; [done|]. exact (list.Forall_lookup_1 _ _ _ _ Hall Hc). }
  case_bool_decide; [|done]. apply accrued_wf; [done|done|lia|].
  destruct Hf; [lia|by right].
Qed.
(** Rewrites of an open task that touch neither its claim nor its lock. *)
Lemma wf_task_reward c id t r :
  in_range i128 r -> 0 < r -> wf_task c id t -> wf_task c id (t <| t_reward := r |>).
Proof. intros [_ Hr] H0 (? & ? & ? & ? & ? & ? & Hf). unfold wf_task; cbn [t_reward]. tauto. Qed.

Lemma wf_task_deadline c id t d :
  in_range u64 d -> wf_task c id t -> wf_task c id (t <| t_deadline := d |>).
Proof. intros Hd (? & ? & ? & ? & ? & ? & Hf). unfold wf_task. tauto. Qed.

Lemma wf_task_verifier c id t v : wf_task c id t -> wf_task c id (t <| t_verifier := v |>).
Proof. intros (? & ? & ? & ? & ? & ? & Hf). unfold wf_task. tauto. Qed.

(** Closing an open task as cancelled or expired. *)
Lemma wf_task_closed c id t st :
  st = Cancelled \/ st = Expired -> open_status (t_status t) = true ->
  wf_task c id t -> wf_task c id (t <| t_status := st |>).
Proof.
  intros Hst Ho (? & ? & ? & ? & ? & ? & Hf).
  enough (claim_fields (t <| t_status := st |>)) by (unfold wf_task; tauto). revert Hf Ho.
  unfold claim_fields; cbn. destruct Hst as [-> | ->], (t_status t); try done;
    intros [Hc Hl] _; rewrite ?Hc, ?Hl; try done; destruct Hc as [? ->], Hl as [? ->]; done.
Qed.

(** The writes that change configuration only. *)
Lemma wf_configuration st fee paused min_reward min_stake window floor :
  wf st -> is_Some (s_admin st) -> 0 <= default 0 fee <= 10000 ->
  nat128 (default 0 min_reward) -> nat128 (default 0 min_stake) ->
  0 <= default 0 window <= MAX_EXECUTION_DISPUTE_WINDOW_LEDGERS ->
  0 <= default 0 floor <= MAX_REPUTATION_FLOOR_BPS ->
  wf (st <| s_fee_bps := fee |> <| s_paused := paused |> <| s_min_reward := min_reward |>
         <| s_min_stake := min_stake |> <| s_dispute_window := window |>
         <| s_reputation_floor := floor |>).
Proof. intros Hwf [a Ha]; intros. split; cbn; try done; try (by apply Hwf). by rewrite Ha. Qed.

Lemma wf_set_admin st a : wf st -> is_Some (s_admin st) -> wf (st <| s_admin := Some a |>).
Proof.
  intros Hwf Ha. split; cbn; try done; try (by apply Hwf). intros _. by apply Hwf.
Qed.

Lemma initialized_wf a tok bps :
  0 <= bps <= 10000 ->
  wf (empty_store <| s_admin := Some a |> <| s_reward_token := Some tok |>
        <| s_fee_bps := Some bps |> <| s_paused := Some false |> <| s_task_counter := Some 0 |>).
Proof.
  intros Hb. split; try done; try apply map_Forall_empty; unfold in_range, nat128; cbn; lia.
Qed.

(** The configuration setters. *)
Ltac wf_setter :=
  intros Hwf Hr; intros; apply ensures in Hr; cbv zeta in Hr; run_simpl;
  match goal with
  | Hst : store _ = ?st' |- wf (store _) =>
      rewrite Hst;
      assert (wf (st' <| s_fee_bps := s_fee_bps st' |> <| s_paused := s_paused st' |>
        <| s_min_reward := s_min_reward st' |> <| s_min_stake := s_min_stake st' |>
        <| s_dispute_window := s_dispute_window st' |>
        <| s_reputation_floor := s_reputation_floor st' |>)); [|done];
      match st' with context [store ?s0] =>
        apply (wf_configuration (store s0)); [done | by eexists | ..]; cbn;
        try (by apply Hwf)
      end
  end.

Lemma pause_wf e admin s s' : wf (store s) -> pause e admin s = Ok tt s' -> wf (store s').
Proof. wf_setter. Qed.

Lemma unpause_wf e admin s s' : wf (store s) -> unpause e admin s = Ok tt s' -> wf (store s').
Proof. wf_setter. Qed.

Lemma set_fee_bps_wf e admin bps s s' :
  wf (store s) -> set_fee_bps e admin bps s = Ok tt s' -> in_range u32 bps -> wf (store s').
Proof. wf_setter. unfold in_range in *; cbn in *; lia. Qed.

Lemma set_min_reward_wf e admin amount s s' :
  wf (store s) -> set_min_reward e admin amount s = Ok tt s' -> in_range i128 amount -> wf (store s').
Proof. wf_setter. by apply in_range_nat128. Qed.

Lemma set_min_stake_wf e admin amount s s' :
  wf (store s) -> set_min_stake e admin amount s = Ok tt s' -> in_range i128 amount -> wf (store s').
Proof. wf_setter. by apply in_range_nat128. Qed.

Lemma set_reputation_floor_wf e admin bps s s' :
  wf (store s) -> set_reputation_floor e admin bps s = Ok tt s' -> in_range u32 bps -> wf (store s').
Proof. wf_setter. unfold in_range in *; cbn in *; lia. Qed.

Lemma set_dispute_window_wf e admin n s s' :
  wf (store s) -> set_dispute_window e admin n s = Ok tt s' -> in_range u32 n -> wf (store s').
Proof. wf_setter. unfold in_range in *; cbn in *; lia. Qed.

Lemma initialize_wf e admin tok bps s s' :
  wf (store s) -> initialize e admin tok bps s = Ok tt s' -> in_range u32 bps -> wf (store s').
Proof.
  intros Hwf Hr [? _]. apply ensures in Hr as (Hn & Hb & _ & -> & _).
  rewrite (wf_uninitialized _ Hwf Hn). by apply initialized_wf.
Qed.

Lemma transfer_admin_wf e admin new_admin s s' :
  wf (store s) -> transfer_admin e admin new_admin s = Ok tt s' -> wf (store s').
Proof.
  intros Hwf Hr. apply ensures in Hr as (Ha & _ & _ & -> & _). apply wf_set_admin; [done|by eexists].
Qed.

Lemma upgrade_wf e admin hash s s' :
  wf (store s) -> upgrade e admin hash s = Ok tt s' -> wf (store s').
Proof. intros Hwf Hr. by apply ensures in Hr as (_ & _ & -> & _). Qed.

Lemma sweep_fees_wf e admin treasury amount s s' :
  wf (store s) -> sweep_fees e admin treasury amount s = Ok tt s' -> wf (store s').
Proof.
  intros Hwf Hr. apply ensures in Hr as (tok & l & Ha & _ & Hf & _ & _ & -> & _).
  apply wf_put_fees; [done | by eexists |].
  pose proof (wf_fees _ Hwf). unfold nat128 in *. lia.
Qed.

Lemma withdraw_stake_wf e keeper a s s' :
  wf (store s) -> withdraw_stake e keeper s = Ok a s' -> wf (store s').
Proof.
  intros Hwf Hr. apply ensures in Hr as (u & tok & l & Ha & _ & _ & _ & _ & _ & -> & _).
  by apply wf_delete_unbond.
Qed.

(** The owner's edits and the two refunds. *)
Lemma increase_reward_wf e owner id additional s s' :
  wf (store s) -> increase_reward e owner id additional s = Ok tt s' -> wf (store s').
Proof.
  intros Hwf Hr. apply ensures in Hr as (t & tok & l & _ & _ & H0 & Hk & _ & Ho & _ & _ & Hi & -> & _).
  eapply (wf_rewrite_task _ _ _ (fun t => t <| t_reward := t_reward t + additional |>)); [done..|].
  intros c Ht. apply wf_task_reward; [done| |done]. destruct Ht as (_ & ? & _). lia.
Qed.

Lemma extend_deadline_wf e owner id d s s' :
  wf (store s) -> in_range u64 d -> extend_deadline e owner id d s = Ok tt s' -> wf (store s').
Proof.
  intros Hwf Hd Hr. apply ensures in Hr as (t & _ & _ & Hk & _ & Ho & _ & -> & _).
  apply (wf_rewrite_task _ _ _ (fun t => t <| t_deadline := d |>)); [done..|].
  intros c. by apply wf_task_deadline.
Qed.

Lemma update_verifier_wf e owner id v s s' :
  wf (store s) -> update_verifier e owner id v s = Ok tt s' -> wf (store s').
Proof.
  intros Hwf Hr. apply ensures in Hr as (t & _ & _ & Hk & _ & Ho & -> & _).
  apply (wf_rewrite_task _ _ _ (fun t => t <| t_verifier := v |>)); [done..|by rewrite Ho|].
  intros c. apply wf_task_verifier.
Qed.

Lemma cancel_task_wf e owner id s s' :
  wf (store s) -> cancel_task e owner id s = Ok tt s' -> wf (store s').
Proof.
  intros Hwf Hr. apply ensures in Hr as (t & tok & l & _ & Hk & _ & Hst & _ & _ & -> & _).
  assert (open_status (t_status t) = true) as Ho by (by destruct Hst as [-> | [-> _]]).
  apply (wf_rewrite_task _ _ _ (fun t => t <| t_status := Cancelled |>)); [done..|].
  intros c. by apply wf_task_closed; [left|].
Qed.

Lemma expire_task_wf e id s s' :
  wf (store s) -> expire_task e id s = Ok tt s' -> wf (store s').
Proof.
  intros Hwf Hr. apply ensures in Hr as (t & tok & l & Hk & Ho & _ & _ & _ & -> & _).
  apply (wf_rewrite_task _ _ _ (fun t => t <| t_status := Expired |>)); [done..|].
  intros c. by apply wf_task_closed; [right|].
Qed.

(** Every successful call, with arguments of the ABI's types, keeps the storage
    well formed. *)
Lemma exec_preserves_wf self e op s s' :
  wf (store s) -> valid_env self e -> typed_op op -> exec e op s = Ok tt s' -> wf (store s').
Proof.
  intros Hwf He Ht Hr. pose proof (env_sequence _ _ He) as Hseq.
  destruct op; cbn [exec typed_op] in Hr, Ht; try (apply runs_forget in Hr as [? Hr]);
    destruct_and?;
    [ eapply initialize_wf | eapply pause_wf | eapply unpause_wf | eapply set_fee_bps_wf
    | eapply set_min_reward_wf | eapply set_reputation_floor_wf | eapply transfer_admin_wf
    | eapply upgrade_wf | eapply sweep_fees_wf | eapply register_params_wf
    | eapply batch_register_tasks_wf | eapply increase_reward_wf | eapply extend_deadline_wf
    | eapply update_verifier_wf | eapply claim_task_wf | eapply execute_task_wf
    | eapply cancel_task_wf | eapply expire_task_wf | eapply withdraw_rewards_wf
    | eapply stake_deposit_wf | eapply initiate_unbond_wf | eapply withdraw_stake_wf
    | eapply slash_wf | eapply set_min_stake_wf | eapply raise_slash_appeal_wf
    | eapply resolve_slash_appeal_wf | eapply set_dispute_window_wf | eapply dispute_execution_wf
    | eapply resolve_execution_dispute_wf ]; eassumption.
Qed.

Lemma reachable_preserves_wf self tok s : reachable self tok s -> wf (store s).
Proof.
  intros Hs. eapply (reachable_store_ind self tok wf); [apply wf_empty| |done].
  intros. by eapply exec_preserves_wf.
Qed.
End Preservation.
