(* ===== verification/RegistrySolvency.v ===== *)
(** * Keeper registry: solvency

    What the registry owes ([owed]) against what it holds: the accounting of
    every entry point, and invariant I-1 of invariants.rs over all reachable
    states. *)

From S2P Require Import Prelude Host Contract SampleChain RegistryTypes RegistryInternal RegistryReputation RegistryTask RegistryStaking RegistryAdmin RegistryBatch RegistrySystem RegistrySample RegistryInvariants.

(** The escrow of a task: its reward while it is open ([open_escrow] of
    [assert_solvent]). *)
Definition open_reward (t : Task) : Z := if open_status (t_status t) then t_reward t else 0.

(** The total [assert_solvent] compares the token balance with. *)
Definition owed (st : Store) : Z :=
  map_sum open_reward (s_task st) + map_sum id (s_keeper_reward st) + fees_accrued st
  + map_sum id (s_keeper_stake st) + map_sum ur_amount (s_unbond_request st)
  + map_sum (list_sum pc_net_reward) (s_pending_reward st).

Lemma owed_empty : owed empty_store = 0.
Proof. reflexivity. Qed.

Lemma from_option_list_sum {A} (f : A -> Z) (o : option (list A)) :
  from_option (list_sum f) 0 o = list_sum f (default [] o).
Proof. by destruct o. Qed.

Section OwedWrites.
Implicit Types st : Store.

Lemma owed_put_task st id t :
  owed (st <| s_task ::= <[id := t]> |>)
    = owed st + open_reward t - from_option open_reward 0 (s_task st !! id).
Proof. unfold owed; cbn. autorewrite with keeper_rw. unfold fees_accrued; cbn. lia. Qed.

Lemma owed_put_counter st v : owed (st <| s_task_counter := v |>) = owed st.
Proof. done. Qed.

Lemma owed_put_reward st k v :
  owed (st <| s_keeper_reward ::= <[k := v]> |>) = owed st + v - keeper_reward_of st k.
Proof. unfold owed; cbn. autorewrite with keeper_rw. unfold fees_accrued, keeper_reward_of, id; cbn. lia. Qed.

Lemma owed_put_stake st k v :
  owed (st <| s_keeper_stake ::= <[k := v]> |>) = owed st + v - keeper_stake_of st k.
Proof. unfold owed; cbn. autorewrite with keeper_rw. unfold fees_accrued, keeper_stake_of, id; cbn. lia. Qed.

Lemma owed_put_unbond st k r :
  owed (st <| s_unbond_request ::= <[k := r]> |>)
    = owed st + ur_amount r - from_option ur_amount 0 (s_unbond_request st !! k).
Proof. unfold owed; cbn. autorewrite with keeper_rw. unfold fees_accrued; cbn. lia. Qed.

Lemma owed_delete_unbond st k :
  owed (st <| s_unbond_request ::= delete k |>)
    = owed st - from_option ur_amount 0 (s_unbond_request st !! k).
Proof. unfold owed; cbn. autorewrite with keeper_rw. unfold fees_accrued; cbn. lia. Qed.

Lemma owed_drawn st k amount :
  0 <= amount ->
  (0 < amount -> is_Some (s_unbond_request st !! k)) ->
  owed (st <| s_unbond_request ::= drawn k (s_unbond_request st !! k) amount |>) = owed st - amount.
Proof.
  intros H0 Hs. unfold drawn. destruct (s_unbond_request st !! k) as [r|] eqn:Hk.
  - case_bool_decide; [case_bool_decide|].
    + rewrite owed_delete_unbond, Hk. cbn. lia.
    + rewrite owed_put_unbond, Hk. cbn. lia.
    + replace amount with 0 by lia. rewrite Z.sub_0_r. by destruct st.
  - destruct (decide (0 < amount)) as [Hp|Hp]; [by apply Hs in Hp as [? ?]|].
    replace amount with 0 by lia. rewrite Z.sub_0_r. by destruct st.
Qed.

Lemma owed_put_fees st v :
  owed (st <| s_fees_accrued := Some v |>) = owed st + v - fees_accrued st.
Proof. unfold owed, fees_accrued; cbn. lia. Qed.

Lemma owed_accrued st amount : owed (accrued amount st) = owed st + amount.
Proof.
  unfold accrued. case_bool_decide; [subst; lia|]. rewrite owed_put_fees. lia.
Qed.

Lemma owed_put_credits st k l :
  owed (st <| s_pending_reward ::= <[k := l]> |>)
    = owed st + list_sum pc_net_reward l - list_sum pc_net_reward (pending_credits_of st k).
Proof.
  unfold owed; cbn. autorewrite with keeper_rw. unfold fees_accrued, pending_credits_of; cbn.
  rewrite (from_option_list_sum pc_net_reward). lia.
Qed.

Lemma owed_put_pending st k l :
  owed (st <| s_pending_reward ::= put_pending k l |>)
    = owed st + list_sum pc_net_reward l - list_sum pc_net_reward (pending_credits_of st k).
Proof.
  destruct l as [|c l]; cbn [put_pending]; [|apply owed_put_credits].
  unfold owed; cbn. autorewrite with keeper_rw. unfold fees_accrued, pending_credits_of; cbn.
  rewrite (from_option_list_sum pc_net_reward). lia.
Qed.

Lemma owed_pay_keeper e keeper task_id net st :
  owed (pay_keeper e keeper task_id net st) = owed st + net.
Proof.
  unfold pay_keeper. case_bool_decide.
  - rewrite owed_put_credits, list_sum_app, list_sum_cons. unfold list_sum at 2. cbn. lia.
  - rewrite owed_put_reward. lia.
Qed.

Lemma owed_bump_reputation e b k st : owed (bump_reputation e b k st) = owed st.
Proof. done. Qed.

(** Finalizing moves credits into the balance: nothing is created or lost. *)
Lemma owed_credited keeper l st : owed (foldl (credited keeper) st l) = owed st + list_sum pc_net_reward l.
Proof.
  revert st. induction l as [|c l IH]; intros st; cbn [foldl].
  - unfold list_sum; cbn. lia.
  - rewrite IH, list_sum_cons. unfold credited. rewrite owed_put_reward. lia.
Qed.

Lemma owed_finalized e keeper st : owed (finalized_store e keeper st) = owed st.
Proof.
  unfold finalized_store. destruct (due _ _) as [|c l] eqn:Hd; [done|].
  rewrite owed_put_pending, owed_credited, <- Hd.
  assert (pending_credits_of (foldl (credited keeper) st (due (ledger_sequence e)
            (pending_credits_of st keeper))) keeper = pending_credits_of st keeper) as ->
    by (rewrite credited_other_fields; done).
  pose proof (list_sum_filter_split pc_net_reward
    (fun c => finalizable (ledger_sequence e) c = true) (pending_credits_of st keeper)).
  unfold due, undue in *. lia.
Qed.
End OwedWrites.

#[export] Hint Rewrite owed_put_task owed_put_counter owed_put_reward owed_put_stake owed_put_unbond
  owed_delete_unbond owed_put_fees owed_accrued owed_put_credits owed_put_pending owed_pay_keeper
  owed_bump_reputation owed_credited owed_finalized : keeper_rw.

(** ** The accounting of each call *)

Section Accounting.
Context `{HL : Ledger} (self tok : Address) `{HT : !LawfulToken self tok}.
Implicit Types (e : Env) (s : RS).

(** What the registry holds beyond what it owes. *)
Definition surplus s : Z := balance (chain s) tok self - owed (store s).

(** Calls into verifiers and conditions leave the registry's balance alone. *)
Definition quiet_callees : Prop :=
  forall l e c f args, balance (try_invoke l e c f args).2 tok self = balance l tok self.

(** The call pays nobody the registry's own address. *)
Definition pays_outside (st : Store) (op : Op) : Prop :=
  match op with
  | OpSweepFees _ treasury _ | OpSlash _ _ _ _ treasury => treasury <> self
  | OpExpireTask id => forall t, s_task st !! id = Some t -> t_owner t <> self
  | _ => True
  end.

(** A call neither changes the token nor lowers the surplus, and keeps it
    exactly when [exact] holds. *)
Definition accounted (exact : Prop) s s' : Prop :=
  s_reward_token (store s') = s_reward_token (store s) /\
  (s_reward_token (store s) = Some tok ->
   surplus s <= surplus s' /\ (exact -> surplus s' = surplus s)).

Lemma accounted_store exact s s' :
  s_reward_token (store s') = s_reward_token (store s) -> chain s' = chain s ->
  owed (store s') = owed (store s) -> accounted exact s s'.
Proof. intros Ht Hc Ho. split; [done|]. intros _. unfold surplus. rewrite Hc, Ho. lia. Qed.

(** A deposit of [amt] from an address other than the registry's. *)
Lemma accounted_in exact e from amt s s' :
  s_reward_token (store s') = s_reward_token (store s) -> from <> self ->
  (s_reward_token (store s) = Some tok ->
   transfer (chain s) e tok from self amt = Some (chain s') /\ owed (store s') = owed (store s) + amt) ->
  accounted exact s s'.
Proof.
  intros Ht Hf Ho. split; [done|]. intros [Htr Hw]%Ho.
  pose proof (transfer_balance _ _ _ _ _ _ self Htr) as Hb.
  rewrite decide_True, decide_False in Hb by done. unfold surplus. lia.
Qed.

(** A payment of [amt] to anyone. *)
Lemma accounted_out (exact : Prop) e to amt s s' :
  s_reward_token (store s') = s_reward_token (store s) -> (exact -> to <> self) ->
  (s_reward_token (store s) = Some tok ->
   transfer (chain s) e tok self to amt = Some (chain s') /\ owed (store s') = owed (store s) - amt) ->
  accounted exact s s'.
Proof.
  intros Ht Hf Ho. split; [done|]. intros [Htr Hw]%Ho.
  pose proof (transfer_balance _ _ _ _ _ _ self Htr) as Hb.
  pose proof (transfer_amount _ _ _ _ _ _ Htr) as Ha.
  rewrite (decide_True (P := self = self)) in Hb by done. unfold surplus. case_decide.
  - subst to. split; [lia|]. intros Hx. by destruct (Hf Hx).
  - lia.
Qed.

(** A question to a verifier or a condition. *)
Lemma accounted_verdict (exact : Prop) e callee f args b s s' :
  s_reward_token (store s') = s_reward_token (store s) -> (exact -> quiet_callees) ->
  verdict (chain s) e callee f args = (b, chain s') -> owed (store s') = owed (store s) ->
  accounted exact s s'.
Proof.
  intros Ht Hq Hv Ho. split; [done|]. intros _. unfold surplus. rewrite Ho.
  unfold verdict in Hv. destruct callee as [c|]; [|injection Hv as _ Hv; rewrite Hv; lia].
  pose proof (try_invoke_balance (self := self) (tok := tok) (chain s) e c f args).
  assert (chain s' = (try_invoke (chain s) e c f args).2) as -> by
    (destruct (try_invoke _ _ _ _ _); by simplify_eq).
  split; [lia|]. intros Hx. by rewrite (Hq Hx).
Qed.

Lemma accounted_refl exact s : accounted exact s s.
Proof. by apply accounted_store. Qed.

Lemma accounted_trans exact s1 s2 s3 :
  accounted exact s1 s2 -> accounted exact s2 s3 -> accounted exact s1 s3.
Proof.
  intros [Ht1 H1] [Ht2 H2]. split; [congruence|]. intros Ht. rewrite Ht1 in H2.
  destruct (H1 Ht) as [Ha Ha'], (H2 Ht) as [Hb Hb']. split; [lia|].
  intros Hx. by rewrite Hb', Ha'.
Qed.

(** The calls that only touch configuration or records outside [owed]. *)
Ltac acct_store Hr :=
  apply ensures in Hr; cbv zeta in Hr; run_simpl;
  match goal with Hst : store _ = _ |- _ => by apply accounted_store; rewrite ?Hst end.

Lemma open_reward_open t : open_status (t_status t) = true -> open_reward t = t_reward t.
Proof. unfold open_reward. by intros ->. Qed.

Context (e : Env) (He : valid_env self e).

Lemma authorized_outside a : authorized e a = true -> a <> self.
Proof. intros Ha ->. by rewrite (env_auth _ _ He) in Ha. Qed.

Lemma register_entry_accounted exact init owner p s id s' :
  authorized e owner = true ->
  register_entry e init owner tok p s = Ok id s' ->
  s_task (store s) !! id = None -> accounted exact s s'.
Proof.
  intros Ha Hr Hnew. apply runs in Hr as (l & Htr & -> & _ & ->).
  apply (accounted_in _ e owner (b_reward p)); [done | by apply authorized_outside|].
  intros _. rewrite (env_self _ _ He) in Htr. split; [done|]. cbn.
  rewrite owed_put_task, owed_put_counter. cbn. rewrite Hnew. cbn. unfold open_reward; cbn. lia.
Qed.

Lemma next_task_fresh st : wf st -> s_task st !! (default 0 (s_task_counter st) + 1) = None.
Proof.
  intros Hwf. destruct (_ !! _) eqn:Hk; [|done]. apply (wf_tasks _ Hwf) in Hk as [? _]. lia.
Qed.

Lemma register_params_accounted exact owner p s id s' :
  wf (store s) -> register_params e owner p s = Ok id s' -> accounted exact s s'.
Proof.
  intros Hwf Hr. apply ensures in Hr as (tk & l & _ & Ha & _ & Htk & Htr & -> & _ & Hst & Hch & _).
  apply (accounted_in _ e owner (b_reward p)); [by rewrite Hst | by apply authorized_outside|].
  intros Htok. rewrite (env_self _ _ He) in Htr. simplify_eq. split; [done|]. rewrite Hst.
  rewrite owed_put_task, owed_put_counter. cbn. rewrite next_task_fresh by done.
  cbn. unfold open_reward; cbn. lia.
Qed.

Lemma batch_register_tasks_accounted exact init owner tasks max s ids s' :
  wf (store s) -> Forall typed_params tasks ->
  batch_register_tasks e init owner tasks max s = Ok ids s' -> accounted exact s s'.
Proof.
  intros Hwf Hp Hr. apply ensures in Hr as (tk & s1 & Hrdy & _ & _ & _ & Hv & Heq & Hr).
  assert (is_Some (s_admin (store s))) as Ha by (eapply wf_admin_token, Hrdy; done).
  destruct Hrdy as (_ & Hau & Htk). destruct Heq as (Hs & Hc & _).
  assert (accounted exact s s1) as H1 by (by apply accounted_store; rewrite <- ?Hs).
  rewrite Hs in Hwf, Ha, Htk, Hv.
  refine (proj1 (for_fold_invariant (fun _ (s2 : RS) => accounted exact s s2 /\ wf (store s2) /\
    is_Some (s_admin (store s2)) /\ s_reward_token (store s2) = Some tk /\
    Forall (valid_entry e (store s2)) tasks) tasks [] _ _ _ _ _ _ Hr)); [|done].
  cbn beta. intros ids1 p s2 ids2 s3 Hin (H2 & Hwf2 & Ha2 & Ht2 & Hv2) (id & s4 & Hx & Hret)%bind_Ok.
  apply runs in Hret as [_ ->].
  assert (typed_params p) by (by eapply list.Forall_forall in Hp).
  assert (valid_entry e (store s2) p) by (by eapply list.Forall_forall in Hv2).
  destruct (register_entry_wf _ _ _ _ _ _ _ _ Hwf2 Ha2 ltac:(done) ltac:(done) Hx).
  pose proof (register_entry_frame _ _ _ _ _ _ _ _ Hx) as [_ Hframe].
  assert (s_reward_token (store s4) = Some tk) by (by apply runs in Hx as (l & _ & _ & _ & ->)).
  split_and!; [|done..|eapply Forall_impl; [|exact Hv2]; intros q; by apply Hframe].
  eapply accounted_trans; [exact H2|]. split; [congruence|]. intros Htok.
  assert (tk = tok) as -> by congruence.
  eapply register_entry_accounted; [done | exact Hx | |done].
  apply runs in Hx as (l & _ & -> & _). by apply next_task_fresh.
Qed.

(** Rewriting an open task that keeps its reward and stays open. *)
Lemma owed_same_task st id t t' :
  s_task st !! id = Some t -> open_reward t' = open_reward t ->
  owed (st <| s_task ::= <[id := t']> |>) = owed st.
Proof. intros Hk Ho. rewrite owed_put_task, Hk. cbn. lia. Qed.

Lemma increase_reward_accounted exact owner id additional s s' :
  increase_reward e owner id additional s = Ok tt s' -> accounted exact s s'.
Proof.
  intros Hr. apply ensures in Hr as
    (t & tk & l & _ & Ha & _ & Hk & _ & Ho & Htk & Htr & _ & Hst & Hch & _).
  apply (accounted_in _ e owner additional); [by rewrite Hst | by apply authorized_outside|].
  intros Htok. rewrite (env_self _ _ He) in Htr. simplify_eq. split; [done|].
  rewrite Hst, owed_put_task, Hk. cbn. rewrite open_reward_open by done.
  unfold open_reward; cbn. rewrite Ho. lia.
Qed.

Lemma extend_deadline_accounted exact owner id d s s' :
  extend_deadline e owner id d s = Ok tt s' -> accounted exact s s'.
Proof.
  intros Hr. apply ensures in Hr as (t & _ & _ & Hk & _ & _ & _ & Hst & Hch & _).
  apply accounted_store; [by rewrite Hst|done|rewrite Hst]. by eapply owed_same_task.
Qed.

Lemma update_verifier_accounted exact owner id v s s' :
  update_verifier e owner id v s = Ok tt s' -> accounted exact s s'.
Proof.
  intros Hr. apply ensures in Hr as (t & _ & _ & Hk & _ & _ & Hst & Hch & _).
  apply accounted_store; [by rewrite Hst|done|rewrite Hst]. by eapply owed_same_task.
Qed.

Lemma claim_task_accounted keeper id s s' :
  claim_task e keeper id s = Ok tt s' -> accounted quiet_callees s s'.
Proof.
  intros Hr. apply ensures in Hr as (t & missed & _ & _ & _ & Hk & _ & Hc & _ & Hv & Hst & _).
  eapply accounted_verdict; [|done|exact Hv|]; rewrite Hst; unfold claim_store;
    [by destruct missed|].
  rewrite (owed_same_task _ _ t); [by destruct missed | by destruct missed|].
  rewrite (open_reward_open t) by (by eapply claim_allowed_open). done.
Qed.

Lemma execute_task_accounted keeper id proof s s' :
  wf (store s) -> execute_task e keeper id proof s = Ok tt s' -> accounted quiet_callees s s'.
Proof.
  intros Hwf Hr. apply ensures in Hr as
    (t & net & fee & _ & _ & _ & Hk & Hst & _ & _ & Hv & Hsp & _ & _ & Hs & _).
  apply split_reward_inr in Hsp as (_ & -> & _);
    [|by apply Z.lt_le_incl, (wf_lookup_task _ _ _ Hwf Hk) | apply Hwf].
  eapply accounted_verdict; [|done|exact Hv|]; rewrite Hs; unfold execute_store.
  - unfold bump_reputation, accrued, pay_keeper. by repeat case_bool_decide.
  - rewrite owed_put_task, owed_bump_reputation, owed_accrued, owed_pay_keeper.
    assert (s_task (bump_reputation e true keeper (accrued fee (pay_keeper e keeper id
      (t_reward t - fee) (store s)))) = s_task (store s)) as ->
      by (unfold bump_reputation, accrued, pay_keeper; by repeat case_bool_decide).
    rewrite Hk. cbn. unfold open_reward; cbn. rewrite Hst. cbn. lia.
Qed.

Lemma owed_close st id t x :
  s_task st !! id = Some t -> open_status (t_status t) = true -> open_status x = false ->
  owed (st <| s_task ::= <[id := t <| t_status := x |>]> |>) = owed st - t_reward t.
Proof.
  intros Hk Ho Hx. rewrite owed_put_task, Hk. cbn. rewrite (open_reward_open t) by done.
  unfold open_reward; cbn. rewrite Hx. lia.
Qed.

Lemma cancel_task_accounted exact owner id s s' :
  cancel_task e owner id s = Ok tt s' -> accounted exact s s'.
Proof.
  intros Hr. apply ensures in Hr as (t & tk & l & Ha & Hk & _ & Ho & Htk & Htr & Hst & Hch & _).
  apply (accounted_out _ e owner (t_reward t)); [by rewrite Hst | by intros _; apply authorized_outside|].
  intros Htok. rewrite (env_self _ _ He) in Htr. simplify_eq. split; [done|]. rewrite Hst.
  apply owed_close; [done | by destruct Ho as [-> | [-> _]] | done].
Qed.

Lemma expire_task_accounted id s s' :
  expire_task e id s = Ok tt s' -> accounted (pays_outside (store s) (OpExpireTask id)) s s'.
Proof.
  intros Hr. apply ensures in Hr as (t & tk & l & Hk & Ho & _ & Htk & Htr & Hst & Hch & _).
  apply (accounted_out _ e (t_owner t) (t_reward t)); [by rewrite Hst | intros Hx; by apply Hx|].
  intros Htok. rewrite (env_self _ _ He) in Htr. simplify_eq. split; [done|]. rewrite Hst.
  by apply owed_close.
Qed.

Lemma withdraw_rewards_accounted exact keeper a s s' :
  withdraw_rewards e keeper s = Ok a s' -> accounted exact s s'.
Proof.
  intros Hr. apply ensures in Hr as (tk & l & Ha & -> & _ & Htk & Htr & Hst & Hch & _).
  apply (accounted_out _ e keeper (keeper_reward_of (finalized_store e keeper (store s)) keeper));
    [by rewrite Hst; apply finalized_store_token | by intros _; apply authorized_outside|].
  intros Htok. rewrite (env_self _ _ He) in Htr. simplify_eq. split; [done|].
  rewrite Hst, owed_put_reward, owed_finalized. lia.
Qed.

Lemma stake_deposit_accounted exact keeper amount s s' :
  stake_deposit e keeper amount s = Ok tt s' -> accounted exact s s'.
Proof.
  intros Hr. apply ensures in Hr as (tk & l & _ & _ & _ & Ha & _ & Htk & Htr & Hst & Hch & _).
  apply (accounted_in _ e keeper amount); [by rewrite Hst | by apply authorized_outside|].
  intros Htok. rewrite (env_self _ _ He) in Htr. simplify_eq. split; [done|].
  rewrite Hst, owed_put_stake. lia.
Qed.

Lemma initiate_unbond_accounted exact keeper amount s s' :
  initiate_unbond e keeper amount s = Ok tt s' -> accounted exact s s'.
Proof.
  intros Hr. apply ensures in Hr as (_ & _ & _ & _ & Hn & Hst & Hch & _).
  apply accounted_store; [by rewrite Hst|done|].
  rewrite Hst, owed_put_unbond, owed_put_stake. cbn. rewrite Hn. cbn. lia.
Qed.

Lemma withdraw_stake_accounted exact keeper a s s' :
  withdraw_stake e keeper s = Ok a s' -> accounted exact s s'.
Proof.
  intros Hr. apply ensures in Hr as (u & tk & l & _ & Ha & Hk & _ & Htk & Htr & Hst & Hch & _).
  apply (accounted_out _ e keeper a); [by rewrite Hst | by intros _; apply authorized_outside|].
  intros Htok. rewrite (env_self _ _ He) in Htr. simplify_eq. split; [done|].
  by rewrite Hst, owed_delete_unbond, Hk.
Qed.

Lemma slash_accounted admin keeper amount reason treasury s id s' :
  wf (store s) -> slash e admin keeper amount reason treasury s = Ok id s' ->
  accounted (treasury <> self) s s'.
Proof.
  intros Hwf Hr. apply ensures in Hr. cbv zeta in Hr. destruct Hr as
    (tk & l & _ & _ & H0 & Htk & Htr & _ & _ & _ & _ & Hst & Hch & _).
  apply (accounted_out _ e treasury amount); [by rewrite Hst | done|].
  intros Htok. rewrite (env_self _ _ He) in Htr. simplify_eq. split; [done|]. rewrite Hst.
  pose proof (wf_stake_of _ keeper Hwf) as [Hs0 _].
  set (from_stake := Z.min amount (keeper_stake_of (store s) keeper)).
  set (st1 := (store s) <| s_keeper_stake ::=
                <[keeper := keeper_stake_of (store s) keeper - from_stake]> |>).
  change (owed (st1 <| s_unbond_request ::=
            drawn keeper (s_unbond_request st1 !! keeper) (amount - from_stake) |>) = owed (store s) - amount).
  rewrite owed_drawn; [|lia|].
  - subst st1. rewrite owed_put_stake. lia.
  - intros Hp. change (s_unbond_request st1) with (s_unbond_request (store s)).
    destruct (s_unbond_request (store s) !! keeper); [by eexists|]. cbn in H0. lia.
Qed.

Lemma resolve_slash_appeal_accounted exact admin id uphold s s' :
  resolve_slash_appeal e admin id uphold s = Ok tt s' -> accounted exact s s'.
Proof.
  intros Hr. apply ensures in Hr as (r & _ & Ha & _ & _ & _ & Hst). cbv zeta in Hst.
  destruct uphold; [|destruct Hst as [Hst Hch]; by apply accounted_store; rewrite ?Hst].
  destruct Hst as (tk & _ & Htk & Htr & Hst).
  apply (accounted_in _ e admin (sr_amount r)); [by rewrite Hst | by apply authorized_outside|].
  intros Htok. rewrite (env_self _ _ He) in Htr. simplify_eq. split; [done|].
  rewrite Hst. unfold refunded. rewrite owed_put_stake. unfold owed; cbn. unfold fees_accrued; cbn. lia.
Qed.

Lemma dispute_execution_accounted exact owner id s s' :
  dispute_execution e owner id s = Ok tt s' -> accounted exact s s'.
Proof.
  intros Hr. apply ensures in Hr as (t & keeper & i & c & _ & _ & _ & _ & Hc & _ & _ & _ & Hst & Hch & _).
  apply accounted_store; [by rewrite Hst|done|].
  rewrite Hst, owed_put_credits, (list_sum_insert _ _ _ c) by done. cbn. lia.
Qed.

Lemma resolve_execution_dispute_accounted exact admin id uphold s s' :
  wf (store s) -> resolve_execution_dispute e admin id uphold s = Ok tt s' -> accounted exact s s'.
Proof.
  intros Hwf Hr. apply ensures in Hr as
    (t & keeper & i & c & _ & _ & _ & _ & Hc & _ & _ & _ & Hst & Hch & _). cbv zeta in Hst.
  destruct (wf_credits_of _ keeper Hwf) as [_ Hall].
  pose proof (list.Forall_lookup_1 _ _ _ _ Hall Hc) as ([Hn _] & _).
  apply accounted_store; [rewrite Hst; by case_bool_decide; [unfold accrued; case_bool_decide|]|done|].
  rewrite Hst. unfold resolved. destruct uphold.
  - case_bool_decide as Hpos.
    + rewrite owed_accrued, owed_put_pending, (list_sum_delete _ _ _ c) by done. lia.
    + unfold Datatypes.id. rewrite owed_put_pending, (list_sum_delete _ _ _ c) by done. lia.
  - rewrite bool_decide_false by lia. unfold Datatypes.id.
    rewrite owed_put_pending, (list_sum_insert _ _ _ c) by done. cbn. lia.
Qed.

Lemma sweep_fees_accounted admin treasury amount s s' :
  sweep_fees e admin treasury amount s = Ok tt s' -> accounted (treasury <> self) s s'.
Proof.
  intros Hr. apply ensures in Hr as (tk & l & _ & _ & _ & Htk & Htr & Hst & Hch & _).
  apply (accounted_out _ e treasury amount); [by rewrite Hst | done|].
  intros Htok. rewrite (env_self _ _ He) in Htr. simplify_eq. split; [done|].
  rewrite Hst, owed_put_fees. lia.
Qed.

Lemma accounted_weaken (exact exact' : Prop) s s' :
  (exact' -> exact) -> accounted exact s s' -> accounted exact' s s'.
Proof.
  intros Hx [Ht Ha]. split; [done|]. intros Hk. destruct (Ha Hk) as [Hle Heq]. split; [done|].
  intros Hx'. by apply Heq, Hx.
Qed.

(** Any call but [initialize]. *)
Lemma exec_accounted op s s' :
  wf (store s) -> typed_op op -> exec e op s = Ok tt s' ->
  (forall a tk bps, op <> OpInitialize a tk bps) ->
  accounted (quiet_callees /\ pays_outside (store s) op) s s'.
Proof.
  intros Hwf Ht Hr Hni.
  destruct op; cbn [exec typed_op] in Hr, Ht; try (apply runs_forget in Hr as [? Hr]);
    destruct_and?;
    [ by destruct (Hni admin token bps) | acct_store Hr | acct_store Hr | acct_store Hr
    | acct_store Hr | acct_store Hr | acct_store Hr | acct_store Hr
    | eapply accounted_weaken, sweep_fees_accounted | eapply register_params_accounted
    | eapply batch_register_tasks_accounted | eapply increase_reward_accounted
    | eapply extend_deadline_accounted | eapply update_verifier_accounted
    | eapply accounted_weaken, claim_task_accounted
    | eapply accounted_weaken, execute_task_accounted
    | eapply cancel_task_accounted | eapply accounted_weaken, expire_task_accounted
    | eapply withdraw_rewards_accounted
    | eapply stake_deposit_accounted | eapply initiate_unbond_accounted
    | eapply withdraw_stake_accounted
    | eapply accounted_weaken, slash_accounted | acct_store Hr | acct_store Hr
    | eapply resolve_slash_appeal_accounted | acct_store Hr | eapply dispute_execution_accounted
    | eapply resolve_execution_dispute_accounted ]; try eassumption; by intros [? ?].
Qed.
End Accounting.

(** ** Solvency *)

Section Solvency.
Context `{HL : Ledger} (self tok : Address) `{HT : !LawfulToken self tok}.

(** The registry holds nothing and owes nothing before [initialize]. *)
Lemma owed_uninitialized st : wf st -> s_reward_token st = None -> owed st = 0.
Proof.
  intros Hwf Ht. destruct (s_admin st) eqn:Ha.
  - destruct (wf_initialized _ Hwf) as [tk Htk]; [by eexists|]. by rewrite Htk in Ht.
  - by rewrite (wf_uninitialized _ Hwf Ha), owed_empty.
Qed.

Definition solvent (s : RS) : Prop :=
  s_reward_token (store s) = Some tok -> owed (store s) <= balance (chain s) tok self.

Lemma exec_solvent e op s s' :
  wf (store s) -> solvent s -> valid_env self e -> typed_op op -> exec e op s = Ok tt s' -> solvent s'.
Proof.
  intros Hwf Hs He Ht Hr.
  destruct op;
    try (destruct (exec_accounted self tok e He _ s s' Hwf Ht Hr) as [Htk Hacc];
         [discriminate|]; intros Htok; rewrite Htk in Htok; specialize (Hs Htok);
         destruct (Hacc Htok) as [Hle _]; unfold surplus in Hle; lia).
  apply ensures in Hr as (Hn & _ & _ & Hst & Hch & _). intros _. rewrite Hst, Hch.
  rewrite (wf_uninitialized _ Hwf Hn). change (owed _) with 0. apply balance_nonneg.
Qed.

Lemma reachable_solvent s : reachable self tok s -> solvent s.
Proof.
  induction 1 as [efs l|s e op Hs IH He Ht|s l Hs IH Hl]; [by intros ?| |].
  - unfold Contract.call, invoke. destruct (exec e op s) as [[] s'|x s'|] eqn:Hx; cbn; [|done..].
    eapply exec_solvent; [by eapply reachable_preserves_wf|done..].
  - intros Ht. specialize (IH Ht). cbn. lia.
Qed.

(** C1: in every reachable state the registry holds at least the sum of the
    open tasks' rewards, the keepers' balances, the accrued fees, the bonded
    and unbonding stakes and the pending credits (invariant I-1). *)
Theorem registry_solvent s :
  reachable self tok s -> s_reward_token (store s) = Some tok ->
  owed (store s) <= balance (chain s) tok self.
Proof. intros Hs. by apply reachable_solvent. Qed.

(** C2: the accounting is exact: a successful call changes what the registry
    holds by exactly what it changes of what it owes, unless it pays the
    registry's own address or a verifier or condition donates tokens. *)
Theorem accounting_exact e op s s' :
  reachable self tok s -> s_reward_token (store s) = Some tok ->
  valid_env self e -> typed_op op -> quiet_callees self tok -> pays_outside self (store s) op ->
  exec e op s = Ok tt s' ->
  balance (chain s') tok self - balance (chain s) tok self = owed (store s') - owed (store s).
Proof.
  intros Hs Htok He Ht Hq Hp Hr. pose proof (reachable_preserves_wf _ _ _ Hs) as Hwf.
  assert (forall a tk bps, op <> OpInitialize a tk bps) as Hni.
  { intros a tk bps ->. apply ensures in Hr as (Hn & _).
    by rewrite (wf_uninitialized _ Hwf Hn) in Htok. }
  destruct (exec_accounted self tok e He op s s' Hwf Ht Hr Hni) as [_ Hacc].
  destruct (Hacc Htok) as [_ Heq]. unfold surplus in Heq. specialize (Heq (conj Hq Hp)). lia.
Qed.
End Solvency.

Lemma registry_solvent_witness : owed (store settled_state) <= balance (chain settled_state) token self.
Proof.
  apply (registry_solvent self token settled_state).
  - exact settled_reachable.
  - vm_compute. reflexivity.
Defined.

Definition executed_state : RS := call (at_ledger 105 35) (OpExecuteTask keeper0 1 []) claimed_state.

Lemma accounting_exact_witness :
  balance (chain executed_state) token self - balance (chain claimed_state) token self
    = owed (store executed_state) - owed (store claimed_state).
Proof.
  apply (accounting_exact self token (at_ledger 105 35) (OpExecuteTask keeper0 1 [])
           claimed_state executed_state).
  - exact claimed_reachable.
  - vm_compute. reflexivity.
  - split; [done..|by vm_compute|by vm_compute].
  - by vm_compute.
  - intros l e c f args. reflexivity.
  - exact I.
  - apply succeeds_call. vm_compute. reflexivity.
Defined.
