(* ===== verification/RegistryLifecycle.v ===== *)
(** * Keeper registry: the life of a task, and what each caller may touch

    Tasks only move along the documented status graph, keep what they were
    registered with, and are frozen once settled; ids grow; configuration calls
    leave escrow alone; the pause switch and the uninitialized registry reject
    what they should. *)

From S2P Require Import Prelude Host Contract SampleChain RegistryTypes RegistryInternal RegistryReputation RegistryTask RegistryStaking RegistryAdmin RegistryBatch RegistryViews RegistrySystem RegistrySample RegistryInvariants RegistrySolvency.

(** ** The status graph *)

(** The transitions of docs/ARCHITECTURE.md's state machine. *)
Inductive status_step : TaskStatus -> TaskStatus -> Prop :=
  | step_claim : status_step Pending Claimed
  | step_takeover : status_step Claimed Claimed
  | step_execute : status_step Claimed Executed
  | step_cancel st : open_status st = true -> status_step st Cancelled
  | step_expire st : open_status st = true -> status_step st Expired
  | step_edit st : open_status st = true -> status_step st st.

(** One call's effect on a stored task: nothing, or a step of the graph that
    keeps what the task was registered with and never lowers the reward or the
    deadline. *)
Definition task_step (t t' : Task) : Prop :=
  t' = t \/
  (status_step (t_status t) (t_status t') /\
   t_owner t' = t_owner t /\ t_task_type t' = t_task_type t /\ t_calldata t' = t_calldata t /\
   t_ttl_ledgers t' = t_ttl_ledgers t /\ t_lock_ledgers t' = t_lock_ledgers t /\
   t_condition t' = t_condition t /\
   t_reward t <= t_reward t' /\ t_deadline t <= t_deadline t').

Definition tasks_step (m m' : gmap Z Task) : Prop :=
  forall id t, m !! id = Some t -> exists t', m' !! id = Some t' /\ task_step t t'.

#[export] Instance tasks_step_refl : Reflexive tasks_step.
Proof. intros m id t Ht. exists t. split; [done | by left]. Qed.

Lemma tasks_step_insert m id t t' :
  m !! id = Some t -> task_step t t' -> tasks_step m (<[id := t']> m).
Proof.
  intros Ht Hs id' u Hu. destruct (decide (id' = id)) as [->|Hne].
  - simplify_eq. exists t'. by rewrite lookup_insert_eq.
  - exists u. rewrite lookup_insert_ne by done. split; [done | by left].
Qed.

Lemma tasks_step_new m id t : m !! id = None -> tasks_step m (<[id := t]> m).
Proof.
  intros Hn id' u Hu. exists u. rewrite lookup_insert_ne by congruence. split; [done | by left].
Qed.

Lemma tasks_step_same m m' : m' = m -> tasks_step m m'.
Proof. by intros ->. Qed.

Lemma open_status_cases st : open_status st = true -> st = Pending \/ st = Claimed.
Proof. destruct st; naive_solver. Qed.

Section Lifecycle.
Context `{HL : Ledger}.
Implicit Types (e : Env) (s : RS).

(** A registration adds a task under a fresh id and moves the counter to it. *)
Definition tasks_grow (st st' : Store) : Prop :=
  tasks_step (s_task st) (s_task st') /\
  default 0 (s_task_counter st) <= default 0 (s_task_counter st').

Lemma tasks_grow_same st st' :
  s_task st' = s_task st -> s_task_counter st' = s_task_counter st -> tasks_grow st st'.
Proof. intros Ht Hc. split; [by rewrite Ht | by rewrite Hc]. Qed.

(** Calls that leave the task map alone. *)
Ltac grow_same Hr :=
  apply ensures in Hr; cbv zeta in Hr; run_simpl;
  match goal with Hst : store _ = _ |- _ => by apply tasks_grow_same; rewrite Hst end.

Lemma tasks_grow_put st st' id t t' :
  s_task st !! id = Some t -> task_step t t' -> s_task st' = <[id := t']> (s_task st) ->
  s_task_counter st' = s_task_counter st -> tasks_grow st st'.
Proof. intros Hk Hs Ht Hc. split; [rewrite Ht; by eapply tasks_step_insert | by rewrite Hc]. Qed.

Lemma register_params_grow e owner p s id s' :
  wf (store s) -> register_params e owner p s = Ok id s' -> tasks_grow (store s) (store s').
Proof.
  intros Hwf Hr. apply ensures in Hr as (tk & l & _ & _ & _ & _ & _ & -> & _ & -> & _).
  split; cbn; [|lia]. by apply tasks_step_new, next_task_fresh.
Qed.

Lemma batch_register_tasks_grow e init owner tasks max s ids s' :
  wf (store s) -> Forall typed_params tasks ->
  batch_register_tasks e init owner tasks max s = Ok ids s' -> tasks_grow (store s) (store s').
Proof.
  intros Hwf Hp Hr. apply ensures in Hr as (tk & s1 & Hrdy & _ & _ & _ & Hv & (Hs & _) & Hr).
  assert (is_Some (s_admin (store s))) as Ha by (eapply wf_admin_token, Hrdy; done).
  rewrite Hs in *.
  assert (s_task (store s1) ⊆ s_task (store s') /\
    default 0 (s_task_counter (store s1)) <= default 0 (s_task_counter (store s'))) as [Hsub Hc].
  { refine (proj2 (proj2 (proj2 (for_fold_invariant (fun _ (s2 : RS) => wf (store s2) /\
      is_Some (s_admin (store s2)) /\ Forall (valid_entry e (store s2)) tasks /\
      s_task (store s1) ⊆ s_task (store s2) /\
      default 0 (s_task_counter (store s1)) <= default 0 (s_task_counter (store s2)))
      tasks [] _ _ _ _ _ _ Hr)))); [|done].
    cbn beta. intros ids1 p s2 ids2 s3 Hin (Hwf2 & Ha2 & Hv2 & Hsub & Hc) (id & s4 & Hx & Hret)%bind_Ok.
    apply runs in Hret as [_ ->].
    assert (typed_params p) by (by eapply list.Forall_forall in Hp).
    assert (valid_entry e (store s2) p) by (by eapply list.Forall_forall in Hv2).
    destruct (register_entry_wf _ _ _ _ _ _ _ _ Hwf2 Ha2 ltac:(done) ltac:(done) Hx).
    split_and!; [done..|eapply Forall_impl; [|exact Hv2]; intros q;
      by apply (register_entry_frame _ _ _ _ _ _ _ _ Hx)| |].
    - apply runs in Hx as (l & _ & -> & _ & ->). cbn. etrans; [exact Hsub|].
      by apply insert_subseteq, next_task_fresh.
    - apply runs in Hx as (l & _ & -> & _ & ->). cbn. lia. }
  split; [|done]. intros id t Ht. exists t. split; [by eapply lookup_weaken | by left].
Qed.

(** The steps of the owner's and the keeper's calls. *)
Ltac step_right Ho := right; split_and!; try done; cbn; try lia; rewrite ?Ho.

Lemma claim_task_grow e keeper id s s' :
  claim_task e keeper id s = Ok tt s' -> tasks_grow (store s) (store s').
Proof.
  intros Hr. apply ensures in Hr as (t & missed & _ & _ & _ & Hk & _ & Hc & _ & _ & -> & _).
  apply (tasks_grow_put _ _ id t (claimed_task e keeper t)); [done| |by destruct missed..].
  step_right 0. destruct Hc as [[-> _]|(-> & _)]; constructor.
Qed.

Lemma execute_task_grow e keeper id proof s s' :
  execute_task e keeper id proof s = Ok tt s' -> tasks_grow (store s) (store s').
Proof.
  intros Hr. apply ensures in Hr as
    (t & net & fee & _ & _ & _ & Hk & Hst & _ & _ & _ & _ & _ & _ & -> & _).
  apply (tasks_grow_put _ _ id t (t <| t_status := Executed |>)); [done| |..].
  - step_right 0. rewrite Hst. constructor.
  - unfold execute_store, bump_reputation, accrued, pay_keeper. by repeat case_bool_decide.
  - unfold execute_store, bump_reputation, accrued, pay_keeper. by repeat case_bool_decide.
Qed.

Lemma increase_reward_grow e owner id additional s s' :
  increase_reward e owner id additional s = Ok tt s' -> tasks_grow (store s) (store s').
Proof.
  intros Hr. apply ensures in Hr as (t & tk & l & _ & _ & H0 & Hk & _ & Ho & _ & _ & _ & -> & _).
  apply (tasks_grow_put _ _ id t (t <| t_reward := t_reward t + additional |>)); [done| |done..].
  step_right 0. by constructor.
Qed.

Lemma extend_deadline_grow e owner id d s s' :
  extend_deadline e owner id d s = Ok tt s' -> tasks_grow (store s) (store s').
Proof.
  intros Hr. apply ensures in Hr as (t & _ & _ & Hk & _ & Ho & Hd & -> & _).
  apply (tasks_grow_put _ _ id t (t <| t_deadline := d |>)); [done| |done..].
  step_right 0. by constructor.
Qed.

Lemma update_verifier_grow e owner id v s s' :
  update_verifier e owner id v s = Ok tt s' -> tasks_grow (store s) (store s').
Proof.
  intros Hr. apply ensures in Hr as (t & _ & _ & Hk & _ & Ho & -> & _).
  apply (tasks_grow_put _ _ id t (t <| t_verifier := v |>)); [done| |done..].
  step_right 0. constructor. by rewrite Ho.
Qed.

Lemma cancel_task_grow e owner id s s' :
  cancel_task e owner id s = Ok tt s' -> tasks_grow (store s) (store s').
Proof.
  intros Hr. apply ensures in Hr as (t & tk & l & _ & Hk & _ & Ho & _ & _ & -> & _).
  apply (tasks_grow_put _ _ id t (t <| t_status := Cancelled |>)); [done| |done..].
  step_right 0. constructor. by destruct Ho as [-> | [-> _]].
Qed.

Lemma expire_task_grow e id s s' :
  expire_task e id s = Ok tt s' -> tasks_grow (store s) (store s').
Proof.
  intros Hr. apply ensures in Hr as (t & tk & l & Hk & Ho & _ & _ & _ & -> & _).
  apply (tasks_grow_put _ _ id t (t <| t_status := Expired |>)); [done| |done..].
  step_right 0. by constructor.
Qed.

Lemma withdraw_rewards_grow e keeper a s s' :
  withdraw_rewards e keeper s = Ok a s' -> tasks_grow (store s) (store s').
Proof.
  intros Hr. apply ensures in Hr as (tk & l & _ & _ & _ & _ & _ & -> & _).
  apply tasks_grow_same; by rewrite withdrawn_store.
Qed.

Lemma resolve_slash_appeal_grow e admin id uphold s s' :
  resolve_slash_appeal e admin id uphold s = Ok tt s' -> tasks_grow (store s) (store s').
Proof.
  intros Hr. apply ensures in Hr as (r & _ & _ & _ & _ & _ & Hst). cbv zeta in Hst.
  apply tasks_grow_same; destruct uphold; run_simpl;
    match goal with Hx : store _ = _ |- _ => by rewrite Hx end.
Qed.

Lemma resolve_execution_dispute_grow e admin id uphold s s' :
  resolve_execution_dispute e admin id uphold s = Ok tt s' -> tasks_grow (store s) (store s').
Proof.
  intros Hr. apply ensures in Hr as
    (t & k & i & c & _ & _ & _ & _ & _ & _ & _ & _ & Hst & _). cbv zeta in Hst.
  apply tasks_grow_same; rewrite Hst; unfold accrued; by repeat case_bool_decide.
Qed.

Lemma initialize_grow e admin tok bps s s' :
  wf (store s) -> initialize e admin tok bps s = Ok tt s' -> tasks_grow (store s) (store s').
Proof.
  intros Hwf Hr. apply ensures in Hr as (Hn & _ & _ & -> & _).
  rewrite (wf_uninitialized _ Hwf Hn). split; [by apply tasks_step_same | done].
Qed.

Lemma exec_grow self e op s s' :
  wf (store s) -> valid_env self e -> typed_op op -> exec e op s = Ok tt s' ->
  tasks_grow (store s) (store s').
Proof.
  intros Hwf He Ht Hr.
  destruct op; cbn [exec typed_op] in Hr, Ht; try (apply runs_forget in Hr as [? Hr]);
    destruct_and?;
    [ eapply initialize_grow | grow_same Hr | grow_same Hr | grow_same Hr | grow_same Hr
    | grow_same Hr | grow_same Hr | grow_same Hr | grow_same Hr
    | eapply register_params_grow | eapply batch_register_tasks_grow | eapply increase_reward_grow
    | eapply extend_deadline_grow | eapply update_verifier_grow | eapply claim_task_grow
    | eapply execute_task_grow | eapply cancel_task_grow | eapply expire_task_grow
    | eapply withdraw_rewards_grow | grow_same Hr | grow_same Hr | grow_same Hr | grow_same Hr
    | grow_same Hr | grow_same Hr | eapply resolve_slash_appeal_grow | grow_same Hr
    | grow_same Hr | eapply resolve_execution_dispute_grow ]; eassumption.
Qed.

(** C3: a task that exists before a successful call exists after it; it is
    unchanged or took one step of the status graph, keeping its owner, type,
    calldata, TTL, lock and condition and never lowering its reward or deadline. *)
Theorem task_lifecycle self tok e op s s' id t :
  reachable self tok s -> valid_env self e -> typed_op op -> exec e op s = Ok tt s' ->
  s_task (store s) !! id = Some t ->
  exists t', s_task (store s') !! id = Some t' /\ task_step t t'.
Proof.
  intros Hs He Ht Hr Hk. pose proof (reachable_preserves_wf _ _ _ Hs) as Hwf.
  by apply (exec_grow _ _ _ _ _ Hwf He Ht Hr).
Qed.

Lemma task_step_settled t t' : open_status (t_status t) = false -> task_step t t' -> t' = t.
Proof.
  intros Ho [->|[Hs _]]; [done|]. exfalso.
  inversion Hs; subst; try congruence; by rewrite <- ?H, <- ?H0 in Ho.
Qed.

Lemma run_calls_settled self tok calls s id t :
  reachable self tok s -> Forall (fun '(e, op) => valid_env self e /\ typed_op op) calls ->
  s_task (store s) !! id = Some t -> open_status (t_status t) = false ->
  s_task (store (run_calls calls s)) !! id = Some t.
Proof.
  intros Hs Hc Hk Ho. revert s Hs Hk. induction Hc as [|[e op] calls [He Ht] Hc IH]; intros s Hs Hk; [done|].
  apply IH; [by apply reachable_call|]. unfold Contract.call, invoke.
  destruct (exec e op s) as [[] s'|x s'|] eqn:Hx; cbn; [|done..].
  pose proof (reachable_preserves_wf _ _ _ Hs) as Hwf.
  destruct (proj1 (exec_grow _ _ _ _ _ Hwf He Ht Hx) id t) as (t' & Hk' & Hst); [done|].
  by rewrite (task_step_settled _ _ Ho Hst) in Hk'.
Qed.
(** The calls that settle task [id]: pay its keeper or refund its owner. *)
Definition settles (op : Op) (id : Z) : bool :=
  match op with
  | OpExecuteTask _ id' _ | OpCancelTask _ id' | OpExpireTask id' => bool_decide (id' = id)
  | _ => false
  end.

Lemma settles_closes e op s s' id :
  settles op id = true -> exec e op s = Ok tt s' ->
  exists t, s_task (store s) !! id = Some t /\ open_status (t_status t) = true.
Proof.
  intros Hop Hr. destruct op; cbn in Hop; try done; apply bool_decide_eq_true in Hop as ->;
    apply ensures in Hr.
  - destruct Hr as (t & net & fee & _ & _ & _ & Hk & Hst & _). exists t. by rewrite Hst.
  - destruct Hr as (t & tk & l & _ & Hk & _ & Ho & _). exists t. by destruct Ho as [-> | [-> _]].
  - destruct Hr as (t & tk & l & Hk & Ho & _). by exists t.
Qed.

(** C4: single payout (invariant I-3).  Once a task is executed, cancelled or
    expired, no sequence of calls changes it, and every later attempt to
    execute, cancel or expire it is rejected. *)
Theorem settled_forever self tok calls s id t e op :
  reachable self tok s -> Forall (fun '(e, op) => valid_env self e /\ typed_op op) calls ->
  s_task (store s) !! id = Some t -> open_status (t_status t) = false ->
  settles op id = true ->
  s_task (store (run_calls calls s)) !! id = Some t /\
  succeeds e op (run_calls calls s) = false.
Proof.
  intros Hs Hc Hk Ho Hop. pose proof (run_calls_settled self tok calls s id t Hs Hc Hk Ho) as Hk'.
  split; [done|]. destruct (succeeds e op _) eqn:Hx; [|done]. apply succeeds_call in Hx.
  destruct (settles_closes _ _ _ _ _ Hop Hx) as (t' & Hk2 & Ho'). congruence.
Qed.

(** The counter only moves up along a run. *)
Lemma run_calls_counter self tok calls s :
  reachable self tok s -> Forall (fun '(e, op) => valid_env self e /\ typed_op op) calls ->
  task_count (store s) <= task_count (store (run_calls calls s)).
Proof.
  intros Hs Hc. revert s Hs. induction Hc as [|[e op] calls [He Ht] Hc IH]; intros s Hs; [done|].
  transitivity (task_count (store (call e op s))); [|apply IH; by apply reachable_call].
  unfold Contract.call, invoke. destruct (exec e op s) as [[] s'|x s'|] eqn:Hx; cbn; [|done..].
  pose proof (reachable_preserves_wf _ _ _ Hs) as Hwf. apply (exec_grow _ _ _ _ _ Hwf He Ht Hx).
Qed.

(** Task ids are strictly increasing and never reused (invariant I-7): a
    registration's id is above every stored one, names the new pending task,
    and is below the id of any registration that follows it. *)
Theorem task_ids_monotonic self tok e1 owner1 p1 s id1 s1 calls e2 owner2 p2 id2 s2 :
  reachable self tok s -> valid_env self e1 -> typed_params p1 ->
  register_params e1 owner1 p1 s = Ok id1 s1 ->
  Forall (fun '(e, op) => valid_env self e /\ typed_op op) calls ->
  register_params e2 owner2 p2 (run_calls calls s1) = Ok id2 s2 ->
  (forall id t, s_task (store s) !! id = Some t -> id < id1) /\
  (exists t, s_task (store s1) !! id1 = Some t /\ t_status t = Pending /\ t_owner t = owner1) /\
  id1 < id2.
Proof.
  intros Hs He Hp Hr1 Hc Hr2. pose proof (reachable_preserves_wf _ _ _ Hs) as Hwf.
  assert (reachable self tok s1) as Hs1.
  { replace s1 with (call e1 (OpRegisterTask owner1 p1) s); [by apply reachable_call|].
    unfold Contract.call, invoke. cbn. by rewrite (proj2 (runs_forget _ _ tt s1) (ex_intro _ _ Hr1)). }
  pose proof (run_calls_counter self tok calls s1 Hs1 Hc) as Hcnt. unfold task_count in Hcnt.
  apply ensures in Hr1 as (tk & l & _ & _ & _ & _ & _ & Hid1 & _ & Hst1 & _).
  apply ensures in Hr2 as (tk2 & l2 & _ & _ & _ & _ & _ & Hid2 & _).
  rewrite Hst1 in Hcnt at 1. cbn in Hcnt. split_and!.
  - intros id t Hk. apply (wf_tasks _ Hwf) in Hk as [? _]. lia.
  - eexists. rewrite Hst1. cbn. rewrite lookup_insert_eq. done.
  - lia.
Qed.
End Lifecycle.

(** ** What a caller may touch *)

Section Isolation.
Context `{HL : Ledger}.
Implicit Types (e : Env) (s : RS).

(** Escrow isolation (invariant I-5).  A configuration call of the admin,
    the sweep and the upgrade included, changes no task, no keeper's balance,
    stake, unbonding request or pending credit, and only a sweep lowers the fee
    pot, by the amount it pays out. *)
Theorem admin_action_isolated e op s s' :
  admin_op op = true -> exec e op s = Ok tt s' ->
  s_task (store s') = s_task (store s) /\
  s_keeper_reward (store s') = s_keeper_reward (store s) /\
  s_keeper_stake (store s') = s_keeper_stake (store s) /\
  s_unbond_request (store s') = s_unbond_request (store s) /\
  s_pending_reward (store s') = s_pending_reward (store s) /\
  fees_accrued (store s') =
    fees_accrued (store s) - match op with OpSweepFees _ _ amount => amount | _ => 0 end.
Proof.
  intros Hop Hr. destruct op; try done; cbn [exec] in Hr; apply ensures in Hr; run_simpl;
    match goal with Hst : store _ = _ |- _ => rewrite Hst end; split_and!; try done;
    unfold fees_accrued; cbn; lia.
Qed.

(** The pause switch.  While the registry is paused, every call that opens
    exposure (registration, top-up, deadline extension, verifier update, claim,
    execution, stake deposit) and also [initiate_unbond] is rejected without
    any effect. *)
Theorem pause_blocks e op s :
  is_paused (store s) = true -> pause_gated op = true ->
  succeeds e op s = false /\ call e op s = s.
Proof.
  unfold is_paused. intros Hp Hop. assert (succeeds e op s = false) as Hno.
  { destruct (succeeds e op s) eqn:Hx; [|done]. apply succeeds_call in Hx. revert Hx.
    generalize (call e op s). intros s' Hr. exfalso.
    destruct op; try done; cbn [exec] in Hr; try (apply runs_forget in Hr as [? Hr]);
      apply ensures in Hr; cbv zeta in Hr; unfold registration_ready in Hr; run_simpl; congruence. }
  split; [done|]. unfold Contract.succeeds, Contract.call, invoke in *. by destruct (exec e op s).
Qed.

(** An uninitialized registry is empty and rejects every call but
    [initialize], without any effect. *)
Theorem uninitialized_rejects self tok e op s :
  reachable self tok s -> s_admin (store s) = None ->
  (forall a tk bps, op <> OpInitialize a tk bps) ->
  store s = empty_store /\ succeeds e op s = false /\ call e op s = s.
Proof.
  intros Hs Ha Hni. pose proof (reachable_preserves_wf _ _ _ Hs) as Hwf.
  pose proof (wf_uninitialized _ Hwf Ha) as Hst. split; [done|].
  assert (succeeds e op s = false) as Hno.
  { destruct (succeeds e op s) eqn:Hx; [|done]. apply succeeds_call in Hx. revert Hx.
    generalize (call e op s). intros s' Hr. exfalso.
    destruct op; try (by destruct (Hni admin token bps)); cbn [exec] in Hr;
      try (apply runs_forget in Hr as [? Hr]); apply ensures in Hr; cbv zeta in Hr;
      unfold registration_ready in Hr; rewrite Hst in Hr; run_simpl; done. }
  split; [done|]. unfold Contract.succeeds, Contract.call, invoke in *. by destruct (exec e op s).
Qed.
End Isolation.

(** ** Witnesses on the sample run *)

(** Task 1 of the sample run, while claimed and once executed. *)
Definition task1_claimed : Task :=
  mkTask owner0 Custom [] 1000 1000 20000 Claimed (Some keeper0) (Some 104) 12 (Some accepting) None.
Definition task1_executed : Task := task1_claimed <| t_status := Executed |>.

Lemma task_lifecycle_witness :
  exists t', s_task (store executed_state) !! 1 = Some t' /\ task_step task1_claimed t'.
Proof.
  apply (task_lifecycle self token (at_ledger 105 35) (OpExecuteTask keeper0 1 []) claimed_state
           executed_state 1 task1_claimed).
  - exact claimed_reachable.
  - apply at_ledger_valid; by vm_compute.
  - by vm_compute.
  - apply succeeds_call. vm_compute. reflexivity.
  - vm_compute. reflexivity.
Defined.

Definition after_settling : list (Env * Op) := [(at_ledger 110 60, OpUnpause admin0)].

Lemma after_settling_typed : Forall (fun '(e, op) => valid_env self e /\ typed_op op) after_settling.
Proof. repeat constructor; by vm_compute. Qed.

Lemma settled_forever_witness :
  s_task (store (run_calls after_settling settled_state)) !! 1 = Some task1_executed /\
  succeeds (at_ledger 2000 5000) (OpExpireTask 1) (run_calls after_settling settled_state) = false.
Proof.
  apply (settled_forever self token after_settling settled_state 1 task1_executed
           (at_ledger 2000 5000) (OpExpireTask 1)).
  - exact settled_reachable.
  - exact after_settling_typed.
  - vm_compute. reflexivity.
  - reflexivity.
  - reflexivity.
Defined.

(** The state after [owner0] registers one more task, and after another. *)
Definition run_register (s : RS) : option (Z * RS) :=
  match register_params (at_ledger 110 60) owner0 (params0 50 None None) s with
  | Ok id s' => Some (id, s')
  | _ => None
  end.

Lemma run_register_Some s id s' :
  run_register s = Some (id, s') ->
  register_params (at_ledger 110 60) owner0 (params0 50 None None) s = Ok id s'.
Proof. unfold run_register. by destruct (register_params _ _ _ s) as [? ?|? ?|]; intros [= <- <-]. Qed.

Definition registered (s : RS) : RS := from_option snd s (run_register s).
Definition registered_id (s : RS) : Z := from_option fst 0 (run_register s).

Lemma run_register_eq s :
  bool_decide (is_Some (run_register s)) = true ->
  run_register s = Some (registered_id s, registered s).
Proof. unfold registered, registered_id. by destruct (run_register s) as [[]|]. Qed.

Lemma task_ids_monotonic_witness :
  let s1 := registered claimed_state in
  (forall id t, s_task (store claimed_state) !! id = Some t -> id < registered_id claimed_state) /\
  (exists t, s_task (store s1) !! registered_id claimed_state = Some t /\
     t_status t = Pending /\ t_owner t = owner0) /\
  registered_id claimed_state < registered_id (run_calls [] s1).
Proof.
  eapply (task_ids_monotonic self token (at_ledger 110 60) owner0 (params0 50 None None) claimed_state
    _ _ [] (at_ledger 110 60) owner0 (params0 50 None None)).
  - exact claimed_reachable.
  - apply at_ledger_valid; by vm_compute.
  - by vm_compute.
  - apply run_register_Some, run_register_eq. vm_compute. reflexivity.
  - constructor.
  - apply run_register_Some, run_register_eq. vm_compute. reflexivity.
Defined.

Lemma admin_action_isolated_witness :
  let s' := call (at_ledger 110 60) (OpSweepFees admin0 treasury0 10) settled_state in
  fees_accrued (store s') = fees_accrued (store settled_state) - 10.
Proof.
  destruct (admin_action_isolated (at_ledger 110 60) (OpSweepFees admin0 treasury0 10) settled_state
    (call (at_ledger 110 60) (OpSweepFees admin0 treasury0 10) settled_state))
    as (_ & _ & _ & _ & _ & Hf).
  - reflexivity.
  - apply succeeds_call. vm_compute. reflexivity.
  - exact Hf.
Defined.

Lemma pause_blocks_witness :
  succeeds (at_ledger 110 60) (OpInitiateUnbond keeper0 100) settled_state = false /\
  call (at_ledger 110 60) (OpInitiateUnbond keeper0 100) settled_state = settled_state.
Proof.
  apply (pause_blocks (at_ledger 110 60) (OpInitiateUnbond keeper0 100) settled_state).
  - vm_compute. reflexivity.
  - reflexivity.
Defined.

Lemma uninitialized_rejects_witness :
  store deployed = empty_store /\ succeeds (at_ledger 1 1) (OpStakeDeposit keeper0 5) deployed = false /\
  call (at_ledger 1 1) (OpStakeDeposit keeper0 5) deployed = deployed.
Proof.
  apply (uninitialized_rejects self token (at_ledger 1 1) (OpStakeDeposit keeper0 5) deployed).
  - apply reachable_deploy.
  - reflexivity.
  - discriminate.
Defined.
