(* ===== verification/RegistryLiveness.v ===== *)
(** * Keeper registry: value can always leave

    The exits of the registry cannot be blocked: an overdue task can be expired
    by anyone, an earned balance can be withdrawn, an unbonded stake can be
    collected - paused or not.  The funds are there because the registry is
    solvent; the token is assumed to honour transfers its holder can afford. *)

From S2P Require Import Prelude Host Contract SampleChain RegistryTypes RegistryInternal RegistryReputation RegistryTask RegistryStaking RegistryAdmin RegistryBatch RegistryViews RegistrySystem RegistrySample RegistryInvariants RegistrySolvency.

(** ** Each debt is part of the total *)

Section Parts.
Implicit Types st : Store.

Lemma task_sum_nonneg st : wf st -> 0 <= map_sum open_reward (s_task st).
Proof.
  intros Hwf. apply map_sum_nonneg. intros id t (_ & ? & _)%(wf_tasks _ Hwf).
  unfold open_reward. case_match; lia.
Qed.

Lemma reward_sum_nonneg st : wf st -> 0 <= map_sum id (s_keeper_reward st).
Proof. intros Hwf. apply map_sum_nonneg. by intros k v [? _]%(wf_rewards _ Hwf). Qed.

Lemma stake_sum_nonneg st : wf st -> 0 <= map_sum id (s_keeper_stake st).
Proof. intros Hwf. apply map_sum_nonneg. by intros k v [? _]%(wf_stakes _ Hwf). Qed.

Lemma unbond_sum_nonneg st : wf st -> 0 <= map_sum ur_amount (s_unbond_request st).
Proof. intros Hwf. apply map_sum_nonneg. intros k r [? _]%(wf_unbonds _ Hwf). lia. Qed.

Lemma credits_nonneg tasks k l :
  Forall (wf_credit tasks k) l -> Forall (fun c => 0 <= pc_net_reward c) l.
Proof. apply Forall_impl. by intros c ([? _] & _). Qed.

Lemma pending_sum_nonneg st : wf st -> 0 <= map_sum (list_sum pc_net_reward) (s_pending_reward st).
Proof.
  intros Hwf. apply map_sum_nonneg. intros k l (_ & _ & Hl)%(wf_pending _ Hwf).
  eapply list_sum_nonneg, credits_nonneg, Hl.
Qed.

Lemma owed_bounds st :
  wf st ->
  0 <= map_sum open_reward (s_task st) /\ 0 <= map_sum id (s_keeper_reward st) /\
  0 <= fees_accrued st /\ 0 <= map_sum id (s_keeper_stake st) /\
  0 <= map_sum ur_amount (s_unbond_request st) /\
  0 <= map_sum (list_sum pc_net_reward) (s_pending_reward st).
Proof.
  intros Hwf. split_and!; [by apply task_sum_nonneg | by apply reward_sum_nonneg
    | apply Hwf | by apply stake_sum_nonneg | by apply unbond_sum_nonneg | by apply pending_sum_nonneg].
Qed.

Lemma unbond_le_owed st k r : wf st -> s_unbond_request st !! k = Some r -> ur_amount r <= owed st.
Proof.
  intros Hwf Hk. pose proof (owed_bounds _ Hwf). unfold owed.
  assert (ur_amount r <= map_sum ur_amount (s_unbond_request st)); [|lia].
  eapply map_sum_lookup_le; [|exact Hk]. intros k' r' [? _]%(wf_unbonds _ Hwf). lia.
Qed.

Lemma reward_of_le_sum st k : wf st -> keeper_reward_of st k <= map_sum id (s_keeper_reward st).
Proof.
  intros Hwf. unfold keeper_reward_of. destruct (_ !! _) as [v|] eqn:Hk; cbn.
  - eapply (map_sum_lookup_le id); [|exact Hk]. by intros k' v' [? _]%(wf_rewards _ Hwf).
  - by apply reward_sum_nonneg.
Qed.

Lemma open_reward_le_sum st id t :
  wf st -> s_task st !! id = Some t -> open_status (t_status t) = true ->
  t_reward t <= map_sum open_reward (s_task st).
Proof.
  intros Hwf Hk Ho. rewrite <- (open_reward_open t) by done.
  eapply map_sum_lookup_le; [|exact Hk]. intros id' t' (_ & ? & _)%(wf_tasks _ Hwf).
  unfold open_reward. case_match; lia.
Qed.

Lemma open_reward_le_owed st id t :
  wf st -> s_task st !! id = Some t -> open_status (t_status t) = true -> t_reward t <= owed st.
Proof.
  intros Hwf Hk Ho. pose proof (owed_bounds _ Hwf).
  pose proof (open_reward_le_sum _ _ _ Hwf Hk Ho). unfold owed. lia.
Qed.

(** A keeper's balance together with all its pending credits. *)
Lemma earned_le_owed st k :
  wf st -> keeper_reward_of st k + list_sum pc_net_reward (pending_credits_of st k) <= owed st.
Proof.
  intros Hwf. pose proof (owed_bounds _ Hwf) as (? & ? & ? & ? & ? & ?).
  pose proof (reward_of_le_sum st k Hwf).
  assert (list_sum pc_net_reward (pending_credits_of st k)
    <= map_sum (list_sum pc_net_reward) (s_pending_reward st)).
  { unfold pending_credits_of. destruct (_ !! _) as [l|] eqn:Hk; cbn; [|done].
    eapply (map_sum_lookup_le (list_sum pc_net_reward)); [|exact Hk].
    intros k' l' (_ & _ & Hl)%(wf_pending _ Hwf). eapply list_sum_nonneg, credits_nonneg, Hl. }
  unfold owed. lia.
Qed.

Lemma due_le_pending st now k :
  wf st -> 0 <= list_sum pc_net_reward (due now (pending_credits_of st k))
            <= list_sum pc_net_reward (pending_credits_of st k).
Proof.
  intros Hwf. destruct (wf_credits_of _ k Hwf) as [_ Hall%credits_nonneg].
  pose proof (list_sum_filter_split pc_net_reward
    (fun c => finalizable now c = true) (pending_credits_of st k)).
  assert (0 <= list_sum pc_net_reward (due now (pending_credits_of st k)))
    by (by apply list_sum_nonneg, Forall_filter).
  assert (0 <= list_sum pc_net_reward (undue now (pending_credits_of st k)))
    by (by apply list_sum_nonneg, Forall_filter).
  unfold due, undue in *. lia.
Qed.
End Parts.

Section Liveness.
Context `{HL : Ledger} (self tok : Address) `{HT : !LawfulToken self tok}.
Implicit Types (e : Env) (s : RS).

(** What is owed can be paid, as far as the registry is concerned. *)
Lemma affordable s amt :
  reachable self tok s -> s_reward_token (store s) = Some tok -> amt <= owed (store s) ->
  amt <= balance (chain s) tok self.
Proof. intros Hs Htok Hamt. pose proof (reachable_solvent self tok s Hs Htok). lia. Qed.

(** C14: escrow recoverability (invariant I-2).  In every reachable state, a
    pending or claimed task whose deadline has passed can be expired by any
    caller, whether or not the registry is paused, as far as the registry is
    concerned: it holds the whole reward, and the call commits exactly if the
    token delivers the reward to the owner - who may lack a trustline or an
    authorization -, which it then does, the task being expired. *)
Theorem expire_task_live e s task_id t :
  reachable self tok s -> s_reward_token (store s) = Some tok -> valid_env self e ->
  s_task (store s) !! task_id = Some t -> open_status (t_status t) = true ->
  t_deadline t <= ledger_timestamp e ->
  0 < t_reward t <= balance (chain s) tok self /\
  (forall l, transfer (chain s) e tok self (t_owner t) (t_reward t) = Some l ->
     exists s', expire_task e task_id s = Ok tt s' /\ chain s' = l /\
       s_task (store s') !! task_id = Some (t <| t_status := Expired |>)) /\
  (transfer (chain s) e tok self (t_owner t) (t_reward t) = None ->
     forall s', expire_task e task_id s <> Ok tt s').
Proof.
  intros Hs Htok He Hk Ho Hd. pose proof (reachable_preserves_wf _ _ _ Hs) as Hwf.
  pose proof (wf_lookup_task _ _ _ Hwf Hk) as (_ & Hr & _).
  pose proof (open_reward_le_owed _ _ _ Hwf Hk Ho).
  split; [split; [lia | by eapply affordable]|].
  split.
  - intros l Hl. eexists. split.
    + unfold expire_task. forward1. forward1.
      pass; [lia|].
      do 3 forward1. rewrite (env_self _ _ He). forward1. by apply runs.
    + split; [done | apply lookup_insert_eq].
  - intros Hl s' Hrun. apply ensures in Hrun. run_simpl. rewrite (env_self _ _ He) in *. congruence.
Qed.

(** What [withdraw_rewards] will pay: the balance and the due credits. *)
Definition withdrawable e (st : Store) keeper : Z :=
  keeper_balance st keeper
  + list_sum pc_net_reward (due (ledger_sequence e) (pending_reward st keeper)).

(** Withdrawal liveness (invariant I-6).  In every reachable state a
    keeper with a positive withdrawable amount can withdraw all of it, paused
    or not, if the token delivers it; the registry holds it, and the balance is
    zero after. *)
Theorem withdraw_rewards_live e s keeper :
  reachable self tok s -> s_reward_token (store s) = Some tok -> valid_env self e ->
  authorized e keeper = true -> balance (chain s) tok self <= int_max i128 ->
  0 < withdrawable e (store s) keeper ->
  withdrawable e (store s) keeper <= balance (chain s) tok self /\
  forall l, transfer (chain s) e tok self keeper (withdrawable e (store s) keeper) = Some l ->
  exists s', withdraw_rewards e keeper s = Ok (withdrawable e (store s) keeper) s' /\
    chain s' = l /\
    keeper_balance (store s') keeper = 0.
Proof.
  intros Hs Htok He Ha Hmax Hpos. pose proof (reachable_preserves_wf _ _ _ Hs) as Hwf.
  pose proof (reachable_solvent self tok s Hs Htok) as Hsol.
  pose proof (earned_le_owed _ keeper Hwf) as Hearn.
  pose proof (due_le_pending _ (ledger_sequence e) keeper Hwf) as Hdue.
  destruct (wf_reward_of _ keeper Hwf) as [Hr0 _].
  destruct (wf_credits_of _ keeper Hwf) as [_ Hall%credits_nonneg].
  destruct (finalize_rewards_total e keeper s Hall Hr0 ltac:(lia)) as (fin & s1 & Hfin).
  pose proof (ensures _ _ _ Hfin) as (Hf1 & Hst1 & Hch1 & Hev1).
  destruct (for_each_publish_total keeper fin s1) as [s2 Hpub].
  pose proof (ensures _ _ _ Hpub) as (Hst2 & Hch2 & _).
  assert (Hbal : keeper_reward_of (store s2) keeper = withdrawable e (store s) keeper).
  { rewrite Hst2, Hst1. unfold withdrawable. apply finalized_balance. }
  assert (Htk2 : s_reward_token (store s2) = Some tok)
    by (by rewrite Hst2, Hst1, finalized_store_token).
  split.
  { apply affordable; [done..|]. unfold withdrawable, keeper_balance, pending_reward, keeper_reward_of in *. lia. }
  intros l Hl.
  eexists. split.
  - unfold withdraw_rewards. forward1. apply bind_Ok. do 2 eexists. split; [exact Hfin|].
    apply bind_Ok. do 2 eexists. split; [exact Hpub|]. forward1. rewrite Hbal.
    pass; [lia|].
    do 3 forward1. rewrite (env_self _ _ He).
    apply bind_Ok. exists tt. eexists. split.
    { apply runs. exists l. cbn. rewrite Hch2, Hch1. split; [exact Hl|reflexivity]. }
    forward1. by apply runs.
  - split; [done|]. cbn. unfold keeper_balance; cbn. by rewrite lookup_insert_eq.
Qed.

(** Stake liveness.  In every reachable state a keeper whose unbonding
    delay has elapsed can withdraw the whole unbonded amount, paused or not, if
    the token delivers it. *)
Theorem withdraw_stake_live e s keeper r :
  reachable self tok s -> s_reward_token (store s) = Some tok -> valid_env self e ->
  authorized e keeper = true -> pending_unbond (store s) keeper = Some r ->
  ur_unlock_ledger r <= ledger_sequence e ->
  ur_amount r <= balance (chain s) tok self /\
  forall l, transfer (chain s) e tok self keeper (ur_amount r) = Some l ->
  exists s', withdraw_stake e keeper s = Ok (ur_amount r) s' /\ chain s' = l /\
    pending_unbond (store s') keeper = None.
Proof.
  unfold pending_unbond. intros Hs Htok He Ha Hk Hu.
  pose proof (reachable_preserves_wf _ _ _ Hs) as Hwf.
  pose proof (unbond_le_owed _ _ _ Hwf Hk). pose proof (wf_unbonds _ Hwf _ _ Hk) as [Hr _].
  pose proof (wf_admin_token _ _ Hwf Htok).
  split; [apply affordable; done || lia|]. intros l Hl.
  eexists. split.
  - unfold withdraw_stake. do 4 forward1.
    pass; [lia|].
    do 3 forward1. rewrite (env_self _ _ He). do 2 forward1. by apply runs.
  - split; [done|]. cbn. apply lookup_delete_eq.
Qed.
End Liveness.

(** ** Witnesses on the sample run *)

Definition task3_pending : Task :=
  mkTask owner0 Custom [] 300 1000 20000 Pending None None 12 None (Some refusing).

Lemma expire_task_live_witness :
  exists s', expire_task (at_ledger 500 2000) 3 settled_state = Ok tt s' /\
    s_task (store s') !! 3 = Some (task3_pending <| t_status := Expired |>).
Proof.
  destruct (expire_task_live self token (at_ledger 500 2000) settled_state 3 task3_pending) as [_ [Hl _]].
  - exact settled_reachable.
  - vm_compute. reflexivity.
  - apply at_ledger_valid; by vm_compute.
  - vm_compute. reflexivity.
  - reflexivity.
  - by vm_compute.
  - apply granted in Hl; [|by vm_compute]. destruct Hl as (l & s' & Hr & _ & Hk).
    exists s'. split; [exact Hr | exact Hk].
Defined.

Lemma withdraw_rewards_live_witness :
  exists s' amount, withdraw_rewards (at_ledger 200 100) keeper0 settled_state = Ok amount s' /\
    keeper_balance (store s') keeper0 = 0.
Proof.
  destruct (withdraw_rewards_live self token (at_ledger 200 100) settled_state keeper0) as [_ Hl].
  - exact settled_reachable.
  - vm_compute. reflexivity.
  - apply at_ledger_valid; by vm_compute.
  - reflexivity.
  - by vm_compute.
  - by vm_compute.
  - apply granted in Hl; [|by vm_compute]. destruct Hl as (l & s' & Hr & _ & Hb).
    exists s', (withdrawable (at_ledger 200 100) (store settled_state) keeper0).
    split; [exact Hr | exact Hb].
Defined.

(** Ledger 200 is past the window of the credit of 194: it is paid as well. *)
Example withdrawable_sample :
  withdrawable (at_ledger 156 100) (store settled_state) keeper0 = 970 /\
  withdrawable (at_ledger 157 100) (store settled_state) keeper0 = 1164.
Proof. split; vm_compute; reflexivity. Qed.

Lemma withdraw_stake_live_witness :
  exists s', withdraw_stake (at_ledger 86508 9000) keeper0 settled_state = Ok 400 s' /\
    pending_unbond (store s') keeper0 = None.
Proof.
  destruct (withdraw_stake_live self token (at_ledger 86508 9000) settled_state keeper0
           (mkUnbondRequest 400 86508)) as [_ Hl].
  - exact settled_reachable.
  - vm_compute. reflexivity.
  - apply at_ledger_valid; by vm_compute.
  - reflexivity.
  - vm_compute. reflexivity.
  - by vm_compute.
  - apply granted in Hl; [|by vm_compute]. destruct Hl as (l & s' & Hr & _ & Hk).
    exists s'. split; [exact Hr | exact Hk].
Defined.
