(* ===== verification/RegistryFrame.v ===== *)
(** * Keeper registry: who may do what, and what each call leaves alone

    The storage each entry point may write ([exec_frame]), and the
    authorization every call needs. *)

From S2P Require Import Prelude Host Contract SampleChain RegistryTypes RegistryInternal RegistryReputation RegistryTask RegistryStaking RegistryAdmin RegistryBatch RegistryViews RegistrySystem RegistrySample RegistryInvariants RegistrySolvency RegistryLifecycle.

(** ** The entries an operation writes *)

Definition writes_pending (op : Op) : bool :=
  match op with
  | OpExecuteTask _ _ _ | OpWithdrawRewards _ | OpDisputeExecution _ _
  | OpResolveExecutionDispute _ _ _ => true
  | _ => false
  end.

Definition writes_unbond (op : Op) : bool :=
  match op with
  | OpInitiateUnbond _ _ | OpWithdrawStake _ | OpSlash _ _ _ _ _ => true
  | _ => false
  end.

Definition writes_slash (op : Op) : bool :=
  match op with
  | OpSlash _ _ _ _ _ | OpRaiseSlashAppeal _ _ | OpResolveSlashAppeal _ _ _ => true
  | _ => false
  end.

Definition writes_reputation (op : Op) : bool :=
  match op with OpClaimTask _ _ | OpExecuteTask _ _ _ => true | _ => false end.

Definition writes_admin (op : Op) : bool :=
  match op with OpInitialize _ _ _ | OpTransferAdmin _ _ => true | _ => false end.

(** What a call on [st] may have done to the entries above. *)
Definition framed (op : Op) (st st' : Store) : Prop :=
  (writes_pending op = false -> s_pending_reward st' = s_pending_reward st) /\
  (writes_unbond op = false -> s_unbond_request st' = s_unbond_request st) /\
  (writes_slash op = false -> s_slash st' = s_slash st /\ s_slash_counter st' = s_slash_counter st) /\
  (writes_reputation op = false -> s_reputation st' = s_reputation st) /\
  (writes_admin op = false -> s_admin st' = s_admin st).

Lemma framed_refl op st : framed op st st.
Proof. by split_and!. Qed.

Lemma accrued_frame op amount st : framed op st (accrued amount st).
Proof. unfold accrued. by case_bool_decide; split_and!. Qed.

Section Frame.
Context `{HL : Ledger}.
Implicit Types (e : Env) (s : RS).

Lemma batch_frame e init owner tasks max s ids s' op :
  batch_register_tasks e init owner tasks max s = Ok ids s' -> framed op (store s) (store s').
Proof.
  intros Hr. apply ensures in Hr as (tk & s1 & _ & _ & _ & _ & _ & (Hs & _) & Hr).
  rewrite Hs. refine (for_fold_invariant (fun _ (s2 : RS) => framed op (store s1) (store s2))
    tasks [] _ _ _ _ _ (framed_refl _ _) Hr).
  intros ids1 p s2 ids2 s3 _ Hf (id & s4 & Hx & Hret)%bind_Ok. apply runs in Hret as [_ ->].
  by apply runs in Hx as (l & _ & -> & _ & ->).
Qed.

Lemma exec_frame e op s s' : exec e op s = Ok tt s' -> framed op (store s) (store s').
Proof.
  intros Hr. destruct op; cbn [exec] in Hr; try (apply runs_forget in Hr as [? Hr]);
    try (by eapply batch_frame); apply ensures in Hr; cbv zeta in Hr; run_simpl;
    repeat (match goal with H : if ?b then _ else _ |- _ => destruct b; run_simpl end);
    match goal with Hst : store _ = _ |- _ => rewrite Hst end;
    rewrite ?withdrawn_store;
    unfold claim_store, execute_store, bump_reputation, accrued, pay_keeper, refunded;
    repeat case_match; try match goal with |- context [from_option _ _ ?o] => destruct o end; by split_and!.
Qed.

(** ** Authorization *)

(** The addresses whose authorization a call needs. *)
Definition acts_for (op : Op) : list Address :=
  match op with
  | OpInitialize a _ _ | OpPause a | OpUnpause a | OpSetFeeBps a _ | OpSetMinReward a _
  | OpSetReputationFloor a _ | OpUpgrade a _ | OpSweepFees a _ _ | OpSlash a _ _ _ _
  | OpSetMinStake a _ | OpResolveSlashAppeal a _ _ | OpSetDisputeWindow a _
  | OpResolveExecutionDispute a _ _ => [a]
  | OpTransferAdmin a b => [a; b]
  | OpRegisterTask a _ | OpBatchRegisterTasks _ a _ _ | OpIncreaseReward a _ _
  | OpExtendDeadline a _ _ | OpUpdateVerifier a _ _ | OpClaimTask a _ | OpExecuteTask a _ _
  | OpCancelTask a _ | OpWithdrawRewards a | OpStakeDeposit a _ | OpInitiateUnbond a _
  | OpWithdrawStake a | OpRaiseSlashAppeal a _ | OpDisputeExecution a _ => [a]
  | OpExpireTask _ => []
  end.

(** The calls reserved to the stored admin. *)
Definition privileged (op : Op) : option Address :=
  match op with
  | OpPause a | OpUnpause a | OpSetFeeBps a _ | OpSetMinReward a _ | OpSetReputationFloor a _
  | OpTransferAdmin a _ | OpUpgrade a _ | OpSweepFees a _ _ | OpSlash a _ _ _ _
  | OpSetMinStake a _ | OpResolveSlashAppeal a _ _ | OpSetDisputeWindow a _
  | OpResolveExecutionDispute a _ _ => Some a
  | _ => None
  end.

(** The admin after a call. *)
Definition admin_after (op : Op) (before : option Address) : option Address :=
  match op with
  | OpInitialize a _ _ | OpTransferAdmin _ a => Some a
  | _ => before
  end.

(** The calls on a stored task that belong to its owner. *)
Definition owner_call (op : Op) : option (Address * Z) :=
  match op with
  | OpIncreaseReward a id _ | OpExtendDeadline a id _ | OpUpdateVerifier a id _
  | OpCancelTask a id | OpDisputeExecution a id => Some (a, id)
  | _ => None
  end.

(** C17: authority.  A successful call was authorized by everyone it acts for;
    a privileged one was made by the stored admin; one on a stored task by the
    task's owner; and the admin only changes by [initialize] on an
    uninitialized registry or by a handover both admins authorized. *)
Theorem authority e op s s' :
  exec e op s = Ok tt s' ->
  Forall (fun a => authorized e a = true) (acts_for op) /\
  (forall a, privileged op = Some a -> s_admin (store s) = Some a) /\
  (forall a id, owner_call op = Some (a, id) ->
     exists t, s_task (store s) !! id = Some t /\ t_owner t = a) /\
  s_admin (store s') = admin_after op (s_admin (store s)) /\
  (forall a tk bps, op = OpInitialize a tk bps -> s_admin (store s) = None).
Proof.
  intros Hr. pose proof (exec_frame _ _ _ _ Hr) as (_ & _ & _ & _ & Hadm).
  destruct op; cbn [exec] in Hr; try (apply runs_forget in Hr as [? Hr]);
    apply ensures in Hr; cbv zeta in Hr; unfold registration_ready in Hr; run_simpl;
    (split_and!; [by repeat constructor | by naive_solver | by naive_solver
       | first [by apply Hadm | by match goal with Hst : store _ = _ |- _ => rewrite Hst end]
       | by naive_solver]).
Qed.

(** The admin is never cleared. *)
Lemma exec_admin_kept e op s s' :
  exec e op s = Ok tt s' -> is_Some (s_admin (store s)) -> is_Some (s_admin (store s')).
Proof.
  intros Hr Ha. destruct (exec_frame _ _ _ _ Hr) as (_ & _ & _ & _ & Hadm).
  destruct (writes_admin op) eqn:Hw; [|by rewrite Hadm].
  destruct op; try done; apply ensures in Hr; run_simpl;
    match goal with Hst : store _ = _ |- _ => rewrite Hst end; by eexists.
Qed.

(** Initialization happens once: on an initialized registry, whatever the
    calls in between, [initialize] is rejected with [AlreadyInitialized]
    without any effect. *)
Theorem initialize_once calls s e a tk bps :
  is_Some (s_admin (store s)) ->
  invoke (initialize e a tk bps) (run_calls calls s)
    = (Rejected AlreadyInitialized, run_calls calls s).
Proof.
  intros Ha. assert (is_Some (s_admin (store (run_calls calls s)))) as [a' Ha'].
  { apply (run_calls_ind (fun s => is_Some (s_admin (store s))) (fun _ _ => True)); [|by apply Forall_true; intros []|done].
    intros s0 e0 op0 s1 H0 _ Hx. by eapply exec_admin_kept. }
  unfold invoke, initialize, mbind, M_bind, read, gets. by rewrite Ha', bool_decide_true by (by eexists).
Qed.
End Frame.

(** ** Witnesses *)

Lemma authority_witness :
  authorized (at_ledger 110 60) admin0 = true /\ s_admin (store settled_state) = Some admin0.
Proof.
  destruct (authority (at_ledger 110 60) (OpSlash admin0 keeper0 600 "late" treasury0) settled_state
    (call (at_ledger 110 60) (OpSlash admin0 keeper0 600 "late" treasury0) settled_state))
    as (Hauth & Hadm & _).
  - apply succeeds_call. vm_compute. reflexivity.
  - split; [by apply Forall_inv in Hauth | by apply Hadm].
Defined.

Lemma initialize_once_witness :
  invoke (initialize (at_ledger 110 60) keeper0 token 0) (run_calls settle claimed_state)
    = (Rejected AlreadyInitialized, run_calls settle claimed_state).
Proof.
  apply (initialize_once settle claimed_state (at_ledger 110 60) keeper0 token 0).
  apply (bool_decide_eq_true_1 _). vm_compute. reflexivity.
Defined.
