(* ===== verification/RegistryStakes.v ===== *)
(** * Keeper registry: stakes, slashes and appeals

    How a slash is drawn, how long stake stays slashable, and the life of an
    appeal (docs/STAKING_DESIGN.md, sections 3 and 4.1). *)

From S2P Require Import Prelude Host Contract SampleChain RegistryTypes RegistryInternal RegistryReputation RegistryTask RegistryStaking RegistryAdmin RegistryBatch RegistryViews RegistrySystem RegistrySample RegistryInvariants RegistrySolvency RegistryLifecycle RegistryFrame.

(** The unbonding amount of a keeper, zero without a request. *)
Definition unbonding (st : Store) (keeper : Address) : Z :=
  from_option ur_amount 0 (pending_unbond st keeper).

(** ** Drawing from a request *)

Lemma drawn_lookup keeper m amount :
  0 <= amount -> (0 < amount -> is_Some (m !! keeper)) ->
  amount <= from_option ur_amount 0 (m !! keeper) ->
  (forall r, m !! keeper = Some r -> 0 < ur_amount r) ->
  drawn keeper (m !! keeper) amount m !! keeper =
    match m !! keeper with
    | Some r => if decide (ur_amount r = amount) then None
                else Some (r <| ur_amount := ur_amount r - amount |>)
    | None => None
    end.
Proof.
  intros H0 Hs Hle Hpos. unfold drawn. destruct (m !! keeper) as [r|] eqn:Hk; [|done].
  specialize (Hpos r eq_refl). cbn in Hle.
  destruct (decide (ur_amount r = amount)) as [He|He]; repeat case_bool_decide; try lia.
  - apply lookup_delete_eq.
  - apply lookup_insert_eq.
  - rewrite Hk. replace amount with 0 by lia. rewrite Z.sub_0_r. by destruct r.
Qed.

Lemma drawn_lookup_ne keeper k o m amount :
  k <> keeper -> drawn keeper o amount m !! k = m !! k.
Proof.
  intros Hne. unfold drawn. repeat case_match; try done.
  - by apply lookup_delete_ne.
  - by apply lookup_insert_ne.
Qed.

(** Drawing never moves an unlock ledger and never enlarges a request. *)
Lemma drawn_unlock keeper k m amount r' :
  drawn keeper (m !! keeper) amount m !! k = Some r' ->
  exists r, m !! k = Some r /\ ur_unlock_ledger r' = ur_unlock_ledger r.
Proof.
  unfold drawn. destruct (m !! keeper) as [r|] eqn:Hk; [|by eexists].
  repeat case_bool_decide; [intros [_ Hr]%lookup_delete_Some; by eexists| |by eexists].
  destruct (decide (k = keeper)) as [->|Hne].
  - rewrite lookup_insert_eq. intros [= <-]. by exists r.
  - rewrite lookup_insert_ne by done. by eexists.
Qed.

Section Stakes.
Context `{HL : Ledger} (self tok : Address).
Implicit Types (e : Env) (s : RS) (keeper admin : Address).

Lemma wf_slash_fresh st : wf st -> s_slash st !! (default 0 (s_slash_counter st) + 1) = None.
Proof.
  intros Hwf. apply eq_None_not_Some. intros [r Hr]. apply (wf_slashes _ Hwf) in Hr as [? _]. lia.
Qed.

(** C15: the slash waterfall.  A slash takes exactly [amount] from the keeper's
    bonded stake and unbonding request together, the bonded stake first;
    neither goes negative, a surviving request keeps its unlock ledger, other
    keepers are untouched, the treasury is paid the amount, and the slash is on
    record, unappealed, under a fresh id. *)
Theorem slash_waterfall e admin keeper amount reason treasury s id s' :
  reachable self tok s -> slash e admin keeper amount reason treasury s = Ok id s' ->
  let stake st := keeper_stake st keeper in
  stake (store s') + unbonding (store s') keeper
    = stake (store s) + unbonding (store s) keeper - amount /\
  0 <= stake (store s') /\ 0 <= unbonding (store s') keeper /\
  (unbonding (store s') keeper <> unbonding (store s) keeper -> stake (store s') = 0) /\
  (forall r', pending_unbond (store s') keeper = Some r' -> exists r,
     pending_unbond (store s) keeper = Some r /\ ur_unlock_ledger r' = ur_unlock_ledger r /\
     0 < ur_amount r' <= ur_amount r) /\
  (forall k, k <> keeper -> keeper_stake (store s') k = keeper_stake (store s) k /\
     pending_unbond (store s') k = pending_unbond (store s) k) /\
  (exists token, s_reward_token (store s) = Some token /\
     transfer (chain s) e token (current_contract_address e) treasury amount = Some (chain s')) /\
  get_slash (store s) id = None /\
  get_slash (store s') id = Some (mkSlashRecord keeper amount reason (ledger_sequence e) false).
Proof.
  intros Hs Hr. pose proof (reachable_preserves_wf _ _ _ Hs) as Hwf. apply ensures in Hr.
  destruct Hr as (tk & l & Hr). cbv zeta in Hr.
  destruct Hr as (_ & _ & Ha & Htk & Htr & Hid & _ & _ & _ & Hst & Hch & _). cbv zeta.
  pose proof (wf_stake_of _ keeper Hwf) as [Hs0 _]. pose proof (wf_unbond_amount _ keeper Hwf).
  set (st := store s) in *. set (k0 := keeper_stake_of st keeper) in *.
  pose proof (drawn_lookup keeper (s_unbond_request st) (amount - Z.min amount k0)) as Hd.
  assert (Hpos : forall r, s_unbond_request st !! keeper = Some r -> 0 < ur_amount r).
  { intros r Hk. by apply (wf_unbonds _ Hwf) in Hk as [[? _] _]. }
  assert (Hsome : 0 < amount - Z.min amount k0 -> is_Some (s_unbond_request st !! keeper)).
  { intros Hlt. destruct (s_unbond_request st !! keeper); [by eexists | cbn in Ha; lia]. }
  assert (0 <= amount - Z.min amount k0
    <= from_option ur_amount 0 (s_unbond_request st !! keeper)) as [H0 H1] by lia.
  specialize (Hd H0 Hsome H1 Hpos).
  unfold unbonding, pending_unbond, keeper_stake, get_slash in *.
  assert (Hx : default 0 (s_keeper_stake (store s') !! keeper) = k0 - Z.min amount k0).
  { rewrite Hst. cbn. by rewrite lookup_insert_eq. }
  assert (Hu : s_unbond_request (store s') !! keeper =
    drawn keeper (s_unbond_request st !! keeper) (amount - Z.min amount k0) (s_unbond_request st)
      !! keeper) by (by rewrite Hst).
  rewrite Hx, Hu, Hd. fold (keeper_stake_of st keeper). fold k0.
  assert (Hparts : from_option ur_amount 0 (match s_unbond_request st !! keeper with
      | Some r => if decide (ur_amount r = amount - Z.min amount k0) then None
                  else Some (r <| ur_amount := ur_amount r - (amount - Z.min amount k0) |>)
      | None => None end)
    = from_option ur_amount 0 (s_unbond_request st !! keeper) - (amount - Z.min amount k0)).
  { destruct (s_unbond_request st !! keeper) as [r|]; [|cbn in *; lia].
    case_decide; cbn in *; lia. }
  rewrite Hparts. split_and!; try lia.
  - intros r' Hr'. destruct (s_unbond_request st !! keeper) as [r|] eqn:Hk; [|done].
    case_decide; simplify_eq. exists r. rewrite ?Hk in *. cbn in *. split_and!; [done..|lia|lia].
  - intros k Hne. rewrite Hst; cbn. rewrite lookup_insert_ne by done.
    split; [done|]. by apply drawn_lookup_ne.
  - exists tk. by rewrite Hch.
  - rewrite Hid. by apply wf_slash_fresh.
  - rewrite Hst; cbn. by rewrite lookup_insert_eq.
Qed.

(** The keeper's request, if any, unlocks at ledger [n] or later. *)
Definition unlocks_from (n : Z) keeper (st : Store) : Prop :=
  forall r, pending_unbond st keeper = Some r -> n <= ur_unlock_ledger r.

(** A call made at a ledger whose own request could not unlock before [n]
    keeps the keeper's requests from unlocking before [n]. *)
Lemma exec_unlocks_from n e op keeper s s' :
  n <= saturating_add u32 (ledger_sequence e) UNBOND_DELAY_LEDGERS ->
  exec e op s = Ok tt s' -> unlocks_from n keeper (store s) -> unlocks_from n keeper (store s').
Proof.
  unfold unlocks_from, pending_unbond. intros Hn Hr Hu r' Hr'.
  destruct (exec_frame _ _ _ _ Hr) as (_ & Hf & _).
  destruct (writes_unbond op) eqn:Hw; [|rewrite (Hf eq_refl) in Hr'; by apply Hu].
  destruct op; try done; cbn [exec] in Hr; try (apply runs_forget in Hr as [? Hr]);
    apply ensures in Hr; cbv zeta in Hr; run_simpl;
    match goal with Hst : store _ = _ |- _ => rewrite Hst in Hr'; cbn in Hr' end.
  - destruct (decide (keeper = keeper0)) as [->|Hne].
    + rewrite lookup_insert_eq in Hr'. by simplify_eq.
    + rewrite lookup_insert_ne in Hr' by done. by apply Hu.
  - apply lookup_delete_Some in Hr' as [_ ?]. by apply Hu.
  - apply drawn_unlock in Hr' as (r & Hr0 & ->). by apply Hu.
Qed.

(** C16: the unbonding delay.  From a state in which the keeper has nothing
    unbonding, whatever calls follow at ledgers from [n] on, no stake of the
    keeper can be withdrawn before ledger [n + UNBOND_DELAY_LEDGERS]: all of it
    stays slashable that long. *)
Theorem unbond_delay_enforced keeper s n calls e :
  pending_unbond (store s) keeper = None ->
  Forall (fun '(e, _) => n <= ledger_sequence e /\ in_range u32 (ledger_sequence e)) calls ->
  in_range u32 (n + UNBOND_DELAY_LEDGERS) -> ledger_sequence e < n + UNBOND_DELAY_LEDGERS ->
  succeeds e (OpWithdrawStake keeper) (run_calls calls s) = false.
Proof.
  intros Hnone Hc Hn He.
  assert (unlocks_from (n + UNBOND_DELAY_LEDGERS) keeper (store (run_calls calls s))) as Hu.
  { apply (run_calls_ind (fun s => unlocks_from (n + UNBOND_DELAY_LEDGERS) keeper (store s))
      (fun e _ => n <= ledger_sequence e /\ in_range u32 (ledger_sequence e))); [|done|by intros r; rewrite Hnone].
    intros s0 e0 op s1 H0 [Hle [Hlo Hhi]] Hx. eapply exec_unlocks_from; [|done..].
    unfold UNBOND_DELAY_LEDGERS, in_range in *. cbn in *.
    rewrite saturating_add_u32 by lia. lia. }
  destruct (succeeds e (OpWithdrawStake keeper) _) eqn:Hx; [|done].
  apply succeeds_call in Hx. cbn [exec] in Hx. apply runs_forget in Hx as [a Hx].
  apply ensures in Hx as (unlock & _ & _ & _ & _ & Hk & Hle & _). specialize (Hu _ Hk). cbn in Hu. lia.
Qed.

(** ** Appeals *)

Definition appealed (r : SlashRecord) : SlashRecord := r <| sr_appealed := true |>.

(** An appeal is admitted exactly when the slashed keeper authorizes it,
    the slash is on record and not yet appealed, and no more than
    [DISPUTE_WINDOW_LEDGERS] ledgers have passed since. *)
Theorem raise_slash_appeal_iff e keeper slash_id s :
  (exists s', raise_slash_appeal e keeper slash_id s = Ok tt s' /\
     get_slash (store s') slash_id = fmap appealed (get_slash (store s) slash_id)) <->
  authorized e keeper = true /\
     exists r, get_slash (store s) slash_id = Some r /\ sr_keeper r = keeper /\
     sr_appealed r = false /\
     ledger_sequence e <= saturating_add u32 (sr_ledger r) DISPUTE_WINDOW_LEDGERS.
Proof.
  unfold get_slash. split.
  - intros (s' & Hr & _). apply ensures in Hr as (r & ? & ? & ? & ? & ? & _). eauto 6.
  - intros (Ha & r & Hk & Hkp & Happ & Hle). eexists. split.
    + unfold raise_slash_appeal. do 3 forward1. pass; [by intros []|]. forward1. cbv zeta.
      pass; [lia|].
      do 3 forward1. by apply runs.
    + cbn. by rewrite lookup_insert_eq, Hk.
Qed.
(** The record is gone and its id is never issued again. *)
Definition slash_closed (id : Z) (st : Store) : Prop :=
  s_slash st !! id = None /\ id <= default 0 (s_slash_counter st).

Lemma exec_slash_closed id e op s s' :
  exec e op s = Ok tt s' -> slash_closed id (store s) -> slash_closed id (store s').
Proof.
  unfold slash_closed. intros Hr [Hn Hle]. destruct (exec_frame _ _ _ _ Hr) as (_ & _ & Hf & _).
  destruct (writes_slash op) eqn:Hw; [|by destruct (Hf eq_refl) as [-> ->]].
  destruct op; try done; cbn [exec] in Hr; try (apply runs_forget in Hr as [? Hr]);
    apply ensures in Hr; cbv zeta in Hr; run_simpl;
    repeat (match goal with H : if ?b then _ else _ |- _ => destruct b; run_simpl end);
    match goal with Hst : store _ = _ |- _ => rewrite Hst end; cbn.
  - rewrite lookup_insert_ne by lia. split; [done | lia].
  - rewrite lookup_insert_ne by congruence. done.
  - split; [by apply lookup_delete_None; right | done].
  - split; [by apply lookup_delete_None; right | done].
Qed.

(** An appeal is resolved once.  Resolving needs a raised appeal and
    removes the record; upheld, the admin pays the slashed amount back into the
    keeper's stake; rejected, no stake and no token moves.  Afterwards, whatever
    calls follow, the slash can be neither appealed nor resolved again. *)
Theorem slash_appeal_resolved_once e admin slash_id uphold s s' calls e2 keeper2 admin2 uphold2 :
  reachable self tok s -> resolve_slash_appeal e admin slash_id uphold s = Ok tt s' ->
  (exists r, get_slash (store s) slash_id = Some r /\ sr_appealed r = true /\
     (forall k, keeper_stake (store s') k = keeper_stake (store s) k +
        if decide (uphold = true /\ k = sr_keeper r) then sr_amount r else 0) /\
     if uphold then exists token, s_reward_token (store s) = Some token /\
     transfer (chain s) e token admin (current_contract_address e) (sr_amount r) = Some (chain s')
     else chain s' = chain s) /\
     get_slash (store (run_calls calls s')) slash_id = None /\
     succeeds e2 (OpRaiseSlashAppeal keeper2 slash_id) (run_calls calls s') = false /\
     succeeds e2 (OpResolveSlashAppeal admin2 slash_id uphold2) (run_calls calls s') = false.
Proof.
  intros Hs Hr. pose proof (reachable_preserves_wf _ _ _ Hs) as Hwf. unfold get_slash, keeper_stake.
  apply ensures in Hr as (r & _ & _ & Hk & Happ & _ & Hu). cbv zeta in Hu.
  assert (slash_closed slash_id (store s')) as Hcl.
  { apply (wf_slashes _ Hwf) in Hk as [? _]. unfold slash_closed.
    destruct uphold; run_simpl; match goal with Hst : store _ = _ |- _ => rewrite Hst end; cbn;
      rewrite lookup_delete_eq; (split; [done|lia]). }
  assert (slash_closed slash_id (store (run_calls calls s'))) as [Hnone _].
  { apply (run_calls_ind (fun s => slash_closed slash_id (store s)) (fun _ _ => True));
      [|by apply Forall_true; intros []|done]. intros. by eapply exec_slash_closed. }
  split_and!; [|done|..].
  - exists r. split_and!; [done..| |by destruct uphold; run_simpl; eauto].
    intros k. destruct uphold; run_simpl; match goal with Hst : store _ = _ |- _ => rewrite Hst end; cbn.
    + unfold keeper_stake_of. destruct (decide (k = sr_keeper r)) as [->|Hne].
      * rewrite lookup_insert_eq. case_decide; [done|naive_solver].
      * rewrite lookup_insert_ne by done. case_decide; [naive_solver|lia].
    + lia.
  - destruct (succeeds _ _ _) eqn:Hx; [|done]. apply succeeds_call in Hx.
    apply ensures in Hx as (? & _ & Hk2 & _). congruence.
  - destruct (succeeds _ _ _) eqn:Hx; [|done]. apply succeeds_call in Hx.
    apply ensures in Hx as (? & _ & _ & Hk2 & _). congruence.
Qed.

Lemma slash_commits e admin keeper amount reason treasury s :
  succeeds e (OpSlash admin keeper amount reason treasury) s = true ->
  exists id, slash e admin keeper amount reason treasury s
    = Ok id (call e (OpSlash admin keeper amount reason treasury) s).
Proof. intros Hx%succeeds_call. by apply runs_forget in Hx. Qed.

Lemma resolve_slash_appeal_commits e admin id uphold s :
  succeeds e (OpResolveSlashAppeal admin id uphold) s = true ->
  resolve_slash_appeal e admin id uphold s = Ok tt (call e (OpResolveSlashAppeal admin id uphold) s).
Proof. exact (succeeds_call e (OpResolveSlashAppeal admin id uphold) s). Qed.
End Stakes.

(** ** Witnesses *)

(** The admin slashes 600 of the 500 bonded and 400 unbonding of [keeper0]. *)
Definition slashed_state : RS :=
  call (at_ledger 110 60) (OpSlash admin0 keeper0 600 "late" treasury0) settled_state.

Lemma at_ledger_small seq time :
  0 <= seq <= 2 ^ 31 -> 0 <= time <= 2 ^ 31 -> valid_env self (at_ledger seq time).
Proof. intros ??. apply at_ledger_valid; unfold in_range; cbn; lia. Qed.

Lemma slashed_reachable : reachable self token slashed_state.
Proof.
  apply reachable_call; [apply settled_reachable | by apply at_ledger_small | by vm_compute].
Qed.

Example slashed_summary :
  (keeper_stake (store slashed_state) keeper0, unbonding (store slashed_state) keeper0,
   slash_history (store slashed_state) keeper0, balance (chain slashed_state) token treasury0)
  = (0, 300, (1, 600), 600).
Proof. vm_compute. reflexivity. Qed.

Lemma slash_waterfall_witness :
  keeper_stake (store slashed_state) keeper0 + unbonding (store slashed_state) keeper0
    = keeper_stake (store settled_state) keeper0 + unbonding (store settled_state) keeper0 - 600.
Proof.
  assert (succeeds (at_ledger 110 60)
    (OpSlash admin0 keeper0 600 "late" treasury0) settled_state = true) as Hx
    by (vm_compute; reflexivity).
  apply slash_commits in Hx as [id Hx].
  destruct (slash_waterfall self token (at_ledger 110 60) admin0 keeper0 600 "late" treasury0
              settled_state id slashed_state settled_reachable Hx) as [Hsum _].
  exact Hsum.
Defined.

Lemma unbond_delay_enforced_witness :
  succeeds (at_ledger 86499 9000) (OpWithdrawStake keeper0) (run_calls settle claimed_state) = false.
Proof.
  apply (unbond_delay_enforced keeper0 claimed_state 100 settle (at_ledger 86499 9000)).
  - vm_compute. reflexivity.
  - repeat constructor; by vm_compute.
  - by vm_compute.
  - by vm_compute.
Defined.

Definition appealed_state : RS :=
  call (at_ledger 51950 70) (OpRaiseSlashAppeal keeper0 1) slashed_state.

Lemma appealed_reachable : reachable self token appealed_state.
Proof. apply reachable_call; [apply slashed_reachable | by apply at_ledger_small | by vm_compute]. Qed.

(** The appeal is resolved in the slashed keeper's favour: it has its stake
    back, and the slash is closed. *)
Definition fund_admin (s : RS) : RS := s <| chain ::= fun l => <[(token, admin0) := 1000]> l |>.

Lemma slash_appeal_resolved_once_witness :
  let s' := call (at_ledger 60000 80) (OpResolveSlashAppeal admin0 1 true) (fund_admin appealed_state) in
  get_slash (store (run_calls [] s')) 1 = None /\
  succeeds (at_ledger 60001 90) (OpResolveSlashAppeal admin0 1 true) (run_calls [] s') = false.
Proof.
  destruct (slash_appeal_resolved_once self token (at_ledger 60000 80) admin0 1 true
    (fund_admin appealed_state)
    (call (at_ledger 60000 80) (OpResolveSlashAppeal admin0 1 true) (fund_admin appealed_state))
    [] (at_ledger 60001 90) keeper0 admin0 true) as (_ & Hg & _ & Hx).
  - apply reachable_other; [apply appealed_reachable | by vm_compute].
  - apply resolve_slash_appeal_commits. vm_compute. reflexivity.
  - split; [exact Hg | exact Hx].
Defined.
