(* ===== verification/RegistryDisputes.v ===== *)
(** * Keeper registry: held credits, disputes and withdrawal

    An execution's credit is held for the dispute window
    (docs/STAKING_DESIGN.md, section 4.2): while the window is open the owner
    can freeze it, from its end on it can be withdrawn, and a frozen credit
    waits for the admin. *)

From S2P Require Import Prelude Host Contract SampleChain RegistryTypes RegistryInternal RegistryReputation RegistryTask RegistryStaking RegistryAdmin RegistryBatch RegistryViews RegistrySystem RegistrySample RegistryInvariants RegistrySolvency RegistryLifecycle RegistryLiveness RegistryFrame.

(** The pending list of each keeper after one is saved. *)
Lemma pending_put st k l k' :
  pending_credits_of (st <| s_pending_reward ::= put_pending k l |>) k' =
    if decide (k' = k) then l else pending_credits_of st k'.
Proof.
  unfold pending_credits_of, put_pending. cbn. destruct l; case_decide; subst;
    by rewrite ?lookup_delete_eq, ?lookup_insert_eq, ?lookup_delete_ne, ?lookup_insert_ne by done.
Qed.

Lemma pending_insert st k l k' :
  pending_credits_of (st <| s_pending_reward ::= <[k := l]> |>) k' =
    if decide (k' = k) then l else pending_credits_of st k'.
Proof.
  unfold pending_credits_of. cbn. case_decide; subst;
    by rewrite ?lookup_insert_eq, ?lookup_insert_ne by done.
Qed.

Lemma undue_all now l : due now l = [] -> undue now l = l.
Proof.
  unfold due, undue. induction l as [|c l IH]; [done|]. rewrite !filter_cons.
  repeat case_decide; try done. intros Hl. by rewrite IH.
Qed.

(** The credits a withdrawal at [e] leaves behind. *)
Lemma pending_withdrawn e keeper st k :
  pending_credits_of ((finalized_store e keeper st) <| s_keeper_reward ::= <[keeper := 0]> |>) k =
    if decide (k = keeper) then undue (ledger_sequence e) (pending_credits_of st keeper)
    else pending_credits_of st k.
Proof.
  rewrite withdrawn_store. destruct (due (ledger_sequence e) (pending_credits_of st keeper)) eqn:Hd.
  - cbn. unfold pending_credits_of at 1; cbn. fold (pending_credits_of st k).
    case_decide; [subst|done]. symmetry. by apply undue_all.
  - rewrite <- (pending_put _ keeper). done.
Qed.

(** The fee pot apart, accruing a fee changes nothing. *)
Lemma accrued_other a st :
  s_pending_reward (accrued a st) = s_pending_reward st /\
  s_keeper_reward (accrued a st) = s_keeper_reward st /\ s_task (accrued a st) = s_task st.
Proof. unfold accrued. by destruct (bool_decide _). Qed.

Lemma pending_accrued a st k : pending_credits_of (accrued a st) k = pending_credits_of st k.
Proof. unfold pending_credits_of. by rewrite (proj1 (accrued_other a st)). Qed.

Section Disputes.
Context `{HL : Ledger} (self tok : Address).
Implicit Types (e : Env) (s : RS) (keeper owner admin : Address) (c : PendingCredit).

(** ** Dispute or withdraw, never both *)

(** At every ledger an undisputed pending credit is either open to a
    dispute by the task's owner or due to its keeper, never both and never
    neither: the dispute succeeds exactly when [finalize_rewards] would not
    move the credit. *)
Theorem dispute_or_finalize keeper c s :
  reachable self tok s -> c ∈ pending_reward (store s) keeper -> pc_disputed c = false ->
  exists t, s_task (store s) !! pc_task_id c = Some t /\ t_status t = Executed /\
    t_claimer t = Some keeper /\
    forall e, authorized e (t_owner t) = true ->
      succeeds e (OpDisputeExecution (t_owner t) (pc_task_id c)) s
        = negb (finalizable (ledger_sequence e) c).
Proof.
  unfold pending_reward. intros Hs Hin Hd. pose proof (reachable_preserves_wf _ _ _ Hs) as Hwf.
  destruct (wf_credits_of _ keeper Hwf) as [Hnd Hall].
  eapply list.Forall_forall in Hall as (_ & _ & t & Ht & Hst & Hcl); [|exact Hin].
  exists t. split_and!; [done..|]. intros e Ha.
  destruct (succeeds e _ s) eqn:Hx; symmetry.
  - apply succeeds_call, ensures in Hx as (t' & k & i & c' & _ & Ht' & _ & Hcl' & Hi & Hid & _ & Hlt & _).
    simplify_eq. unfold finalizable. rewrite Hd, bool_decide_false; [done|].
    assert (c' = c) as -> by (eapply keyed_elem_inj; [done|by eapply list_elem_of_lookup_2|done..]). lia.
  - apply negb_false_iff. unfold finalizable. rewrite Hd. apply bool_decide_eq_true.
    apply Z.le_ge, Z.nlt_ge. intros Hlt. apply list_elem_of_lookup in Hin as [i Hi].
    assert (exists s', dispute_execution e (t_owner t) (pc_task_id c) s = Ok tt s') as [s' Hr].
    { eexists. unfold dispute_execution. do 2 forward1. pass; [by intros []|]. do 2 forward1.
      assert (position (fun c0 => bool_decide (pc_task_id c0 = pc_task_id c))
                (pending_credits_of (store s) keeper) = Some i) as Hpos.
      { eapply (keyed_position pc_task_id); [done..| |].
        - by rewrite bool_decide_true.
        - by intros y ?%bool_decide_eq_true. }
      do 3 forward1. pass; [lia|]. do 3 forward1. by apply runs. }
    unfold Contract.succeeds in Hx. cbn [exec] in Hx. by rewrite Hr in Hx.
Qed.

(** ** A frozen credit waits for the admin *)

(** A task's execution is credited and resolved only through these. *)
Definition resolves (op : Op) (id : Z) : bool :=
  match op with OpResolveExecutionDispute _ id' _ => bool_decide (id' = id) | _ => false end.

Lemma not_finalizable_disputed now c : pc_disputed c = true -> finalizable now c = false.
Proof. unfold finalizable. by intros ->. Qed.

Lemma elem_of_undue now c l : pc_disputed c = true -> c ∈ l -> c ∈ undue now l.
Proof.
  intros Hd Hin. apply list_elem_of_filter. by rewrite not_finalizable_disputed.
Qed.

Lemma pay_keeper_keeps e keeper id net st k c :
  c ∈ pending_credits_of st k -> c ∈ pending_credits_of (pay_keeper e keeper id net st) k.
Proof.
  intros Hin. unfold pay_keeper. case_bool_decide; [|done]. rewrite pending_insert.
  case_decide; [subst; by apply elem_of_app; left | done].
Qed.

Lemma exec_keeps_frozen e op s s' k c :
  wf (store s) -> exec e op s = Ok tt s' -> resolves op (pc_task_id c) = false ->
  pc_disputed c = true -> c ∈ pending_credits_of (store s) k -> c ∈ pending_credits_of (store s') k.
Proof.
  intros Hwf Hr Hop Hd Hin. destruct (exec_frame _ _ _ _ Hr) as (Hf & _).
  destruct (writes_pending op) eqn:Hw; [|unfold pending_credits_of in *; by rewrite (Hf eq_refl)].
  destruct op; try done; cbn [exec] in Hr; try (apply runs_forget in Hr as [? Hr]);
    apply ensures in Hr; cbv zeta in Hr.
  - destruct Hr as (t & net & fee & _ & _ & _ & _ & _ & _ & _ & _ & _ & _ & _ & -> & _).
    change (c ∈ pending_credits_of (accrued fee (pay_keeper e keeper task_id net (store s))) k).
    rewrite pending_accrued. by apply pay_keeper_keeps.
  - destruct Hr as (tk & l & _ & _ & _ & _ & _ & -> & _). rewrite pending_withdrawn.
    case_decide; [subst; by apply elem_of_undue | done].
  - destruct Hr as (t & k' & i & c' & _ & _ & _ & _ & Hi & _ & Hd' & _ & -> & _).
    rewrite pending_insert. case_decide; [subst|done].
    eapply (keyed_elem_insert pc_task_id); [by apply wf_credits_of|done|].
    right. split; [done|]. intros ->. congruence.
  - destruct Hr as (t & k' & i & c' & _ & _ & _ & _ & Hi & Hid & _ & _ & -> & _).
    cbn in Hop. apply bool_decide_eq_false in Hop.
    match goal with |- _ ∈ pending_credits_of (?p ?st) _ =>
      assert (pending_credits_of (p st) k = pending_credits_of st k) as -> end.
    { case_bool_decide; [apply pending_accrued | done]. }
    rewrite pending_put. case_decide; [subst|done]. unfold resolved. destruct uphold.
    + apply (keyed_elem_delete pc_task_id _ _ c'); [by apply wf_credits_of|done|].
      split; [done|]. by intros ->.
    + eapply (keyed_elem_insert pc_task_id); [by apply wf_credits_of|done|].
      right. split; [done|]. by intros ->.
Qed.

(** A disputed credit is frozen: whatever calls follow, short of the
    admin resolving this very dispute, it stays pending, unchanged, and no
    withdrawal pays it, however late. *)
Theorem disputed_credit_frozen keeper c s calls e :
  reachable self tok s -> c ∈ pending_reward (store s) keeper -> pc_disputed c = true ->
  Forall (fun '(e, op) => (valid_env self e /\ typed_op op) /\ resolves op (pc_task_id c) = false) calls ->
  c ∈ pending_reward (store (run_calls calls s)) keeper /\
  c ∉ due (ledger_sequence e) (pending_reward (store (run_calls calls s)) keeper).
Proof.
  unfold pending_reward. intros Hs Hin Hd Hc. split.
  - refine (proj2 (run_calls_ind (fun s => wf (store s) /\ c ∈ pending_credits_of (store s) keeper)
      (fun e op => (valid_env self e /\ typed_op op) /\ resolves op (pc_task_id c) = false)
      calls s _ Hc (conj (reachable_preserves_wf _ _ _ Hs) Hin))).
    intros s0 e0 op0 s1 [Hwf0 H0] [[He Ht] Hop] Hx. split; [by eapply exec_preserves_wf|].
    by eapply exec_keeps_frozen.
  - intros [Hf _]%list_elem_of_filter. by rewrite not_finalizable_disputed in Hf.
Qed.

(** ** The admin's decision *)

(** Resolving an execution dispute decides one frozen credit of the task's
    keeper and nothing else: upheld, its net reward moves into the fee pot;
    dismissed, it is pending again, undisputed.  Every other credit, every
    balance, every task and every token stays where it was. *)
Theorem execution_dispute_resolution e admin task_id uphold s s' :
  reachable self tok s -> resolve_execution_dispute e admin task_id uphold s = Ok tt s' ->
  exists keeper c, c ∈ pending_reward (store s) keeper /\ pc_task_id c = task_id /\
    pc_disputed c = true /\
    fees_accrued (store s') = fees_accrued (store s) + (if uphold then pc_net_reward c else 0) /\
    (forall d, d ∈ pending_reward (store s') keeper <->
       (d ∈ pending_reward (store s) keeper /\ d <> c) \/
       (uphold = false /\ d = c <| pc_disputed := false |>)) /\
    (forall k, k <> keeper -> pending_reward (store s') k = pending_reward (store s) k) /\
    s_keeper_reward (store s') = s_keeper_reward (store s) /\
    s_task (store s') = s_task (store s) /\ chain s' = chain s.
Proof.
  unfold pending_reward. intros Hs Hr. pose proof (reachable_preserves_wf _ _ _ Hs) as Hwf.
  apply ensures in Hr as (t & k & i & c & Hr). cbv zeta in Hr.
  destruct Hr as (_ & _ & _ & _ & Hi & Hid & Hdis & _ & Hst & Hch & _).
  pose proof (wf_credits_of _ k Hwf) as [Hnd Hall]. exists k, c.
  pose proof (list_elem_of_lookup_2 _ _ _ Hi) as Hin.
  assert (0 <= pc_net_reward c) as Hpos.
  { by eapply list.Forall_forall in Hall as ([? _] & _); [|exact Hin]. }
  set (st1 := (store s) <| s_pending_reward ::=
    put_pending k (resolved uphold i c (pending_credits_of (store s) k)) |>) in Hst.
  assert (store s' = st1 \/ exists a, store s' = accrued a st1) as Hcase.
  { rewrite Hst. case_bool_decide; [right; by eexists | by left]. }
  assert (forall k', pending_credits_of (store s') k' = pending_credits_of st1 k') as Hp.
  { intros k'. destruct Hcase as [->|[a ->]]; [done|apply pending_accrued]. }
  split_and!; [done..| | | | | |done].
  - rewrite Hst. case_bool_decide as Hb.
    + unfold accrued. rewrite bool_decide_false by lia. unfold fees_accrued, st1; cbn. lia.
    + unfold fees_accrued, st1, Datatypes.id; cbn. destruct uphold; lia.
  - intros d. rewrite Hp. unfold st1. rewrite pending_put, decide_True by done. unfold resolved.
    destruct uphold.
    + rewrite (keyed_elem_delete pc_task_id _ _ c) by done. naive_solver.
    + rewrite (keyed_elem_insert pc_task_id _ _ c) by done. naive_solver.
  - intros k' Hne. rewrite Hp. unfold st1. by rewrite pending_put, decide_False.
  - destruct Hcase as [->|[a ->]]; [done|]. by apply (accrued_other a st1).
  - destruct Hcase as [->|[a ->]]; [done|]. by apply (accrued_other a st1).
Qed.

(** ** What a withdrawal does *)

(** A withdrawal pays exactly the keeper's balance and its due credits,
    leaves it a balance of zero and the undue credits in their order, and
    touches no other keeper, no task and no stake; with nothing to pay it is
    rejected with [NoRewardsAvailable] and nothing changes. *)
Theorem withdraw_rewards_exact e keeper s :
  reachable self tok s -> authorized e keeper = true ->
  (forall amount s', withdraw_rewards e keeper s = Ok amount s' ->
     amount = withdrawable e (store s) keeper /\ 0 < amount /\
     keeper_balance (store s') keeper = 0 /\
     pending_reward (store s') keeper
       = undue (ledger_sequence e) (pending_reward (store s) keeper) /\
     (forall k, k <> keeper -> keeper_balance (store s') k = keeper_balance (store s) k /\
        pending_reward (store s') k = pending_reward (store s) k) /\
     s_task (store s') = s_task (store s) /\ s_keeper_stake (store s') = s_keeper_stake (store s) /\
     exists token, s_reward_token (store s) = Some token /\
       transfer (chain s) e token (current_contract_address e) keeper amount = Some (chain s')) /\
  (withdrawable e (store s) keeper = 0 ->
   invoke (withdraw_rewards e keeper) s = (Rejected NoRewardsAvailable, s)).
Proof.
  intros Hs Ha. pose proof (reachable_preserves_wf _ _ _ Hs) as Hwf. split.
  - intros amount s' Hr. apply ensures in Hr as (tk & l & Hr). cbv zeta in Hr.
    destruct Hr as (_ & Ham & Hpos & Htk & Htr & Hst & Hch & _). rewrite finalized_balance in Ham.
    unfold pending_reward, keeper_balance. split_and!; [done|done| | | | | |].
    + rewrite Hst; cbn. by rewrite lookup_insert_eq.
    + rewrite Hst, pending_withdrawn. by rewrite decide_True.
    + intros k Hne. rewrite Hst, pending_withdrawn, decide_False by done. split; [|done].
      rewrite withdrawn_store; cbn. by rewrite lookup_insert_ne.
    + by rewrite Hst, withdrawn_store.
    + by rewrite Hst, withdrawn_store.
    + exists tk. by rewrite Hch.
  - unfold withdrawable, keeper_balance, pending_reward. intros Hw.
    pose proof (due_le_pending _ (ledger_sequence e) keeper Hwf) as [Hdue _].
    destruct (wf_reward_of _ keeper Hwf) as [Hr0 Hr1].
    destruct (wf_credits_of _ keeper Hwf) as [_ Hall%credits_nonneg].
    fold (keeper_reward_of (store s) keeper) in Hw.
    destruct (finalize_rewards_total e keeper s Hall Hr0 ltac:(cbn in *; lia)) as (fin & s1 & Hfin).
    pose proof (ensures _ _ _ Hfin) as (_ & Hst1 & _).
    destruct (for_each_publish_total keeper fin s1) as [s2 Hpub].
    pose proof (ensures _ _ _ Hpub) as (Hst2 & _).
    unfold invoke, withdraw_rewards, mbind, M_bind, require_auth. rewrite Ha. unfold mret, M_ret.
    rewrite Hfin, Hpub. unfold read, gets. rewrite Hst2, Hst1, finalized_balance, bool_decide_true by lia.
    done.
Qed.
Lemma resolve_execution_dispute_commits e admin id uphold s :
  succeeds e (OpResolveExecutionDispute admin id uphold) s = true ->
  resolve_execution_dispute e admin id uphold s
    = Ok tt (call e (OpResolveExecutionDispute admin id uphold) s).
Proof. exact (succeeds_call e (OpResolveExecutionDispute admin id uphold) s). Qed.
End Disputes.

(** ** Witnesses *)

(** The credit task 2 left pending in the sample run, and its dispute. *)
Definition held : PendingCredit := mkPendingCredit 2 194 157 false.
Definition frozen : PendingCredit := mkPendingCredit 2 194 157 true.
Definition disputed_state : RS := call (at_ledger 120 70) (OpDisputeExecution owner0 2) settled_state.

Lemma settled_pending : pending_reward (store settled_state) keeper0 = [held].
Proof. vm_compute. reflexivity. Qed.

Lemma disputed_pending : pending_reward (store disputed_state) keeper0 = [frozen].
Proof. vm_compute. reflexivity. Qed.

Lemma disputed_reachable : reachable self token disputed_state.
Proof.
  apply reachable_call; [apply settled_reachable | by apply at_ledger_valid; vm_compute | by vm_compute].
Qed.

Lemma dispute_or_finalize_witness :
  exists t, s_task (store settled_state) !! 2 = Some t /\
    forall e, authorized e (t_owner t) = true ->
      succeeds e (OpDisputeExecution (t_owner t) 2) settled_state
        = negb (finalizable (ledger_sequence e) held).
Proof.
  destruct (dispute_or_finalize self token keeper0 held settled_state) as (t & Ht & _ & _ & Hx).
  - exact settled_reachable.
  - rewrite settled_pending. by apply list_elem_of_singleton.
  - reflexivity.
  - exists t. split; [exact Ht | exact Hx].
Defined.

Lemma disputed_credit_frozen_witness :
  frozen ∈ pending_reward (store (run_calls after_settling disputed_state)) keeper0 /\
  frozen ∉ due 1000000 (pending_reward (store (run_calls after_settling disputed_state)) keeper0).
Proof.
  apply (disputed_credit_frozen self token keeper0 frozen disputed_state after_settling
           (at_ledger 1000000 5000000)).
  - exact disputed_reachable.
  - rewrite disputed_pending. by apply list_elem_of_singleton.
  - reflexivity.
  - repeat constructor; by vm_compute.
Defined.

Definition forfeited_state : RS :=
  call (at_ledger 130 80) (OpResolveExecutionDispute admin0 2 true) disputed_state.

Lemma execution_dispute_resolution_witness :
  exists keeper c, c ∈ pending_reward (store disputed_state) keeper /\
    fees_accrued (store forfeited_state) = fees_accrued (store disputed_state) + pc_net_reward c.
Proof.
  destruct (execution_dispute_resolution self token (at_ledger 130 80) admin0 2 true disputed_state
    forfeited_state) as (k & c & Hin & _ & _ & Hf & _).
  - exact disputed_reachable.
  - refine (resolve_execution_dispute_commits (at_ledger 130 80) admin0 2 true disputed_state _).
    vm_compute. reflexivity.
  - exists k, c. split; [exact Hin | exact Hf].
Defined.

Lemma withdraw_rewards_exact_witness :
  invoke (withdraw_rewards (at_ledger 200 100) owner0) settled_state
    = (Rejected NoRewardsAvailable, settled_state).
Proof.
  destruct (withdraw_rewards_exact self token (at_ledger 200 100) owner0 settled_state) as [_ Hno].
  - exact settled_reachable.
  - reflexivity.
  - apply Hno. vm_compute. reflexivity.
Defined.
