(* ===== verification/RegistryClaims.v ===== *)
(** * Keeper registry: claiming and executing

    When an execution goes through and what it pays, how long a claim locks a
    task, what a verifier or a condition can veto, and the reputation both
    leave behind. *)

From S2P Require Import Prelude Host Contract SampleChain RegistryTypes RegistryInternal RegistryReputation RegistryTask RegistryStaking RegistryAdmin RegistryBatch RegistryViews RegistrySystem RegistrySample RegistryInvariants RegistrySolvency RegistryLifecycle RegistryLiveness RegistryFrame RegistryDisputes.

(** ** The split of a reward *)

(** The split of a reward is exact: it fails, with [ArithmeticOverflow],
    only when [reward * fee_bps] leaves i128; otherwise the fee is the floor of
    its share, the keeper gets the rest, and neither is negative. *)
Theorem split_reward_exact reward bps :
  0 <= reward <= int_max i128 -> 0 <= bps <= 10000 ->
  (split_reward reward bps = inl ArithmeticOverflow <-> int_max i128 < reward * bps) /\
  (forall net fee, split_reward reward bps = inr (net, fee) <->
     reward * bps <= int_max i128 /\ fee = reward * bps / 10000 /\ net = reward - fee) /\
  0 <= reward * bps / 10000 <= reward.
Proof.
  intros Hr Hb.
  assert (0 <= reward * bps / 10000 <= reward) as Hf.
  { split; [apply Z.div_pos; nia | apply Z.div_le_upper_bound; nia]. }
  assert (0 <= reward * bps) as Hp by nia.
  assert (in_range i128 reward) as Hi by (unfold in_range; cbn in *; lia).
  destruct (decide (reward * bps <= int_max i128)) as [Hle|Hgt].
  - assert (in_range i128 (reward * bps)) as Hin by (unfold in_range; cbn in *; lia).
    rewrite split_reward_total by (lia || done).
    split_and!; [split; [done|lia]| |lia..]. intros net fee. split; [intros [= <- <-]|]; [lia|].
    by intros (_ & -> & ->).
  - assert (split_reward reward bps = inl ArithmeticOverflow) as ->.
    { unfold split_reward, checked_mul. rewrite (proj2 (checked_None _ _)); [done|].
      intros [_ ?]. lia. }
    split_and!; [split; [lia|done]| |lia..]. intros net fee. split; [done|lia].
Qed.

Section Claims.
Context `{HL : Ledger} (self tok : Address) `{HT : !LawfulToken self tok}.
Implicit Types (e : Env) (s : RS) (keeper owner : Address) (t : Task).

(** ** Execution *)

(** What the execution of [t] credits its keeper with, and the fee. *)
Definition net_of t bps : Z := t_reward t - t_reward t * bps / 10000.
Definition fee_of t bps : Z := t_reward t * bps / 10000.

Lemma task_split st id t :
  wf st -> s_task st !! id = Some t -> in_range i128 (t_reward t * fee_bps st) ->
  split_reward (t_reward t) (fee_bps st) = inr (net_of t (fee_bps st), fee_of t (fee_bps st)).
Proof.
  intros Hwf Hk Hin. pose proof (wf_lookup_task _ _ _ Hwf Hk) as (_ & Hr & _).
  apply split_reward_total; [lia|apply Hwf|done|unfold in_range; cbn in *; lia].
Qed.

(** What is owed bounds every balance a credit is added to. *)
Lemma credit_fits s task_id t keeper :
  reachable self tok s -> s_reward_token (store s) = Some tok ->
  balance (chain s) tok self <= int_max i128 ->
  s_task (store s) !! task_id = Some t -> open_status (t_status t) = true ->
  keeper_reward_of (store s) keeper + t_reward t <= int_max i128 /\
  fees_accrued (store s) + t_reward t <= int_max i128.
Proof.
  intros Hs Htok Hmax Hk Ho. pose proof (reachable_preserves_wf _ _ _ Hs) as Hwf.
  pose proof (reachable_solvent self tok s Hs Htok) as Hsol.
  pose proof (owed_bounds _ Hwf) as (H1 & H2 & H3 & H4 & H5 & H6).
  pose proof (open_reward_le_sum _ _ _ Hwf Hk Ho).
  pose proof (reward_of_le_sum _ keeper Hwf).
  unfold owed in Hsol. lia.
Qed.

(** C12: when an execution goes through.  With a token whose supply fits i128,
    [execute_task] succeeds exactly when the registry is not paused, the keeper
    authorized the call, the proof is short enough, the task is claimed by this
    keeper, its deadline has not passed, its verifier (if any) answers [true],
    and [reward * fee_bps] fits i128: crediting can never overflow.  The task's
    condition contract is not consulted: only [claim_task] does that, although
    the comments of types.rs on [Task::condition] and of task.rs say otherwise. *)
Theorem execute_task_iff e keeper task_id proof s :
  reachable self tok s -> s_reward_token (store s) = Some tok ->
  balance (chain s) tok self <= int_max i128 ->
  (exists s', execute_task e keeper task_id proof s = Ok tt s') <->
  is_paused (store s) = false /\ authorized e keeper = true /\ len proof <= MAX_PROOF_LEN /\
  exists t, s_task (store s) !! task_id = Some t /\ t_status t = Claimed /\
    t_claimer t = Some keeper /\ ledger_timestamp e < t_deadline t /\
    (verdict (chain s) e (t_verifier t) "verify"
       [VU64 task_id; VAddress keeper; VBytes proof]).1 = true /\
    in_range i128 (t_reward t * fee_bps (store s)).
Proof.
  intros Hs Htok Hmax. pose proof (reachable_preserves_wf _ _ _ Hs) as Hwf. unfold is_paused. split.
  - intros [s' Hr]. apply ensures in Hr as
      (t & net & fee & Hp & Ha & Hlen & Hk & Hst & Hcl & Hd & Hv & Hsp & _).
    split_and!; [done..|]. exists t. split_and!; [done..|by rewrite Hv|].
    unfold split_reward, checked_mul, checked in Hsp. by case_decide.
  - intros (Hp & Ha & Hlen & t & Hk & Hst & Hcl & Hd & Hv & Hin).
    destruct (verdict _ _ _ _ _) as [b l] eqn:Hvd; cbn in Hv; subst b.
    pose proof (task_split _ _ _ Hwf Hk Hin) as Hsp.
    pose proof (split_reward_inr _ _ _ _ (Z.lt_le_incl _ _ (proj1 (proj1 (proj2
      (wf_lookup_task _ _ _ Hwf Hk))))) (wf_fee_bps _ Hwf) Hsp) as (_ & Hnet & Hfee).
    destruct (credit_fits s task_id t keeper) as [Hfit1 Hfit2]; [done..|by rewrite Hst|].
    destruct (wf_reward_of _ keeper Hwf) as [H0 _]. pose proof (proj1 (wf_fees _ Hwf)) as H1.
    eexists. unfold execute_task. do 2 forward1. pass; [lia|]. forward1. pass; [by rewrite Hst; intros []|].
    pass; [by rewrite Hcl; intros []|]. pass; [lia|]. do 4 forward1.
    apply bind_Ok. exists tt. eexists. split.
    { apply runs. split; [right; cbn; unfold in_range; cbn in *; lia|reflexivity]. }
    apply bind_Ok. exists tt. eexists. split.
    { apply runs. split; [right|reflexivity]. cbn. unfold fees_accrued. rewrite pay_keeper_fees.
      fold (fees_accrued (store s)). unfold in_range; cbn in *; lia. }
    do 2 forward1. by apply runs.
Qed.

Lemma execute_store_fees e keeper task_id t net fee st :
  fees_accrued (execute_store e keeper task_id t net fee st) = fees_accrued st + fee.
Proof.
  unfold execute_store, accrued, fees_accrued; cbn. rewrite pay_keeper_fees.
  case_bool_decide; cbn; rewrite ?pay_keeper_fees; lia.
Qed.

(** C13: what an execution does.  The fee is the floor of its share of the
    reward and the keeper's net the rest; the fee joins the pot; the net is
    withdrawable at once without a dispute window, and otherwise pending, last
    in the keeper's list, undisputed, until the window's end; the task is
    executed and the keeper's success is counted. *)
Theorem execute_task_pays e keeper task_id proof s s' t :
  reachable self tok s -> valid_env self e -> s_task (store s) !! task_id = Some t ->
  execute_task e keeper task_id proof s = Ok tt s' ->
  let st := store s in let st' := store s' in
  let net := net_of t (fee_bps st) in
  0 <= net /\ 0 <= fee_of t (fee_bps st) /\ net + fee_of t (fee_bps st) = t_reward t /\
  fees_accrued st' = fees_accrued st + fee_of t (fee_bps st) /\
  (dispute_window st = 0 ->
     keeper_balance st' keeper = keeper_balance st keeper + net /\
     pending_reward st' keeper = pending_reward st keeper) /\
  (0 < dispute_window st ->
     keeper_balance st' keeper = keeper_balance st keeper /\
     pending_reward st' keeper = pending_reward st keeper ++
       [mkPendingCredit task_id net
          (Z.min (2 ^ 32 - 1) (ledger_sequence e + dispute_window st)) false]) /\
  s_task st' = <[task_id := t <| t_status := Executed |>]> (s_task st) /\
  keeper_reputation st' keeper = updated_record e true (keeper_reputation st keeper) /\
  events s' = TaskExecuted task_id keeper net proof :: events s.
Proof.
  intros Hs [_ _ [He _] _] Hk Hr. pose proof (reachable_preserves_wf _ _ _ Hs) as Hwf.
  apply ensures in Hr as (t' & net & fee & _ & _ & _ & Hk' & _ & _ & _ & _ & Hsp & _ & _ & Hst & Hev).
  simplify_eq. pose proof (wf_lookup_task _ _ _ Hwf Hk) as (_ & Hr & _).
  apply split_reward_inr in Hsp as (Hfee & Hnet & Hb); [|lia|apply Hwf].
  fold (fee_of t (fee_bps (store s))) in Hfee. rewrite Hfee in Hnet, Hb, Hst.
  fold (net_of t (fee_bps (store s))) in Hnet. rewrite Hnet in Hst, Hev. cbv zeta.
  unfold dispute_window, keeper_balance, pending_reward, keeper_reputation.
  split_and!; [unfold net_of, fee_of in *; lia|lia|unfold net_of, fee_of; lia| | | | | |done].
  - rewrite Hst. by apply execute_store_fees.
  - intros Hw. rewrite Hst. unfold execute_store, pay_keeper. rewrite bool_decide_false by lia.
    unfold accrued, pending_credits_of. case_bool_decide; cbn; by rewrite lookup_insert_eq.
  - intros Hw. rewrite Hst. unfold execute_store, pay_keeper. rewrite bool_decide_true by lia.
    unfold accrued, pending_credits_of. rewrite <- saturating_add_u32 by (cbn in He; unfold dispute_window_ledgers in *; lia).
    case_bool_decide; cbn; by rewrite lookup_insert_eq.
  - rewrite Hst. unfold execute_store, accrued, pay_keeper. by repeat case_bool_decide.
  - rewrite Hst. unfold execute_store, bump_reputation, stored_record at 1. cbn.
    rewrite lookup_insert_eq. unfold accrued, pay_keeper. by repeat case_bool_decide.
Qed.

(** ** The claim lock *)

(** The lock of a claim.  Until [claim_ledger + lock_ledgers] no one can
    claim a claimed task again and its owner cannot cancel it; a takeover from
    that ledger on hands the task to the new keeper and counts one missed claim
    against the displaced one. *)
Theorem claim_lock_respected e task_id t n s :
  reachable self tok s -> valid_env self e ->
  s_task (store s) !! task_id = Some t -> t_status t = Claimed -> t_claim_ledger t = Some n ->
  let unlock_at := Z.min (2 ^ 32 - 1) (n + t_lock_ledgers t) in
  (ledger_sequence e < unlock_at -> forall a,
     succeeds e (OpClaimTask a task_id) s = false /\ succeeds e (OpCancelTask a task_id) s = false) /\
  (forall keeper s', claim_task e keeper task_id s = Ok tt s' ->
     unlock_at <= ledger_sequence e /\
     s_task (store s') !! task_id = Some (t <| t_claimer := Some keeper |>
                                           <| t_claim_ledger := Some (ledger_sequence e) |>) /\
     exists missed, t_claimer t = Some missed /\
       keeper_reputation (store s') missed
         = updated_record e false (keeper_reputation (store s) missed)).
Proof.
  intros Hs He Hk Hst Hn. cbv zeta. pose proof (reachable_preserves_wf _ _ _ Hs) as Hwf.
  pose proof (wf_lookup_task _ _ _ Hwf Hk) as (_ & _ & _ & _ & Hlock & Hcl & Hf).
  specialize (Hcl n Hn) as [Hn0 _]. unfold claim_fields in Hf. rewrite Hst in Hf.
  destruct Hf as [[missed Hm] _].
  assert (0 <= t_lock_ledgers t) as Hl by (unfold MIN_LOCK_LEDGERS in Hlock; lia).
  pose proof (lock_expired_true e t n Hn Hn0 Hl) as Hexp. split.
  - intros Hlt a. split; (destruct (succeeds e _ s) eqn:Hx; [|done]); apply succeeds_call, ensures in Hx.
    + destruct Hx as (t' & m & _ & _ & _ & Hk' & _ & Hc & _). simplify_eq.
      destruct Hc as [[? _]|(_ & Hle%Hexp & _)]; [congruence|lia].
    + destruct Hx as (t' & tk & l & _ & Hk' & _ & Hc & _). simplify_eq.
      destruct Hc as [?|[_ Hle%Hexp]]; [congruence|lia].
  - intros keeper s' Hr. apply ensures in Hr as (t' & m & _ & _ & _ & Hk' & _ & Hc & _ & _ & Hst' & _).
    simplify_eq. destruct Hc as [[? _]|(_ & Hle%Hexp & ->)]; [congruence|]. rewrite Hm in Hst'. split_and!; [done| |].
    + rewrite Hst'. cbn. rewrite lookup_insert_eq. unfold claimed_task; cbn. by rewrite <- Hst; destruct t.
    + exists missed. split; [done|]. rewrite Hst'. unfold keeper_reputation, stored_record at 1. cbn.
      by rewrite lookup_insert_eq.
Qed.

(** ** What the callee can veto *)

(** The verifier's veto.  When everything else would let an execution
    through and the task's verifier answers anything but [Ok(true)] - [false],
    a value of another type, an error, a trap - the call is rejected with
    [VerificationFailed] and leaves nothing behind: no storage, no token
    movement, no event, not even the failure event it emitted. *)
Theorem verifier_veto e keeper task_id proof s t verifier :
  is_paused (store s) = false -> authorized e keeper = true -> len proof <= MAX_PROOF_LEN ->
  s_task (store s) !! task_id = Some t -> t_status t = Claimed -> t_claimer t = Some keeper ->
  ledger_timestamp e < t_deadline t -> t_verifier t = Some verifier ->
  is_ok_true (try_invoke (chain s) e verifier "verify"
                [VU64 task_id; VAddress keeper; VBytes proof]).1 = false ->
  invoke (execute_task e keeper task_id proof) s = (Rejected VerificationFailed, s).
Proof.
  unfold is_paused. intros Hp Ha Hlen Hk Hst Hcl Hd Hv Hno. unfold invoke, execute_task, mbind, M_bind.
  unfold require_not_paused, read, gets, mbind, M_bind. rewrite Hp. cbn.
  unfold require_auth. rewrite Ha. unfold mret, M_ret, fail_if, mret, M_ret.
  rewrite bool_decide_false by lia. unfold load_task, read, gets, mbind, M_bind. rewrite Hk. cbn.
  rewrite Hst, Hcl, !bool_decide_false by (by intros [] || lia).
  unfold require_verified. rewrite Hv. unfold mbind, M_bind, try_verify, try_call.
  destruct (try_invoke _ _ _ _ _) as [r l]. cbn in Hno. by rewrite Hno.
Qed.

(** The condition's veto.  When everything else would let a claim through
    and the task's condition answers anything but [Ok(true)], the claim is
    rejected with [ConditionNotMet] and leaves nothing behind. *)
Theorem condition_veto e keeper task_id s t missed condition :
  is_paused (store s) = false -> authorized e keeper = true ->
  (0 < min_stake (store s) -> min_stake (store s) <= keeper_stake (store s) keeper) ->
  s_task (store s) !! task_id = Some t -> ledger_timestamp e < t_deadline t ->
  claim_allowed e t missed -> meets_floor (store s) keeper -> t_condition t = Some condition ->
  is_ok_true (try_invoke (chain s) e condition "is_met" [VU64 task_id]).1 = false ->
  invoke (claim_task e keeper task_id) s = (Rejected ConditionNotMet, s).
Proof.
  unfold is_paused, min_stake, keeper_stake. intros Hp Ha Hms Hk Hd Hc Hf Hv Hno.
  assert (require_reputation_floor keeper s = Ok tt s) as Hfl by (by apply runs).
  assert (claimable_from e t s = Ok missed s) as Hcl by (by apply runs).
  unfold invoke, claim_task, mbind, M_bind.
  unfold require_not_paused, read, gets, mbind, M_bind. rewrite Hp. cbn.
  unfold require_auth. rewrite Ha. unfold mret, M_ret, fail_if, mret, M_ret.
  assert (bool_decide (min_stake_floor (store s) > 0) &&
    bool_decide (keeper_stake_of (store s) keeper < min_stake_floor (store s)) = false) as ->.
  { apply bool_decide_and_false. intros Hpos. specialize (Hms ltac:(lia)). unfold keeper_stake_of. lia. }
  unfold load_task, read, gets, mbind, M_bind. rewrite Hk. cbn. rewrite bool_decide_false by lia.
  rewrite Hcl, Hfl. unfold require_condition. rewrite Hv. unfold mbind, M_bind, try_is_met, try_call.
  destruct (try_invoke _ _ _ _ _) as [r l]. cbn in Hno. by rewrite Hno.
Qed.

(** ** Reputation *)

(** The success rate and its decay.  An update adds one to the successes or
    to the missed claims (saturating at u64); the stored score is the floor of
    the success rate in basis points, at most 10000, with no wrap-around in its
    conversion to u32; read later, it is halved once per
    [REPUTATION_DECAY_HALF_LIFE_LEDGERS] elapsed, rounding down, to zero. *)
Theorem reputation_rate e keeper success s s' later :
  reachable self tok s -> valid_env self e -> valid_env self later ->
  update_reputation e keeper success s = Ok tt s' ->
  let r := keeper_reputation (store s) keeper in
  let r' := keeper_reputation (store s') keeper in
  let actions := Z.min (2 ^ 64 - 1) (rr_successes r' + rr_missed_claims r') in
  rr_successes r' = Z.min (2 ^ 64 - 1) (rr_successes r + if success then 1 else 0) /\
  rr_missed_claims r' = Z.min (2 ^ 64 - 1) (rr_missed_claims r + if success then 0 else 1) /\
  0 < actions /\ rr_score_bps r' = rr_successes r' * 10000 / actions /\
  0 <= rr_score_bps r' <= 10000 /\ rr_last_updated_ledger r' = ledger_sequence e /\
  rr_score_bps (effective_reputation later (store s') keeper)
    = rr_score_bps r' / 2 ^ (Z.max 0 (ledger_sequence later - ledger_sequence e)
                               / REPUTATION_DECAY_HALF_LIFE_LEDGERS).
Proof.
  intros Hs [_ _ He _] [_ _ Hl _] Hr. pose proof (reachable_preserves_wf _ _ _ Hs) as Hwf.
  apply runs in Hr as ->. cbv zeta.
  assert (keeper_reputation (bump_reputation e success keeper (store s)) keeper
    = updated_record e success (keeper_reputation (store s) keeper)) as Hrec.
  { unfold keeper_reputation, stored_record at 1. cbn. by rewrite lookup_insert_eq. }
  pose proof (stored_record_wf (store s) keeper (wf_reputations _ Hwf)) as Hw.
  pose proof (updated_record_wf e success _ He Hw) as ([Hs0 Hs1] & [Hm0 Hm1] & Hb & _).
  cbn [store update update_store update_effects].
  unfold effective_reputation. fold (keeper_reputation (bump_reputation e success keeper (store s)) keeper).
  rewrite Hrec. fold (keeper_reputation (store s) keeper) in *.
  destruct Hw as ([Hs3 Hs2] & [Hm3 Hm2] & _). cbn in Hs2, Hs3, Hm2, Hm3.
  set (r := keeper_reputation (store s) keeper) in *.
  assert (rr_successes (updated_record e success r) =
    Z.min (2 ^ 64 - 1) (rr_successes r + if success then 1 else 0)) as Hsu.
  { unfold updated_record, recompute; cbn. destruct success; [by rewrite saturating_add_u64 by lia|].
    lia. }
  assert (rr_missed_claims (updated_record e success r) =
    Z.min (2 ^ 64 - 1) (rr_missed_claims r + if success then 0 else 1)) as Hmi.
  { unfold updated_record, recompute; cbn. destruct success; [|by rewrite saturating_add_u64 by lia].
    lia. }
  assert (0 < Z.min (2 ^ 64 - 1) (rr_successes (updated_record e success r)
    + rr_missed_claims (updated_record e success r))) as Hact by (destruct success; lia).
  split_and!; [done..| |lia|lia|done|].
  - pose proof (recompute_score (mkReputationRecord (rr_successes (updated_record e success r))
      (rr_missed_claims (updated_record e success r)) (rr_score_bps r) (ledger_sequence e))
      (conj Hs0 Hs1) Hm0) as [Hsc _].
    rewrite decide_False in Hsc by (cbn in *; lia). exact Hsc.
  - rewrite effective_record_div; [done|lia|apply He|done].
Qed.
End Claims.

(** ** Witnesses *)

Lemma split_reward_exact_witness :
  split_reward 1000 300 = inr (970, 30) /\ 0 <= 1000 * 300 / 10000 <= 1000.
Proof.
  destruct (split_reward_exact 1000 300) as (_ & Hs & Hb).
  - cbn. lia.
  - lia.
  - split; [apply Hs; by vm_compute | exact Hb].
Defined.

(** An execution of task 2 under the dispute window, before the pause. *)
Definition windowed_state : RS := run_calls (take 2 settle) claimed_state.

Lemma windowed_reachable : reachable self token windowed_state.
Proof. apply reachable_run; [apply claimed_reachable | repeat constructor; by vm_compute]. Qed.

Definition task2_claimed : Task :=
  mkTask owner0 Custom [] 200 1000 20000 Claimed (Some keeper0) (Some 104) 12 None None.

Lemma execute_task_iff_witness :
  exists s', execute_task (at_ledger 107 45) keeper0 2 [] windowed_state = Ok tt s'.
Proof.
  apply (execute_task_iff self token (at_ledger 107 45) keeper0 2 [] windowed_state).
  - exact windowed_reachable.
  - vm_compute. reflexivity.
  - by vm_compute.
  - split; [by vm_compute|]. split; [reflexivity|]. split; [by vm_compute|].
    exists task2_claimed. split; [vm_compute; reflexivity|]. split; [reflexivity|].
    split; [reflexivity|]. split; [by vm_compute|]. split; [by vm_compute|]. by vm_compute.
Defined.

Lemma execute_task_commits `{Ledger} e keeper id proof (s : RS) :
  succeeds e (OpExecuteTask keeper id proof) s = true ->
  execute_task e keeper id proof s = Ok tt (call e (OpExecuteTask keeper id proof) s).
Proof. exact (succeeds_call e (OpExecuteTask keeper id proof) s). Qed.

Lemma claim_task_commits `{Ledger} e keeper id (s : RS) :
  succeeds e (OpClaimTask keeper id) s = true ->
  claim_task e keeper id s = Ok tt (call e (OpClaimTask keeper id) s).
Proof. exact (succeeds_call e (OpClaimTask keeper id) s). Qed.

Lemma execute_task_pays_witness :
  let s' := call (at_ledger 107 45) (OpExecuteTask keeper0 2 []) windowed_state in
  pending_reward (store s') keeper0
    = pending_reward (store windowed_state) keeper0 ++ [mkPendingCredit 2 194 157 false].
Proof.
  destruct (execute_task_pays self token (at_ledger 107 45) keeper0 2 [] windowed_state
    (call (at_ledger 107 45) (OpExecuteTask keeper0 2 []) windowed_state) task2_claimed)
    as (_ & _ & _ & _ & _ & Hw & _).
  - exact windowed_reachable.
  - apply at_ledger_valid; by vm_compute.
  - vm_compute. reflexivity.
  - refine (execute_task_commits (at_ledger 107 45) keeper0 2 [] windowed_state _).
    vm_compute. reflexivity.
  - apply Hw. by vm_compute.
Defined.

(** Task 2 is claimed at ledger 104 with a lock of 12 ledgers: from ledger 116
    on another keeper may take it over. *)
Definition keeper1 : Address := addr 14.

Lemma claim_lock_respected_witness :
  succeeds (at_ledger 115 60) (OpClaimTask keeper1 2) claimed_state = false /\
  s_task (store (call (at_ledger 116 60) (OpClaimTask keeper1 2) claimed_state)) !! 2
    = Some (task2_claimed <| t_claimer := Some keeper1 |> <| t_claim_ledger := Some 116 |>).
Proof.
  split.
  - destruct (claim_lock_respected self token (at_ledger 115 60) 2 task2_claimed 104 claimed_state)
      as [Hlocked _]; [exact claimed_reachable | by apply at_ledger_valid; vm_compute
      | vm_compute; reflexivity | reflexivity | reflexivity |].
    destruct (Hlocked ltac:(by vm_compute) keeper1) as [Hclaim _]. exact Hclaim.
  - destruct (claim_lock_respected self token (at_ledger 116 60) 2 task2_claimed 104 claimed_state)
      as [_ Htake]; [exact claimed_reachable | by apply at_ledger_valid; vm_compute
      | vm_compute; reflexivity | reflexivity | reflexivity |].
    destruct (Htake keeper1 (call (at_ledger 116 60) (OpClaimTask keeper1 2) claimed_state))
      as (_ & Ht & _); [|exact Ht].
    refine (claim_task_commits (at_ledger 116 60) keeper1 2 claimed_state _). vm_compute. reflexivity.
Defined.

(** A fourth task whose verifier refuses every proof, claimed by [keeper0]. *)
Definition vetoed_state : RS :=
  run_calls [ (at_ledger 105 35, OpRegisterTask owner0 (params0 50 (Some refusing) None));
              (at_ledger 105 35, OpClaimTask keeper0 4) ] claimed_state.

Definition task4_claimed : Task :=
  mkTask owner0 Custom [] 50 1000 20000 Claimed (Some keeper0) (Some 105) 12 (Some refusing) None.

Lemma verifier_veto_witness :
  invoke (execute_task (at_ledger 106 40) keeper0 4 []) vetoed_state
    = (Rejected VerificationFailed, vetoed_state).
Proof.
  apply (verifier_veto (at_ledger 106 40) keeper0 4 [] vetoed_state task4_claimed refusing);
    first [reflexivity | vm_compute; reflexivity | by vm_compute].
Defined.

Lemma condition_veto_witness :
  invoke (claim_task (at_ledger 106 40) keeper0 3) claimed_state
    = (Rejected ConditionNotMet, claimed_state).
Proof.
  apply (condition_veto (at_ledger 106 40) keeper0 3 claimed_state task3_pending None refusing);
    first [by left | reflexivity | vm_compute; reflexivity | by vm_compute].
Defined.

Lemma update_reputation_runs `{Ledger} e keeper success (s : RS) :
  exists s', update_reputation e keeper success s = Ok tt s'.
Proof. eexists. by apply runs. Qed.

Lemma reputation_rate_witness :
  exists s', update_reputation (at_ledger 120 60) keeper0 false settled_state = Ok tt s' /\
    rr_missed_claims (keeper_reputation (store s') keeper0) = 1 /\
    rr_score_bps (effective_reputation (at_ledger 200120 9000) (store s') keeper0)
      = rr_score_bps (keeper_reputation (store s') keeper0) / 4.
Proof.
  destruct (update_reputation_runs (at_ledger 120 60) keeper0 false settled_state) as [s' Hr].
  exists s'. split; [exact Hr|].
  destruct (reputation_rate self token (at_ledger 120 60) keeper0 false settled_state s'
    (at_ledger 200120 9000)) as (_ & Hm & _ & _ & _ & _ & Hd).
  - exact settled_reachable.
  - apply at_ledger_valid; by vm_compute.
  - apply at_ledger_valid; by vm_compute.
  - exact Hr.
  - split; [|exact Hd]. rewrite Hm. vm_compute. reflexivity.
Defined.
