(* ===== verification/RegistryReads.v ===== *)
(** * Keeper registry: well-formed storage, registration and batch reads

    The type invariant as a property of every reachable state; the page read
    against pointwise lookups; what a registration's TTL check promises and
    where [extend_deadline] leaves it behind. *)

From S2P Require Import Prelude Host Contract SampleChain RegistryTypes RegistryInternal RegistryReputation RegistryTask RegistryStaking RegistryAdmin RegistryBatch RegistryViews RegistrySystem RegistrySample RegistryInvariants RegistrySolvency RegistryLifecycle RegistryLiveness RegistryFrame.

(** C18: the type of storage.  In every reachable state every stored integer is
    in the range of its Rust type, every amount is non-negative, the fee is at
    most 10000 basis points, task and slash ids are within their counters, a
    task's claim fields agree with its status, and every pending credit belongs
    to a distinct executed task claimed by its keeper. *)
Theorem storage_well_formed `{HL : Ledger} self tok s : reachable self tok s -> wf (store s).
Proof.
  intros Hs. induction Hs as [efs l|s e op Hs IH He Ht|s l Hs IH Hl]; [apply wf_empty| |done].
  unfold Contract.call, invoke. destruct (exec e op s) as [[] s'|x s'|] eqn:Hx; cbn; [|done..].
  by eapply exec_preserves_wf.
Qed.

Lemma storage_well_formed_witness : wf (store settled_state).
Proof. exact (storage_well_formed self token settled_state settled_reachable). Defined.

(** ** Page reads *)

(** A page read is the pointwise read of its ids: for a page size of at
    most [MAX_BATCH_READ] it returns one entry per id [from, from + 1, ...],
    in order, each what a single lookup returns; it fails with [BatchTooLarge]
    above that size and with [ArithmeticOverflow] exactly when the last id
    would leave u64. *)
Theorem get_tasks_range_exact st from count :
  in_range u64 from -> in_range u32 count ->
  (MAX_BATCH_READ < count -> get_tasks_range st from count = inl BatchTooLarge) /\
  (count <= MAX_BATCH_READ -> int_max u64 < from + (count - 1) ->
     get_tasks_range st from count = inl ArithmeticOverflow) /\
  (count <= MAX_BATCH_READ -> from + (count - 1) <= int_max u64 ->
     exists page, get_tasks_range st from count = inr page /\ Z.of_nat (length page) = count /\
       forall i : nat, Z.of_nat i < count -> page !! i = Some (lookup_task st (from + Z.of_nat i))).
Proof.
  intros [Hf0 Hf1] [Hc0 Hc1]. unfold get_tasks_range. split_and!.
  - intros Hbig. by rewrite bool_decide_true by lia.
  - intros Hle Hov. assert (0 < count) by (cbn in *; lia).
    rewrite bool_decide_false by lia. rewrite (bool_decide_true (count > 0)) by lia.
    rewrite (bool_decide_true (checked_add _ _ _ = _)); [done|]. apply checked_None.
    intros [_ ?]. lia.
  - intros Hle Hfit. rewrite bool_decide_false by lia.
    assert (bool_decide (count > 0) && bool_decide (checked_add u64 from (count - 1) = None) = false)
      as ->.
    { apply bool_decide_and_false. intros Hpos Hn. apply checked_None in Hn. apply Hn.
      unfold in_range. cbn in *. lia. }
    eexists. split; [done|]. rewrite length_map, length_seq, Z2Nat.id by (cbn in *; lia).
    split; [done|]. intros i Hi. rewrite list_lookup_fmap.
    rewrite lookup_seq_lt by lia. done.
Qed.

Lemma get_tasks_range_exact_witness :
  get_tasks_range (store settled_state) (2 ^ 64 - 10) 11 = inl ArithmeticOverflow /\
  exists page, get_tasks_range (store settled_state) (2 ^ 64 - 10) 10 = inr page /\
    Z.of_nat (length page) = 10.
Proof.
  split.
  - apply (get_tasks_range_exact (store settled_state) (2 ^ 64 - 10) 11); by vm_compute.
  - destruct (get_tasks_range_exact (store settled_state) (2 ^ 64 - 10) 10) as (_ & _ & Hok);
      [by vm_compute..|]. destruct Hok as (page & Hp & Hl & _); [by vm_compute..|].
    exists page. split; [exact Hp | exact Hl].
Defined.

(** ** TTL cover *)

(** A registered task's TTL covers its deadline with the safety margin, but
    [extend_deadline] does not renew the check: on the sample run the owner
    moves task 3's deadline past what its TTL covers, and the call succeeds. *)
Theorem extend_deadline_outgrows_ttl :
  let e := at_ledger 105 40 in
  let s' := call e (OpExtendDeadline owner0 3 1000000) claimed_state in
  reachable self token claimed_state /\
  succeeds e (OpExtendDeadline owner0 3 1000000) claimed_state = true /\
  exists t t', s_task (store claimed_state) !! 3 = Some t /\
    required_ttl_ledgers e (t_deadline t) <= t_ttl_ledgers t /\
    s_task (store s') !! 3 = Some t' /\
    t_ttl_ledgers t' < required_ttl_ledgers e (t_deadline t').
Proof.
  cbv zeta. split; [apply claimed_reachable|]. split; [vm_compute; reflexivity|].
  exists task3_pending, (task3_pending <| t_deadline := 1000000 |>).
  split_and!; [vm_compute; reflexivity | by vm_compute | vm_compute; reflexivity | by vm_compute].
Qed.

(** ** A batch of two, registered as a sequence *)

Lemma batch_commits `{Ledger} e init owner tasks max s :
  succeeds e (OpBatchRegisterTasks init owner tasks max) s = true ->
  exists ids, batch_register_tasks e init owner tasks max s
    = Ok ids (call e (OpBatchRegisterTasks init owner tasks max) s).
Proof. intros Hx%succeeds_call. by apply runs_forget in Hx. Qed.

Definition two_params : list BatchTaskParams := [params0 20 None None; params0 30 None (Some refusing)].

Lemma batch_is_sequence_witness :
  exists ids s2, register_each (at_ledger 105 40) FromParams owner0 two_params claimed_state = Ok ids s2 /\
    sys_equiv (call (at_ledger 105 40) (OpBatchRegisterTasks FromParams owner0 two_params 50) claimed_state) s2.
Proof.
  destruct (batch_commits (at_ledger 105 40) FromParams owner0 two_params 50 claimed_state) as [ids Hr].
  - vm_compute. reflexivity.
  - destruct (batch_is_sequence (at_ledger 105 40) FromParams owner0 two_params 50 claimed_state ids) as [Hfwd _].
    + split; vm_compute; discriminate.
    + destruct (Hfwd _ Hr) as (_ & s2 & Hs2 & Heq). exists ids, s2. split; [exact Hs2 | exact Heq].
Defined.
