(* ===== verification/RegistryReplay.v ===== *)
(** * Keeper registry: the events tell the whole story

    Replaying the published events rebuilds the registry's configuration and
    every task as the views report them.  This is what an off-chain reader of
    the event log relies on. *)

From S2P Require Import Prelude Host Contract SampleChain RegistryTypes RegistryInternal RegistryReputation RegistryTask RegistryStaking RegistryAdmin RegistryBatch RegistryViews RegistrySystem RegistrySample RegistryInvariants.

(** ** What the events determine *)

(** The part of a task the events carry. *)
Record TaskView := mkTaskView {
  tv_owner : Address;
  tv_status : TaskStatus;
  tv_reward : Z;
  tv_deadline : Z;
  tv_condition : option Address;
  tv_claimer : option Address;
  tv_claim_ledger : option Z;
}.

Record View := mkView {
  v_admin : option Address;
  v_reward_token : option Address;
  v_fee_bps : option Z;
  v_paused : option bool;
  v_min_reward : option Z;
  v_min_stake : option Z;
  v_dispute_window : option Z;
  v_reputation_floor : option Z;
  v_task : gmap Z TaskView;
}.

#[export] Instance update_tv_owner : Update tv_owner :=
  fun f s => mkTaskView (f (tv_owner s)) (tv_status s) (tv_reward s) (tv_deadline s) (tv_condition s) (tv_claimer s) (tv_claim_ledger s).
#[export] Instance update_tv_status : Update tv_status :=
  fun f s => mkTaskView (tv_owner s) (f (tv_status s)) (tv_reward s) (tv_deadline s) (tv_condition s) (tv_claimer s) (tv_claim_ledger s).
#[export] Instance update_tv_reward : Update tv_reward :=
  fun f s => mkTaskView (tv_owner s) (tv_status s) (f (tv_reward s)) (tv_deadline s) (tv_condition s) (tv_claimer s) (tv_claim_ledger s).
#[export] Instance update_tv_deadline : Update tv_deadline :=
  fun f s => mkTaskView (tv_owner s) (tv_status s) (tv_reward s) (f (tv_deadline s)) (tv_condition s) (tv_claimer s) (tv_claim_ledger s).
#[export] Instance update_tv_condition : Update tv_condition :=
  fun f s => mkTaskView (tv_owner s) (tv_status s) (tv_reward s) (tv_deadline s) (f (tv_condition s)) (tv_claimer s) (tv_claim_ledger s).
#[export] Instance update_tv_claimer : Update tv_claimer :=
  fun f s => mkTaskView (tv_owner s) (tv_status s) (tv_reward s) (tv_deadline s) (tv_condition s) (f (tv_claimer s)) (tv_claim_ledger s).
#[export] Instance update_tv_claim_ledger : Update tv_claim_ledger :=
  fun f s => mkTaskView (tv_owner s) (tv_status s) (tv_reward s) (tv_deadline s) (tv_condition s) (tv_claimer s) (f (tv_claim_ledger s)).
#[export] Instance update_v_admin : Update v_admin :=
  fun f s => mkView (f (v_admin s)) (v_reward_token s) (v_fee_bps s) (v_paused s) (v_min_reward s) (v_min_stake s) (v_dispute_window s) (v_reputation_floor s) (v_task s).
#[export] Instance update_v_reward_token : Update v_reward_token :=
  fun f s => mkView (v_admin s) (f (v_reward_token s)) (v_fee_bps s) (v_paused s) (v_min_reward s) (v_min_stake s) (v_dispute_window s) (v_reputation_floor s) (v_task s).
#[export] Instance update_v_fee_bps : Update v_fee_bps :=
  fun f s => mkView (v_admin s) (v_reward_token s) (f (v_fee_bps s)) (v_paused s) (v_min_reward s) (v_min_stake s) (v_dispute_window s) (v_reputation_floor s) (v_task s).
#[export] Instance update_v_paused : Update v_paused :=
  fun f s => mkView (v_admin s) (v_reward_token s) (v_fee_bps s) (f (v_paused s)) (v_min_reward s) (v_min_stake s) (v_dispute_window s) (v_reputation_floor s) (v_task s).
#[export] Instance update_v_min_reward : Update v_min_reward :=
  fun f s => mkView (v_admin s) (v_reward_token s) (v_fee_bps s) (v_paused s) (f (v_min_reward s)) (v_min_stake s) (v_dispute_window s) (v_reputation_floor s) (v_task s).
#[export] Instance update_v_min_stake : Update v_min_stake :=
  fun f s => mkView (v_admin s) (v_reward_token s) (v_fee_bps s) (v_paused s) (v_min_reward s) (f (v_min_stake s)) (v_dispute_window s) (v_reputation_floor s) (v_task s).
#[export] Instance update_v_dispute_window : Update v_dispute_window :=
  fun f s => mkView (v_admin s) (v_reward_token s) (v_fee_bps s) (v_paused s) (v_min_reward s) (v_min_stake s) (f (v_dispute_window s)) (v_reputation_floor s) (v_task s).
#[export] Instance update_v_reputation_floor : Update v_reputation_floor :=
  fun f s => mkView (v_admin s) (v_reward_token s) (v_fee_bps s) (v_paused s) (v_min_reward s) (v_min_stake s) (v_dispute_window s) (f (v_reputation_floor s)) (v_task s).
#[export] Instance update_v_task : Update v_task :=
  fun f s => mkView (v_admin s) (v_reward_token s) (v_fee_bps s) (v_paused s) (v_min_reward s) (v_min_stake s) (v_dispute_window s) (v_reputation_floor s) (f (v_task s)).

Definition empty_view : View := mkView None None None None None None None None ∅.

Definition view_task (t : Task) : TaskView :=
  mkTaskView (t_owner t) (t_status t) (t_reward t) (t_deadline t) (t_condition t) (t_claimer t)
    (t_claim_ledger t).

Definition view (st : Store) : View :=
  mkView (s_admin st) (s_reward_token st) (s_fee_bps st) (s_paused st) (s_min_reward st)
    (s_min_stake st) (s_dispute_window st) (s_reputation_floor st) (view_task <$> s_task st).

(** An event about a task changes it if it is known. *)
Definition on_task (id : Z) (f : TaskView -> TaskView) (v : View) : View :=
  match v_task v !! id with
  | Some t => v <| v_task ::= <[id := f t]> |>
  | None => v
  end.

(** One event, replayed. *)
Definition replay (ev : Event) (v : View) : View :=
  match ev with
  | Initialized admin token bps =>
      v <| v_admin := Some admin |> <| v_reward_token := Some token |> <| v_fee_bps := Some bps |>
        <| v_paused ::= fun p => Some (default false p) |>
  | PausedSet paused => v <| v_paused := Some paused |>
  | FeeUpdated _ new_bps => v <| v_fee_bps := Some new_bps |>
  | AdminTransferred _ new_admin => v <| v_admin := Some new_admin |>
  | MinRewardUpdated _ new_min => v <| v_min_reward := Some new_min |>
  | MinStakeUpdated _ new_min => v <| v_min_stake := Some new_min |>
  | DisputeWindowUpdated _ new_ledgers => v <| v_dispute_window := Some new_ledgers |>
  | ReputationFloorUpdated _ new_floor_bps => v <| v_reputation_floor := Some new_floor_bps |>
  | TaskRegistered id owner reward deadline condition =>
      v <| v_task ::= <[id := mkTaskView owner Pending reward deadline condition None None]> |>
  | TaskClaimed id keeper ledger => on_task id (fun t =>
      t <| tv_status := Claimed |> <| tv_claimer := Some keeper |> <| tv_claim_ledger := Some ledger |>) v
  | TaskExecuted id keeper _ _ => on_task id (fun t =>
      t <| tv_status := Executed |> <| tv_claimer := Some keeper |>) v
  | TaskExpired id => on_task id (fun t => t <| tv_status := Expired |>) v
  | TaskCancelled id _ => on_task id (fun t => t <| tv_status := Cancelled |>) v
  | RewardIncreased id reward => on_task id (fun t => t <| tv_reward := reward |>) v
  | DeadlineExtended id deadline => on_task id (fun t => t <| tv_deadline := deadline |>) v
  | _ => v
  end.

(** A log, newest event first. *)
Definition replay_log (log : list Event) : View := foldr replay empty_view log.

(** ** A commit and its events *)

Section Replay.
Context `{HL : Ledger}.
Implicit Types (e : Env) (s : RS).

(** The amounts an event announces are what they are called. *)
Definition sound (ev : Event) : Prop :=
  match ev with
  | FeesSwept _ amount _ | RewardsWithdrawn _ amount => 0 < amount
  | TaskExecuted _ _ net_reward _ => 0 <= net_reward
  | _ => True
  end.

(** The events [s'] adds to those of [s] account for the change of the view. *)
Definition announced s s' : Prop :=
  exists new, events s' = new ++ events s /\ view (store s') = foldr replay (view (store s)) new /\
    Forall sound new.

Lemma announced_trans s1 s2 s3 : announced s1 s2 -> announced s2 s3 -> announced s1 s3.
Proof.
  intros (n1 & He1 & Hv1 & Hs1) (n2 & He2 & Hv2 & Hs2). exists (n2 ++ n1).
  rewrite <- app_assoc, foldr_app, Forall_app. split_and!; congruence || done.
Qed.

Lemma announced_equiv s1 s2 s3 : sys_equiv s1 s2 -> announced s2 s3 -> announced s1 s3.
Proof. intros (Hst & _ & Hev) (n & He & Hv & Hs). exists n. by rewrite Hst, Hev. Qed.

(** One event about a stored task. *)
Lemma on_task_put st id t t' f :
  s_task st !! id = Some t -> view_task t' = f (view_task t) ->
  view_task <$> <[id := t']> (s_task st) = v_task (on_task id f (view st)).
Proof.
  intros Hid Ht'. unfold on_task, view at 1; cbn. rewrite lookup_fmap, Hid. cbn.
  by rewrite fmap_insert, Ht'.
Qed.

Lemma on_task_config id f v :
  on_task id f v = v <| v_task := v_task (on_task id f v) |>.
Proof. unfold on_task. by destruct (v_task v !! id), v. Qed.

Lemma view_put st st' id t t' f :
  s_task st !! id = Some t -> s_task st' = <[id := t']> (s_task st) ->
  view_task t' = f (view_task t) ->
  s_admin st' = s_admin st -> s_reward_token st' = s_reward_token st -> s_fee_bps st' = s_fee_bps st ->
  s_paused st' = s_paused st -> s_min_reward st' = s_min_reward st ->
  s_min_stake st' = s_min_stake st -> s_dispute_window st' = s_dispute_window st ->
  s_reputation_floor st' = s_reputation_floor st ->
  view st' = on_task id f (view st).
Proof.
  intros Hid Hs Ht' H1 H2 H3 H4 H5 H6 H7 H8. rewrite on_task_config, <- (on_task_put _ _ _ _ _ Hid Ht').
  unfold view. by rewrite Hs, H1, H2, H3, H4, H5, H6, H7, H8.
Qed.

(** An event with a view of its own, or none. *)
Lemma announced_one s s' ev :
  events s' = ev :: events s -> sound ev -> view (store s') = replay ev (view (store s)) -> announced s s'.
Proof. intros He Hs Hv. exists [ev]. split_and!; [done..|]. by constructor. Qed.

Lemma foldr_silent new v : Forall (fun ev => forall v, replay ev v = v) new -> foldr replay v new = v.
Proof. induction 1 as [|ev new Hev Hn IH]; [done|]. cbn. by rewrite IH. Qed.

Lemma register_entry_announced e init owner token params s id s' :
  register_entry e init owner token params s = Ok id s' -> announced s s'.
Proof.
  intros Hr. apply runs in Hr as (l & _ & _ & _ & ->). eapply announced_one; [done | done |].
  unfold view; cbn. by rewrite fmap_insert.
Qed.

Lemma batch_announced e init owner tasks max s ids s' :
  batch_register_tasks e init owner tasks max s = Ok ids s' -> announced s s'.
Proof.
  intros Hr. apply ensures in Hr as (tk & s1 & _ & _ & _ & _ & _ & Heq & Hr).
  eapply announced_equiv; [exact Heq|].
  refine (for_fold_invariant (fun _ (s2 : RS) => announced s1 s2) tasks [] _ _ _ _ _ _ Hr); [|by exists []].
  intros ids1 p s2 ids2 s3 _ Hf (id & s4 & Hx & Hret)%bind_Ok. apply runs in Hret as [_ ->].
  eapply announced_trans; [exact Hf | by eapply register_entry_announced].
Qed.

Lemma on_task_same id v : on_task id (fun t => t) v = v.
Proof.
  unfold on_task. destruct (v_task v !! id) as [t|] eqn:Hid; [|done].
  destruct v as [a b c d f g h i m]; cbn in *. unfold update_v_task; cbn. by rewrite insert_id.
Qed.

Lemma same_view s s' ev :
  events s' = ev :: events s -> sound ev -> (forall v, replay ev v = v) ->
  view (store s') = view (store s) -> announced s s'.
Proof. intros He Hs Hq Hv. eapply announced_one; [exact He | done |]. by rewrite Hq. Qed.

Lemma pay_keeper_view e keeper id net st : view (pay_keeper e keeper id net st) = view st.
Proof. unfold pay_keeper. by case_bool_decide. Qed.

Lemma accrued_view amount st : view (accrued amount st) = view st.
Proof. unfold accrued. by case_bool_decide. Qed.

Lemma claim_task_announced e keeper id s s' :
  claim_task e keeper id s = Ok tt s' -> announced s s'.
Proof.
  intros Hr. apply ensures in Hr as (t & missed & _ & _ & _ & Hid & _ & _ & _ & _ & Hst & Hev).
  eapply announced_one; [exact Hev | try done; cbn; lia |]. rewrite Hst. cbn [replay].
  eapply (view_put _ _ _ t (claimed_task e keeper t)); [exact Hid | by destruct missed..].
Qed.

Lemma execute_task_announced e keeper id proof s s' :
  wf (store s) -> execute_task e keeper id proof s = Ok tt s' -> announced s s'.
Proof.
  intros Hwf Hr.
  apply ensures in Hr as (t & net & fee & _ & _ & _ & Hid & _ & Hk & _ & _ & Hsp & _ & _ & Hst & Hev).
  pose proof (wf_lookup_task _ _ _ Hwf Hid) as (_ & Hrew & _).
  apply split_reward_inr in Hsp as (_ & Hnet & Hfee); [|lia|apply Hwf].
  eapply announced_one; [exact Hev | cbn; lia |]. rewrite Hst. cbn [replay].
  assert (view_task (t <| t_status := Executed |>) =
    (view_task t) <| tv_status := Executed |> <| tv_claimer := Some keeper |>) as Ht.
  { unfold view_task; cbn. by rewrite Hk. }
  unfold execute_store, accrued, pay_keeper.
  eapply (view_put _ _ _ t (t <| t_status := Executed |>)); [exact Hid | | exact Ht | ..].
  all: repeat case_bool_decide; done.
Qed.

Lemma credited_view keeper l st : view (foldl (credited keeper) st l) = view st.
Proof. revert st. induction l as [|c l IH]; intros st; [done|]. cbn. by rewrite IH. Qed.

Lemma finalized_view e keeper st : view (finalized_store e keeper st) = view st.
Proof.
  unfold finalized_store. destruct (due _ _) as [|c l]; [done|].
  trans (view (foldl (credited keeper) st (c :: l))); [done | apply credited_view].
Qed.

Lemma withdraw_rewards_announced e keeper s amount s' :
  withdraw_rewards e keeper s = Ok amount s' -> announced s s'.
Proof.
  intros Hr. apply ensures in Hr as (tk & l & _ & _ & Hpos & _ & _ & Hst & _ & Hev).
  rewrite app_comm_cons in Hev. eexists. split; [exact Hev|].
  assert (Forall (fun ev => sound ev /\ forall v, replay ev v = v) (RewardsWithdrawn keeper amount ::
    finalized_events keeper (map (fun c => (pc_task_id c, pc_net_reward c))
      (due (ledger_sequence e) (pending_credits_of (store s) keeper))))) as Hall.
  { constructor; [by split|]. unfold finalized_events.
    apply Forall_reverse, Forall_fmap, list.Forall_forall. by intros []. }
  apply list.Forall_and in Hall as [Hsound Hquiet]. split; [|done]. rewrite foldr_silent by done.
  rewrite Hst. trans (view (finalized_store e keeper (store s))); [done | apply finalized_view].
Qed.

Lemma resolve_execution_dispute_announced e admin id uphold s s' :
  resolve_execution_dispute e admin id uphold s = Ok tt s' -> announced s s'.
Proof.
  intros Hr. apply ensures in Hr as (t & k & i & c & _ & _ & _ & _ & _ & _ & _ & _ & Hst & _ & Hev).
  eapply same_view; [exact Hev | done | done |]. rewrite Hst. case_bool_decide; [by rewrite accrued_view | done].
Qed.

Lemma resolve_slash_appeal_announced e admin id uphold s s' :
  resolve_slash_appeal e admin id uphold s = Ok tt s' -> announced s s'.
Proof.
  intros Hr. apply ensures in Hr as (rec & _ & _ & _ & _ & Hev & Hst).
  eapply same_view; [exact Hev | done | done |]. destruct uphold; [destruct Hst as (tk & _ & _ & _ & ->)
    | destruct Hst as [-> _]]; done.
Qed.

Lemma initialize_announced e admin token bps s s' :
  wf (store s) -> initialize e admin token bps s = Ok tt s' -> announced s s'.
Proof.
  intros Hwf Hr. apply ensures in Hr as (Hadm & _ & _ & Hst & _ & Hev).
  eapply announced_one; [exact Hev | try done; cbn; lia |]. rewrite Hst, (wf_uninitialized _ Hwf Hadm). reflexivity.
Qed.

Lemma register_params_announced e owner params s id s' :
  register_params e owner params s = Ok id s' -> announced s s'.
Proof.
  intros Hr. unfold register_params in Hr.
  apply ensures in Hr as (tk & l & _ & _ & _ & _ & _ & _ & _ & Hst & _ & Hev).
  eapply announced_one; [exact Hev | try done; cbn; lia |]. rewrite Hst. unfold view; cbn. by rewrite fmap_insert.
Qed.

Lemma update_verifier_announced e owner id v s s' :
  update_verifier e owner id v s = Ok tt s' -> announced s s'.
Proof.
  intros Hr. apply ensures in Hr as (t & _ & _ & Hid & _ & _ & Hst & _ & Hev).
  eapply same_view; [exact Hev | done | done |]. rewrite Hst, <- (on_task_same id (view (store s))).
  by eapply (view_put _ _ _ t (t <| t_verifier := v |>)).
Qed.

Ltac put_announced Hr :=
  apply ensures in Hr; cbv zeta in Hr; run_simpl;
  match goal with Hev : events _ = _ :: _, Hst : store _ = _, Hid : s_task _ !! _ = Some _ |- _ =>
    eapply announced_one; [exact Hev | try done; cbn; lia |]; rewrite Hst; cbn [replay];
    eapply view_put; [exact Hid | reflexivity | done..]
  end.

Ltac quiet_announced Hr :=
  apply ensures in Hr; cbv zeta in Hr; run_simpl;
  match goal with Hev : events _ = _ :: _, Hst : store _ = _ |- _ =>
    eapply announced_one; [exact Hev | try done; cbn; lia |]; rewrite Hst
  end.

Lemma exec_announced e op s s' :
  wf (store s) -> exec e op s = Ok tt s' -> announced s s'.
Proof.
  intros Hwf Hr. destruct op; cbn [exec] in Hr; try (apply runs_forget in Hr as [? Hr]);
    try (by eapply initialize_announced); try (by eapply batch_announced);
    try (by eapply claim_task_announced); try (by eapply execute_task_announced);
    try (by eapply withdraw_rewards_announced); try (by eapply resolve_execution_dispute_announced);
    try (by eapply resolve_slash_appeal_announced); try (by eapply register_params_announced);
    try (by eapply update_verifier_announced);
    try (quiet_announced Hr; done); try (put_announced Hr; done).
Qed.

(** ** Every state *)

(** The states of a registry deployed at [self]: any calls, any transactions of
    other contracts in between; the log starts empty. *)
Inductive logged (self : Address) : RS -> Prop :=
  | logged_fresh l : logged self (mkSys empty_store [] l)
  | logged_call s e op :
      logged self s -> valid_env self e -> typed_op op -> logged self (call e op s)
  | logged_other s l : logged self s -> logged self (s <| chain := l |>).

Lemma logged_wf self s : logged self s -> wf (store s).
Proof.
  induction 1 as [l|s e op Hs IH He Ht|s l Hs IH]; [apply wf_empty| |done].
  apply (call_preserves (exec:=exec) (fun s : RS => wf (store s))); [done|]. intros s' Hx. by eapply exec_preserves_wf.
Qed.

Lemma logged_replay self s : logged self s -> view (store s) = replay_log (events s).
Proof.
  induction 1 as [l|s e op Hs IH He Ht|s l Hs IH]; [done| |done].
  apply (call_preserves (exec:=exec) (fun s : RS => view (store s) = replay_log (events s))); [done|].
  intros s' Hx. destruct (exec_announced _ _ _ _ (logged_wf _ _ Hs) Hx) as (new & Hev & Hv & _).
  rewrite Hev, Hv, IH. unfold replay_log. by rewrite foldr_app.
Qed.

Lemma logged_sound self s : logged self s -> Forall sound (events s).
Proof.
  induction 1 as [l|s e op Hs IH He Ht|s l Hs IH]; [constructor| |done].
  apply (call_preserves (exec:=exec) (fun s : RS => Forall sound (events s))); [done|].
  intros s' Hx. destruct (exec_announced _ _ _ _ (logged_wf _ _ Hs) Hx) as (new & Hev & _ & Hn).
  rewrite Hev. by apply Forall_app.
Qed.

(** C29: the event log is complete.  In every state of the registry, replaying
    the events published so far - and nothing else - gives the whole
    configuration (admin, reward token, fee, pause flag, minimum reward, minimum
    stake, dispute window, reputation floor), and for every task its owner,
    status, reward, deadline, condition, claimer and claim ledger, exactly as
    storage has them: no change of these goes unannounced, and no announced
    change did not happen.  What a task was registered with besides - type,
    calldata, TTL, lock, verifier - is in no event. *)
Theorem event_log_complete self s :
  logged self s ->
  v_admin (replay_log (events s)) = s_admin (store s) /\
  v_reward_token (replay_log (events s)) = s_reward_token (store s) /\
  v_fee_bps (replay_log (events s)) = s_fee_bps (store s) /\
  v_paused (replay_log (events s)) = s_paused (store s) /\
  v_min_reward (replay_log (events s)) = s_min_reward (store s) /\
  v_min_stake (replay_log (events s)) = s_min_stake (store s) /\
  v_dispute_window (replay_log (events s)) = s_dispute_window (store s) /\
  v_reputation_floor (replay_log (events s)) = s_reputation_floor (store s) /\
  forall id, v_task (replay_log (events s)) !! id = view_task <$> s_task (store s) !! id.
Proof.
  intros Hs. rewrite <- (logged_replay self s Hs). split_and!; [done..|].
  intros id. apply lookup_fmap.
Qed.
End Replay.

(** ** The sample run *)

Lemma logged_run self calls (s : RS) :
  logged self s -> Forall (fun '(e, op) => valid_env self e /\ typed_op op) calls ->
  logged self (run_calls calls s).
Proof.
  intros Hs Hc. revert s Hs. induction Hc as [|[e op] calls [He Ht] Hc IH]; intros s Hs; [done|].
  apply IH. by apply logged_call.
Qed.

Lemma settled_logged : logged self settled_state.
Proof.
  apply logged_run; [|sample_calls]. apply logged_run; [|sample_calls]. apply logged_fresh.
Qed.

Lemma event_log_complete_witness :
  v_fee_bps (replay_log (events settled_state)) = s_fee_bps (store settled_state) /\
  map_size (v_task (replay_log (events settled_state))) = 3%nat.
Proof.
  destruct (event_log_complete self settled_state settled_logged) as (_ & _ & Hf & _).
  split; [exact Hf | vm_compute; reflexivity].
Defined.
