(* ===== verification/TreasuryTypes.v ===== *)
(** * Treasury: storage, errors, events, constants

    The data of src/contracts/treasury/src/{types,errors,events,constants}.rs.
    As for the registry, the record [Store] has one field per [DataKey]
    constructor. *)

From S2P Require Import Prelude Host.

Inductive DataKey :=
  | Admin
  | Paused
  | RewardToken
  | RecipientList
  | RecipientShares (a : Address)
  | RecipientBalance (a : Address)
  | RecipientReceivedTotal (a : Address)
  | TotalDistributed.

(** A recipient's configuration, as the view [recipients] returns it. *)
Record Recipient := mkRecipient {
  r_address : Address;
  r_shares_bps : Z;                   (* u32 *)
}.

Record Store := mkStore {
  (* instance entries *)
  s_admin : option Address;
  s_paused : option bool;
  s_reward_token : option Address;
  s_recipient_list : option (list Address);
  s_total_distributed : option Z;
  (* persistent entries *)
  s_shares : gmap Address Z;
  s_balance : gmap Address Z;
  s_received : gmap Address Z;
}.

#[export] Instance update_s_admin : Update s_admin :=
  fun f s => mkStore (f (s_admin s)) (s_paused s) (s_reward_token s) (s_recipient_list s) (s_total_distributed s) (s_shares s) (s_balance s) (s_received s).
#[export] Instance update_s_paused : Update s_paused :=
  fun f s => mkStore (s_admin s) (f (s_paused s)) (s_reward_token s) (s_recipient_list s) (s_total_distributed s) (s_shares s) (s_balance s) (s_received s).
#[export] Instance update_s_reward_token : Update s_reward_token :=
  fun f s => mkStore (s_admin s) (s_paused s) (f (s_reward_token s)) (s_recipient_list s) (s_total_distributed s) (s_shares s) (s_balance s) (s_received s).
#[export] Instance update_s_recipient_list : Update s_recipient_list :=
  fun f s => mkStore (s_admin s) (s_paused s) (s_reward_token s) (f (s_recipient_list s)) (s_total_distributed s) (s_shares s) (s_balance s) (s_received s).
#[export] Instance update_s_total_distributed : Update s_total_distributed :=
  fun f s => mkStore (s_admin s) (s_paused s) (s_reward_token s) (s_recipient_list s) (f (s_total_distributed s)) (s_shares s) (s_balance s) (s_received s).
#[export] Instance update_s_shares : Update s_shares :=
  fun f s => mkStore (s_admin s) (s_paused s) (s_reward_token s) (s_recipient_list s) (s_total_distributed s) (f (s_shares s)) (s_balance s) (s_received s).
#[export] Instance update_s_balance : Update s_balance :=
  fun f s => mkStore (s_admin s) (s_paused s) (s_reward_token s) (s_recipient_list s) (s_total_distributed s) (s_shares s) (f (s_balance s)) (s_received s).
#[export] Instance update_s_received : Update s_received :=
  fun f s => mkStore (s_admin s) (s_paused s) (s_reward_token s) (s_recipient_list s) (s_total_distributed s) (s_shares s) (s_balance s) (f (s_received s)).

Definition empty_store : Store := mkStore None None None None None ∅ ∅ ∅.

Inductive TreasuryError :=
  | AlreadyInitialized
  | Unauthorized
  | ContractPaused
  | NotInitialized
  | RecipientNotFound
  | RecipientAlreadyExists
  | InvalidShares
  | NoRecipients
  | InvalidAmount
  | NoRewardsAvailable
  | ArithmeticOverflow
  | TooManyRecipients.

#[export] Instance TreasuryError_eq_dec : EqDecision TreasuryError.
Proof. solve_decision. Defined.

Definition treasury_error_code (x : TreasuryError) : Z :=
  match x with
  | AlreadyInitialized => 1 | Unauthorized => 2 | ContractPaused => 3 | NotInitialized => 4
  | RecipientNotFound => 5 | RecipientAlreadyExists => 6 | InvalidShares => 7
  | NoRecipients => 8 | InvalidAmount => 9 | NoRewardsAvailable => 10
  | ArithmeticOverflow => 11 | TooManyRecipients => 12
  end.

(** One constructor per [emit_] function of events.rs. *)
Inductive Event :=
  | Initialized (admin reward_token : Address)
  | RecipientAdded (recipient : Address) (shares_bps : Z)
  | RecipientRemoved (recipient : Address)
  | RecipientSharesUpdated (recipient : Address) (old_shares_bps new_shares_bps : Z)
  | Distributed (recipient : Address) (amount total_distributed : Z)
  | Distribution (caller : Address) (requested credited : Z) (breakdown : list (Address * Z))
  | Withdrawn (recipient : Address) (amount : Z)
  | PausedSet (paused : bool)
  | AdminTransferred (old_admin new_admin : Address)
  | Upgraded (admin : Address) (new_wasm_hash : Bytes).

Definition event_topics (ev : Event) : string * string :=
  (match ev with
  | Initialized _ _ => ("init", "admin")
  | RecipientAdded _ _ => ("radd", "recip")
  | RecipientRemoved _ => ("rrm", "recip")
  | RecipientSharesUpdated _ _ _ => ("rshr", "recip")
  | Distributed _ _ _ => ("dist", "recip")
  | Distribution _ _ _ _ => ("dist", "total")
  | Withdrawn _ _ => ("wdraw", "recip")
  | PausedSet _ => ("paused", "admin")
  | AdminTransferred _ _ => ("admin", "xfer")
  | Upgraded _ _ => ("upgrade", "admin")
  end)%string.

Definition MAX_RECIPIENTS : Z := 50.
Definition MAX_SHARES_BPS : Z := 10000.
Definition MAX_TOTAL_SHARES : Z := MAX_RECIPIENTS * MAX_SHARES_BPS.
Definition INSTANCE_BUMP_LEDGERS : Z := 100000.
Definition INSTANCE_BUMP_THRESHOLD : Z := 50000.
Definition RECIPIENT_BALANCE_BUMP_LEDGERS : Z := 100000.
Definition RECIPIENT_BALANCE_BUMP_THRESHOLD : Z := 50000.
Definition VERSION : Z := 1.
