(* ===== verification/Treasury.v ===== *)
(** * Treasury: the contract

    src/contracts/treasury/src/{internal,admin,distribution,views}.rs: the
    helpers, the configuration of the recipient set, [distribute] and
    [withdraw], and the views. *)

From S2P Require Import Prelude Host TreasuryTypes.

Abbreviation TS := (Sys Store DataKey Event).
Abbreviation TM := (M (Sys Store DataKey Event) TreasuryError).

Section Treasury.
Context `{Ledger}.
Implicit Types (e : Env) (caller admin recipient : Address) (list : list Address).

(** ** Helpers (internal.rs) *)

Definition bump_instance : TM unit :=
  log (ExtendInstance INSTANCE_BUMP_THRESHOLD INSTANCE_BUMP_LEDGERS).

Definition bump_balance (k : DataKey) : TM unit :=
  log (ExtendPersistent k RECIPIENT_BALANCE_BUMP_THRESHOLD RECIPIENT_BALANCE_BUMP_LEDGERS).

Definition require_not_paused : TM unit :=
  paused ← read (fun st => default false (s_paused st));
  fail_if paused ContractPaused.

Definition require_admin e caller : TM unit :=
  stored ← read s_admin;
  admin ← ok_or stored NotInitialized;
  require_auth e caller;;
  fail_if (bool_decide (caller <> admin)) Unauthorized.

Definition recipient_list (st : Store) : _ := default [] (s_recipient_list st).

Definition recipient_shares (st : Store) recipient : Z := default 0 (s_shares st !! recipient).

Definition set_recipient_shares recipient (shares_bps : Z) : TM unit :=
  write (fun st => st <| s_shares ::= <[recipient := shares_bps]> |>);;
  bump_balance (RecipientShares recipient).

Definition validate_shares (shares_bps : Z) : TreasuryError + unit :=
  if bool_decide (shares_bps = 0) || bool_decide (shares_bps > MAX_SHARES_BPS)
  then inl InvalidShares else inr tt.

Fixpoint add_shares (st : Store) (total : Z) list : TreasuryError + Z :=
  match list with
  | [] => inr total
  | recipient :: list' =>
      match checked_add u32 total (recipient_shares st recipient) with
      | Some total' => add_shares st total' list'
      | None => inl ArithmeticOverflow
      end
  end.

Definition total_shares (st : Store) list : TreasuryError + Z := add_shares st 0 list.

Fixpoint validate_each (st : Store) list : TreasuryError + unit :=
  match list with
  | [] => inr tt
  | recipient :: list' =>
      match validate_shares (recipient_shares st recipient) with
      | inr _ => validate_each st list'
      | inl x => inl x
      end
  end.

Definition validate_recipient_set (st : Store) list : TreasuryError + unit :=
  match validate_each st list with
  | inl x => inl x
  | inr _ =>
      match total_shares st list with
      | inl x => inl x
      | inr total => if bool_decide (total > MAX_TOTAL_SHARES) then inl InvalidShares else inr tt
      end
  end.

(** The token client is represented by the token's address. *)
Definition reward_token : TM Address :=
  stored ← read s_reward_token;
  ok_or stored NotInitialized.

Definition balance_of (st : Store) recipient : Z := default 0 (s_balance st !! recipient).
Definition received_of (st : Store) recipient : Z := default 0 (s_received st !! recipient).

Definition credit_recipient recipient (amount : Z) : TM unit :=
  current ← read (fun st => balance_of st recipient);
  updated ← ok_or (checked_add i128 current amount) ArithmeticOverflow;
  write (fun st => st <| s_balance ::= <[recipient := updated]> |>);;
  bump_balance (RecipientBalance recipient);;
  current_received ← read (fun st => received_of st recipient);
  updated_received ← ok_or (checked_add i128 current_received amount) ArithmeticOverflow;
  write (fun st => st <| s_received ::= <[recipient := updated_received]> |>);;
  bump_balance (RecipientReceivedTotal recipient).

Definition accrue_total_distributed (amount : Z) : TM Z :=
  current ← read (fun st => default 0 (s_total_distributed st));
  updated ← ok_or (checked_add i128 current amount) ArithmeticOverflow;
  write (fun st => st <| s_total_distributed := Some updated |>);;
  mret updated.

(** ** Administration (admin.rs) *)

Definition initialize e admin (token : Address) : TM unit :=
  stored ← read s_admin;
  fail_if (bool_decide (is_Some stored)) AlreadyInitialized;;
  require_auth e admin;;
  write (fun st => st <| s_admin := Some admin |>);;
  write (fun st => st <| s_reward_token := Some token |>);;
  write (fun st => st <| s_paused := Some false |>);;
  bump_instance;;
  publish (Initialized admin token).

(** Re-validation of the set a configuration change leaves. *)
Definition revalidate list : TM unit :=
  verdict ← read (fun st => validate_recipient_set st list);
  lift verdict.

Definition add_recipient e admin recipient (shares_bps : Z) : TM unit :=
  require_admin e admin;;
  lift (validate_shares shares_bps);;
  list ← read recipient_list;
  fail_if (bool_decide (recipient ∈ list)) RecipientAlreadyExists;;
  fail_if (bool_decide (Z.of_nat (length list) >= MAX_RECIPIENTS)) TooManyRecipients;;
  bump_instance;;
  let list' := list ++ [recipient] in
  write (fun st => st <| s_recipient_list := Some list' |>);;
  set_recipient_shares recipient shares_bps;;
  revalidate list';;
  publish (RecipientAdded recipient shares_bps).

Definition remove_recipient e admin recipient : TM unit :=
  require_admin e admin;;
  list ← read recipient_list;
  idx ← ok_or (position (fun a => bool_decide (a = recipient)) list) RecipientNotFound;
  bump_instance;;
  let list' := delete idx list in
  write (fun st => st <| s_recipient_list := Some list' |>);;
  write (fun st => st <| s_shares ::= <[recipient := 0]> |>);;
  revalidate list';;
  publish (RecipientRemoved recipient).

Definition update_recipient_shares e admin recipient (new_shares_bps : Z) : TM unit :=
  require_admin e admin;;
  lift (validate_shares new_shares_bps);;
  list ← read recipient_list;
  fail_if (negb (bool_decide (recipient ∈ list))) RecipientNotFound;;
  bump_instance;;
  old_shares_bps ← read (fun st => recipient_shares st recipient);
  set_recipient_shares recipient new_shares_bps;;
  revalidate list;;
  publish (RecipientSharesUpdated recipient old_shares_bps new_shares_bps).

Definition pause e admin : TM unit :=
  require_admin e admin;;
  bump_instance;;
  write (fun st => st <| s_paused := Some true |>);;
  publish (PausedSet true).

Definition unpause e admin : TM unit :=
  require_admin e admin;;
  bump_instance;;
  write (fun st => st <| s_paused := Some false |>);;
  publish (PausedSet false).

Definition transfer_admin e admin (new_admin : Address) : TM unit :=
  require_admin e admin;;
  require_auth e new_admin;;
  bump_instance;;
  write (fun st => st <| s_admin := Some new_admin |>);;
  publish (AdminTransferred admin new_admin).

Definition upgrade e admin (new_wasm_hash : Bytes) : TM unit :=
  require_admin e admin;;
  bump_instance;;
  publish (Upgraded admin new_wasm_hash);;
  log (UpdateWasm new_wasm_hash).

(** ** Distribution and withdrawal (distribution.rs) *)

(** One iteration of [distribute]'s loop. *)
Definition distribute_one (amount total_shares : Z) '(credited_total, breakdown) recipient
    : TM (Z * _) :=
  shares ← read (fun st => recipient_shares st recipient);
  if bool_decide (shares = 0) then mret (credited_total, breakdown) else
  product ← ok_or (checked_mul i128 amount shares) ArithmeticOverflow;
  let share_amount := Z.quot product total_shares in
  let breakdown' := breakdown ++ [(recipient, share_amount)] in
  if bool_decide (share_amount = 0) then mret (credited_total, breakdown') else
  credit_recipient recipient share_amount;;
  credited_total' ← ok_or (checked_add i128 credited_total share_amount) ArithmeticOverflow;
  running_total ← accrue_total_distributed share_amount;
  publish (Distributed recipient share_amount running_total);;
  mret (credited_total', breakdown').

Definition distribute e caller (amount : Z) : TM unit :=
  require_not_paused;;
  fail_if (bool_decide (amount <= 0)) InvalidAmount;;
  require_auth e caller;;
  list ← read recipient_list;
  fail_if (bool_decide (list = [])) NoRecipients;;
  total ← read (fun st => total_shares st list);
  total_shares ← lift total;
  fail_if (bool_decide (total_shares = 0)) NoRecipients;;
  bump_instance;;
  acc ← for_fold list (0, []) (distribute_one amount total_shares);
  let '(credited_total, breakdown) := acc in
  (if bool_decide (credited_total > 0) then
     token ← reward_token;
     token_transfer e token caller (current_contract_address e) credited_total
   else mret tt);;
  publish (Distribution caller amount credited_total breakdown).

Definition withdraw e recipient : TM Z :=
  require_auth e recipient;;
  balance ← read (fun st => balance_of st recipient);
  fail_if (bool_decide (balance <= 0)) NoRewardsAvailable;;
  bump_instance;;
  write (fun st => st <| s_balance ::= <[recipient := 0]> |>);;
  token ← reward_token;
  token_transfer e token (current_contract_address e) recipient balance;;
  publish (Withdrawn recipient balance);;
  mret balance.
End Treasury.

(** ** Views (views.rs) *)

Definition admin (st : Store) : option Address := s_admin st.
Definition is_paused (st : Store) : bool := default false (s_paused st).
Definition reward_token_address (st : Store) : option Address := s_reward_token st.
Definition recipients (st : Store) : list Recipient :=
  map (fun address => mkRecipient address (recipient_shares st address)) (recipient_list st).
Definition recipient_balance (st : Store) (recipient : Address) : Z := balance_of st recipient.
Definition recipient_total_received (st : Store) (recipient : Address) : Z := received_of st recipient.
Definition total_distributed (st : Store) : Z := default 0 (s_total_distributed st).
Definition max_recipients : Z := MAX_RECIPIENTS.
Definition version : Z := VERSION.

#[export] Typeclasses Opaque bump_instance bump_balance require_not_paused require_admin set_recipient_shares reward_token credit_recipient accrue_total_distributed initialize revalidate add_recipient remove_recipient update_recipient_shares pause unpause transfer_admin upgrade distribute_one distribute withdraw.
