(* ===== verification/TreasurySpec.v ===== *)
(** * Treasury: what each entry point does

    One [Runs] instance per helper, one [Ensures] instance per entry point, and
    the loop of [distribute] as a fold over storage. *)

From S2P Require Import Prelude Host TreasuryTypes Treasury.

Section Spec.
Context `{Ledger}.
Implicit Types (e : Env) (caller admin recipient : Address) (st : Store) (s : TS).

(** ** Helpers *)

#[export] Instance runs_bump_instance :
  Runs bump_instance (fun s _ s' =>
    s' = s <| effects ::= cons (ExtendInstance INSTANCE_BUMP_THRESHOLD INSTANCE_BUMP_LEDGERS) |>).
Proof. unfold bump_instance. apply _. Qed.

#[export] Instance runs_bump_balance k :
  Runs (bump_balance k) (fun s _ s' => s' = s <| effects ::= cons (ExtendPersistent k
    RECIPIENT_BALANCE_BUMP_THRESHOLD RECIPIENT_BALANCE_BUMP_LEDGERS) |>).
Proof. unfold bump_balance. apply _. Qed.

#[export] Instance runs_require_not_paused :
  Runs require_not_paused (fun s _ s' => is_paused (store s) = false /\ s' = s).
Proof. runs_solve. Qed.

#[export] Instance runs_require_admin e caller :
  Runs (require_admin e caller) (fun s _ s' =>
    s_admin (store s) = Some caller /\ authorized e caller = true /\ s' = s).
Proof. runs_solve. Qed.

#[export] Instance runs_reward_token :
  Runs reward_token (fun s tok s' => s_reward_token (store s) = Some tok /\ s' = s).
Proof. runs_solve. Qed.

#[export] Instance runs_set_recipient_shares recipient bps :
  Runs (set_recipient_shares recipient bps) (fun s _ s' =>
    s' = s <| store ::= fun st => st <| s_shares ::= <[recipient := bps]> |> |>
           <| effects ::= cons (ExtendPersistent (RecipientShares recipient)
                RECIPIENT_BALANCE_BUMP_THRESHOLD RECIPIENT_BALANCE_BUMP_LEDGERS) |>).
Proof. runs_solve. Qed.

#[export] Instance runs_revalidate l :
  Runs (revalidate l) (fun s _ s' => validate_recipient_set (store s) l = inr tt /\ s' = s).
Proof.
  unfold revalidate. eapply runs_proper; [apply _|]. intros s [] s'. split.
  - intros (v & s1 & [-> ->] & Hv & ->). done.
  - intros [Hv ->]. by do 2 eexists.
Qed.

(** One credit in storage. *)
Definition credited recipient (amount : Z) st : Store :=
  st <| s_balance ::= <[recipient := balance_of st recipient + amount]> |>
     <| s_received ::= <[recipient := received_of st recipient + amount]> |>.

#[export] Instance ensures_credit_recipient recipient amount :
  Ensures (credit_recipient recipient amount) (fun s _ s' =>
    in_range i128 (balance_of (store s) recipient + amount) /\
    in_range i128 (received_of (store s) recipient + amount) /\
    store s' = credited recipient amount (store s) /\ chain s' = chain s /\ events s' = events s).
Proof. ensures_solve. Qed.

#[export] Instance runs_accrue_total_distributed amount :
  Runs (accrue_total_distributed amount) (fun s total s' =>
    total = total_distributed (store s) + amount /\ in_range i128 total /\
    s' = s <| store ::= fun st => st <| s_total_distributed := Some total |> |>).
Proof. runs_solve. Qed.

(** ** Shares *)

Lemma validate_shares_inr bps u :
  0 <= bps -> validate_shares bps = inr u <-> 1 <= bps <= MAX_SHARES_BPS.
Proof.
  intros H0. unfold validate_shares. destruct u.
  repeat case_bool_decide; cbn; (split; [intros [=]; lia | lia || done]).
Qed.

Lemma add_shares_inr st total l r :
  add_shares st total l = inr r -> r = total + list_sum (recipient_shares st) l.
Proof.
  revert total. induction l as [|a l IH]; intros total Hr; cbn in Hr.
  - simplify_eq. unfold list_sum; cbn. lia.
  - destruct (checked_add _ _ _) eqn:Hc; [|done]. apply checked_add_Some in Hc as [-> _].
    apply IH in Hr. rewrite list_sum_cons. lia.
Qed.

Lemma add_shares_total st total l :
  Forall (fun a => 0 <= recipient_shares st a) l -> 0 <= total ->
  total + list_sum (recipient_shares st) l <= int_max u32 ->
  add_shares st total l = inr (total + list_sum (recipient_shares st) l).
Proof.
  intros Hl. revert total. induction Hl as [|a l Ha Hl IH]; intros total H0 Hmax.
  - cbn. unfold list_sum; cbn. by rewrite Z.add_0_r.
  - rewrite list_sum_cons in *. cbn.
    assert (0 <= list_sum (recipient_shares st) l) by (by apply list_sum_nonneg).
    rewrite (proj2 (checked_add_Some _ _ _ (total + recipient_shares st a))).
    + rewrite IH by lia. by rewrite Z.add_assoc.
    + split; [done|]. unfold in_range; cbn in *. lia.
Qed.

Lemma validate_recipient_set_inr st l u :
  Forall (fun a => 0 <= recipient_shares st a) l ->
  validate_recipient_set st l = inr u ->
  Forall (fun a => 1 <= recipient_shares st a <= MAX_SHARES_BPS) l /\
  list_sum (recipient_shares st) l <= MAX_TOTAL_SHARES.
Proof.
  intros H0. unfold validate_recipient_set. destruct (validate_each st l) eqn:He; [done|].
  destruct (total_shares st l) as [|total] eqn:Ht; [done|].
  apply add_shares_inr in Ht as ->. case_bool_decide; [done|]. intros _. split; [|lia].
  clear -H0 He. induction H0 as [|a l Ha H0 IH]; [constructor|]. cbn in He.
  destruct (validate_shares _) eqn:Hv; [done|]. apply validate_shares_inr in Hv; [|done].
  constructor; [done | by apply IH].
Qed.

(** A set whose shares are in bounds is valid, however large a u32 total. *)
Lemma validate_recipient_set_ok st l :
  Forall (fun a => 1 <= recipient_shares st a <= MAX_SHARES_BPS) l ->
  Z.of_nat (length l) <= MAX_RECIPIENTS -> validate_recipient_set st l = inr tt.
Proof.
  intros Hl Hlen.
  assert (validate_each st l = inr tt) as He.
  { clear Hlen. induction Hl as [|a l Ha Hl IH]; [done|]. cbn.
    assert (validate_shares (recipient_shares st a) = inr tt) as -> by (apply validate_shares_inr; lia). done. }
  assert (0 <= list_sum (recipient_shares st) l <= MAX_SHARES_BPS * Z.of_nat (length l)) as Hs.
  { clear Hlen He. induction Hl as [|a l Ha Hl IH]; [by cbn|]. rewrite list_sum_cons. cbn [length].
    unfold MAX_SHARES_BPS in *. rewrite Nat2Z.inj_succ. lia. }
  unfold MAX_SHARES_BPS, MAX_RECIPIENTS in *.
  assert (total_shares st l = inr (0 + list_sum (recipient_shares st) l)) as Ht.
  { apply add_shares_total; [|lia|cbn; lia]. eapply Forall_impl; [|exact Hl]. cbn. lia. }
  unfold validate_recipient_set. rewrite He, Ht, bool_decide_false; [done|].
  unfold MAX_TOTAL_SHARES, MAX_SHARES_BPS, MAX_RECIPIENTS. lia.
Qed.

(** ** Administration *)

#[export] Instance ensures_initialize e admin token :
  Ensures (initialize e admin token) (fun s _ s' =>
    s_admin (store s) = None /\ authorized e admin = true /\
    store s' = (store s) <| s_admin := Some admin |> <| s_reward_token := Some token |>
                 <| s_paused := Some false |> /\
    chain s' = chain s /\ events s' = Initialized admin token :: events s).
Proof. ensures_solve. by apply eq_None_not_Some. Qed.

#[export] Instance ensures_add_recipient e admin recipient bps :
  Ensures (add_recipient e admin recipient bps) (fun s _ s' =>
    let l := recipient_list (store s) in
    let st' := (store s) <| s_recipient_list := Some (l ++ [recipient]) |>
                 <| s_shares ::= <[recipient := bps]> |> in
    s_admin (store s) = Some admin /\ authorized e admin = true /\
    validate_shares bps = inr tt /\ ~ (recipient ∈ l) /\ Z.of_nat (length l) < MAX_RECIPIENTS /\
    validate_recipient_set st' (l ++ [recipient]) = inr tt /\
    store s' = st' /\ chain s' = chain s /\ events s' = RecipientAdded recipient bps :: events s).
Proof. ensures_solve; lia. Qed.

#[export] Instance ensures_remove_recipient e admin recipient :
  Ensures (remove_recipient e admin recipient) (fun s _ s' => exists idx,
    let l := recipient_list (store s) in
    let st' := (store s) <| s_recipient_list := Some (delete idx l) |>
                 <| s_shares ::= <[recipient := 0]> |> in
    s_admin (store s) = Some admin /\ authorized e admin = true /\
    l !! idx = Some recipient /\
    validate_recipient_set st' (delete idx l) = inr tt /\
    store s' = st' /\ chain s' = chain s /\ events s' = RecipientRemoved recipient :: events s).
Proof.
  ensures_solve. match goal with Hp : position _ _ = _ |- _ =>
    apply position_Some in Hp as (a & ? & ->%bool_decide_eq_true & _) end. done.
Qed.

#[export] Instance ensures_update_recipient_shares e admin recipient bps :
  Ensures (update_recipient_shares e admin recipient bps) (fun s _ s' =>
    let st' := (store s) <| s_shares ::= <[recipient := bps]> |> in
    s_admin (store s) = Some admin /\ authorized e admin = true /\
    validate_shares bps = inr tt /\ recipient ∈ recipient_list (store s) /\
    validate_recipient_set st' (recipient_list (store s)) = inr tt /\
    store s' = st' /\ chain s' = chain s /\
    events s' = RecipientSharesUpdated recipient (recipient_shares (store s) recipient) bps :: events s).
Proof. ensures_solve. Qed.

#[export] Instance ensures_pause e admin :
  Ensures (pause e admin) (fun s _ s' =>
    s_admin (store s) = Some admin /\ authorized e admin = true /\
    store s' = (store s) <| s_paused := Some true |> /\
    chain s' = chain s /\ events s' = PausedSet true :: events s).
Proof. ensures_solve. Qed.

#[export] Instance ensures_unpause e admin :
  Ensures (unpause e admin) (fun s _ s' =>
    s_admin (store s) = Some admin /\ authorized e admin = true /\
    store s' = (store s) <| s_paused := Some false |> /\
    chain s' = chain s /\ events s' = PausedSet false :: events s).
Proof. ensures_solve. Qed.

#[export] Instance ensures_transfer_admin e admin new_admin :
  Ensures (transfer_admin e admin new_admin) (fun s _ s' =>
    s_admin (store s) = Some admin /\ authorized e admin = true /\ authorized e new_admin = true /\
    store s' = (store s) <| s_admin := Some new_admin |> /\
    chain s' = chain s /\ events s' = AdminTransferred admin new_admin :: events s).
Proof. ensures_solve. Qed.

#[export] Instance ensures_upgrade e admin hash :
  Ensures (upgrade e admin hash) (fun s _ s' =>
    s_admin (store s) = Some admin /\ authorized e admin = true /\
    store s' = store s /\ chain s' = chain s /\ events s' = Upgraded admin hash :: events s).
Proof. ensures_solve. Qed.

#[export] Instance ensures_withdraw e recipient :
  Ensures (withdraw e recipient) (fun s amount s' => exists token,
    authorized e recipient = true /\ amount = balance_of (store s) recipient /\ 0 < amount /\
    s_reward_token (store s) = Some token /\
    transfer (chain s) e token (current_contract_address e) recipient amount = Some (chain s') /\
    store s' = (store s) <| s_balance ::= <[recipient := 0]> |> /\
    events s' = Withdrawn recipient amount :: events s).
Proof. ensures_solve. Qed.

(** ** Distribution *)

(** A recipient's floor share of [amount]. *)
Definition payout st (amount total : Z) recipient : Z :=
  Z.quot (amount * recipient_shares st recipient) total.

(** A distribution's effect in storage, recipient after recipient. *)
Definition paid st0 (amount total : Z) st recipient : Store :=
  let share := payout st0 amount total recipient in
  if bool_decide (share = 0) then st
  else (credited recipient share st)
         <| s_total_distributed := Some (total_distributed st + share) |>.

Definition listed st recipient : bool := negb (bool_decide (recipient_shares st recipient = 0)).

Lemma payout_unlisted st amount total r : listed st r = false -> payout st amount total r = 0.
Proof.
  unfold listed, payout. intros Hn%negb_false_iff%bool_decide_eq_true. rewrite Hn, Z.mul_0_r. by destruct total.
Qed.

Lemma paid_shares st0 amount total st r x :
  recipient_shares (paid st0 amount total st r) x = recipient_shares st x.
Proof. unfold paid. by case_bool_decide. Qed.

Lemma distribute_one_spec st0 amount total c b r s acc s' :
  (forall x, recipient_shares (store s) x = recipient_shares st0 x) ->
  distribute_one amount total (c, b) r s = Ok acc s' ->
  acc = (c + payout st0 amount total r,
         b ++ if listed st0 r then [(r, payout st0 amount total r)] else []) /\
  store s' = paid st0 amount total (store s) r /\ chain s' = chain s /\
  (in_range i128 (total_distributed (store s)) -> in_range i128 (total_distributed (store s'))).
Proof.
  intros Hsh Hr. unfold distribute_one in Hr. run1 Hr. rewrite Hsh in Hr.
  unfold paid. fold (payout st0 amount total r) in *. unfold listed.
  destruct (bool_decide (recipient_shares st0 r = 0)) eqn:H0.
  - assert (payout st0 amount total r = 0) as -> by (apply payout_unlisted; unfold listed; by rewrite H0).
    run. rewrite app_nil_r, Z.add_0_r. done.
  - run1 Hr. fold (payout st0 amount total r) in *. cbn [negb].
    case_bool_decide as Hp; run.
    + by rewrite Hp, Z.add_0_r.
    + split; [done|]. unfold update_store, total_distributed in *. cbn.
      match goal with Hst : store _ = credited _ _ _ |- _ => rewrite Hst in * end. done.
Qed.

Lemma distribute_loop st0 amount total l c b s acc s' :
  (forall x, recipient_shares (store s) x = recipient_shares st0 x) ->
  for_fold l (c, b) (distribute_one amount total) s = Ok acc s' ->
  acc = (c + list_sum (payout st0 amount total) l,
         b ++ ((fun r => (r, payout st0 amount total r)) <$> filter (fun r => listed st0 r = true) l)) /\
  store s' = foldl (paid st0 amount total) (store s) l /\ chain s' = chain s /\
  (in_range i128 (total_distributed (store s)) -> in_range i128 (total_distributed (store s'))).
Proof.
  revert c b s. induction l as [|r l IH]; intros c b s Hsh Hr; cbn in Hr.
  - run. unfold list_sum; cbn. by rewrite Z.add_0_r, app_nil_r.
  - apply bind_Ok in Hr as ([c1 b1] & s1 & H1 & Hr).
    apply (distribute_one_spec st0) in H1 as (Hacc & Hst & Hch & Hin); [|done]. simplify_eq.
    apply IH in Hr as (-> & -> & -> & Hin'); [|intros x; by rewrite Hst, paid_shares].
    rewrite Hst, list_sum_cons, filter_cons in *. split_and!; [|done|done|tauto]. f_equal; [lia|].
    destruct (listed st0 r); case_decide; try done; cbn; rewrite <- app_assoc; done.
Qed.

#[export] Instance ensures_distribute e caller amount :
  Ensures (distribute e caller amount) (fun s _ s' => exists total,
    let st := store s in
    let l := recipient_list st in
    let credited_total := list_sum (payout st amount total) l in
    is_paused st = false /\ 0 < amount /\ authorized e caller = true /\ l <> [] /\
    total_shares st l = inr total /\ total <> 0 /\
    store s' = foldl (paid st amount total) st l /\
    (in_range i128 (total_distributed st) -> in_range i128 (total_distributed (store s'))) /\
    (if bool_decide (credited_total > 0) then exists token,
       s_reward_token (store s') = Some token /\
       transfer (chain s) e token caller (current_contract_address e) credited_total = Some (chain s')
     else chain s' = chain s) /\
    exists evs, events s' = Distribution caller amount credited_total
      ((fun r => (r, payout st amount total r)) <$> filter (fun r => listed st r = true) l) :: evs).
Proof.
  unfold distribute. intros s u s' Hr. do 9 run1 Hr.
  apply bind_Ok in Hr as ([c b] & s1 & Hl & Hr).
  apply (distribute_loop (store s)) in Hl as (Hacc & Hst & Hch & Hin); [|done]. cbn in Hst, Hch, Hin.
  rewrite Z.add_0_l in Hacc. cbn [app] in Hacc. simplify_eq.
  exists x.
  destruct (bool_decide (list_sum (payout (store s) amount x) (recipient_list (store s)) > 0));
    run; split_and!; try done; try (by eexists); cbn; try congruence.
  eexists. split; [|rewrite <- Hch]; eassumption.
Qed.
End Spec.
