(* ===== verification/TreasurySystem.v ===== *)
(** * Treasury: the contract as a transition system, its invariant, solvency

    Every entry point of the treasury as a constructor of [Op] (Contract.v);
    the storage invariant [wf]; what the treasury owes its recipients against
    what it holds. *)

From S2P Require Import Prelude Host Contract SampleChain TreasuryTypes Treasury TreasurySpec.

Inductive Op :=
  | OpInitialize (admin token : Address)
  | OpAddRecipient (admin recipient : Address) (shares_bps : Z)
  | OpRemoveRecipient (admin recipient : Address)
  | OpUpdateShares (admin recipient : Address) (shares_bps : Z)
  | OpPause (admin : Address)
  | OpUnpause (admin : Address)
  | OpTransferAdmin (admin new_admin : Address)
  | OpUpgrade (admin : Address) (hash : Bytes)
  | OpDistribute (caller : Address) (amount : Z)
  | OpWithdraw (recipient : Address).

Definition typed_op (op : Op) : Prop :=
  match op with
  | OpAddRecipient _ _ bps | OpUpdateShares _ _ bps => in_range u32 bps
  | OpDistribute _ amount => in_range i128 amount
  | _ => True
  end.

Section System.
Context `{Ledger}.

Definition exec (e : Env) (op : Op) : TM unit :=
  match op with
  | OpInitialize admin token => initialize e admin token
  | OpAddRecipient admin recipient bps => add_recipient e admin recipient bps
  | OpRemoveRecipient admin recipient => remove_recipient e admin recipient
  | OpUpdateShares admin recipient bps => update_recipient_shares e admin recipient bps
  | OpPause admin => pause e admin
  | OpUnpause admin => unpause e admin
  | OpTransferAdmin admin new_admin => transfer_admin e admin new_admin
  | OpUpgrade admin hash => upgrade e admin hash
  | OpDistribute caller amount => distribute e caller amount
  | OpWithdraw recipient => forget (withdraw e recipient)
  end.
End System.

Abbreviation call := (Contract.call exec).
Abbreviation succeeds := (Contract.succeeds exec).
Abbreviation run_calls := (Contract.run_calls exec).
Abbreviation reachable := (Contract.reachable exec typed_op empty_store).

(** ** The storage invariant *)

(** The recipient set: distinct, bounded, and exactly the addresses with a
    share, each share in [1..=MAX_SHARES_BPS]. *)
Record wf_set (st : Store) : Prop := {
  set_nodup : NoDup (recipient_list st);
  set_length : Z.of_nat (length (recipient_list st)) <= MAX_RECIPIENTS;
  set_listed a : a ∈ recipient_list st -> 1 <= recipient_shares st a <= MAX_SHARES_BPS;
  set_unlisted a : ~ (a ∈ recipient_list st) -> recipient_shares st a = 0;
}.

(** The books: balances are part of what was ever received, and the lifetime
    total is the sum of what each recipient received. *)
Record wf_books (st : Store) : Prop := {
  books_balance a : 0 <= balance_of st a <= received_of st a;
  books_received : map_Forall (fun _ v => 0 <= v) (s_received st);
  books_balances : map_Forall (fun _ v => 0 <= v) (s_balance st);
  books_total : total_distributed st = map_sum id (s_received st);
  books_range : in_range i128 (total_distributed st);
}.

Record wf (st : Store) : Prop := {
  wf_uninitialized : s_admin st = None -> st = empty_store;
  wf_initialized : is_Some (s_admin st) -> is_Some (s_reward_token st);
  wf_recipients : wf_set st;
  wf_accounts : wf_books st;
}.

Lemma treasury_wf_empty : wf empty_store.
Proof.
  split; try done; split; try done; try apply map_Forall_empty.
  - constructor.
  - intros a Ha. by apply not_elem_of_nil in Ha.
Qed.

Section Books.
Implicit Types st : Store.

Lemma map_sum_add (m : gmap Address Z) k a :
  map_sum id (<[k := default 0 (m !! k) + a]> m) = map_sum id m + a.
Proof. rewrite map_sum_insert. unfold from_option, default. destruct (m !! k); cbn; unfold id; lia. Qed.

Lemma paid_set st0 amount total st r : wf_set st -> wf_set (paid st0 amount total st r).
Proof. unfold paid. case_bool_decide; [done|]. by intros [? ? ? ?]. Qed.

Lemma balance_of_paid st0 amount total st r a :
  balance_of (paid st0 amount total st r) a =
    balance_of st a + (if decide (a = r) then payout st0 amount total r else 0).
Proof.
  unfold paid. case_bool_decide as H0; [case_decide; lia|]. unfold balance_of at 1; cbn.
  case_decide; [subst; rewrite lookup_insert_eq; done|].
  rewrite lookup_insert_ne by done. fold (balance_of st a). lia.
Qed.

Lemma received_of_paid st0 amount total st r a :
  received_of (paid st0 amount total st r) a =
    received_of st a + (if decide (a = r) then payout st0 amount total r else 0).
Proof.
  unfold paid. case_bool_decide as H0; [case_decide; lia|]. unfold received_of at 1; cbn.
  case_decide; [subst; rewrite lookup_insert_eq; done|].
  rewrite lookup_insert_ne by done. fold (received_of st a). lia.
Qed.

Lemma total_paid st0 amount total st r :
  total_distributed (paid st0 amount total st r) = total_distributed st + payout st0 amount total r.
Proof. unfold paid. case_bool_decide; [lia|done]. Qed.

Lemma sum_received_paid st0 amount total st r :
  map_sum id (s_received (paid st0 amount total st r))
    = map_sum id (s_received st) + payout st0 amount total r.
Proof. unfold paid. case_bool_decide; [lia|]. apply map_sum_add. Qed.

Lemma sum_balance_paid st0 amount total st r :
  map_sum id (s_balance (paid st0 amount total st r))
    = map_sum id (s_balance st) + payout st0 amount total r.
Proof. unfold paid. case_bool_decide; [lia|]. apply map_sum_add. Qed.

Lemma default_nonneg (m : gmap Address Z) k : map_Forall (fun _ v => 0 <= v) m -> 0 <= default 0 (m !! k).
Proof. intros Hm. destruct (m !! k) eqn:Hk; cbn; [by eapply Hm | done]. Qed.

Lemma paid_nonneg st0 amount total st r :
  0 <= payout st0 amount total r ->
  map_Forall (fun _ v => 0 <= v) (s_received st) -> map_Forall (fun _ v => 0 <= v) (s_balance st) ->
  map_Forall (fun _ v => 0 <= v) (s_received (paid st0 amount total st r)) /\
  map_Forall (fun _ v => 0 <= v) (s_balance (paid st0 amount total st r)).
Proof.
  intros Hp Hr Hb. unfold paid. case_bool_decide; [done|].
  pose proof (default_nonneg _ r Hr). pose proof (default_nonneg _ r Hb).
  split; apply map_Forall_insert_2; try done; unfold received_of, balance_of; lia.
Qed.

(** The whole loop. *)
Section Loop.
Context (st0 : Store) (amount total : Z).
Abbreviation pays := (payout st0 amount total).

Lemma balance_of_paid_all l st a :
  balance_of (foldl (paid st0 amount total) st l) a =
    balance_of st a + list_sum (fun r => if decide (a = r) then pays r else 0) l.
Proof.
  revert st. induction l as [|r l IH]; intros st; cbn [foldl]; [by rewrite Z.add_0_r|].
  rewrite IH, balance_of_paid, list_sum_cons. lia.
Qed.

Lemma received_of_paid_all l st a :
  received_of (foldl (paid st0 amount total) st l) a =
    received_of st a + list_sum (fun r => if decide (a = r) then pays r else 0) l.
Proof.
  revert st. induction l as [|r l IH]; intros st; cbn [foldl]; [by rewrite Z.add_0_r|].
  rewrite IH, received_of_paid, list_sum_cons. lia.
Qed.

Lemma totals_paid_all l st :
  let st' := foldl (paid st0 amount total) st l in
  total_distributed st' = total_distributed st + list_sum pays l /\
  map_sum id (s_received st') = map_sum id (s_received st) + list_sum pays l /\
  map_sum id (s_balance st') = map_sum id (s_balance st) + list_sum pays l.
Proof.
  revert st. induction l as [|r l IH]; intros st; cbn [foldl].
  - unfold list_sum; cbn. lia.
  - cbv zeta. destruct (IH (paid st0 amount total st r)) as (-> & -> & ->).
    rewrite total_paid, sum_received_paid, sum_balance_paid, list_sum_cons. lia.
Qed.

Lemma paid_all_frame l st :
  let st' := foldl (paid st0 amount total) st l in
  s_admin st' = s_admin st /\ s_reward_token st' = s_reward_token st /\
  s_paused st' = s_paused st /\ s_recipient_list st' = s_recipient_list st /\
  s_shares st' = s_shares st.
Proof.
  revert st. induction l as [|r l IH]; intros st; cbn [foldl]; [done|].
  cbv zeta. destruct (IH (paid st0 amount total st r)) as (-> & -> & -> & -> & ->).
  unfold paid. by case_bool_decide.
Qed.

Lemma paid_all_nonneg l st :
  Forall (fun r => 0 <= pays r) l ->
  map_Forall (fun _ v => 0 <= v) (s_received st) -> map_Forall (fun _ v => 0 <= v) (s_balance st) ->
  map_Forall (fun _ v => 0 <= v) (s_received (foldl (paid st0 amount total) st l)) /\
  map_Forall (fun _ v => 0 <= v) (s_balance (foldl (paid st0 amount total) st l)).
Proof.
  intros Hl. revert st. induction Hl as [|r l Hr Hl IH]; intros st H1 H2; [done|].
  destruct (paid_nonneg st0 amount total st r Hr H1 H2). by apply IH.
Qed.
End Loop.

(** Over a list without duplicates each entry counts once. *)
Lemma list_sum_pick (f : Address -> Z) l a :
  NoDup l -> list_sum (fun r => if decide (a = r) then f r else 0) l
    = if decide (a ∈ l) then f a else 0.
Proof.
  induction 1 as [|r l Hr Hnd IH]; [by rewrite decide_False by apply not_elem_of_nil|].
  rewrite list_sum_cons, IH. repeat case_decide; subst; try done; try lia.
  all: try (by exfalso; naive_solver); try (exfalso; set_solver).
Qed.

Lemma payout_bounds st amount total r :
  0 <= amount -> 0 < total -> 0 <= recipient_shares st r ->
  0 <= payout st amount total r /\
  payout st amount total r * total <= amount * recipient_shares st r
    < (payout st amount total r + 1) * total.
Proof.
  intros Ha Ht Hs. unfold payout. rewrite Z.quot_div_nonneg by nia.
  pose proof (Z.div_mod (amount * recipient_shares st r) total ltac:(lia)).
  pose proof (Z.mod_pos_bound (amount * recipient_shares st r) total ltac:(lia)).
  split; [apply Z.div_pos; nia | nia].
Qed.

Lemma shares_nonneg st a : wf_set st -> 0 <= recipient_shares st a.
Proof.
  intros Hs. destruct (decide (a ∈ recipient_list st)) as [Hin|Hn].
  - pose proof (set_listed _ Hs a Hin). lia.
  - by rewrite (set_unlisted _ Hs a Hn).
Qed.
End Books.
