(* ===== verification/TreasuryProps.v ===== *)
(** * Treasury: what holds of every run

    Preservation of the invariant of TreasurySystem.v, solvency, the exact
    pro-rata split, and the liveness of withdrawal. *)

From S2P Require Import Prelude Host Contract SampleChain TreasuryTypes Treasury TreasurySpec TreasurySystem.

Section Preservation.
Context `{HL : Ledger}.
Implicit Types (e : Env) (s : TS) (st : Store).

(** Every call but [initialize] needs, and keeps, an initialized treasury. *)
Lemma exec_admin e op s s' :
  exec e op s = Ok tt s' -> (forall a tk, op <> OpInitialize a tk) ->
  wf (store s) -> is_Some (s_admin (store s)) /\ is_Some (s_admin (store s')) /\
    s_reward_token (store s') = s_reward_token (store s).
Proof.
  intros Hr Hni Hwf.
  assert (forall r, s_admin (store s) = None -> balance_of (store s) r = 0 /\
    recipient_list (store s) = []) as Hempty.
  { intros r Hn. by rewrite (wf_uninitialized _ Hwf Hn). }
  destruct op; try (by destruct (Hni admin token)); cbn [exec] in Hr;
    try (apply runs_forget in Hr as [? Hr]); apply ensures in Hr; cbv zeta in Hr.
  8:{ destruct Hr as (total & _ & _ & _ & Hl & _ & _ & Hst & _). rewrite Hst.
      destruct (paid_all_frame (store s) amount total (recipient_list (store s)) (store s)) as (-> & -> & _).
      destruct (s_admin (store s)) eqn:Ha; [by eauto|]. by destruct (Hempty caller eq_refl) as [_ ?]. }
  8:{ destruct Hr as (token & _ & Ham & Hpos & _ & _ & Hst & _). rewrite Hst. cbn.
      destruct (s_admin (store s)) eqn:Ha; [by eauto|].
      destruct (Hempty recipient eq_refl) as [Hz _]. lia. }
  all: run_simpl; match goal with Hst : store _ = _ |- _ => rewrite Hst end; cbn;
    split_and!; eauto.
Qed.

(** A change of the recipient set that the code re-validated. *)
Lemma wf_set_revalidated st l :
  NoDup l -> Z.of_nat (length l) <= MAX_RECIPIENTS -> recipient_list st = l ->
  (forall a, 0 <= recipient_shares st a) -> (forall a, ~ (a ∈ l) -> recipient_shares st a = 0) ->
  validate_recipient_set st l = inr tt -> wf_set st.
Proof.
  intros Hnd Hlen Hl H0 Hun Hv.
  apply validate_recipient_set_inr in Hv as [Hall _]; [|by apply list.Forall_true].
  split; rewrite ?Hl; [done..| |done].
  intros a Ha. eapply list.Forall_forall in Hall; [|exact Ha]. done.
Qed.

Lemma shares_insert st r bps a :
  recipient_shares (st <| s_shares ::= <[r := bps]> |>) a =
    if decide (a = r) then bps else recipient_shares st a.
Proof.
  unfold recipient_shares; cbn. case_decide; subst; by rewrite ?lookup_insert_eq, ?lookup_insert_ne.
Qed.

Lemma books_same st st' :
  wf_books st -> s_balance st' = s_balance st -> s_received st' = s_received st ->
  s_total_distributed st' = s_total_distributed st -> wf_books st'.
Proof.
  intros [? ? ? ? ?] Hb Hr Ht. split; unfold balance_of, received_of, total_distributed in *;
    by rewrite ?Hb, ?Hr, ?Ht.
Qed.

Lemma set_same st st' :
  wf_set st -> s_recipient_list st' = s_recipient_list st -> s_shares st' = s_shares st -> wf_set st'.
Proof.
  intros [? ? ? ?] Hl Hs. split; unfold recipient_list, recipient_shares in *; by rewrite ?Hl, ?Hs.
Qed.

Lemma add_recipient_set e admin r bps s s' :
  wf_set (store s) -> in_range u32 bps -> add_recipient e admin r bps s = Ok tt s' -> wf_set (store s').
Proof.
  intros Hw [Hb _] Hr. apply ensures in Hr. cbv zeta in Hr.
  destruct Hr as (_ & _ & _ & Hni & Hlt & Hv & -> & _).
  eapply wf_set_revalidated; [..|exact Hv].
  - apply list.NoDup_app. split_and!; [apply Hw| |apply NoDup_singleton].
    by intros x Hx ->%list_elem_of_singleton.
  - rewrite length_app; cbn. lia.
  - done.
  - intros a. rewrite (shares_insert _ r bps a). case_decide; [done|]. exact (shares_nonneg (store s) a Hw).
  - intros a Ha. rewrite (shares_insert _ r bps a). rewrite elem_of_app, list_elem_of_singleton in Ha.
    rewrite decide_False by naive_solver. apply (set_unlisted _ Hw). tauto.
Qed.

Lemma remove_recipient_set e admin r s s' :
  wf_set (store s) -> remove_recipient e admin r s = Ok tt s' -> wf_set (store s').
Proof.
  intros Hw Hr. apply ensures in Hr as (idx & Hr). cbv zeta in Hr.
  destruct Hr as (_ & _ & Hi & Hv & -> & _).
  assert (NoDup (id <$> recipient_list (store s))) as Hnd
    by (rewrite list_fmap_id; exact (set_nodup _ Hw)).
  pose proof (fun y => keyed_elem_delete id _ idx r y Hnd Hi) as Hdel.
  eapply wf_set_revalidated; [..|exact Hv].
  - eapply sublist_NoDup; [apply Hw|]. apply sublist_delete.
  - pose proof (set_length _ Hw). rewrite length_delete by by eexists. lia.
  - done.
  - intros a. rewrite (shares_insert _ r 0 a). case_decide; [done|]. exact (shares_nonneg (store s) a Hw).
  - intros a Ha. rewrite (shares_insert _ r 0 a). case_decide; [done|].
    apply (set_unlisted _ Hw). intros Hin. by apply Ha, Hdel.
Qed.

Lemma update_shares_set e admin r bps s s' :
  wf_set (store s) -> in_range u32 bps ->
  update_recipient_shares e admin r bps s = Ok tt s' -> wf_set (store s').
Proof.
  intros Hw [Hb _] Hr. apply ensures in Hr. cbv zeta in Hr.
  destruct Hr as (_ & _ & _ & Hin & Hv & -> & _).
  eapply wf_set_revalidated; [apply Hw|apply Hw|done|..|exact Hv].
  - intros a. rewrite (shares_insert _ r bps a). case_decide; [done|]. exact (shares_nonneg (store s) a Hw).
  - intros a Ha. rewrite (shares_insert _ r bps a). rewrite decide_False by naive_solver.
    by apply (set_unlisted _ Hw).
Qed.

(** A distribution's payouts are never negative. *)
Lemma distribute_payouts st amount total :
  wf_set st -> 0 < amount -> total_shares st (recipient_list st) = inr total -> total <> 0 ->
  0 < total /\ forall r, 0 <= payout st amount total r.
Proof.
  intros Hw Ha Ht H0. unfold total_shares in Ht. apply add_shares_inr in Ht.
  assert (0 < total) as Hp.
  { assert (0 <= list_sum (recipient_shares st) (recipient_list st)); [|lia].
    apply list_sum_nonneg, list.Forall_true. intros a. by apply shares_nonneg. }
  split; [done|]. intros r. apply payout_bounds; [lia|done|by apply shares_nonneg].
Qed.

Lemma distribute_wf e caller amount s s' :
  wf (store s) -> distribute e caller amount s = Ok tt s' ->
  wf_set (store s') /\ wf_books (store s').
Proof.
  intros Hwf Hr. apply ensures in Hr as (total & Hr). cbv zeta in Hr.
  destruct Hr as (_ & Ha & _ & _ & Ht & H0 & Hst & Hrange & _).
  destruct (wf_accounts _ Hwf) as [Hb Hrec Hbal Htot Hin]. pose proof (wf_recipients _ Hwf) as Hset.
  destruct (distribute_payouts _ _ _ Hset Ha Ht H0) as [Hpt Hpay].
  set (l := recipient_list (store s)) in *.
  destruct (paid_all_frame (store s) amount total l (store s)) as (_ & _ & _ & Hl & Hsh).
  destruct (totals_paid_all (store s) amount total l (store s)) as (Ht1 & Ht2 & _).
  destruct (paid_all_nonneg (store s) amount total l (store s)) as [Hn1 Hn2];
    [by apply list.Forall_true|done..|].
  split; [by eapply set_same; [exact Hset|rewrite Hst..]|].
  split; [|by rewrite Hst..| |by apply Hrange].
  - intros a. rewrite Hst, balance_of_paid_all, received_of_paid_all.
    assert (0 <= list_sum (fun r => if decide (a = r) then payout (store s) amount total r else 0) l).
    { apply list_sum_nonneg, list.Forall_true. intros r. by case_decide. }
    specialize (Hb a). lia.
  - rewrite Hst, Ht1, Ht2, Htot. done.
Qed.

Lemma withdraw_books e r a s s' :
  wf_books (store s) -> withdraw e r s = Ok a s' -> wf_books (store s').
Proof.
  intros [Hb Hrec Hbal Htot Hin] Hr.
  apply ensures in Hr as (token & _ & _ & _ & _ & _ & -> & _). split; try done.
  - intros x. unfold balance_of, received_of in *; cbn. specialize (Hb x).
    destruct (decide (x = r)) as [->|Hne]; rewrite ?lookup_insert_eq, ?lookup_insert_ne by done; cbn; lia.
  - cbn. by apply map_Forall_insert_2.
Qed.

Lemma treasury_initialize_wf e admin token s s' :
  wf (store s) -> initialize e admin token s = Ok tt s' -> wf (store s').
Proof.
  intros Hwf Hr. apply ensures in Hr as (Hn & _ & Hst & _).
  rewrite (wf_uninitialized _ Hwf Hn) in Hst. rewrite Hst. destruct treasury_wf_empty as [_ _ Hset Hbk].
  split; [done|by eexists|by eapply set_same|by eapply books_same].
Qed.

(** The recipient set and the books after any other call. *)
Lemma exec_parts e op s s' :
  wf (store s) -> typed_op op -> (forall a tk, op <> OpInitialize a tk) ->
  exec e op s = Ok tt s' -> wf_set (store s') /\ wf_books (store s').
Proof.
  intros Hwf Hty Hni Hr. pose proof (wf_recipients _ Hwf) as Hset. pose proof (wf_accounts _ Hwf) as Hbk.
  destruct op; cbn [exec] in Hr; try (apply runs_forget in Hr as [? Hr]); try (by destruct (Hni admin token));
    try (split; [first [by eapply add_recipient_set | by eapply remove_recipient_set | by eapply update_shares_set]|]);
    try (by eapply distribute_wf); try (split; [|by eapply withdraw_books]);
    apply ensures in Hr; cbv zeta in Hr; run_simpl;
    match goal with Hst : store _ = _ |- _ => rewrite Hst end;
    try split; first [by eapply set_same | by eapply books_same].
Qed.

Lemma treasury_exec_preserves_wf e op s s' :
  wf (store s) -> typed_op op -> exec e op s = Ok tt s' -> wf (store s').
Proof.
  intros Hwf Hty Hr. destruct op eqn:Hop; [by eapply treasury_initialize_wf|..]; rewrite <- Hop in *;
    (assert (forall a tk, op <> OpInitialize a tk) as Hni by (by intros; subst));
    destruct (exec_parts _ _ _ _ Hwf Hty Hni Hr) as [Hset Hbk];
    destruct (exec_admin _ _ _ _ Hr Hni Hwf) as (Ha & [a' Ha'] & Htk);
    (split; [by rewrite Ha'|intros _; rewrite Htk; by apply (wf_initialized _ Hwf)|done|done]).
Qed.

Lemma treasury_reachable_preserves_wf self tok s : reachable self tok s -> wf (store s).
Proof.
  apply (reachable_store_ind self tok wf); [apply treasury_wf_empty|].
  intros. by eapply treasury_exec_preserves_wf.
Qed.
End Preservation.

(** ** What the treasury owes *)

(** The sum of the recipients' withdrawable balances. *)
Definition owed (st : Store) : Z := map_sum id (s_balance st).

Section Solvency.
Context `{HL : Ledger} (self tok : Address) `{HT : !LawfulToken self tok}.
Implicit Types (e : Env) (s : TS) (st : Store).

Lemma treasury_exec_accounted e op s s' :
  wf (store s) -> s_reward_token (store s) = Some tok -> valid_env self e ->
  exec e op s = Ok tt s' ->
  balance (chain s') tok self - owed (store s') = balance (chain s) tok self - owed (store s).
Proof.
  intros Hwf Htok He Hr. unfold owed.
  destruct op; cbn [exec] in Hr; try (apply runs_forget in Hr as [? Hr]); apply ensures in Hr; cbv zeta in Hr;
    try (run_simpl; repeat match goal with Hx : store _ = _ |- _ => rewrite Hx
           | Hx : chain _ = _ |- _ => rewrite Hx end; done).
  - destruct Hr as (total & _ & Hpos & Ha & _ & Ht & H0 & Hst & _ & Htr & _). rewrite Hst.
    set (l := recipient_list (store s)) in *.
    destruct (totals_paid_all (store s) amount total l (store s)) as (_ & _ & ->).
    destruct (paid_all_frame (store s) amount total l (store s)) as (_ & Htk & _).
    case_bool_decide as Hc.
    + destruct Htr as (token & Htk' & Htr). rewrite Hst, Htk, Htok in Htk'. simplify_eq.
      rewrite (env_self _ _ He) in Htr. pose proof (transfer_balance _ _ _ _ _ _ self Htr) as ->.
      rewrite decide_True by done. rewrite decide_False; [lia|].
      intros <-. by rewrite (env_auth _ _ He) in Ha.
    + rewrite Htr. destruct (distribute_payouts (store s) amount total (wf_recipients _ Hwf)) as [_ Hpay];
        [done..|].
      assert (0 <= list_sum (payout (store s) amount total) l); [|lia].
      by apply list_sum_nonneg, list.Forall_true.
  - destruct Hr as (token & Ha & -> & Hpos & Htk & Htr & Hst & _). rewrite Hst. cbn.
    rewrite Htok in Htk. simplify_eq. rewrite (env_self _ _ He) in Htr.
    pose proof (transfer_balance _ _ _ _ _ _ self Htr) as ->. rewrite (decide_True (P:=self = self)) by done.
    rewrite (decide_False (P:=self = recipient)) by (intros <-; by rewrite (env_auth _ _ He) in Ha).
    rewrite map_sum_insert. unfold balance_of, from_option, default, id in *.
    destruct (s_balance (store s) !! recipient); lia.
Qed.

(** Nothing is owed before [initialize]. *)
Lemma treasury_reachable_solvent s :
  reachable self tok s -> s_reward_token (store s) = Some tok ->
  owed (store s) <= balance (chain s) tok self.
Proof.
  intros Hs. induction Hs as [efs l|s e op Hs IH He Ht|s l Hs IH Hl]; [done| |].
  - apply (call_preserves (fun s => s_reward_token (store s) = Some tok ->
      owed (store s) <= balance (chain s) tok self)); [done|]. intros s' Hx Htok.
    pose proof (treasury_reachable_preserves_wf _ _ _ Hs) as Hwf.
    destruct (decide (s_reward_token (store s) = Some tok)) as [Hs0|Hs0].
    + specialize (IH Hs0). pose proof (treasury_exec_accounted _ _ _ _ Hwf Hs0 He Hx). lia.
    + destruct op as [a tk| | | | | | | | | ]; [|
        by destruct (exec_admin _ _ _ _ Hx ltac:(done) Hwf) as (_ & _ & Heq); rewrite Heq in Htok..].
      apply ensures in Hx as (Hn & _ & Hst & Hch & _). rewrite Hst, Hch.
      rewrite (wf_uninitialized _ Hwf Hn). apply balance_nonneg.
  - intros Htok. specialize (IH Htok). cbn. lia.
Qed.

(** C19: the treasury is solvent and its accounting exact.  In every reachable
    state it holds at least the sum of the recipients' withdrawable balances,
    and every successful call changes its token balance by exactly what it
    changes of that sum: a distribution pulls from its caller exactly what it
    credits, a withdrawal pays exactly what it zeroes.  (TREASURY_DESIGN.md has
    a distribution that only credits what the treasury already holds; this is
    what distribution.rs does.) *)
Theorem treasury_solvent s :
  reachable self tok s -> s_reward_token (store s) = Some tok ->
  owed (store s) <= balance (chain s) tok self /\
  forall e op s', valid_env self e -> exec e op s = Ok tt s' ->
    balance (chain s') tok self - balance (chain s) tok self = owed (store s') - owed (store s).
Proof.
  intros Hs Htok. split; [by apply treasury_reachable_solvent|]. intros e op s' He Hx.
  pose proof (treasury_exec_accounted _ _ _ _ (treasury_reachable_preserves_wf _ _ _ Hs) Htok He Hx). lia.
Qed.

(** The recipient set and the books.  In every reachable state the listed
    recipients are distinct, at most [MAX_RECIPIENTS], each with a share in
    [1..=MAX_SHARES_BPS], and nobody else has a share; a recipient's balance is
    never negative and never above what it ever received; the lifetime total is
    the sum of what the recipients received and fits i128. *)
Theorem treasury_well_formed s :
  reachable self tok s ->
  NoDup (recipient_list (store s)) /\ Z.of_nat (length (recipient_list (store s))) <= MAX_RECIPIENTS /\
  (forall a, a ∈ recipient_list (store s) -> 1 <= recipient_shares (store s) a <= MAX_SHARES_BPS) /\
  (forall a, ~ (a ∈ recipient_list (store s)) -> recipient_shares (store s) a = 0) /\
  (forall a, 0 <= recipient_balance (store s) a <= recipient_total_received (store s) a) /\
  total_distributed (store s) = map_sum id (s_received (store s)) /\
  in_range i128 (total_distributed (store s)).
Proof.
  intros [_ _ [Hnd Hlen Hin Hout] [Hb _ _ Ht Hr]]%treasury_reachable_preserves_wf. by split_and!.
Qed.

(** The sum of the floor shares, against the amount. *)
Lemma payouts_sum st amount total l :
  0 <= amount -> 0 < total -> (forall a, 0 <= recipient_shares st a) ->
  list_sum (payout st amount total) l * total <= amount * list_sum (recipient_shares st) l /\
  amount * list_sum (recipient_shares st) l + Z.of_nat (length l)
    <= (list_sum (payout st amount total) l + Z.of_nat (length l)) * total.
Proof.
  intros Ha Ht Hs. induction l as [|r l [IH1 IH2]]; [cbn; lia|].
  rewrite !list_sum_cons. cbn [length]. rewrite Nat2Z.inj_succ.
  destruct (payout_bounds st amount total r Ha Ht (Hs r)) as (_ & Hlo & Hhi). lia.
Qed.

(** C20: the pro-rata split.  A distribution raises every listed recipient's
    balance and lifetime total by the floor of [amount * share / total],
    and no one else's; the caller pays exactly the sum of these; only the
    rounding, less than one unit per recipient, stays with the caller; and the
    summary event lists every recipient with what it got.  (TREASURY_DESIGN.md
    gives the rounding to the first recipient and pulls nothing; distribution.rs
    does neither.) *)
Theorem distribute_exact e caller amount s s' :
  reachable self tok s -> distribute e caller amount s = Ok tt s' ->
  let l := recipient_list (store s) in
  let total := list_sum (recipient_shares (store s)) l in
  let part a := amount * recipient_shares (store s) a / total in
  let credited_total := list_sum part l in
  (forall a, recipient_balance (store s') a =
     recipient_balance (store s) a + (if decide (a ∈ l) then part a else 0)) /\
  (forall a, recipient_total_received (store s') a =
     recipient_total_received (store s) a + (if decide (a ∈ l) then part a else 0)) /\
  total_distributed (store s') = total_distributed (store s) + credited_total /\
  amount - Z.of_nat (length l) < credited_total <= amount /\
  (if decide (0 < credited_total) then exists token, s_reward_token (store s) = Some token /\
     transfer (chain s) e token caller (current_contract_address e) credited_total = Some (chain s')
   else chain s' = chain s) /\
  exists evs, events s' = Distribution caller amount credited_total ((fun a => (a, part a)) <$> l) :: evs.
Proof.
  intros Hs Hr. pose proof (treasury_reachable_preserves_wf _ _ _ Hs) as Hwf.
  pose proof (wf_recipients _ Hwf) as Hset. apply ensures in Hr as (total & Hr). cbv zeta in Hr.
  destruct Hr as (_ & Ha & _ & Hne & Ht & H0 & Hst & _ & Htr & Hev).
  destruct (distribute_payouts _ _ _ Hset Ha Ht H0) as [Hp _].
  unfold total_shares in Ht. apply add_shares_inr in Ht. rewrite Z.add_0_l in Ht. cbv zeta.
  rewrite <- Ht. set (l := recipient_list (store s)) in *.
  set (part := fun a => amount * recipient_shares (store s) a / total).
  assert (forall a, payout (store s) amount total a = part a) as Hpart.
  { intros a. apply Z.quot_div_nonneg; [|done]. pose proof (shares_nonneg _ a Hset). nia. }
  assert (list_sum (payout (store s) amount total) l = list_sum part l) as Hsum.
  { unfold list_sum. clear -Hpart. induction l as [|a l IH]; cbn; [done|]. by rewrite Hpart, IH. }
  assert (forall a, list_sum (fun r => if decide (a = r) then payout (store s) amount total r else 0) l
    = if decide (a ∈ l) then part a else 0) as Hpick.
  { intros a. rewrite list_sum_pick by apply Hset. by rewrite Hpart. }
  destruct (totals_paid_all (store s) amount total l (store s)) as (Htd & _).
  destruct (paid_all_frame (store s) amount total l (store s)) as (_ & Htk & _).
  destruct (payouts_sum (store s) amount total l) as [Hlo Hhi]; [lia|done|by intros; apply shares_nonneg|].
  rewrite <- Ht in Hlo, Hhi. rewrite Hsum in *.
  assert (0 < Z.of_nat (length l)) by (destruct l; [done|cbn; lia]).
  unfold recipient_balance, recipient_total_received. rewrite Hst. split_and!.
  - intros a. by rewrite balance_of_paid_all, Hpick.
  - intros a. by rewrite received_of_paid_all, Hpick.
  - done.
  - nia.
  - nia.
  - rewrite Hst, Htk in Htr. case_bool_decide; case_decide; (done || lia).
  - destruct Hev as [evs ->]. exists evs. f_equal. f_equal.
    assert (filter (fun r => listed (store s) r = true) l = l) as ->.
    { apply filter_all, list.Forall_forall. intros a Hin. unfold listed.
      pose proof (set_listed _ Hset a Hin). rewrite bool_decide_false by lia. done. }
    apply list_fmap_ext. intros i a _. by rewrite Hpart.
Qed.

(** Withdrawal liveness.  In every reachable state anyone with a positive
    credited balance - still listed or removed, paused or not - can withdraw
    all of it, if the token delivers it, leaving every other balance alone. *)
Theorem withdraw_live e recipient s :
  reachable self tok s -> s_reward_token (store s) = Some tok -> valid_env self e ->
  authorized e recipient = true -> 0 < recipient_balance (store s) recipient ->
  recipient_balance (store s) recipient <= balance (chain s) tok self /\
  forall l, transfer (chain s) e tok self recipient (recipient_balance (store s) recipient) = Some l ->
  exists s', withdraw e recipient s = Ok (recipient_balance (store s) recipient) s' /\ chain s' = l /\
    recipient_balance (store s') recipient = 0 /\
    forall a, a <> recipient -> recipient_balance (store s') a = recipient_balance (store s) a.
Proof.
  unfold recipient_balance. intros Hs Htok He Ha Hpos.
  pose proof (wf_accounts _ (treasury_reachable_preserves_wf _ _ _ Hs)) as Hbk.
  assert (balance_of (store s) recipient <= balance (chain s) tok self) as Hle.
  { transitivity (owed (store s)); [|by apply treasury_reachable_solvent]. unfold balance_of in *.
    destruct (s_balance (store s) !! recipient) as [v|] eqn:Hk; cbn in *; [|lia].
    eapply (map_sum_lookup_le id); [|exact Hk]. intros k x Hx. by apply (books_balances _ Hbk) in Hx. }
  split; [exact Hle|]. intros l Hl.
  eexists. split.
  - unfold withdraw. do 2 forward1. pass; [lia|]. do 3 forward1. rewrite (env_self _ _ He).
    do 2 forward1. by apply runs.
  - split; [done|]. unfold balance_of; cbn. rewrite lookup_insert_eq. split; [done|].
    intros a Hne. by rewrite lookup_insert_ne.
Qed.
End Solvency.

(** ** A sample run and witnesses *)

Definition admin0 : Address := addr 10.
Definition funder : Address := addr 11.
Definition alice : Address := addr 12.
Definition bob : Address := addr 13.
Definition carol : Address := addr 14.

Definition deployed : TS := mkSys empty_store [] (<[(token, funder) := 10000]> ∅).

Definition configure : list (Env * Op) :=
  [ (at_ledger 100 10, OpInitialize admin0 token);
    (at_ledger 101 15, OpAddRecipient admin0 alice 5000);
    (at_ledger 102 20, OpAddRecipient admin0 bob 2500);
    (at_ledger 103 25, OpAddRecipient admin0 carol 1) ].

Definition configured : TS := run_calls configure deployed.
Definition distributed : TS := call (at_ledger 104 30) (OpDistribute funder 1000) configured.

(** Alice is removed and the treasury paused. *)
Definition frozen : TS :=
  run_calls [(at_ledger 105 35, OpRemoveRecipient admin0 alice); (at_ledger 106 40, OpPause admin0)]
    distributed.

Ltac sample := repeat constructor; by vm_compute.

Lemma configured_reachable : reachable self token configured.
Proof. apply reachable_run; [apply reachable_deploy | sample]. Qed.

Lemma distributed_reachable : reachable self token distributed.
Proof. apply reachable_call; [apply configured_reachable | sample | sample]. Qed.

Lemma frozen_reachable : reachable self token frozen.
Proof. apply reachable_run; [apply distributed_reachable | sample]. Qed.

(** 7501 shares: 666 and 333 are credited, carol's share rounds to nothing, and
    the unit left over is never pulled. *)
Example distributed_summary :
  (recipient_balance (store distributed) alice, recipient_balance (store distributed) bob,
   recipient_balance (store distributed) carol, total_distributed (store distributed),
   balance (chain distributed) token self, balance (chain distributed) token funder,
   recipients (store frozen), is_paused (store frozen))
  = (666, 333, 0, 999, 999, 9001, [mkRecipient bob 2500; mkRecipient carol 1], true).
Proof. vm_compute. reflexivity. Qed.

Lemma distribute_commits `{Ledger} e caller amount s :
  succeeds e (OpDistribute caller amount) s = true ->
  distribute e caller amount s = Ok tt (call e (OpDistribute caller amount) s).
Proof. exact (succeeds_call e (OpDistribute caller amount) s). Qed.

Lemma treasury_solvent_witness :
  owed (store distributed) <= balance (chain distributed) token self.
Proof.
  destruct (treasury_solvent self token distributed) as [Hle _].
  - exact distributed_reachable.
  - vm_compute. reflexivity.
  - exact Hle.
Defined.

Lemma treasury_well_formed_witness :
  total_distributed (store frozen) = map_sum id (s_received (store frozen)).
Proof.
  destruct (treasury_well_formed self token frozen frozen_reachable) as (_ & _ & _ & _ & _ & Ht & _).
  exact Ht.
Defined.

Lemma distribute_exact_witness :
  total_distributed (store distributed) = total_distributed (store configured) +
    list_sum (fun a => 1000 * recipient_shares (store configured) a /
                list_sum (recipient_shares (store configured)) (recipient_list (store configured)))
      (recipient_list (store configured)).
Proof.
  destruct (distribute_exact self token (at_ledger 104 30) funder 1000 configured distributed)
    as (_ & _ & Ht & _).
  - exact configured_reachable.
  - refine (distribute_commits (at_ledger 104 30) funder 1000 configured _). vm_compute. reflexivity.
  - exact Ht.
Defined.

Lemma withdraw_live_witness :
  exists s', withdraw (at_ledger 107 45) alice frozen = Ok (recipient_balance (store frozen) alice) s' /\
    recipient_balance (store s') alice = 0.
Proof.
  destruct (withdraw_live self token (at_ledger 107 45) alice frozen) as [_ Hl].
  - exact frozen_reachable.
  - vm_compute. reflexivity.
  - sample.
  - reflexivity.
  - by vm_compute.
  - apply granted in Hl; [|by vm_compute]. destruct Hl as (l & s' & Hr & _ & Hz & _).
    exists s'. split; [exact Hr | exact Hz].
Defined.
