(* ===== verification/KprsToken.v ===== *)
(** * Governance token: the KPRS contract

    src/contracts/governance-token/src/lib.rs: the implementation with typed
    errors, vesting and balance checkpoints.  (The file also holds the remains of
    an older token merged into it; [initialize] and [transfer_from] are read
    across the interleaved lines, see the root file.)  Amounts are i128, the
    ledgers u32, the times u64; plain arithmetic traps on overflow. *)

From S2P Require Import Prelude Host.

Inductive TokenError :=
  | AlreadyInitialized
  | NegativeAmount
  | InsufficientBalance
  | InsufficientAllowance
  | TokensLocked
  | InvalidExpiration
  | Unauthorized.

#[export] Instance TokenError_eq_dec : EqDecision TokenError.
Proof. solve_decision. Defined.

Record VestingSchedule := mkVesting {
  total_amount : Z;
  start_time : Z;
  cliff_duration : Z;
  total_duration : Z;
}.

Record AllowanceDataKey := mkAllowanceKey { ak_from : Address; ak_spender : Address }.

#[export] Instance AllowanceDataKey_eq_dec : EqDecision AllowanceDataKey.
Proof. solve_decision. Defined.

#[export] Instance AllowanceDataKey_countable : Countable AllowanceDataKey.
Proof.
  refine (inj_countable' (fun k => (ak_from k, ak_spender k)) (fun '(a, b) => mkAllowanceKey a b) _).
  by intros [].
Defined.

Record AllowanceValue := mkAllowance { al_amount : Z; al_expiration_ledger : Z }.

Record Checkpoint := mkCheckpoint { cp_ledger : Z; cp_balance : Z }.

Inductive DataKey :=
  | Admin
  | Initialized
  | Balance (a : Address)
  | Allowance (k : AllowanceDataKey)
  | Vesting (a : Address)
  | CheckpointCount (a : Address)
  | CheckpointAt (a : Address) (index : Z).

Record Store := mkStore {
  s_admin : option Address;
  s_initialized : option bool;
  s_balance : gmap Address Z;
  s_allowance : gmap AllowanceDataKey AllowanceValue;
  s_vesting : gmap Address VestingSchedule;
  s_checkpoint_count : gmap Address Z;
  s_checkpoint : gmap (Address * Z) Checkpoint;
}.

#[export] Instance update_s_admin : Update s_admin :=
  fun f s => mkStore (f (s_admin s)) (s_initialized s) (s_balance s) (s_allowance s) (s_vesting s) (s_checkpoint_count s) (s_checkpoint s).
#[export] Instance update_s_initialized : Update s_initialized :=
  fun f s => mkStore (s_admin s) (f (s_initialized s)) (s_balance s) (s_allowance s) (s_vesting s) (s_checkpoint_count s) (s_checkpoint s).
#[export] Instance update_s_balance : Update s_balance :=
  fun f s => mkStore (s_admin s) (s_initialized s) (f (s_balance s)) (s_allowance s) (s_vesting s) (s_checkpoint_count s) (s_checkpoint s).
#[export] Instance update_s_allowance : Update s_allowance :=
  fun f s => mkStore (s_admin s) (s_initialized s) (s_balance s) (f (s_allowance s)) (s_vesting s) (s_checkpoint_count s) (s_checkpoint s).
#[export] Instance update_s_vesting : Update s_vesting :=
  fun f s => mkStore (s_admin s) (s_initialized s) (s_balance s) (s_allowance s) (f (s_vesting s)) (s_checkpoint_count s) (s_checkpoint s).
#[export] Instance update_s_checkpoint_count : Update s_checkpoint_count :=
  fun f s => mkStore (s_admin s) (s_initialized s) (s_balance s) (s_allowance s) (s_vesting s) (f (s_checkpoint_count s)) (s_checkpoint s).
#[export] Instance update_s_checkpoint : Update s_checkpoint :=
  fun f s => mkStore (s_admin s) (s_initialized s) (s_balance s) (s_allowance s) (s_vesting s) (s_checkpoint_count s) (f (s_checkpoint s)).

Definition empty_store : Store := mkStore None None ∅ ∅ ∅ ∅ ∅.

Inductive Event :=
  | Mint (admin to : Address) (amount : Z)
  | Approve (from spender : Address) (amount : Z)
  | Transfer (from to : Address) (amount : Z)
  | Burn (from : Address) (amount : Z).

Definition VERSION : Z := 1.
Definition DECIMALS : Z := 7.
Definition ONE_TOKEN : Z := 10000000.
Definition TOTAL_SUPPLY : Z := 100000000 * ONE_TOKEN.
Definition ALLOC_EARLY_KEEPERS : Z := 40000000 * ONE_TOKEN.
Definition ALLOC_TREASURY : Z := 25000000 * ONE_TOKEN.
Definition ALLOC_CORE_TEAM : Z := 20000000 * ONE_TOKEN.
Definition ALLOC_PUBLIC : Z := 15000000 * ONE_TOKEN.
Definition TEAM_CLIFF_SECONDS : Z := 180 * 24 * 60 * 60.
Definition TEAM_VESTING_SECONDS : Z := 730 * 24 * 60 * 60.

(** [extend_ttl(_, 100_000, 300_000)] *)
Definition BUMP_THRESHOLD : Z := 100000.
Definition BUMP_LEDGERS : Z := 300000.

Abbreviation KS := (Sys Store DataKey Event).
Abbreviation KM := (M (Sys Store DataKey Event) TokenError).

Section Token.
Context `{Ledger}.
Implicit Types (e : Env) (id from to spender : Address) (amount : Z) (st : Store).

Definition extend_ttl (k : DataKey) : KM unit :=
  log (ExtendPersistent k BUMP_THRESHOLD BUMP_LEDGERS).

(** ** Internal helpers *)

Definition balance st id : Z := default 0 (s_balance st !! id).
Definition checkpoint_count st id : Z := default 0 (s_checkpoint_count st !! id).

(** The tail of [set_balance]: a new checkpoint after the last one. *)
Definition push_checkpoint e id amount (count : Z) : KM unit :=
  write (fun st => st <| s_checkpoint ::= <[(id, count) := mkCheckpoint (ledger_sequence e) amount]> |>);;
  extend_ttl (CheckpointAt id count);;
  next ← expect (checked_add u32 count 1);
  write (fun st => st <| s_checkpoint_count ::= <[id := next]> |>);;
  extend_ttl (CheckpointCount id).

Definition set_balance e id amount : KM unit :=
  write (fun st => st <| s_balance ::= <[id := amount]> |>);;
  extend_ttl (Balance id);;
  count ← read (fun st => checkpoint_count st id);
  if bool_decide (count > 0) then
    let last_idx := count - 1 in
    stored ← read (fun st => s_checkpoint st !! (id, last_idx));
    last_cp ← expect stored;
    if bool_decide (cp_ledger last_cp = ledger_sequence e) then
      write (fun st => st <| s_checkpoint ::=
        <[(id, last_idx) := mkCheckpoint (ledger_sequence e) amount]> |>);;
      extend_ttl (CheckpointAt id last_idx)
    else push_checkpoint e id amount count
  else push_checkpoint e id amount count.

(** ** Reads *)

Definition allowance e st from spender : Z :=
  match s_allowance st !! mkAllowanceKey from spender with
  | Some val => if bool_decide (al_expiration_ledger val >= ledger_sequence e) then al_amount val else 0
  | None => 0
  end.

Definition vesting_schedule st id : option VestingSchedule := s_vesting st !! id.

(** The vested part of a schedule at time [now]. *)
Definition vested_at (now : Z) (schedule : VestingSchedule) : KM Z :=
  cliff_end ← expect (checked_add u64 (start_time schedule) (cliff_duration schedule));
  if bool_decide (now < cliff_end) then mret 0 else
  vesting_end ← expect (checked_add u64 (start_time schedule) (total_duration schedule));
  if bool_decide (now >= vesting_end) then mret (total_amount schedule) else
  elapsed ← expect (checked_sub u64 now (start_time schedule));
  product ← expect (checked_mul i128 (total_amount schedule) elapsed);
  if bool_decide (total_duration schedule = 0) then panic
  else mret (Z.quot product (total_duration schedule)).

Definition vested_balance e id : KM Z :=
  stored ← read (fun st => vesting_schedule st id);
  match stored with
  | None => read (fun st => balance st id)
  | Some schedule => vested_at (ledger_timestamp e) schedule
  end.

Definition unvested_balance e id : KM Z :=
  stored ← read (fun st => vesting_schedule st id);
  match stored with
  | None => mret 0
  | Some schedule =>
      vested ← vested_balance e id;
      expect (checked_sub i128 (total_amount schedule) vested)
  end.

Definition spendable_balance e id : KM Z :=
  current_balance ← read (fun st => balance st id);
  unvested ← unvested_balance e id;
  spendable ← expect (checked_sub i128 current_balance unvested);
  mret (if bool_decide (spendable < 0) then 0 else spendable).

Definition decimals : Z := DECIMALS.
Definition name : string := "Keeper Network Governance Token".
Definition symbol : string := "KPRS".
Definition total_supply : Z := TOTAL_SUPPLY.
Definition version : Z := VERSION.

(** [balance_at]'s binary search over the checkpoints of [id].  The bounds are
    i64 and stay within [-1 ..= count], a u32, so their arithmetic cannot
    overflow; [mid as u32] keeps the low 32 bits.  [None]: out of fuel;
    [Some None]: the [unwrap] of a missing checkpoint traps. *)
Fixpoint search st id (ledger : Z) (fuel : nat) (low high ans : Z) : option (option Z) :=
  match fuel with
  | O => None
  | S fuel =>
      if bool_decide (low <= high) then
        let mid := low + Z.quot (high - low) 2 in
        match s_checkpoint st !! (id, as_u32 mid) with
        | None => Some None
        | Some cp =>
            if bool_decide (cp_ledger cp <= ledger) then search st id ledger fuel (mid + 1) high mid
            else search st id ledger fuel low (mid - 1) ans
        end
      else Some (Some ans)
  end.

(** Fuel for [count] checkpoints: the interval shrinks at every step. *)
Definition search_fuel (count : Z) : nat := S (Z.to_nat count).

Definition balance_at id (ledger : Z) : KM Z :=
  count ← read (fun st => checkpoint_count st id);
  if bool_decide (count = 0) then mret 0 else
  found ← read (fun st => search st id ledger (search_fuel count) 0 (count - 1) (-1));
  ans ← expect (mjoin found);
  if bool_decide (ans >= 0) then
    stored ← read (fun st => s_checkpoint st !! (id, as_u32 ans));
    cp ← expect stored;
    mret (cp_balance cp)
  else mret 0.

(** ** Entry points *)

Definition initialize e (admin early_keepers treasury core_team public_distribution : Address) : KM unit :=
  initialized ← read s_initialized;
  fail_if (bool_decide (is_Some initialized)) AlreadyInitialized;;
  require_auth e admin;;
  write (fun st => st <| s_admin := Some admin |>);;
  write (fun st => st <| s_initialized := Some true |>);;
  log (ExtendInstance BUMP_THRESHOLD BUMP_LEDGERS);;
  set_balance e early_keepers ALLOC_EARLY_KEEPERS;;
  publish (Mint admin early_keepers ALLOC_EARLY_KEEPERS);;
  set_balance e treasury ALLOC_TREASURY;;
  publish (Mint admin treasury ALLOC_TREASURY);;
  set_balance e core_team ALLOC_CORE_TEAM;;
  let team_vesting := mkVesting ALLOC_CORE_TEAM (ledger_timestamp e)
                        TEAM_CLIFF_SECONDS TEAM_VESTING_SECONDS in
  write (fun st => st <| s_vesting ::= <[core_team := team_vesting]> |>);;
  publish (Mint admin core_team ALLOC_CORE_TEAM);;
  set_balance e public_distribution ALLOC_PUBLIC;;
  publish (Mint admin public_distribution ALLOC_PUBLIC).

Definition approve e from spender amount (expiration_ledger : Z) : KM unit :=
  require_auth e from;;
  fail_if (bool_decide (amount < 0)) NegativeAmount;;
  fail_if (bool_decide (expiration_ledger < ledger_sequence e)) InvalidExpiration;;
  let key := mkAllowanceKey from spender in
  (if bool_decide (amount = 0) then write (fun st => st <| s_allowance ::= delete key |>)
   else write (fun st => st <| s_allowance ::= <[key := mkAllowance amount expiration_ledger]> |>));;
  publish (Approve from spender amount).

(** The checks every debit makes: unvested tokens stay, then the balance. *)
Definition require_spendable e from amount : KM Z :=
  spendable ← spendable_balance e from;
  fail_if (bool_decide (amount > spendable)) TokensLocked;;
  from_balance ← read (fun st => balance st from);
  fail_if (bool_decide (from_balance < amount)) InsufficientBalance;;
  mret from_balance.

(** The two writes of a transfer, both balances read before either. *)
Definition move_balance e from to (from_balance amount : Z) : KM unit :=
  to_balance ← read (fun st => balance st to);
  debited ← expect (checked_sub i128 from_balance amount);
  set_balance e from debited;;
  credited ← expect (checked_add i128 to_balance amount);
  set_balance e to credited.

Definition transfer e from to amount : KM unit :=
  require_auth e from;;
  fail_if (bool_decide (amount < 0)) NegativeAmount;;
  if bool_decide (amount = 0) then mret tt else
  from_balance ← require_spendable e from amount;
  move_balance e from to from_balance amount;;
  publish (Transfer from to amount).

(** The allowance check of [transfer_from] and [burn_from]. *)
Definition require_allowance e from spender amount : KM Z :=
  current_allowance ← read (fun st => allowance e st from spender);
  fail_if (bool_decide (current_allowance < amount)) InsufficientAllowance;;
  mret current_allowance.

(** The allowance deduction of both. *)
Definition deduct_allowance from spender (current_allowance amount : Z) : KM unit :=
  let key := mkAllowanceKey from spender in
  stored ← read (fun st => s_allowance st !! key);
  val ← expect stored;
  remaining ← expect (checked_sub i128 current_allowance amount);
  write (fun st => st <| s_allowance ::=
    <[key := mkAllowance remaining (al_expiration_ledger val)]> |>).

Definition transfer_from e spender from to amount : KM unit :=
  require_auth e spender;;
  fail_if (bool_decide (amount < 0)) NegativeAmount;;
  if bool_decide (amount = 0) then mret tt else
  current_allowance ← require_allowance e from spender amount;
  from_balance ← require_spendable e from amount;
  move_balance e from to from_balance amount;;
  deduct_allowance from spender current_allowance amount;;
  publish (Transfer from to amount).

Definition burn e from amount : KM unit :=
  require_auth e from;;
  fail_if (bool_decide (amount < 0)) NegativeAmount;;
  if bool_decide (amount = 0) then mret tt else
  from_balance ← require_spendable e from amount;
  debited ← expect (checked_sub i128 from_balance amount);
  set_balance e from debited;;
  publish (Burn from amount).

Definition burn_from e spender from amount : KM unit :=
  require_auth e spender;;
  fail_if (bool_decide (amount < 0)) NegativeAmount;;
  if bool_decide (amount = 0) then mret tt else
  current_allowance ← require_allowance e from spender amount;
  from_balance ← require_spendable e from amount;
  debited ← expect (checked_sub i128 from_balance amount);
  set_balance e from debited;;
  deduct_allowance from spender current_allowance amount;;
  publish (Burn from amount).
End Token.

(** ** The entry points as one step function *)

Inductive Op :=
  | OpInitialize (admin early_keepers treasury core_team public_distribution : Address)
  | OpApprove (from spender : Address) (amount expiration_ledger : Z)
  | OpTransfer (from to : Address) (amount : Z)
  | OpTransferFrom (spender from to : Address) (amount : Z)
  | OpBurn (from : Address) (amount : Z)
  | OpBurnFrom (spender from : Address) (amount : Z).

Definition typed_op (op : Op) : Prop :=
  match op with
  | OpInitialize _ _ _ _ _ => True
  | OpApprove _ _ amount expiration => in_range i128 amount /\ in_range u32 expiration
  | OpTransfer _ _ amount | OpTransferFrom _ _ _ amount
  | OpBurn _ amount | OpBurnFrom _ _ amount => in_range i128 amount
  end.

Definition exec `{Ledger} (e : Env) (op : Op) : KM unit :=
  match op with
  | OpInitialize admin k t c p => initialize e admin k t c p
  | OpApprove from spender amount expiration => approve e from spender amount expiration
  | OpTransfer from to amount => transfer e from to amount
  | OpTransferFrom spender from to amount => transfer_from e spender from to amount
  | OpBurn from amount => burn e from amount
  | OpBurnFrom spender from amount => burn_from e spender from amount
  end.
