(* ===== verification/KprsTokenSpec.v ===== *)
(** * Governance token: balance histories

    The abstract history of an account - its balance at the end of every ledger
    in which it changed - and the refinement of the stored checkpoints to it:
    [set_balance] records, [balance_at]'s binary search reads.  Then what each
    helper and entry point of KprsToken.v does to storage. *)

From Stdlib Require Import Sorted.
From S2P Require Import Prelude Host KprsToken.

(** ** The abstract history *)

Definition earlier (a b : Checkpoint) : Prop := cp_ledger a < cp_ledger b.

(** The balance set in ledger [n]; an earlier one in the same ledger is lost. *)
Definition record (n amount : Z) (h : list Checkpoint) : list Checkpoint :=
  filter (fun cp => cp_ledger cp <> n) h ++ [mkCheckpoint n amount].

(** The balance at the end of ledger [l], read off by a linear scan. *)
Definition value_at (l : Z) (h : list Checkpoint) : Z :=
  from_option cp_balance 0 (list.last (filter (fun cp => cp_ledger cp <= l) h)).

(** A history up to ledger [n]. *)
Record history_until (n : Z) (h : list Checkpoint) : Prop := {
  hist_sorted : StronglySorted earlier h;
  hist_past : Forall (fun cp => cp_ledger cp <= n) h;
}.

Section History.
Implicit Types (h : list Checkpoint).

Lemma filter_prefix {A} (P : A -> Prop) `{!forall x, Decision (P x)} (l : list A) k :
  (forall i x, l !! i = Some x -> P x <-> (i < k)%nat) -> filter P l = take k l.
Proof.
  revert k. induction l as [|x l IH]; intros k Hk; [by rewrite take_nil|].
  rewrite filter_cons. specialize (Hk 0%nat x eq_refl) as H0.
  destruct k as [|k]; case_decide as Hx.
  - apply H0 in Hx. lia.
  - rewrite (IH 0%nat); [by rewrite take_0|]. intros i y Hy. rewrite (Hk (S i) y Hy). lia.
  - cbn. f_equal. apply IH. intros i y Hy. rewrite (Hk (S i) y Hy). lia.
  - exfalso. apply Hx, H0. lia.
Qed.

Lemma sorted_lookup h i j a b :
  StronglySorted earlier h -> h !! i = Some a -> h !! j = Some b -> (i < j)%nat -> earlier a b.
Proof.
  intros Hs. revert i j. induction Hs as [|x h Hs IH Hx]; intros i j Hi Hj Hlt; [done|].
  destruct j as [|j]; [lia|]. cbn in Hj. destruct i as [|i]; cbn in Hi; simplify_eq.
  - rewrite list.Forall_forall in Hx. by apply Hx, list_elem_of_lookup_2 with j.
  - apply (IH i j); [done..|lia].
Qed.

Lemma history_until_mono n m h : n <= m -> history_until n h -> history_until m h.
Proof.
  intros Hnm [Hs Hp]. split; [done|].
  apply list.Forall_forall. intros x Hx. rewrite list.Forall_forall in Hp. specialize (Hp x Hx). cbn in *. lia.
Qed.

Lemma filter_forget n h :
  Forall (fun cp => cp_ledger cp < n) h -> filter (fun cp => cp_ledger cp <> n) h = h.
Proof.
  intros Hh. apply filter_all, list.Forall_forall. intros x Hx.
  rewrite list.Forall_forall in Hh. specialize (Hh x Hx). cbn in *. lia.
Qed.

Lemma sorted_snoc h cp :
  StronglySorted earlier h -> Forall (fun c => earlier c cp) h -> StronglySorted earlier (h ++ [cp]).
Proof.
  induction 1 as [|x h Hs IH Hx]; intros Hf; cbn; [by repeat constructor|].
  apply list.Forall_cons in Hf as [Hxc Hf]. constructor; [by apply IH|].
  apply Forall_app. split; [done|]. by constructor.
Qed.

Lemma sorted_filter (P : Checkpoint -> Prop) `{!forall x, Decision (P x)} h :
  StronglySorted earlier h -> StronglySorted earlier (filter P h).
Proof.
  induction 1 as [|x h Hs IH Hx]; [constructor|]. rewrite filter_cons. case_decide; [|done].
  constructor; [done|]. by apply Forall_filter.
Qed.

Lemma record_history n amount h : history_until n h -> history_until n (record n amount h).
Proof.
  intros [Hs Hp]. split; unfold record.
  - apply sorted_snoc; [by apply sorted_filter|]. apply list.Forall_forall. intros x [Hne Hx]%list_elem_of_filter.
    rewrite list.Forall_forall in Hp. specialize (Hp x Hx). unfold earlier; cbn in *. lia.
  - apply Forall_app. split; [by apply Forall_filter|]. constructor; [cbn; lia|constructor].
Qed.

(** Recording in a later ledger leaves the past alone. *)
Lemma value_at_record l n amount h : l < n -> value_at l (record n amount h) = value_at l h.
Proof.
  intros Hn. unfold value_at, record. rewrite list.filter_app, list_filter_filter_l.
  - rewrite filter_cons, decide_False by (cbn; lia). by rewrite app_nil_r.
  - intros x. lia.
Qed.

(** A history tells the balance its last entry has, at every later ledger. *)
Lemma value_at_last l h :
  Forall (fun cp => cp_ledger cp <= l) h -> value_at l h = from_option cp_balance 0 (list.last h).
Proof. intros Hh. unfold value_at. by rewrite filter_all. Qed.
End History.

(** ** The stored checkpoints *)

Section Checkpoints.
Context `{Ledger}.
Implicit Types (e : Env) (id : Address) (st : Store) (h : list Checkpoint).

(** The checkpoints of [id] are the entries of the history [h], in order. *)
Record represents st id h : Prop := {
  repr_count : checkpoint_count st id = Z.of_nat (length h);
  repr_entry (i : nat) cp : h !! i = Some cp -> s_checkpoint st !! (id, Z.of_nat i) = Some cp;
}.

(** What is stored, read by index. *)
Definition checkpoints st id : list Checkpoint :=
  omap (fun i => s_checkpoint st !! (id, Z.of_nat i)) (seq 0 (Z.to_nat (checkpoint_count st id))).

Lemma omap_seq_lookup {A} (f : nat -> option A) (l : list A) k :
  (forall i x, l !! i = Some x -> f (k + i)%nat = Some x) -> omap f (seq k (length l)) = l.
Proof.
  revert k. induction l as [|x l IH]; intros k Hf; [done|]. cbn.
  pose proof (Hf 0%nat x eq_refl) as H0. rewrite Nat.add_0_r in H0. rewrite H0. f_equal. apply IH.
  intros i y Hy. rewrite <- (Hf (S i) y Hy). f_equal. lia.
Qed.

Lemma represents_checkpoints st id h : represents st id h -> checkpoints st id = h.
Proof.
  intros [Hc He]. unfold checkpoints. rewrite Hc, Nat2Z.id.
  apply (omap_seq_lookup (fun i => s_checkpoint st !! (id, Z.of_nat i))). intros i x Hx. cbn. by apply He.
Qed.

(** No account has more than [u32::MAX] checkpoints. *)
Definition counts_fit st : Prop := forall a, in_range u32 (checkpoint_count st a).

(** [set_balance]'s effect in storage. *)
Definition balance_set (n : Z) id (amount : Z) st : Store :=
  let st1 := st <| s_balance ::= <[id := amount]> |> in
  let count := checkpoint_count st id in
  let push := st1 <| s_checkpoint ::= <[(id, count) := mkCheckpoint n amount]> |>
                  <| s_checkpoint_count ::= <[id := count + 1]> |> in
  if bool_decide (count > 0) then
    match s_checkpoint st !! (id, count - 1) with
    | Some cp =>
        if bool_decide (cp_ledger cp = n)
        then st1 <| s_checkpoint ::= <[(id, count - 1) := mkCheckpoint n amount]> |> else push
    | None => push
    end
  else push.

#[export] Instance ensures_push_checkpoint e id amount count :
  Ensures (push_checkpoint e id amount count) (fun s _ s' =>
    in_range u32 (count + 1) /\
    store s' = (store s) <| s_checkpoint ::= <[(id, count) := mkCheckpoint (ledger_sequence e) amount]> |>
                       <| s_checkpoint_count ::= <[id := count + 1]> |> /\
    chain s' = chain s /\ events s' = events s).
Proof. ensures_solve. Qed.

#[export] Instance ensures_set_balance e id amount :
  Ensures (set_balance e id amount) (fun s _ s' =>
    store s' = balance_set (ledger_sequence e) id amount (store s) /\
    chain s' = chain s /\ events s' = events s /\
    (counts_fit (store s) -> counts_fit (store s'))).
Proof.
  intros s [] s' Hr. unfold set_balance in Hr. do 3 run1 Hr.
  unfold balance_set, counts_fit, checkpoint_count, update_store in *; cbn in *.
  destruct (bool_decide (default 0 (s_checkpoint_count (store s) !! id) > 0)); cbn in *.
  - run1 Hr. cbn in *. run1 Hr. cbn in *.
    match goal with Hl : s_checkpoint _ !! _ = Some _ |- _ => rewrite Hl end.
    destruct (bool_decide (cp_ledger _ = _)); run; cbn; split_and!; try done;
      repeat match goal with Hs : store _ = _ |- _ => rewrite Hs end; cbn;
      try (intros Hfit a; destruct (decide (a = id)) as [->|]; rewrite ?lookup_insert_eq, ?lookup_insert_ne by done);
      done.
  - run. cbn in *. split_and!; try done;
      repeat match goal with Hs : store _ = _ |- _ => rewrite Hs end; cbn;
      try (intros Hfit a; destruct (decide (a = id)) as [->|]; rewrite ?lookup_insert_eq, ?lookup_insert_ne by done);
      done.
Qed.

Lemma balance_set_frame n id amount st :
  s_balance (balance_set n id amount st) = <[id := amount]> (s_balance st) /\
  s_allowance (balance_set n id amount st) = s_allowance st /\
  s_vesting (balance_set n id amount st) = s_vesting st /\
  s_initialized (balance_set n id amount st) = s_initialized st /\
  s_admin (balance_set n id amount st) = s_admin st.
Proof. unfold balance_set. repeat case_match; done. Qed.

Lemma balance_set_balance n id amount st a :
  balance (balance_set n id amount st) a = if decide (a = id) then amount else balance st a.
Proof.
  unfold balance. destruct (balance_set_frame n id amount st) as (-> & _).
  case_decide; subst; by rewrite ?lookup_insert_eq, ?lookup_insert_ne.
Qed.

(** Only [id]'s own checkpoints are written. *)
Lemma represents_other n id amount st a h :
  a <> id -> represents st a h -> represents (balance_set n id amount st) a h.
Proof.
  intros Hne [Hc He]. unfold balance_set, checkpoint_count in *.
  repeat case_match; split; unfold checkpoint_count; cbn; rewrite ?lookup_insert_ne by congruence; try done;
    intros i cp Hi; rewrite lookup_insert_ne by congruence; by apply He.
Qed.

(** A push after the last entry. *)
Lemma represents_push st id h cp :
  represents st id h ->
  represents (st <| s_checkpoint ::= <[(id, checkpoint_count st id) := cp]> |>
                 <| s_checkpoint_count ::= <[id := checkpoint_count st id + 1]> |>) id (h ++ [cp]).
Proof.
  intros [Hc He]. split.
  - unfold checkpoint_count; cbn. rewrite lookup_insert_eq. cbn.
    fold (checkpoint_count st id). rewrite Hc, length_app. cbn. lia.
  - cbn. intros i c Hi. apply lookup_snoc_Some in Hi as [[Hlt Hi]|[-> ->]].
    + rewrite lookup_insert_ne; [by apply He|]. intros [=]. lia.
    + by rewrite Hc, lookup_insert_eq.
Qed.

(** An overwrite of the last entry. *)
Lemma represents_overwrite st id h c0 cp :
  represents st id (h ++ [c0]) ->
  represents (st <| s_checkpoint ::= <[(id, checkpoint_count st id - 1) := cp]> |>) id (h ++ [cp]).
Proof.
  intros [Hc He]. rewrite length_app in Hc; cbn in Hc. split.
  - unfold checkpoint_count in *; cbn. rewrite Hc, length_app. cbn. lia.
  - cbn. intros i c Hi. apply lookup_snoc_Some in Hi as [[Hlt Hi]|[-> ->]].
    + rewrite lookup_insert_ne by (intros [=]; lia). apply He. by rewrite lookup_app_l.
    + rewrite Hc. replace (Z.of_nat (length h + 1) - 1) with (Z.of_nat (length h)) by lia.
      by rewrite lookup_insert_eq.
Qed.

Lemma represents_proper st st' id h :
  represents st id h -> s_checkpoint_count st' = s_checkpoint_count st ->
  s_checkpoint st' = s_checkpoint st -> represents st' id h.
Proof. intros [Hc He] H1 H2. split; unfold checkpoint_count in *; by rewrite ?H1, ?H2. Qed.

(** [set_balance] records in the history. *)
Lemma represents_set n id amount st h :
  represents st id h -> history_until n h ->
  represents (balance_set n id amount st) id (record n amount h).
Proof.
  intros Hr Hh. unfold balance_set, record. pose proof (repr_count _ _ _ Hr) as Hc.
  destruct h as [|c0 h0 _] using rev_ind.
  - rewrite bool_decide_false by (rewrite Hc; cbn; lia). cbn [filter list_filter app].
    eapply represents_proper; [by apply (represents_push st id []) | done..].
  - rewrite length_app in Hc; cbn in Hc. rewrite bool_decide_true by lia.
    assert (s_checkpoint st !! (id, checkpoint_count st id - 1) = Some c0) as ->.
    { rewrite Hc. replace (Z.of_nat (length h0 + 1) - 1) with (Z.of_nat (length h0)) by lia.
      apply (repr_entry _ _ _ Hr). by rewrite list_lookup_middle. }
    destruct Hh as [Hs Hp]. apply Forall_app in Hp as [Hp [Hcn _]%list.Forall_cons].
    assert (Forall (fun cp => cp_ledger cp < cp_ledger c0) h0) as Hlt.
    { apply list.Forall_forall. intros x [i Hx]%list_elem_of_lookup. pose proof (lookup_lt_Some _ _ _ Hx).
      eapply (sorted_lookup _ i (length h0)); [exact Hs|by rewrite lookup_app_l|by rewrite list_lookup_middle|done]. }
    rewrite list.filter_app, filter_forget; cycle 1.
    { apply list.Forall_forall. intros x Hx. rewrite list.Forall_forall in Hlt. specialize (Hlt x Hx). cbn in *. lia. }
    rewrite filter_cons. case_bool_decide as He.
    + rewrite decide_False by (cbn in *; lia). cbn [filter list_filter]. rewrite app_nil_r.
      eapply represents_proper; [by eapply represents_overwrite | done..].
    + rewrite decide_True by (cbn in *; lia).
      eapply represents_proper; [by apply represents_push | done..].
Qed.
End Checkpoints.

(** ** The binary search *)

Section Search.
Context `{Ledger}.
Implicit Types (e : Env) (id : Address) (st : Store) (h : list Checkpoint).

(** The interval shrinks: whatever is stored, the search ends within its fuel. *)
Lemma search_terminates st id l fuel low high ans :
  Z.max 0 (high - low + 1) < Z.of_nat fuel -> search st id l fuel low high ans <> None.
Proof.
  revert low high ans. induction fuel as [|fuel IH]; intros low high ans Hf.
  - cbn in Hf. lia.
  - cbn. case_bool_decide as Hlh; [|done].
    assert (0 <= Z.quot (high - low) 2 <= high - low) as Hq.
    { rewrite Z.quot_div_nonneg by lia. split; [apply Z.div_pos; lia|].
      apply Z.div_le_upper_bound; lia. }
    destruct (s_checkpoint st !! _); [|done]. case_bool_decide; apply IH; lia.
Qed.

(** The loop invariant: everything below [low] is at most [l], everything above
    [high] is beyond it, and [ans] is the index before [low]. *)
Lemma search_finds st id h l fuel low high :
  represents st id h -> StronglySorted earlier h -> in_range u32 (Z.of_nat (length h)) ->
  0 <= low -> low <= high + 1 -> high < Z.of_nat (length h) -> Z.max 0 (high - low + 1) < Z.of_nat fuel ->
  (forall i cp, h !! i = Some cp -> Z.of_nat i < low -> cp_ledger cp <= l) ->
  (forall i cp, h !! i = Some cp -> high < Z.of_nat i -> l < cp_ledger cp) ->
  exists k : nat, search st id l fuel low high (low - 1) = Some (Some (Z.of_nat k - 1)) /\
    (k <= length h)%nat /\ forall i cp, h !! i = Some cp -> cp_ledger cp <= l <-> (i < k)%nat.
Proof.
  intros Hr Hs Hu. revert low high. induction fuel as [|fuel IH]; intros low high H0 Hlh Hn Hf Hlo Hhi.
  { cbn in Hf. lia. }
  cbn. case_bool_decide as Hle.
  - set (mid := low + Z.quot (high - low) 2).
    assert (low <= mid <= high) as Hm.
    { unfold mid. rewrite Z.quot_div_nonneg by lia.
      pose proof (Z.div_pos (high - low) 2). assert ((high - low) / 2 <= high - low) by (apply Z.div_le_upper_bound; lia).
      lia. }
    unfold in_range in Hu; cbn in Hu. rewrite as_u32_id by (unfold in_range; cbn; lia).
    destruct (lookup_lt_is_Some_2 h (Z.to_nat mid)) as [c Hc]; [lia|].
    pose proof (repr_entry _ _ _ Hr _ _ Hc) as He. rewrite Z2Nat.id in He by lia. rewrite He.
    case_bool_decide as Hcl.
    + specialize (IH (mid + 1) high). rewrite Z.add_simpl_r in IH. apply IH; try lia; [|done].
      intros i cp Hi Hlt. destruct (decide (i = Z.to_nat mid)) as [->|Hne]; [by simplify_eq|].
      pose proof (sorted_lookup _ _ _ _ _ Hs Hi Hc ltac:(lia)) as Hea. unfold earlier in Hea. lia.
    + apply IH; try lia; [done|].
      intros i cp Hi Hlt. destruct (decide (i = Z.to_nat mid)) as [->|Hne]; [simplify_eq; lia|].
      pose proof (sorted_lookup _ _ _ _ _ Hs Hc Hi ltac:(lia)) as Hea. unfold earlier in Hea. lia.
  - exists (Z.to_nat low). split_and!; [do 2 f_equal; lia|lia|].
    intros i cp Hi. split; intros Hx.
    + destruct (decide (i < Z.to_nat low)%nat); [done|]. pose proof (Hhi i cp Hi ltac:(lia)). lia.
    + apply (Hlo i cp Hi). lia.
Qed.

(** [balance_at] answers what the history says, and never traps. *)
Lemma balance_at_history_value id l s h n :
  represents (store s) id h -> history_until n h -> in_range u32 (Z.of_nat (length h)) ->
  balance_at id l s = Ok (value_at l h) s.
Proof.
  intros Hr [Hs _] Hu. pose proof (repr_count _ _ _ Hr) as Hc.
  unfold balance_at. unfold read, gets, mbind, M_bind, mret, M_ret, expect, panic.
  case_bool_decide as H0.
  { destruct h; [done|]. rewrite H0 in Hc. cbn in Hc. lia. }
  assert (0 < checkpoint_count (store s) id) by lia.
  destruct (search_finds (store s) id h l (search_fuel (checkpoint_count (store s) id)) 0
              (checkpoint_count (store s) id - 1)) as (k & Hk & Hkl & Hspec); try done.
  1-3: rewrite ?Hc; unfold search_fuel; rewrite ?Nat2Z.id; lia.
  { intros; lia. }
  { intros i cp Hi Hlt. pose proof (lookup_lt_Some _ _ _ Hi). lia. }
  change (0 - 1) with (-1) in Hk. rewrite Hk. cbn [mjoin option_join].
  unfold value_at. rewrite (filter_prefix _ h k) by done.
  destruct k as [|k].
  - by rewrite take_0.
  - cbv [mret M_ret]. rewrite bool_decide_true by lia.
    destruct (lookup_lt_is_Some_2 h k) as [c Hck]; [lia|].
    replace (Z.of_nat (S k) - 1) with (Z.of_nat k) by lia.
    rewrite as_u32_id by (unfold in_range in *; cbn in *; lia).
    rewrite (repr_entry _ _ _ Hr _ _ Hck).
    rewrite (take_S_r _ _ _ Hck), last_snoc. done.
Qed.
End Search.

(** ** Vesting *)

Definition vested (now : Z) (schedule : VestingSchedule) : Z :=
  if decide (now < start_time schedule + cliff_duration schedule) then 0
  else if decide (start_time schedule + total_duration schedule <= now) then total_amount schedule
  else Z.quot (total_amount schedule * (now - start_time schedule)) (total_duration schedule).

(** What of [id]'s balance is still locked at time [now]. *)
Definition unvested (now : Z) (st : Store) (id : Address) : Z :=
  match vesting_schedule st id with
  | Some schedule => total_amount schedule - vested now schedule
  | None => 0
  end.

Section Entry.
Context `{Ledger}.
Implicit Types (e : Env) (id from to spender : Address) (amount : Z) (st : Store).

#[export] Instance ensures_vested_at now schedule :
  Ensures (vested_at now schedule) (fun s v s' => v = vested now schedule /\ s' = s).
Proof.
  intros s v s' Hr. unfold vested_at, vested in *. run1 Hr.
  destruct (decide (now < start_time schedule + cliff_duration schedule)).
  { rewrite bool_decide_true in Hr by lia. by run. }
  rewrite bool_decide_false in Hr by lia. run1 Hr.
  destruct (decide (start_time schedule + total_duration schedule <= now)).
  { rewrite bool_decide_true in Hr by lia. by run. }
  rewrite bool_decide_false in Hr by lia. by run.
Qed.

#[export] Instance ensures_unvested_balance e id :
  Ensures (unvested_balance e id) (fun s u s' => u = unvested (ledger_timestamp e) (store s) id /\ s' = s).
Proof.
  intros s u s' Hr. unfold unvested_balance, unvested in *. run1 Hr.
  destruct (vesting_schedule (store s) id) as [sc|] eqn:Hsc; [|by run].
  unfold vested_balance in Hr. run1 Hr. rewrite Hsc in *. run. done.
Qed.

#[export] Instance ensures_require_spendable e from amount :
  Ensures (require_spendable e from amount) (fun s b s' =>
    b = balance (store s) from /\ s' = s /\ amount <= balance (store s) from /\
    amount <= Z.max 0 (balance (store s) from - unvested (ledger_timestamp e) (store s) from)).
Proof.
  intros s b s' Hr. unfold require_spendable, spendable_balance in Hr.
  run. repeat case_bool_decide; run; split_and!; try done; lia.
Qed.

#[export] Instance ensures_move_balance e from to b amount :
  Ensures (move_balance e from to b amount) (fun s _ s' =>
    store s' = balance_set (ledger_sequence e) to (balance (store s) to + amount)
                 (balance_set (ledger_sequence e) from (b - amount) (store s)) /\
    chain s' = chain s /\ events s' = events s /\ (counts_fit (store s) -> counts_fit (store s'))).
Proof.
  intros s [] s' Hr. unfold move_balance in Hr. run. split_and!; congruence || tauto.
Qed.

#[export] Instance ensures_deduct_allowance from spender current amount :
  Ensures (deduct_allowance from spender current amount) (fun s _ s' => exists val,
    let key := mkAllowanceKey from spender in
    s_allowance (store s) !! key = Some val /\ chain s' = chain s /\ events s' = events s /\
    store s' = (store s) <| s_allowance ::=
      <[key := mkAllowance (current - amount) (al_expiration_ledger val)]> |>).
Proof. ensures_solve. Qed.

#[export] Instance runs_require_allowance e from spender amount :
  Runs (require_allowance e from spender amount) (fun s a s' =>
    a = allowance e (store s) from spender /\ amount <= a /\ s' = s).
Proof. intros s a s'. unfold require_allowance. split; [intros; run; naive_solver lia|].
  intros (-> & Ha & ->). forward1. pass; [lia|]. apply runs. done. Qed.
End Entry.
