(* ===== verification/KprsTokenProps.v ===== *)
(** * Governance token: what holds of every run

    What each entry point commits; balance histories over chronological runs;
    the supply; vesting; allowances.  The supply theorem covers the transfer to
    oneself, which mints. *)

From Stdlib Require Import Sorted.
From S2P Require Import Prelude Host Contract SampleChain KprsToken KprsTokenSpec.

Abbreviation call := (Contract.call exec).
Abbreviation succeeds := (Contract.succeeds exec).
Abbreviation run_calls := (Contract.run_calls exec).
Abbreviation chronicle := (Contract.chronicle exec typed_op empty_store).
Abbreviation chronological := (Contract.chronological typed_op).

Section Commits.
Context `{HL : Ledger}.
Implicit Types (e : Env) (from to spender : Address) (amount : Z) (s : KS) (st : Store).

(** The two balances of a transfer, as the code sets them. *)
Definition moved e from to amount st : Store :=
  let n := ledger_sequence e in
  balance_set n to (balance st to + amount) (balance_set n from (balance st from - amount) st).

Definition deducted e from spender amount st : Store :=
  let key := mkAllowanceKey from spender in
  match s_allowance st !! key with
  | Some val => st <| s_allowance ::=
      <[key := mkAllowance (allowance e st from spender - amount) (al_expiration_ledger val)]> |>
  | None => st
  end.

Definition minted e early_keepers treasury core_team public_distribution admin st : Store :=
  let n := ledger_sequence e in
  let st1 := st <| s_admin := Some admin |> <| s_initialized := Some true |> in
  let st2 := balance_set n core_team ALLOC_CORE_TEAM
    (balance_set n treasury ALLOC_TREASURY (balance_set n early_keepers ALLOC_EARLY_KEEPERS st1)) in
  balance_set n public_distribution ALLOC_PUBLIC
    (st2 <| s_vesting ::= <[core_team := mkVesting ALLOC_CORE_TEAM (ledger_timestamp e)
                                          TEAM_CLIFF_SECONDS TEAM_VESTING_SECONDS]> |>).

(** The storage a committed call leaves. *)
Definition committed e op st : Store :=
  match op with
  | OpInitialize admin k t c p => minted e k t c p admin st
  | OpApprove from spender amount expiration =>
      let key := mkAllowanceKey from spender in
      st <| s_allowance ::= if decide (amount = 0) then delete key
                            else <[key := mkAllowance amount expiration]> |>
  | OpTransfer from to amount => if decide (amount = 0) then st else moved e from to amount st
  | OpTransferFrom spender from to amount =>
      if decide (amount = 0) then st else deducted e from spender amount (moved e from to amount st)
  | OpBurn from amount =>
      if decide (amount = 0) then st
      else balance_set (ledger_sequence e) from (balance st from - amount) st
  | OpBurnFrom spender from amount =>
      if decide (amount = 0) then st
      else deducted e from spender amount
             (balance_set (ledger_sequence e) from (balance st from - amount) st)
  end.

(** The account a call debits, with the amount. *)
Definition debits op : option (Address * Z) :=
  match op with
  | OpTransfer from _ amount | OpTransferFrom _ from _ amount
  | OpBurn from amount | OpBurnFrom _ from amount => Some (from, amount)
  | _ => None
  end.

(** The allowance a call spends. *)
Definition spends op : option (Address * Address * Z) :=
  match op with
  | OpTransferFrom spender from _ amount | OpBurnFrom spender from amount => Some (from, spender, amount)
  | _ => None
  end.

Lemma allowance_set n id amount st e from spender :
  allowance e (balance_set n id amount st) from spender = allowance e st from spender.
Proof. unfold allowance. by destruct (balance_set_frame n id amount st) as (_ & -> & _). Qed.

(** A deduction after writes that left the allowances alone. *)
Lemma deducted_spec e from spender amount current st st' :
  (exists val, let key := mkAllowanceKey from spender in
     s_allowance st !! key = Some val /\
     st' = st <| s_allowance ::= <[key := mkAllowance (current - amount) (al_expiration_ledger val)]> |>) ->
  current = allowance e st from spender -> st' = deducted e from spender amount st.
Proof. intros (val & Hk & ->) ->. unfold deducted. cbn in *. by rewrite Hk. Qed.

Ltac deducted :=
  eapply deducted_spec;
  [ unfold moved; match goal with Hs : store _ = _ |- _ => rewrite <- Hs end;
    eexists; split; [eassumption|reflexivity]
  | unfold moved; by rewrite ?allowance_set ].

(** What a call that commits does, and what it has checked. *)
Lemma exec_commits e op s s' :
  exec e op s = Ok tt s' ->
  store s' = committed e op (store s) /\ chain s' = chain s /\
  (counts_fit (store s) -> counts_fit (store s')) /\
  (forall from amount, debits op = Some (from, amount) -> 0 <= amount /\ (amount <> 0 ->
     amount <= balance (store s) from - unvested (ledger_timestamp e) (store s) from /\
     amount <= balance (store s) from)) /\
  (forall from spender amount, spends op = Some (from, spender, amount) -> amount <> 0 ->
     amount <= allowance e (store s) from spender) /\
  (forall a k t c p, op = OpInitialize a k t c p -> s_initialized (store s) = None).
Proof.
  intros Hr. destruct op; cbn [exec committed debits spends] in *.
  - unfold initialize in Hr. run. split_and!; try done; try congruence.
    + repeat match goal with Hs : store _ = _ |- _ => rewrite Hs end. done.
    + unfold counts_fit, checkpoint_count in *; cbn in *. auto.
    + intros _ _ _ _ _ _. by apply eq_None_not_Some.
  - unfold approve in Hr. by run; cbn; try rewrite decide_False by done.
  - unfold transfer in Hr. run; cbn; try rewrite decide_False by done; unfold moved;
      split_and!; try done; naive_solver lia.
  - unfold transfer_from in Hr. run; cbn; try rewrite decide_False by done;
      split_and!; try done; try naive_solver lia. deducted.
  - unfold burn in Hr. run; cbn; try rewrite decide_False by done; split_and!; try done; naive_solver lia.
  - unfold burn_from in Hr. run; cbn; try rewrite decide_False by done;
      split_and!; try done; try naive_solver lia. deducted.
Qed.
End Commits.

(** ** Balance histories over a run *)

Section Histories.
Context `{HL : Ledger}.
Implicit Types (e : Env) (id : Address) (s : KS) (st : Store) (h : list Checkpoint).

Definition same_balances st st' : Prop :=
  s_balance st' = s_balance st /\ s_checkpoint_count st' = s_checkpoint_count st /\
  s_checkpoint st' = s_checkpoint st.

(** Storage after any number of [set_balance]s in ledger [n]. *)
Inductive writes (n : Z) (st : Store) : Store -> Prop :=
  | writes_refl : writes n st st
  | writes_set st1 id amount : writes n st st1 -> writes n st (balance_set n id amount st1)
  | writes_else st1 st2 : writes n st st1 -> same_balances st1 st2 -> writes n st st2.

Lemma deducted_same e from spender amount st : same_balances st (deducted e from spender amount st).
Proof. unfold deducted. by case_match. Qed.

Lemma committed_writes e op st : writes (ledger_sequence e) st (committed e op st).
Proof.
  assert (forall from to amount, writes (ledger_sequence e) st (moved e from to amount st)) as Hm
    by (intros; do 2 apply writes_set; apply writes_refl).
  destruct op as [admin k t c p|from sp amount x|from to amount|sp from to amount|from amount|sp from amount];
    cbn [committed]; try (case_decide; [apply writes_refl|]).
  - apply writes_set. eapply writes_else; [do 3 apply writes_set|done].
    eapply writes_else; [apply writes_refl|done].
  - eapply writes_else; [apply writes_refl|done].
  - apply Hm.
  - eapply writes_else; [apply Hm|apply deducted_same].
  - apply writes_set, writes_refl.
  - eapply writes_else; [apply writes_set, writes_refl|apply deducted_same].
Qed.

(** Every account's checkpoints are a history up to ledger [n] that ends in its
    balance and satisfies [K]. *)
Definition recorded (K : Address -> list Checkpoint -> Prop) (n : Z) st : Prop := forall id, exists h,
  represents st id h /\ history_until n h /\ from_option cp_balance 0 (list.last h) = balance st id /\ K id h.

Lemma recorded_mono K n m st : n <= m -> recorded K n st -> recorded K m st.
Proof. intros Hnm Hs id. destruct (Hs id) as (h & ? & ? & ? & ?). exists h. eauto using history_until_mono. Qed.

Lemma recorded_writes K n st st' :
  (forall id amount h, history_until n h -> K id h -> K id (record n amount h)) ->
  writes n st st' -> recorded K n st -> recorded K n st'.
Proof.
  intros HK Hw Hs. induction Hw as [|st1 id amount Hw IH|st1 st2 Hw IH (Hb & Hc & Hp)]; [done|..].
  - intros a. destruct (IH a) as (h & Hr & Hh & Hl & Hk). rewrite balance_set_balance. case_decide.
    + subst. exists (record n amount h). split_and!; eauto using represents_set, record_history.
      unfold record. by rewrite last_snoc.
    + exists h. eauto using represents_other.
  - intros a. destruct (IH a) as (h & Hr & Hh & Hl & Hk). exists h. split_and!; [|done|..|done].
    + by eapply represents_proper.
    + unfold balance. by rewrite Hb.
Qed.

Lemma recorded_exec K e op s s' :
  (forall id amount h, history_until (ledger_sequence e) h -> K id h ->
     K id (record (ledger_sequence e) amount h)) ->
  exec e op s = Ok tt s' -> recorded K (ledger_sequence e) (store s) ->
  recorded K (ledger_sequence e) (store s').
Proof.
  intros HK Hr Hs. apply exec_commits in Hr as (-> & _).
  eapply recorded_writes; [done|apply committed_writes|done].
Qed.

Lemma recorded_empty n : recorded (fun _ _ => True) n empty_store.
Proof. intros id. exists []. split_and!; try done; split; done || constructor. Qed.

(** The invariant of a chronological run. *)
Lemma chronicle_recorded self n s :
  chronicle self n s -> recorded (fun _ _ => True) n (store s) /\ counts_fit (store s).
Proof.
  apply (chronicle_ind' self (fun n s => recorded (fun _ _ => True) n (store s) /\ counts_fit (store s))).
  - intros m k s' [Hs Hc] Hmk. split; [|done]. by eapply recorded_mono.
  - intros s1 e op s2 [Hs Hc] _ _ Hx. split; [by eapply recorded_exec|].
    by apply exec_commits in Hx as (_ & _ & Hcf & _); auto.
  - intros m efs l. split; [apply recorded_empty|]. by intros a.
  - done.
Qed.

Lemma counts_length st id h :
  counts_fit st -> represents st id h -> in_range u32 (Z.of_nat (length h)).
Proof. intros Hc Hr. specialize (Hc id). by rewrite (repr_count _ _ _ Hr) in Hc. Qed.

(** C21: [balance_at] is the linear scan.  In every state of a chronological run
    its binary search ends, never reads a missing checkpoint, and answers, for
    any account and ledger, the balance of the latest stored checkpoint at or
    before that ledger (0 when there is none); the stored checkpoints are
    strictly ordered by ledger and the last one is the current balance. *)
Theorem balance_at_linear self n s id l :
  chronicle self n s ->
  balance_at id l s = Ok (value_at l (checkpoints (store s) id)) s /\
  StronglySorted earlier (checkpoints (store s) id) /\
  from_option cp_balance 0 (list.last (checkpoints (store s) id)) = balance (store s) id.
Proof.
  intros [Hs Hc]%chronicle_recorded. destruct (Hs id) as (h & Hr & Hh & Hl & _).
  rewrite (represents_checkpoints _ _ _ Hr). split_and!; [|apply Hh|done].
  eapply balance_at_history_value; eauto using counts_length.
Qed.

(** The history of a past ledger survives every later call. *)
Lemma past_kept self n s l calls id :
  chronicle self n s -> n <= l -> chronological self (l + 1) calls ->
  exists h m, represents (store (run_calls calls s)) id h /\ history_until m h /\
    in_range u32 (Z.of_nat (length h)) /\ value_at l h = balance (store s) id.
Proof.
  intros Hs Hnl Hc. apply chronicle_recorded in Hs as [Hs Hf].
  pose (P := fun m (s' : KS) => l < m /\ counts_fit (store s') /\
    recorded (fun a h => value_at l h = balance (store s) a) m (store s')).
  assert (exists m, P m (run_calls calls s)) as (m & _ & Hf' & Hs').
  { refine (chronological_ind' self P _ _ (l + 1) calls s Hc _).
    - intros m k s' (Hlm & Hf' & Hs') Hmk. split_and!; [lia|done|by eapply recorded_mono].
    - intros s1 e op s2 (Hlm & Hf' & Hs') _ _ Hx. split_and!; [done| |].
      + apply exec_commits in Hx as (_ & _ & Hcf & _). auto.
      + eapply recorded_exec; [|done|done]. intros a amount h Hh Hv. by rewrite value_at_record.
    - split_and!; [lia|done|]. intros a. destruct (Hs a) as (h & Hr & Hh & Hl & _). exists h.
      split_and!; [done|by eapply history_until_mono; [|done]; lia|done|].
      rewrite <- Hl. apply value_at_last. eapply history_until_mono in Hh; [apply Hh|done]. }
  destruct (Hs' id) as (h & Hr & Hh & _ & Hv). exists h, m. eauto using counts_length.
Qed.

(** Snapshots are final.  Whatever calls follow in later ledgers, the
    balance the token reports for a past ledger stays the balance the account
    had at the end of that ledger: no transfer, burn or mint rewrites it. *)
Theorem balance_at_final self n s l calls id :
  chronicle self n s -> n <= l -> chronological self (l + 1) calls ->
  balance_at id l (run_calls calls s) = Ok (balance (store s) id) (run_calls calls s).
Proof.
  intros Hs Hnl Hc. destruct (past_kept _ _ _ _ _ id Hs Hnl Hc) as (h & m & Hr & Hh & Hu & <-).
  by eapply balance_at_history_value.
Qed.
End Histories.

(** ** Supply *)

Section Supply.
Context `{HL : Ledger}.
Implicit Types (e : Env) (id from to : Address) (s : KS) (st : Store).

(** What all accounts hold together. *)
Definition supply st : Z := map_sum id (s_balance st).

(** What a committed call adds to it. *)
Definition supply_change op : Z :=
  match op with
  | OpTransfer from to amount | OpTransferFrom _ from to amount => if decide (from = to) then amount else 0
  | OpBurn _ amount | OpBurnFrom _ _ amount => - amount
  | _ => 0
  end.

Lemma supply_set n a amount st : supply (balance_set n a amount st) = supply st + amount - balance st a.
Proof.
  unfold supply, balance. destruct (balance_set_frame n a amount st) as (-> & _).
  rewrite map_sum_insert. destruct (s_balance st !! a); cbn; unfold id; lia.
Qed.

Lemma supply_moved e from to amount st :
  supply (moved e from to amount st) = supply st + if decide (from = to) then amount else 0.
Proof.
  unfold moved. rewrite !supply_set, balance_set_balance. repeat case_decide; subst; try done; lia.
Qed.

Lemma supply_same st st' : s_balance st' = s_balance st -> supply st' = supply st.
Proof. unfold supply. by intros ->. Qed.

Lemma supply_deducted e from spender amount st : supply (deducted e from spender amount st) = supply st.
Proof. apply supply_same, deducted_same. Qed.

(** Before [initialize] there is nothing to move; no balance is ever negative;
    the only vesting schedule is the team's. *)
Record books st : Prop := {
  books_empty : s_initialized st = None -> s_balance st = ∅ /\ s_vesting st = ∅;
  books_nonneg a : 0 <= balance st a;
  books_vesting a schedule : vesting_schedule st a = Some schedule -> exists t0,
    in_range u64 t0 /\ schedule = mkVesting ALLOC_CORE_TEAM t0 TEAM_CLIFF_SECONDS TEAM_VESTING_SECONDS;
}.

Lemma books_empty_store : books empty_store.
Proof. by split. Qed.

Lemma balance_empty st a : s_balance st = ∅ -> balance st a = 0.
Proof. unfold balance. by intros ->. Qed.

Lemma books_set n a amount st :
  books st -> 0 <= amount -> is_Some (s_initialized st) -> books (balance_set n a amount st).
Proof.
  intros [He Hn Hv] Ha Hi. destruct (balance_set_frame n a amount st) as (Hb & _ & Hve & Hin & _). split.
  - rewrite Hin. intros Hno. rewrite Hno in Hi. by apply is_Some_None in Hi.
  - intros b. rewrite balance_set_balance. case_decide; [done|apply Hn].
  - intros b sc. unfold vesting_schedule. rewrite Hve. apply Hv.
Qed.

Lemma books_deducted e from spender amount st : books st -> books (deducted e from spender amount st).
Proof. intros [? ? ?]. unfold deducted. case_match; by split. Qed.

Lemma set_initialized n a amount st : s_initialized (balance_set n a amount st) = s_initialized st.
Proof. by destruct (balance_set_frame n a amount st) as (_ & _ & _ & -> & _). Qed.

Lemma books_minted e k t c p admin st :
  in_range u64 (ledger_timestamp e) -> books st -> books (minted e k t c p admin st).
Proof.
  intros Ht [_ Hn Hv]. unfold minted.
  assert (books (balance_set (ledger_sequence e) c ALLOC_CORE_TEAM
    (balance_set (ledger_sequence e) t ALLOC_TREASURY
      (balance_set (ledger_sequence e) k ALLOC_EARLY_KEEPERS
        (st <| s_admin := Some admin |> <| s_initialized := Some true |>))))) as Hb.
  { repeat (apply books_set; [|unfold ALLOC_CORE_TEAM, ALLOC_TREASURY, ALLOC_EARLY_KEEPERS, ONE_TOKEN; lia
                              |by rewrite ?set_initialized; cbn; eauto]).
    split; [done|apply Hn|apply Hv]. }
  apply books_set; [|unfold ALLOC_PUBLIC, ONE_TOKEN; lia|cbn; rewrite ?set_initialized; cbn; by eauto].
  destruct Hb as [_ Hn' Hv']. split.
  - cbn. by rewrite !set_initialized.
  - apply Hn'.
  - intros a sc. unfold vesting_schedule; cbn.
    destruct (decide (a = c)) as [->|Hne]; rewrite ?lookup_insert_eq, ?lookup_insert_ne by done.
    + intros [= <-]. by exists (ledger_timestamp e).
    + apply Hv'.
Qed.

Lemma balance_minted_nonneg e k t c p admin st a : books st -> 0 <= balance (minted e k t c p admin st) a.
Proof.
  intros Hb. unfold minted. rewrite balance_set_balance. case_decide; [done|].
  change (0 <= balance (balance_set (ledger_sequence e) c ALLOC_CORE_TEAM
    (balance_set (ledger_sequence e) t ALLOC_TREASURY
      (balance_set (ledger_sequence e) k ALLOC_EARLY_KEEPERS
        (st <| s_admin := Some admin |> <| s_initialized := Some true |>)))) a).
  rewrite !balance_set_balance. repeat case_decide; try done. apply Hb.
Qed.

Lemma books_exec e op s s' :
  in_range u64 (ledger_timestamp e) -> books (store s) -> exec e op s = Ok tt s' -> books (store s').
Proof.
  intros Ht Hb (-> & _ & _ & Hd & _)%exec_commits.
  assert (forall from amount, debits op = Some (from, amount) -> amount <> 0 ->
    0 < amount <= balance (store s) from /\ is_Some (s_initialized (store s))) as Hd'.
  { intros from amount Hop Hne. destruct (Hd _ _ Hop) as [H0 Hle]. specialize (Hle Hne). split; [lia|].
    destruct (s_initialized (store s)) eqn:Hi; [by eauto|].
    destruct (books_empty _ Hb Hi) as [He _]. rewrite (balance_empty _ from He) in Hle. lia. }
  assert (forall from to amount, debits op = Some (from, amount) -> amount <> 0 ->
    books (moved e from to amount (store s))) as Hm.
  { intros from to amount Hop Hne. destruct (Hd' _ _ Hop Hne) as [Hle Hi]. pose proof (books_nonneg _ Hb to).
    unfold moved. apply books_set; [apply books_set|..]; rewrite ?set_initialized; done || lia. }
  destruct op as [admin k t c p|from sp amount x|from to amount|sp from to amount|from amount|sp from amount];
    cbn [committed debits] in *; try (case_decide; [done|]).
  - by apply books_minted.
  - destruct Hb as [He Hn Hv]. by split.
  - by apply Hm.
  - by apply books_deducted, Hm.
  - destruct (Hd' _ _ eq_refl ltac:(done)). apply books_set; done || lia.
  - destruct (Hd' _ _ eq_refl ltac:(done)). apply books_deducted, books_set; done || lia.
Qed.

Lemma chronicle_books self n s : chronicle self n s -> books (store s).
Proof.
  apply (chronicle_ind' self (fun _ s => books (store s))); try done.
  intros s1 e op s2 Hb He _ Hx. eapply books_exec; [apply He|done..].
Qed.

(** C22: the supply.  [initialize] with four distinct recipients creates exactly
    [TOTAL_SUPPLY], the constant [total_supply] reports.  After it a burn
    destroys exactly its amount and a transfer between two accounts changes
    nothing - but a transfer from an account to itself, direct or through an
    allowance, creates its amount: the code writes the debited balance and then
    overwrites it with the credited one. *)
Theorem supply_exact self n e op s s' :
  chronicle self n s -> exec e op s = Ok tt s' ->
  (forall a k t c p, op = OpInitialize a k t c p -> NoDup [k; t; c; p] -> supply (store s') = total_supply) /\
  ((forall a k t c p, op <> OpInitialize a k t c p) ->
     supply (store s') = supply (store s) + supply_change op).
Proof.
  intros Hb%chronicle_books Hx. apply exec_commits in Hx as (-> & _ & _ & _ & _ & Hi). split.
  - intros a k t c p -> Hnd. specialize (Hi _ _ _ _ _ eq_refl).
    destruct (books_empty _ Hb Hi) as [He _]. cbn [committed]. unfold minted.
    set (st1 := (store s) <| s_admin := Some a |> <| s_initialized := Some true |>).
    assert (s_balance st1 = ∅) as He1 by done.
    rewrite !list.NoDup_cons, !elem_of_cons in Hnd. destruct Hnd as (Hk & Ht & Hc & _).
    set (st2 := balance_set _ c _ _). rewrite supply_set.
    change (supply st2 + ALLOC_PUBLIC - balance st2 p = total_supply). unfold st2.
    rewrite !supply_set, !balance_set_balance, !(balance_empty st1), !decide_False by (done || set_solver).
    unfold supply. rewrite He1, map_sum_empty. reflexivity.
  - intros Hni. destruct op as [admin k t c p|from sp amount x|from to amount|sp from to amount|from amount|sp from amount];
      cbn [committed supply_change]; try (by destruct (Hni admin k t c p)); rewrite ?Z.add_0_r; try done;
      (case_decide; [subst; try case_decide; lia|]); rewrite ?supply_deducted, ?supply_moved, ?supply_set; lia.
Qed.
End Supply.
