(* ===== verification/KprsTokenVesting.v ===== *)
(** * Governance token: vesting, allowances, and a sample run

    Locked tokens cannot leave an account; a delegated spend uses up exactly its
    allowance.  The sample run at the end carries the witnesses, and the
    transfer to oneself that mints. *)

From Stdlib Require Import Sorted.
From S2P Require Import Prelude Host Contract SampleChain KprsToken KprsTokenSpec KprsTokenProps.

Section Rights.
Context `{HL : Ledger}.
Implicit Types (e : Env) (id from to spender : Address) (s : KS) (st : Store).

(** The curve of the team's schedule started at [t0]. *)
Definition team_vesting (t0 : Z) : VestingSchedule :=
  mkVesting ALLOC_CORE_TEAM t0 TEAM_CLIFF_SECONDS TEAM_VESTING_SECONDS.

Lemma vested_team t0 now :
  vested now (team_vesting t0) =
    if decide (now < t0 + TEAM_CLIFF_SECONDS) then 0
    else Z.min ALLOC_CORE_TEAM (ALLOC_CORE_TEAM * (now - t0) / TEAM_VESTING_SECONDS).
Proof.
  unfold vested, team_vesting; cbn [start_time cliff_duration total_duration total_amount].
  case_decide as Hc; [done|].
  assert (TEAM_CLIFF_SECONDS = 15552000) as Hcs by done. assert (TEAM_VESTING_SECONDS = 63072000) as Hvs by done.
  assert (ALLOC_CORE_TEAM = 200000000000000) as Ha by done. rewrite Hcs, Hvs, Ha in *.
  case_decide as Hv.
  - assert (200000000000000 <= 200000000000000 * (now - t0) / 63072000); [|lia].
    apply Z.div_le_lower_bound; lia.
  - rewrite Z.quot_div_nonneg by lia.
    assert (200000000000000 * (now - t0) / 63072000 <= 200000000000000); [|lia].
    apply Z.div_le_upper_bound; lia.
Qed.

Lemma vested_team_bounds t0 now : 0 <= vested now (team_vesting t0) <= ALLOC_CORE_TEAM.
Proof.
  rewrite vested_team. case_decide as Hc; [done|].
  split; [|lia]. apply Z.min_glb; [done|]. apply Z.div_pos; [|done].
  unfold ALLOC_CORE_TEAM, ONE_TOKEN, TEAM_CLIFF_SECONDS in *. lia.
Qed.

Lemma vested_team_mono t0 now later :
  now <= later -> vested now (team_vesting t0) <= vested later (team_vesting t0).
Proof.
  intros Hle. destruct (decide (now < t0 + TEAM_CLIFF_SECONDS)) as [Hc|Hc].
  - rewrite (vested_team t0 now), decide_True by done. apply vested_team_bounds.
  - rewrite !vested_team, !decide_False by lia. apply Z.min_le_compat_l, Z.div_le_mono; [done|].
    unfold ALLOC_CORE_TEAM, ONE_TOKEN. lia.
Qed.

(** What is locked of the team's allocation. *)
Lemma locked_curve t0 now :
  let locked t := ALLOC_CORE_TEAM - vested t (team_vesting t0) in
  (now < t0 + TEAM_CLIFF_SECONDS -> locked now = ALLOC_CORE_TEAM) /\
  (t0 + TEAM_CLIFF_SECONDS <= now < t0 + TEAM_VESTING_SECONDS ->
     locked now = ALLOC_CORE_TEAM - ALLOC_CORE_TEAM * (now - t0) / TEAM_VESTING_SECONDS) /\
  (t0 + TEAM_VESTING_SECONDS <= now -> locked now = 0) /\
  forall later, now <= later -> 0 <= locked later <= locked now.
Proof.
  cbv zeta. split_and!.
  - intros Hc. rewrite vested_team, decide_True by done. lia.
  - intros [Hc Hv]. rewrite vested_team, decide_False by lia. f_equal.
    apply Z.min_r, Z.div_le_upper_bound; unfold ALLOC_CORE_TEAM, ONE_TOKEN, TEAM_VESTING_SECONDS in *; lia.
  - intros Hv. unfold vested, team_vesting; cbn [start_time cliff_duration total_duration total_amount].
    rewrite decide_False, decide_True by (unfold TEAM_CLIFF_SECONDS, TEAM_VESTING_SECONDS in *; lia). lia.
  - intros later Hle. pose proof (vested_team_mono t0 now later Hle). pose proof (vested_team_bounds t0 later). lia.
Qed.

(** Only a debit lowers a balance, and by at most the spendable part. *)
Lemma exec_debits e op s s' id :
  books (store s) -> exec e op s = Ok tt s' -> balance (store s') id < balance (store s) id ->
  exists amount, debits op = Some (id, amount) /\
    amount <= balance (store s) id - unvested (ledger_timestamp e) (store s) id /\
    balance (store s') id = balance (store s) id - amount.
Proof.
  intros Hb (-> & _ & _ & Hd & _ & Hi)%exec_commits Hlt.
  assert (forall f t amount, debits op = Some (f, amount) -> amount <> 0 ->
    balance (moved e f t amount (store s)) id < balance (store s) id ->
    f = id /\ balance (moved e f t amount (store s)) id = balance (store s) id - amount) as Hm.
  { intros f t amount Hop Hne. destruct (Hd _ _ Hop) as [H0 _]. unfold moved. rewrite !balance_set_balance.
    repeat case_decide; subst; intros Hlt'; try lia; split; done || lia. }
  assert (forall f sp amount st, balance (deducted e f sp amount st) id = balance st id) as Hde.
  { intros. unfold deducted. by case_match. }
  destruct op as [admin k t c p|from sp amount x|from to amount|sp from to amount|from amount|sp from amount];
    cbn [committed debits] in *; try (case_decide; [lia|]); rewrite ?Hde in *.
  - specialize (Hi _ _ _ _ _ eq_refl). destruct (books_empty _ Hb Hi) as [He _].
    rewrite (balance_empty _ id He) in Hlt. pose proof (balance_minted_nonneg e k t c p admin _ id Hb). lia.
  - unfold balance in Hlt; cbn in Hlt. lia.
  - destruct (Hm _ _ _ eq_refl ltac:(done) Hlt) as [<- ->]. exists amount.
    destruct (Hd _ _ eq_refl) as [_ Hle]. destruct (Hle ltac:(done)). done.
  - destruct (Hm _ _ _ eq_refl ltac:(done) Hlt) as [<- ->]. exists amount.
    destruct (Hd _ _ eq_refl) as [_ Hle]. destruct (Hle ltac:(done)). done.
  - rewrite balance_set_balance in *. case_decide; [subst|lia]. exists amount.
    destruct (Hd _ _ eq_refl) as [_ Hle]. destruct (Hle ltac:(done)). done.
  - rewrite balance_set_balance in *. case_decide; [subst|lia]. exists amount.
    destruct (Hd _ _ eq_refl) as [_ Hle]. destruct (Hle ltac:(done)). done.
Qed.

Lemma committed_vesting e op st :
  (forall a k t c p, op <> OpInitialize a k t c p) -> s_vesting (committed e op st) = s_vesting st.
Proof.
  intros Hni.
  assert (forall n a amount st0, s_vesting (balance_set n a amount st0) = s_vesting st0) as Hs.
  { intros. by destruct (balance_set_frame n a amount st0) as (_ & _ & -> & _). }
  assert (forall f sp amount st0, s_vesting (deducted e f sp amount st0) = s_vesting st0) as Hd.
  { intros. unfold deducted. by case_match. }
  destruct op as [admin k t c p|from sp amount x|from to amount|sp from to amount|from amount|sp from amount];
    cbn [committed]; try (by destruct (Hni admin k t c p)); try (case_decide; [done|]);
    unfold moved; rewrite ?Hd, ?Hs; done.
Qed.

(** C23: vesting is enforced.  When a committed call lowers an account's balance,
    what stays covers everything still locked at that moment; no committed call
    but [initialize] changes a schedule; and every schedule is the core team's:
    all of the allocation is locked until the cliff, then the rest of the linear
    release (rounded down), never growing with time and zero from the end on. *)
Theorem vesting_enforced self n e op s s' :
  chronicle self n s -> valid_env self e -> exec e op s = Ok tt s' ->
  (forall id, balance (store s') id < balance (store s) id ->
     unvested (ledger_timestamp e) (store s) id <= balance (store s') id) /\
  ((forall a k t c p, op <> OpInitialize a k t c p) -> s_vesting (store s') = s_vesting (store s)) /\
  forall id schedule, vesting_schedule (store s') id = Some schedule -> exists t0,
    schedule = team_vesting t0 /\ in_range u64 t0 /\ forall now,
    (now < t0 + TEAM_CLIFF_SECONDS -> unvested now (store s') id = ALLOC_CORE_TEAM) /\
    (t0 + TEAM_CLIFF_SECONDS <= now < t0 + TEAM_VESTING_SECONDS -> unvested now (store s') id
       = ALLOC_CORE_TEAM - ALLOC_CORE_TEAM * (now - t0) / TEAM_VESTING_SECONDS) /\
    (t0 + TEAM_VESTING_SECONDS <= now -> unvested now (store s') id = 0) /\
    forall later, now <= later -> 0 <= unvested later (store s') id <= unvested now (store s') id.
Proof.
  intros Hb%chronicle_books He Hx.
  pose proof (books_exec _ _ _ _ (env_timestamp _ _ He) Hb Hx) as Hb'.
  pose proof (fun id => exec_debits _ _ _ _ id Hb Hx) as Hd. apply exec_commits in Hx as (Hs' & _). split_and!.
  - intros id Hlt. destruct (Hd id Hlt) as (amount & Hop & H0 & Hle). rewrite Hle. lia.
  - intros Hni. rewrite Hs'. by apply committed_vesting.
  - intros id sc Hsc. destruct (books_vesting _ Hb' _ _ Hsc) as (t0 & Ht0 & ->).
    exists t0. split_and!; [done..|]. intros now.
    unfold unvested. rewrite Hsc. fold (team_vesting t0).
    change (total_amount (mkVesting ALLOC_CORE_TEAM t0 TEAM_CLIFF_SECONDS TEAM_VESTING_SECONDS))
      with ALLOC_CORE_TEAM. fold (team_vesting t0). apply locked_curve.
Qed.

Lemma allowance_deducted e f sp amount st from spender :
  0 < amount <= allowance e st f sp ->
  allowance e (deducted e f sp amount st) from spender =
    allowance e st from spender - if decide (f = from /\ sp = spender) then amount else 0.
Proof.
  unfold deducted. intros Ha. unfold allowance in Ha at 1.
  destruct (s_allowance st !! mkAllowanceKey f sp) as [val|] eqn:Hk; [|lia].
  case_bool_decide as Hlive; [|lia]. unfold allowance at 1; cbn.
  destruct (decide (f = from /\ sp = spender)) as [[-> ->]|Hne].
  - rewrite lookup_insert_eq. cbn. by rewrite bool_decide_true by done.
  - rewrite lookup_insert_ne by (intros [=]; naive_solver). rewrite Z.sub_0_r. done.
Qed.

(** Allowances.  A delegated spend needs a live allowance of at least its
    amount and uses up exactly that much of it; [approve] sets the allowance of
    one pair to exactly its amount, up to and including its expiration ledger;
    every other pair keeps what it had. *)
Theorem allowance_exact e op s s' from spender :
  exec e op s = Ok tt s' ->
  allowance e (store s') from spender =
    match op with
    | OpApprove f sp amount _ =>
        if decide (f = from /\ sp = spender) then amount else allowance e (store s) from spender
    | OpTransferFrom sp f _ amount | OpBurnFrom sp f amount =>
        allowance e (store s) from spender - if decide (f = from /\ sp = spender) then amount else 0
    | _ => allowance e (store s) from spender
    end /\
  0 <= from_option (fun '(f, sp, amount) => amount) 0 (spends op) /\
  forall f sp amount, spends op = Some (f, sp, amount) -> amount <> 0 ->
    amount <= allowance e (store s) f sp.
Proof.
  intros Hx. split_and!.
  - destruct op as [admin k t c p|f sp amount x|f to amount|sp f to amount|f amount|sp f amount].
    2:{ cbn [exec] in Hx. unfold approve in Hx. unfold allowance. run; cbn;
          destruct (decide (f = from /\ sp = spender)) as [[-> ->]|Hne];
          rewrite ?lookup_insert_eq, ?lookup_delete_eq, ?lookup_insert_ne, ?lookup_delete_ne
            by (intros [=]; naive_solver); cbn; try done.
        by rewrite bool_decide_true by lia. }
    all: apply exec_commits in Hx as (-> & _ & _ & Hd & Hs & _); cbn [committed debits spends] in *.
    + unfold minted. rewrite allowance_set.
      change (allowance e (balance_set (ledger_sequence e) c ALLOC_CORE_TEAM
        (balance_set (ledger_sequence e) t ALLOC_TREASURY
          (balance_set (ledger_sequence e) k ALLOC_EARLY_KEEPERS
            ((store s) <| s_admin := Some admin |> <| s_initialized := Some true |>)))) from spender
        = allowance e (store s) from spender).
      by rewrite !allowance_set.
    + case_decide; [done|]. unfold moved. by rewrite !allowance_set.
    + destruct (Hd _ _ eq_refl) as [H0 _]. case_decide as Hz; [subst; case_decide; by rewrite Z.sub_0_r|].
      rewrite allowance_deducted; unfold moved; rewrite !allowance_set; [done|].
      specialize (Hs _ _ _ eq_refl Hz). lia.
    + case_decide; [done|]. by rewrite allowance_set.
    + destruct (Hd _ _ eq_refl) as [H0 _]. case_decide as Hz; [subst; case_decide; by rewrite Z.sub_0_r|].
      rewrite allowance_deducted; rewrite !allowance_set; [done|].
      specialize (Hs _ _ _ eq_refl Hz). lia.
  - apply exec_commits in Hx as (_ & _ & _ & Hd & _ & _).
    destruct op; cbn in *; try lia; by destruct (Hd _ _ eq_refl).
  - apply exec_commits in Hx as (_ & _ & _ & _ & Hs & _). eauto.
Qed.
End Rights.

(** ** A sample run and witnesses *)

Definition admin0 : Address := addr 20.
Definition keepers : Address := addr 21.
Definition dao : Address := addr 22.
Definition team : Address := addr 23.
Definition public : Address := addr 24.

Definition deployed : KS := mkSys empty_store [] ∅.
Definition minted_state : KS :=
  call (at_ledger 100 1000) (OpInitialize admin0 keepers dao team public) deployed.

(** Later ledgers: a transfer, an allowance and its use, a burn. *)
Definition later_calls : list (Env * Op) :=
  [ (at_ledger 110 1050, OpTransfer keepers dao 500);
    (at_ledger 110 1050, OpTransfer keepers public 700);
    (at_ledger 120 1100, OpApprove public keepers 900 130);
    (at_ledger 125 1125, OpTransferFrom keepers public dao 400);
    (at_ledger 126 1130, OpBurn dao 50) ].

Definition later_state : KS := run_calls later_calls minted_state.

Ltac sample := repeat constructor; by vm_compute.

Lemma minted_chronicle : chronicle self 100 minted_state.
Proof.
  apply (chronicle_call self 0 deployed (at_ledger 100 1000) (OpInitialize admin0 keepers dao team public));
    [apply chronicle_deploy | by vm_compute | sample | sample].
Qed.

Lemma later_chronological : chronological self (100 + 1) later_calls.
Proof. repeat (apply chronological_cons; [by vm_compute | sample | sample |]). apply chronological_nil. Qed.

Definition answer {S E A} (r : Res S E A) : option A := match r with Ok a _ => Some a | _ => None end.

(** The whole team allocation is locked, half of it after a year, none at the
    end; the keepers' balances at ledgers 100, 110 and 126. *)
Example sample_balances :
  (unvested 1000 (store later_state) team, unvested (1000 + 31536000) (store later_state) team,
   unvested (1000 + 63072000) (store later_state) team,
   answer (balance_at keepers 105 later_state), answer (balance_at dao 125 later_state),
   answer (balance_at dao 99 later_state),
   supply (store later_state))
  = (ALLOC_CORE_TEAM, ALLOC_CORE_TEAM / 2, 0,
     Some ALLOC_EARLY_KEEPERS, Some (ALLOC_TREASURY + 900), Some 0,
     TOTAL_SUPPLY - 50).
Proof. vm_compute. reflexivity. Qed.

(** The public pool sends its whole balance to itself and owns it twice; the
    reported supply does not change. *)
Example self_transfer_mints :
  let s := call (at_ledger 101 1005) (OpTransfer public public ALLOC_PUBLIC) minted_state in
  succeeds (at_ledger 101 1005) (OpTransfer public public ALLOC_PUBLIC) minted_state = true /\
  balance (store s) public = 2 * ALLOC_PUBLIC /\
  supply (store s) = total_supply + ALLOC_PUBLIC.
Proof. vm_compute. repeat split. Qed.

Lemma balance_at_linear_witness :
  balance_at keepers 105 minted_state
    = Ok (value_at 105 (checkpoints (store minted_state) keepers)) minted_state.
Proof.
  destruct (balance_at_linear self 100 minted_state keepers 105 minted_chronicle) as [H _]. exact H.
Defined.

Lemma balance_at_final_witness :
  balance_at keepers 100 later_state = Ok (balance (store minted_state) keepers) later_state.
Proof.
  refine (balance_at_final self 100 minted_state 100 later_calls keepers _ _ _).
  - exact minted_chronicle.
  - reflexivity.
  - exact later_chronological.
Defined.

Lemma transfer_commits `{Ledger} e from to amount s :
  succeeds e (OpTransfer from to amount) s = true ->
  exec e (OpTransfer from to amount) s = Ok tt (call e (OpTransfer from to amount) s).
Proof. exact (succeeds_call e (OpTransfer from to amount) s). Qed.

Lemma supply_exact_witness :
  supply (store (call (at_ledger 101 1005) (OpTransfer public public 7) minted_state)) = supply (store minted_state) + supply_change (OpTransfer public public 7).
Proof.
  destruct (supply_exact self 100 (at_ledger 101 1005) (OpTransfer public public 7) minted_state
    (call (at_ledger 101 1005) (OpTransfer public public 7) minted_state)) as [_ H].
  - exact minted_chronicle.
  - refine (transfer_commits (at_ledger 101 1005) public public 7 minted_state _). vm_compute. reflexivity.
  - exact (H (fun a k t c p => ltac:(discriminate))).
Defined.

Lemma vesting_enforced_witness :
  s_vesting (store (call (at_ledger 101 1005) (OpTransfer keepers dao 7) minted_state)) = s_vesting (store minted_state).
Proof.
  destruct (vesting_enforced self 100 (at_ledger 101 1005) (OpTransfer keepers dao 7) minted_state
    (call (at_ledger 101 1005) (OpTransfer keepers dao 7) minted_state)) as (_ & H & _).
  - exact minted_chronicle.
  - sample.
  - refine (transfer_commits (at_ledger 101 1005) keepers dao 7 minted_state _). vm_compute. reflexivity.
  - exact (H (fun a k t c p => ltac:(discriminate))).
Defined.

Definition approved_state : KS := call (at_ledger 120 1100) (OpApprove public keepers 900 130) minted_state.

Lemma transfer_from_commits `{Ledger} e spender from to amount s :
  succeeds e (OpTransferFrom spender from to amount) s = true ->
  exec e (OpTransferFrom spender from to amount) s = Ok tt (call e (OpTransferFrom spender from to amount) s).
Proof. exact (succeeds_call e (OpTransferFrom spender from to amount) s). Qed.

Lemma allowance_exact_witness :
  let e := at_ledger 125 1125 in
  let s := call e (OpTransferFrom keepers public dao 400) approved_state in
  allowance e (store s) public keepers = allowance e (store approved_state) public keepers - 400.
Proof.
  destruct (allowance_exact (at_ledger 125 1125) (OpTransferFrom keepers public dao 400) approved_state
    (call (at_ledger 125 1125) (OpTransferFrom keepers public dao 400) approved_state) public keepers)
    as (H & _ & _).
  - refine (transfer_from_commits (at_ledger 125 1125) keepers public dao 400 approved_state _).
    vm_compute. reflexivity.
  - rewrite decide_True in H by (split; reflexivity). exact H.
Defined.
