(* ===== verification/Governance.v ===== *)
(** * Governance: proposals, votes, timelock

    src/contracts/governance/src/lib.rs: the contract [GovernanceContract].  (Two
    older implementations are merged into the same file; [initialize],
    [create_proposal] and the types are read across the interleaved lines, see
    the root file.)  Ledger sequences are u32 widened to u64 in a proposal. *)

From S2P Require Import Prelude Host.

Inductive GovernanceError :=
  | AlreadyInitialized
  | NotInitialized
  | InsufficientProposerBalance
  | InvalidParameterValue
  | ProposalNotFound
  | VotingEnded
  | VotingStillActive
  | AlreadyVoted
  | QuorumNotMet
  | PassingThresholdNotMet
  | TimelockNotElapsed
  | ProposalAlreadyExecuted
  | ProposalNotQueued
  | RegistryCallFailed
  | Unauthorized
  | ArithmeticOverflow
  | InsufficientVotingPower
  | ProposalAlreadyCancelled
  | CannotCancelExecuted.

#[export] Instance GovernanceError_eq_dec : EqDecision GovernanceError.
Proof. solve_decision. Defined.

Inductive VoteChoice := Against | For | Abstain.

#[export] Instance VoteChoice_eq_dec : EqDecision VoteChoice.
Proof. solve_decision. Defined.

Record VoteRecord := mkVoteRecord { vr_choice : VoteChoice; vr_weight : Z }.

Inductive GovernableAction :=
  (* registry parameters *)
  | SetFeeBps (bps : Z)
  | SetMinReward (min : Z)
  | SetReputationFloor (floor : Z)
  | PauseRegistry
  | UnpauseRegistry
  (* treasury parameters *)
  | AddTreasuryRecipient (recipient : Address) (shares_bps : Z)
  | RemoveTreasuryRecipient (recipient : Address)
  | UpdateTreasuryShares (recipient : Address) (new_shares_bps : Z)
  | PauseTreasury
  | UnpauseTreasury
  (* the governance contract itself *)
  | SetVotingPeriod (period : Z)
  | SetTimelockDelay (delay : Z)
  | SetQuorumBps (bps : Z)
  | SetProposalThreshold (thresh : Z)
  (* upgrades *)
  | UpgradeRegistry (wasm_hash : Bytes)
  | UpgradeTreasury (wasm_hash : Bytes).

Inductive ProposalStatus := Active | Passed | Queued | Executed | Defeated | Cancelled.

#[export] Instance ProposalStatus_eq_dec : EqDecision ProposalStatus.
Proof. solve_decision. Defined.

Record Proposal := mkProposal {
  p_id : Z;
  p_proposer : Address;
  p_action : GovernableAction;
  p_status : ProposalStatus;
  p_created_at : Z;
  p_voting_end : Z;
  p_eta : Z;
  p_votes_for : Z;
  p_votes_against : Z;
  p_votes_abstain : Z;
}.

#[export] Instance update_p_id : Update p_id :=
  fun f s => mkProposal (f (p_id s)) (p_proposer s) (p_action s) (p_status s) (p_created_at s) (p_voting_end s) (p_eta s) (p_votes_for s) (p_votes_against s) (p_votes_abstain s).
#[export] Instance update_p_proposer : Update p_proposer :=
  fun f s => mkProposal (p_id s) (f (p_proposer s)) (p_action s) (p_status s) (p_created_at s) (p_voting_end s) (p_eta s) (p_votes_for s) (p_votes_against s) (p_votes_abstain s).
#[export] Instance update_p_action : Update p_action :=
  fun f s => mkProposal (p_id s) (p_proposer s) (f (p_action s)) (p_status s) (p_created_at s) (p_voting_end s) (p_eta s) (p_votes_for s) (p_votes_against s) (p_votes_abstain s).
#[export] Instance update_p_status : Update p_status :=
  fun f s => mkProposal (p_id s) (p_proposer s) (p_action s) (f (p_status s)) (p_created_at s) (p_voting_end s) (p_eta s) (p_votes_for s) (p_votes_against s) (p_votes_abstain s).
#[export] Instance update_p_created_at : Update p_created_at :=
  fun f s => mkProposal (p_id s) (p_proposer s) (p_action s) (p_status s) (f (p_created_at s)) (p_voting_end s) (p_eta s) (p_votes_for s) (p_votes_against s) (p_votes_abstain s).
#[export] Instance update_p_voting_end : Update p_voting_end :=
  fun f s => mkProposal (p_id s) (p_proposer s) (p_action s) (p_status s) (p_created_at s) (f (p_voting_end s)) (p_eta s) (p_votes_for s) (p_votes_against s) (p_votes_abstain s).
#[export] Instance update_p_eta : Update p_eta :=
  fun f s => mkProposal (p_id s) (p_proposer s) (p_action s) (p_status s) (p_created_at s) (p_voting_end s) (f (p_eta s)) (p_votes_for s) (p_votes_against s) (p_votes_abstain s).
#[export] Instance update_p_votes_for : Update p_votes_for :=
  fun f s => mkProposal (p_id s) (p_proposer s) (p_action s) (p_status s) (p_created_at s) (p_voting_end s) (p_eta s) (f (p_votes_for s)) (p_votes_against s) (p_votes_abstain s).
#[export] Instance update_p_votes_against : Update p_votes_against :=
  fun f s => mkProposal (p_id s) (p_proposer s) (p_action s) (p_status s) (p_created_at s) (p_voting_end s) (p_eta s) (p_votes_for s) (f (p_votes_against s)) (p_votes_abstain s).
#[export] Instance update_p_votes_abstain : Update p_votes_abstain :=
  fun f s => mkProposal (p_id s) (p_proposer s) (p_action s) (p_status s) (p_created_at s) (p_voting_end s) (p_eta s) (p_votes_for s) (p_votes_against s) (f (p_votes_abstain s)).

Inductive DataKey :=
  | Admin
  | Initialized
  | KprsToken
  | Registry
  | Treasury
  | ProposalThreshold
  | VotingPeriod
  | TimelockDelay
  | QuorumBps
  | ProposalCount
  | TotalSupply
  | ProposalKey (id : Z)
  | VoteKey (id : Z) (voter : Address)
  | VoterPower (id : Z) (voter : Address).

(** One field per key that the code writes. *)
Record Store := mkStore {
  s_admin : option Address;
  s_initialized : option bool;
  s_kprs_token : option Address;
  s_registry : option Address;
  s_proposal_threshold : option Z;
  s_voting_period : option Z;
  s_timelock_delay : option Z;
  s_quorum_bps : option Z;
  s_proposal_count : option Z;
  s_total_supply : option Z;
  s_proposal : gmap Z Proposal;
  s_vote : gmap (Z * Address) VoteRecord;
}.

#[export] Instance update_s_admin : Update s_admin :=
  fun f s => mkStore (f (s_admin s)) (s_initialized s) (s_kprs_token s) (s_registry s) (s_proposal_threshold s) (s_voting_period s) (s_timelock_delay s) (s_quorum_bps s) (s_proposal_count s) (s_total_supply s) (s_proposal s) (s_vote s).
#[export] Instance update_s_initialized : Update s_initialized :=
  fun f s => mkStore (s_admin s) (f (s_initialized s)) (s_kprs_token s) (s_registry s) (s_proposal_threshold s) (s_voting_period s) (s_timelock_delay s) (s_quorum_bps s) (s_proposal_count s) (s_total_supply s) (s_proposal s) (s_vote s).
#[export] Instance update_s_kprs_token : Update s_kprs_token :=
  fun f s => mkStore (s_admin s) (s_initialized s) (f (s_kprs_token s)) (s_registry s) (s_proposal_threshold s) (s_voting_period s) (s_timelock_delay s) (s_quorum_bps s) (s_proposal_count s) (s_total_supply s) (s_proposal s) (s_vote s).
#[export] Instance update_s_registry : Update s_registry :=
  fun f s => mkStore (s_admin s) (s_initialized s) (s_kprs_token s) (f (s_registry s)) (s_proposal_threshold s) (s_voting_period s) (s_timelock_delay s) (s_quorum_bps s) (s_proposal_count s) (s_total_supply s) (s_proposal s) (s_vote s).
#[export] Instance update_s_proposal_threshold : Update s_proposal_threshold :=
  fun f s => mkStore (s_admin s) (s_initialized s) (s_kprs_token s) (s_registry s) (f (s_proposal_threshold s)) (s_voting_period s) (s_timelock_delay s) (s_quorum_bps s) (s_proposal_count s) (s_total_supply s) (s_proposal s) (s_vote s).
#[export] Instance update_s_voting_period : Update s_voting_period :=
  fun f s => mkStore (s_admin s) (s_initialized s) (s_kprs_token s) (s_registry s) (s_proposal_threshold s) (f (s_voting_period s)) (s_timelock_delay s) (s_quorum_bps s) (s_proposal_count s) (s_total_supply s) (s_proposal s) (s_vote s).
#[export] Instance update_s_timelock_delay : Update s_timelock_delay :=
  fun f s => mkStore (s_admin s) (s_initialized s) (s_kprs_token s) (s_registry s) (s_proposal_threshold s) (s_voting_period s) (f (s_timelock_delay s)) (s_quorum_bps s) (s_proposal_count s) (s_total_supply s) (s_proposal s) (s_vote s).
#[export] Instance update_s_quorum_bps : Update s_quorum_bps :=
  fun f s => mkStore (s_admin s) (s_initialized s) (s_kprs_token s) (s_registry s) (s_proposal_threshold s) (s_voting_period s) (s_timelock_delay s) (f (s_quorum_bps s)) (s_proposal_count s) (s_total_supply s) (s_proposal s) (s_vote s).
#[export] Instance update_s_proposal_count : Update s_proposal_count :=
  fun f s => mkStore (s_admin s) (s_initialized s) (s_kprs_token s) (s_registry s) (s_proposal_threshold s) (s_voting_period s) (s_timelock_delay s) (s_quorum_bps s) (f (s_proposal_count s)) (s_total_supply s) (s_proposal s) (s_vote s).
#[export] Instance update_s_total_supply : Update s_total_supply :=
  fun f s => mkStore (s_admin s) (s_initialized s) (s_kprs_token s) (s_registry s) (s_proposal_threshold s) (s_voting_period s) (s_timelock_delay s) (s_quorum_bps s) (s_proposal_count s) (f (s_total_supply s)) (s_proposal s) (s_vote s).
#[export] Instance update_s_proposal : Update s_proposal :=
  fun f s => mkStore (s_admin s) (s_initialized s) (s_kprs_token s) (s_registry s) (s_proposal_threshold s) (s_voting_period s) (s_timelock_delay s) (s_quorum_bps s) (s_proposal_count s) (s_total_supply s) (f (s_proposal s)) (s_vote s).
#[export] Instance update_s_vote : Update s_vote :=
  fun f s => mkStore (s_admin s) (s_initialized s) (s_kprs_token s) (s_registry s) (s_proposal_threshold s) (s_voting_period s) (s_timelock_delay s) (s_quorum_bps s) (s_proposal_count s) (s_total_supply s) (s_proposal s) (f (s_vote s)).

Definition empty_store : Store :=
  mkStore None None None None None None None None None None ∅ ∅.

Inductive Event :=
  | GovernanceInitialized (admin kprs_token registry : Address)
  | ProposalCreated (id : Z) (proposer : Address) (voting_end : Z)
  | VoteCast (id : Z) (voter : Address) (choice : VoteChoice) (weight : Z)
  | ProposalDefeated (id counted required : Z)
  | ProposalPassed (id votes_for votes_against : Z)
  | ProposalQueued (id eta : Z)
  | ProposalExecuted (id : Z)
  | ProposalCancelled (id : Z) (caller : Address).

Definition ONE_TOKEN : Z := 10000000.
Definition DEFAULT_PROPOSAL_THRESHOLD : Z := 100000 * ONE_TOKEN.
Definition DEFAULT_VOTING_PERIOD : Z := 50400.
Definition DEFAULT_TIMELOCK_DELAY : Z := 28800.
Definition DEFAULT_QUORUM_BPS : Z := 400.
Definition INSTANCE_BUMP_THRESHOLD : Z := 100000.
Definition INSTANCE_BUMP_LEDGERS : Z := 300000.
Definition PERSISTENT_BUMP_THRESHOLD : Z := 100000.
Definition PERSISTENT_BUMP_LEDGERS : Z := 300000.

(** ** The token client

    What governance asks of the KPRS token contract ([GovernanceTokenClient]):
    its reported supply, a balance now, a balance at a past ledger.  [None]: the
    callee trapped.  GovernanceSystem.v implements it by KprsToken.v. *)
Class VotingToken `{Ledger} := {
  total_supply_of : ledger -> Address -> option Z;
  balance_now : ledger -> Address -> Address -> option Z;
  balance_past : ledger -> Address -> Address -> Z -> option Z;
}.

Abbreviation GS := (Sys Store DataKey Event).
Abbreviation GM := (M (Sys Store DataKey Event) GovernanceError).

Section Governance.
Context `{VT : VotingToken}.
Implicit Types (e : Env) (account proposer voter caller : Address) (proposal_id : Z) (st : Store).

Definition query {A} (f : ledger -> option A) : GM A :=
  answer ← gets (fun s => f (chain s));
  expect answer.

(** ** Views over storage *)

Definition proposal_count st : Z := default 0 (s_proposal_count st).
Definition proposal_threshold st : Z := default DEFAULT_PROPOSAL_THRESHOLD (s_proposal_threshold st).
Definition voting_period st : Z := default DEFAULT_VOTING_PERIOD (s_voting_period st).
Definition timelock_delay st : Z := default DEFAULT_TIMELOCK_DELAY (s_timelock_delay st).
Definition quorum_bps st : Z := default DEFAULT_QUORUM_BPS (s_quorum_bps st).
Definition total_token_supply st : Z := default (100000000 * ONE_TOKEN) (s_total_supply st).
Definition has_voted st proposal_id voter : bool := bool_decide (is_Some (s_vote st !! (proposal_id, voter))).
Definition get_vote st proposal_id voter : option VoteRecord := s_vote st !! (proposal_id, voter).
Definition admin : GM Address := stored ← read s_admin; expect stored.
Definition kprs_token : GM Address := stored ← read s_kprs_token; expect stored.
Definition registry : GM Address := stored ← read s_registry; expect stored.
Definition version : Z := 1.

Definition get_proposal proposal_id : GM Proposal :=
  stored ← read (fun st => s_proposal st !! proposal_id);
  ok_or stored ProposalNotFound.

Definition get_tallies proposal_id : GM (Z * Z * Z) :=
  proposal ← get_proposal proposal_id;
  mret (p_votes_for proposal, p_votes_against proposal, p_votes_abstain proposal).

(** ** Internal helpers *)

Definition internal_get_voting_power account : GM Z :=
  stored ← read s_kprs_token;
  token_addr ← ok_or stored NotInitialized;
  query (fun l => balance_now l token_addr account).

Definition internal_get_voting_power_at account (at_ledger : Z) : GM Z :=
  stored ← read s_kprs_token;
  token_addr ← ok_or stored NotInitialized;
  query (fun l => balance_past l token_addr account at_ledger).

Definition get_voting_power account : GM Z := internal_get_voting_power account.
Definition get_voting_power_at account (at_ledger : Z) : GM Z :=
  internal_get_voting_power_at account at_ledger.

Definition within (lo hi z : Z) : bool := bool_decide (lo <= z <= hi).

Definition internal_validate_action (action : GovernableAction) : GovernanceError + unit :=
  let check (ok : bool) := if ok then inr tt else inl InvalidParameterValue in
  match action with
  | SetFeeBps bps => check (negb (bool_decide (bps > 10000)))
  | SetMinReward min => check (negb (bool_decide (min < 0)))
  | SetReputationFloor floor => check (negb (bool_decide (floor > 10000)))
  | AddTreasuryRecipient _ shares_bps | UpdateTreasuryShares _ shares_bps =>
      check (negb (bool_decide (shares_bps = 0) || bool_decide (shares_bps > 10000)))
  | SetVotingPeriod period => check (within 14400 201600 period)
  | SetTimelockDelay delay => check (within 14400 86400 delay)
  | SetQuorumBps bps => check (within 100 2000 bps)
  | SetProposalThreshold thresh => check (negb (bool_decide (thresh < 0)))
  | PauseRegistry | UnpauseRegistry | RemoveTreasuryRecipient _ | PauseTreasury | UnpauseTreasury
  | UpgradeRegistry _ | UpgradeTreasury _ => inr tt
  end.

Definition quorum_threshold st : GM Z :=
  product ← expect (checked_mul i128 (total_token_supply st) (quorum_bps st));
  mret (Z.quot product 10000).

(** [votes_for + votes_against + votes_abstain], checked. *)
Definition total_votes (proposal : Proposal) : GM Z :=
  sum ← ok_or (checked_add i128 (p_votes_for proposal) (p_votes_against proposal)) ArithmeticOverflow;
  ok_or (checked_add i128 sum (p_votes_abstain proposal)) ArithmeticOverflow.

Definition require_initialized : GM unit :=
  initialized ← read s_initialized;
  fail_if (bool_decide (~ is_Some initialized)) NotInitialized.

Definition bump_instance : GM unit :=
  log (ExtendInstance INSTANCE_BUMP_THRESHOLD INSTANCE_BUMP_LEDGERS).

Definition extend_ttl (k : DataKey) : GM unit :=
  log (ExtendPersistent k PERSISTENT_BUMP_THRESHOLD PERSISTENT_BUMP_LEDGERS).

(** The write every lifecycle step ends with. *)
Definition save_proposal proposal_id (proposal : Proposal) : GM unit :=
  write (fun st => st <| s_proposal ::= <[proposal_id := proposal]> |>);;
  bump_instance;;
  extend_ttl (ProposalKey proposal_id).

(** ** Entry points *)

Definition initialize e (admin kprs_token registry : Address) : GM unit :=
  initialized ← read s_initialized;
  fail_if (bool_decide (is_Some initialized)) AlreadyInitialized;;
  total_supply ← query (fun l => total_supply_of l kprs_token);
  write (fun st => st <| s_admin := Some admin |> <| s_kprs_token := Some kprs_token |>
                      <| s_registry := Some registry |>);;
  write (fun st => st <| s_proposal_threshold := Some DEFAULT_PROPOSAL_THRESHOLD |>
                      <| s_voting_period := Some DEFAULT_VOTING_PERIOD |>
                      <| s_timelock_delay := Some DEFAULT_TIMELOCK_DELAY |>
                      <| s_quorum_bps := Some DEFAULT_QUORUM_BPS |>);;
  write (fun st => st <| s_proposal_count := Some 0 |> <| s_total_supply := Some total_supply |>
                      <| s_initialized := Some true |>);;
  bump_instance;;
  publish (GovernanceInitialized admin kprs_token registry).

Definition create_proposal e proposer (action : GovernableAction) : GM Z :=
  require_auth e proposer;;
  require_initialized;;
  balance ← internal_get_voting_power proposer;
  threshold ← read proposal_threshold;
  fail_if (bool_decide (balance < threshold)) InsufficientProposerBalance;;
  lift (internal_validate_action action);;
  count ← read proposal_count;
  proposal_id ← ok_or (checked_add u64 count 1) ArithmeticOverflow;
  period ← read voting_period;
  let voting_end := saturating_add u32 (ledger_sequence e) period in
  write (fun st => st <| s_proposal ::= <[proposal_id :=
    mkProposal proposal_id proposer action Active (ledger_sequence e) voting_end 0 0 0 0]> |>);;
  write (fun st => st <| s_proposal_count := Some proposal_id |>);;
  bump_instance;;
  extend_ttl (ProposalKey proposal_id);;
  publish (ProposalCreated proposal_id proposer voting_end);;
  mret proposal_id.

(** The tally a vote adds to. *)
Definition add_vote (choice : VoteChoice) (weight : Z) (proposal : Proposal) : GovernanceError + Proposal :=
  let add old (put : Z -> Proposal) :=
    match checked_add i128 old weight with Some new => inr (put new) | None => inl ArithmeticOverflow end in
  match choice with
  | For => add (p_votes_for proposal) (fun v => proposal <| p_votes_for := v |>)
  | Against => add (p_votes_against proposal) (fun v => proposal <| p_votes_against := v |>)
  | Abstain => add (p_votes_abstain proposal) (fun v => proposal <| p_votes_abstain := v |>)
  end.

Definition vote e voter proposal_id (choice : VoteChoice) : GM unit :=
  require_auth e voter;;
  require_initialized;;
  proposal ← get_proposal proposal_id;
  fail_if (bool_decide (p_status proposal <> Active)) VotingEnded;;
  fail_if (bool_decide (ledger_sequence e > p_voting_end proposal)) VotingEnded;;
  voted ← read (fun st => has_voted st proposal_id voter);
  fail_if voted AlreadyVoted;;
  weight ← internal_get_voting_power_at voter (as_u32 (p_created_at proposal));
  fail_if (bool_decide (weight <= 0)) InsufficientVotingPower;;
  proposal' ← lift (add_vote choice weight proposal);
  write (fun st => st <| s_proposal ::= <[proposal_id := proposal']> |>);;
  write (fun st => st <| s_vote ::= <[(proposal_id, voter) := mkVoteRecord choice weight]> |>);;
  bump_instance;;
  extend_ttl (ProposalKey proposal_id);;
  extend_ttl (VoteKey proposal_id voter);;
  publish (VoteCast proposal_id voter choice weight).

Definition evaluate_proposal e proposal_id : GM ProposalStatus :=
  require_initialized;;
  proposal ← get_proposal proposal_id;
  if bool_decide (p_status proposal <> Active) then mret (p_status proposal) else
  fail_if (bool_decide (ledger_sequence e <= p_voting_end proposal)) VotingStillActive;;
  total ← total_votes proposal;
  st ← read id;
  quorum ← quorum_threshold st;
  let '(status, event) :=
    if bool_decide (total < quorum) then (Defeated, ProposalDefeated proposal_id total quorum)
    else if bool_decide (p_votes_for proposal <= p_votes_against proposal)
    then (Defeated, ProposalDefeated proposal_id (p_votes_for proposal) (p_votes_against proposal))
    else (Passed, ProposalPassed proposal_id (p_votes_for proposal) (p_votes_against proposal)) in
  publish event;;
  save_proposal proposal_id (proposal <| p_status := status |>);;
  mret status.

(** The proposal [queue_proposal] goes on with: an active one is evaluated first. *)
Definition evaluated e proposal_id (proposal : Proposal) : GM Proposal :=
  if bool_decide (p_status proposal = Active) then
    status ← evaluate_proposal e proposal_id;
    fail_if (bool_decide (status <> Passed)) PassingThresholdNotMet;;
    get_proposal proposal_id
  else mret proposal.

Definition queue_proposal e proposal_id : GM Z :=
  require_initialized;;
  stored ← get_proposal proposal_id;
  if bool_decide (p_status stored = Queued) then mret (p_eta stored) else
  proposal ← evaluated e proposal_id stored;
  fail_if (bool_decide (p_status proposal <> Passed)) ProposalNotQueued;;
  delay ← read timelock_delay;
  eta ← ok_or (checked_add u64 (ledger_sequence e) delay) ArithmeticOverflow;
  save_proposal proposal_id (proposal <| p_status := Queued |> <| p_eta := eta |>);;
  publish (ProposalQueued proposal_id eta);;
  mret eta.

(** The effect of an executed action: governance's own parameters only. *)
Definition apply_action (action : GovernableAction) st : Store :=
  match action with
  | SetVotingPeriod period => st <| s_voting_period := Some period |>
  | SetTimelockDelay delay => st <| s_timelock_delay := Some delay |>
  | SetQuorumBps bps => st <| s_quorum_bps := Some bps |>
  | SetProposalThreshold thresh => st <| s_proposal_threshold := Some thresh |>
  | _ => st
  end.

Definition execute_proposal e proposal_id : GM unit :=
  require_initialized;;
  proposal ← get_proposal proposal_id;
  fail_if (bool_decide (p_status proposal = Executed)) ProposalAlreadyExecuted;;
  fail_if (bool_decide (p_status proposal <> Queued)) ProposalNotQueued;;
  fail_if (bool_decide (ledger_sequence e < p_eta proposal)) TimelockNotElapsed;;
  write (apply_action (p_action proposal));;
  save_proposal proposal_id (proposal <| p_status := Executed |>);;
  publish (ProposalExecuted proposal_id).

Definition cancel_proposal e caller proposal_id : GM unit :=
  require_auth e caller;;
  require_initialized;;
  stored ← read s_admin;
  admin ← expect stored;
  proposal ← get_proposal proposal_id;
  fail_if (bool_decide (p_status proposal = Executed)) CannotCancelExecuted;;
  fail_if (bool_decide (p_status proposal = Cancelled)) ProposalAlreadyCancelled;;
  fail_if (bool_decide (caller <> p_proposer proposal) && bool_decide (caller <> admin)) Unauthorized;;
  save_proposal proposal_id (proposal <| p_status := Cancelled |>);;
  publish (ProposalCancelled proposal_id caller).

(** ** Lifecycle views *)

Definition get_remaining_delay e proposal_id : GM Z :=
  proposal ← get_proposal proposal_id;
  fail_if (bool_decide (p_status proposal <> Queued)) ProposalNotQueued;;
  mret (saturating_sub u64 (p_eta proposal) (ledger_sequence e)).

Definition is_executable e proposal_id : GM bool :=
  proposal ← get_proposal proposal_id;
  if bool_decide (p_status proposal <> Queued) then mret false
  else mret (bool_decide (ledger_sequence e >= p_eta proposal)).

Definition is_quorum_met proposal_id : GM bool :=
  proposal ← get_proposal proposal_id;
  total ← total_votes proposal;
  st ← read id;
  quorum ← quorum_threshold st;
  mret (bool_decide (total >= quorum)).

Definition is_passing_threshold_met proposal_id : GM bool :=
  proposal ← get_proposal proposal_id;
  mret (bool_decide (p_votes_for proposal > p_votes_against proposal)).

Definition get_proposal_status e proposal_id : GM ProposalStatus :=
  proposal ← get_proposal proposal_id;
  if bool_decide (p_status proposal <> Active) then mret (p_status proposal) else
  if bool_decide (ledger_sequence e <= p_voting_end proposal) then mret Active else
  total ← total_votes proposal;
  st ← read id;
  quorum ← quorum_threshold st;
  if bool_decide (total < quorum) || bool_decide (p_votes_for proposal <= p_votes_against proposal)
  then mret Defeated else mret Passed.

Definition get_proposal_state e proposal_id : GM ProposalStatus := get_proposal_status e proposal_id.
End Governance.

(** ** The entry points as one step function *)

Inductive Op :=
  | OpInitialize (admin kprs_token registry : Address)
  | OpCreate (proposer : Address) (action : GovernableAction)
  | OpVote (voter : Address) (proposal_id : Z) (choice : VoteChoice)
  | OpEvaluate (proposal_id : Z)
  | OpQueue (proposal_id : Z)
  | OpExecute (proposal_id : Z)
  | OpCancel (caller : Address) (proposal_id : Z).

Definition typed_action (action : GovernableAction) : Prop :=
  match action with
  | SetFeeBps z | SetReputationFloor z | AddTreasuryRecipient _ z | UpdateTreasuryShares _ z
  | SetVotingPeriod z | SetTimelockDelay z | SetQuorumBps z => in_range u32 z
  | SetMinReward z | SetProposalThreshold z => in_range i128 z
  | _ => True
  end.

Definition typed_op (op : Op) : Prop :=
  match op with
  | OpCreate _ action => typed_action action
  | OpVote _ id _ | OpEvaluate id | OpQueue id | OpExecute id | OpCancel _ id => in_range u64 id
  | OpInitialize _ _ _ => True
  end.
