(* ===== verification/GovernanceSpec.v ===== *)
(** * Governance: what each call commits

    The contract of Governance.v as a transition system, and the specification
    of every entry point: the guards a committed call has passed and the storage
    it leaves. *)

From S2P Require Import Prelude Host Contract Governance.

Section System.
Context `{VT : VotingToken}.

Definition exec (e : Env) (op : Op) : GM unit :=
  match op with
  | OpInitialize admin kprs_token registry => initialize e admin kprs_token registry
  | OpCreate proposer action => forget (create_proposal e proposer action)
  | OpVote voter id choice => vote e voter id choice
  | OpEvaluate id => forget (evaluate_proposal e id)
  | OpQueue id => forget (queue_proposal e id)
  | OpExecute id => execute_proposal e id
  | OpCancel caller id => cancel_proposal e caller id
  end.
End System.

Abbreviation call := (Contract.call exec).
Abbreviation succeeds := (Contract.succeeds exec).
Abbreviation run_calls := (Contract.run_calls exec).
Abbreviation chronicle := (Contract.chronicle exec typed_op empty_store).
Abbreviation chronological := (Contract.chronological typed_op).

Section Spec.
Context `{VT : VotingToken}.
Implicit Types (e : Env) (s : GS) (st : Store) (p : Proposal).

Definition quorum_of st : Z := Z.quot (total_token_supply st * quorum_bps st) 10000.
Definition votes_of p : Z := p_votes_for p + p_votes_against p + p_votes_abstain p.

(** The verdict on a closed vote. *)
Definition verdict st p : ProposalStatus :=
  if decide (votes_of p < quorum_of st \/ p_votes_for p <= p_votes_against p) then Defeated else Passed.

Definition put id p st : Store := st <| s_proposal ::= <[id := p]> |>.

#[export] Instance runs_query {A} (f : ledger -> option A) :
  Runs (query f) (fun s a s' => f (chain s) = Some a /\ s' = s).
Proof. runs_solve. Qed.

#[export] Instance runs_get_proposal id :
  Runs (get_proposal id) (fun s p s' => s_proposal (store s) !! id = Some p /\ s' = s).
Proof. runs_solve. Qed.

#[export] Instance runs_require_initialized :
  Runs require_initialized (fun s _ s' => is_Some (s_initialized (store s)) /\ s' = s).
Proof.
  intros s [] s'. unfold require_initialized. split.
  - intros Hr. run. split; [|done]. by destruct (s_initialized (store s)); [eauto|naive_solver].
  - intros [Hi ->]. forward1. apply fail_if_Ok. split; [|done]. apply bool_decide_false. auto.
Qed.

#[export] Instance runs_total_votes p :
  Runs (total_votes p) (fun s t s' => t = votes_of p /\ s' = s /\
    in_range i128 (p_votes_for p + p_votes_against p) /\ in_range i128 (votes_of p)).
Proof.
  intros s t s'. unfold total_votes, votes_of. split; [intros; run; done|].
  intros (-> & -> & H1 & H2). apply bind_Ok. do 2 eexists. split; apply runs; split; try reflexivity;
    by apply checked_Some.
Qed.

#[export] Instance runs_quorum_threshold st :
  Runs (quorum_threshold st) (fun s q s' => q = quorum_of st /\ s' = s /\
    in_range i128 (total_token_supply st * quorum_bps st)).
Proof.
  intros s q s'. unfold quorum_threshold, quorum_of. split; [intros; run; done|].
  intros (-> & -> & H1). apply bind_Ok. do 2 eexists. split; [|by apply runs]. apply runs; split; [|reflexivity].
  by apply checked_Some.
Qed.

#[export] Instance ensures_save_proposal id p :
  Ensures (save_proposal id p) (fun s _ s' =>
    store s' = put id p (store s) /\ chain s' = chain s /\ events s' = events s).
Proof. ensures_solve. Qed.

(** ** Entry points *)

#[export] Instance ensures_initialize e admin kprs_token registry :
  Ensures (initialize e admin kprs_token registry) (fun s _ s' => exists total_supply,
    s_initialized (store s) = None /\ total_supply_of (chain s) kprs_token = Some total_supply /\
    store s' = mkStore (Some admin) (Some true) (Some kprs_token) (Some registry)
      (Some DEFAULT_PROPOSAL_THRESHOLD) (Some DEFAULT_VOTING_PERIOD) (Some DEFAULT_TIMELOCK_DELAY)
      (Some DEFAULT_QUORUM_BPS) (Some 0) (Some total_supply)
      (s_proposal (store s)) (s_vote (store s)) /\
    chain s' = chain s).
Proof.
  ensures_solve. by apply eq_None_not_Some.
Qed.

#[export] Instance ensures_create_proposal e proposer action :
  Ensures (create_proposal e proposer action) (fun s id s' => exists token power,
    authorized e proposer = true /\ is_Some (s_initialized (store s)) /\
    s_kprs_token (store s) = Some token /\ balance_now (chain s) token proposer = Some power /\
    proposal_threshold (store s) <= power /\ internal_validate_action action = inr tt /\
    id = proposal_count (store s) + 1 /\ in_range u64 id /\
    store s' = (put id (mkProposal id proposer action Active (ledger_sequence e)
                 (saturating_add u32 (ledger_sequence e) (voting_period (store s))) 0 0 0 0) (store s))
                 <| s_proposal_count := Some id |> /\
    chain s' = chain s).
Proof.
  intros s id s' Hr. unfold create_proposal, internal_get_voting_power in Hr. run.
  do 2 eexists. split_and!; done.
Qed.

(** Voting adds the weight to one tally. *)
Definition tally choice p : Z :=
  match choice with For => p_votes_for p | Against => p_votes_against p | Abstain => p_votes_abstain p end.

Definition voted choice weight p : Proposal :=
  match choice with
  | For => p <| p_votes_for := p_votes_for p + weight |>
  | Against => p <| p_votes_against := p_votes_against p + weight |>
  | Abstain => p <| p_votes_abstain := p_votes_abstain p + weight |>
  end.

Lemma add_vote_inr choice weight p p' :
  add_vote choice weight p = inr p' <-> in_range i128 (tally choice p + weight) /\ p' = voted choice weight p.
Proof.
  unfold add_vote, tally, voted, checked_add, checked. destruct choice; case_decide; naive_solver.
Qed.

#[export] Instance ensures_vote e voter id choice :
  Ensures (vote e voter id choice) (fun s _ s' => exists p token weight,
    authorized e voter = true /\ is_Some (s_initialized (store s)) /\
    s_proposal (store s) !! id = Some p /\ p_status p = Active /\
    ledger_sequence e <= p_voting_end p /\ s_vote (store s) !! (id, voter) = None /\
    s_kprs_token (store s) = Some token /\
    balance_past (chain s) token voter (as_u32 (p_created_at p)) = Some weight /\ 0 < weight /\
    in_range i128 (tally choice p + weight) /\
    store s' = (put id (voted choice weight p) (store s))
                 <| s_vote ::= <[(id, voter) := mkVoteRecord choice weight]> |> /\
    chain s' = chain s).
Proof.
  intros s [] s' Hr. unfold vote, internal_get_voting_power_at in Hr. run.
  match goal with Ha : add_vote _ _ _ = inr _ |- _ => apply add_vote_inr in Ha as [? ->] end.
  unfold has_voted in *. run_simpl. do 3 eexists. split_and!; try done; try lia. by apply eq_None_not_Some.
Qed.

(** The checked arithmetic of a verdict. *)
Definition countable st p : Prop :=
  in_range i128 (p_votes_for p + p_votes_against p) /\ in_range i128 (votes_of p) /\
  in_range i128 (total_token_supply st * quorum_bps st).

#[export] Instance ensures_evaluate_proposal e id :
  Ensures (evaluate_proposal e id) (fun s status s' => exists p,
    is_Some (s_initialized (store s)) /\ s_proposal (store s) !! id = Some p /\ chain s' = chain s /\
    if decide (p_status p = Active)
    then p_voting_end p < ledger_sequence e /\ countable (store s) p /\
         status = verdict (store s) p /\ store s' = put id (p <| p_status := status |>) (store s)
    else status = p_status p /\ store s' = store s).
Proof.
  intros s status s' Hr. unfold evaluate_proposal in Hr. do 2 run1 Hr. exists x.
  destruct (decide (p_status x = Active)) as [Ha|Ha].
  - rewrite bool_decide_false in Hr by tauto. do 4 run1 Hr. unfold verdict.
    destruct (decide (votes_of x < quorum_of (store s) \/ p_votes_for x <= p_votes_against x)) as [Hv|Hv].
    + assert (exists ev, (if bool_decide (votes_of x < quorum_of (store s))
         then (Defeated, ProposalDefeated id (votes_of x) (quorum_of (store s)))
         else if bool_decide (p_votes_for x <= p_votes_against x)
         then (Defeated, ProposalDefeated id (p_votes_for x) (p_votes_against x))
         else (Passed, ProposalPassed id (p_votes_for x) (p_votes_against x))) = (Defeated, ev)) as [ev Hev].
      { repeat case_bool_decide; eauto. tauto. }
      rewrite Hev in Hr. run. split_and!; done.
    + rewrite !bool_decide_false in Hr by tauto. run. split_and!; done.
  - rewrite bool_decide_true in Hr by done. run. split_and!; done.
Qed.

Lemma put_put id p q st : put id q (put id p st) = put id q st.
Proof. unfold put, update, update_s_proposal. cbn. by rewrite insert_insert_eq. Qed.

Lemma lookup_put id p st i :
  s_proposal (put id p st) !! i = if decide (i = id) then Some p else s_proposal st !! i.
Proof. cbn. case_decide; subst; by rewrite ?lookup_insert_eq, ?lookup_insert_ne. Qed.

(** A proposal that may be queued now: passed, or closed with a passing vote. *)
Definition queueable e st p : Prop :=
  p_status p = Passed \/
  (p_status p = Active /\ p_voting_end p < ledger_sequence e /\ verdict st p = Passed).

Lemma evaluated_spec e id p s q s' :
  s_proposal (store s) !! id = Some p -> evaluated e id p s = Ok q s' -> p_status q = Passed ->
  queueable e (store s) p /\ q = p <| p_status := Passed |> /\ chain s' = chain s /\
  (store s' = store s \/ store s' = put id q (store s)).
Proof.
  intros Hp Hr Hq. unfold evaluated, queueable in *.
  destruct (decide (p_status p = Active)) as [Ha|Ha].
  - rewrite bool_decide_true in Hr by done. run.
    match goal with Hd : if decide _ then _ else _ |- _ => rewrite decide_True in Hd by done end.
    run_simpl. match goal with Hs : store _ = put _ _ _ |- _ => rewrite Hs in * end.
    rewrite lookup_put, decide_True in * by done. simplify_eq. split_and!; try tauto.
    match goal with Hv : Passed = verdict _ _ |- _ => rewrite <- Hv end. tauto.
  - rewrite bool_decide_false in Hr by done. run. split_and!; try tauto.
    destruct p; cbn in *; by subst.
Qed.

#[export] Instance ensures_queue_proposal e id :
  Ensures (queue_proposal e id) (fun s eta s' => exists p,
    is_Some (s_initialized (store s)) /\ s_proposal (store s) !! id = Some p /\ chain s' = chain s /\
    if decide (p_status p = Queued) then eta = p_eta p /\ store s' = store s
    else queueable e (store s) p /\ eta = ledger_sequence e + timelock_delay (store s) /\
         in_range u64 eta /\
         store s' = put id (p <| p_status := Queued |> <| p_eta := eta |>) (store s)).
Proof.
  intros s eta s' Hr. unfold queue_proposal in Hr. do 2 run1 Hr. exists x.
  destruct (decide (p_status x = Queued)) as [Ha|Ha].
  - rewrite bool_decide_true in Hr by done. run. split_and!; done.
  - rewrite bool_decide_false in Hr by done. apply bind_Ok in Hr as (q & s1 & He & Hr). do 2 run1 Hr.
    eapply evaluated_spec in He as (Hqa & -> & Hch & Hst); [|done..].
    run. split_and!; try done; try congruence.
    + f_equal. by destruct Hst as [->| ->].
    + match goal with |- ?l = put _ ?q _ => change (put id q (store s1) = put id q (store s)) end.
      destruct Hst as [->| ->]; [done|apply put_put].
Qed.

#[export] Instance ensures_execute_proposal e id :
  Ensures (execute_proposal e id) (fun s _ s' => exists p,
    is_Some (s_initialized (store s)) /\ s_proposal (store s) !! id = Some p /\
    p_status p = Queued /\ p_eta p <= ledger_sequence e /\ chain s' = chain s /\
    store s' = put id (p <| p_status := Executed |>) (apply_action (p_action p) (store s))).
Proof. ensures_solve. Qed.

#[export] Instance ensures_cancel_proposal e caller id :
  Ensures (cancel_proposal e caller id) (fun s _ s' => exists p admin,
    is_Some (s_initialized (store s)) /\ authorized e caller = true /\
    s_admin (store s) = Some admin /\ s_proposal (store s) !! id = Some p /\
    p_status p <> Executed /\ p_status p <> Cancelled /\ (caller = p_proposer p \/ caller = admin) /\
    chain s' = chain s /\ store s' = put id (p <| p_status := Cancelled |>) (store s)).
Proof.
  intros s [] s' Hr. unfold cancel_proposal in Hr. run. do 2 eexists. split_and!; try done.
  match goal with Hc : caller <> ?a -> ~ (caller <> ?b) |- _ =>
    destruct (decide (caller = a)); [by left|right; by apply dec_stable, Hc] end.
Qed.

#[export] Instance runs_get_proposal_status e id :
  Runs (get_proposal_status e id) (fun s x s' => exists p,
    s_proposal (store s) !! id = Some p /\ s' = s /\
    if decide (p_status p = Active) then
      if decide (ledger_sequence e <= p_voting_end p) then x = Active
      else countable (store s) p /\ x = verdict (store s) p
    else x = p_status p).
Proof.
  intros s x s'. unfold get_proposal_status, countable, verdict. split.
  - intros Hr. run1 Hr. exists x0. split; [done|].
    destruct (decide (p_status x0 = Active)).
    + rewrite bool_decide_false in Hr by tauto. case_bool_decide.
      * run. split; [done|]. by rewrite decide_True.
      * rewrite decide_False by done. do 3 run1 Hr.
        destruct (decide (votes_of x0 < quorum_of (store s) \/ p_votes_for x0 <= p_votes_against x0)) as [Hd|Hd];
          repeat case_bool_decide; cbn in Hr; run; first [tauto | lia | split_and!; done].
    + rewrite bool_decide_true in Hr by done. by run.
  - intros (p & Hp & -> & Hd). forward1. case_decide.
    + rewrite bool_decide_false by tauto. case_bool_decide.
      * rewrite decide_True in Hd by done. by apply runs.
      * rewrite decide_False in Hd by done. destruct Hd as [(? & ? & ?) ->]. do 3 forward1.
        destruct (decide (votes_of p < quorum_of (store s) \/ p_votes_for p <= p_votes_against p)) as [Hd|Hd];
          repeat case_bool_decide; cbn; first [tauto | lia | by apply runs].
    + rewrite bool_decide_true by done. by apply runs.
Qed.

(** Evaluation commits whenever its arithmetic does. *)
Lemma evaluate_commits e id s p :
  is_Some (s_initialized (store s)) -> s_proposal (store s) !! id = Some p ->
  (p_status p = Active -> p_voting_end p < ledger_sequence e /\ countable (store s) p) ->
  exists x s', evaluate_proposal e id s = Ok x s'.
Proof.
  intros Hi Hp Hd. unfold evaluate_proposal. destruct (decide (p_status p = Active)) as [Ha|Ha].
  - destruct (Hd Ha) as (He & ? & ? & ?).
    destruct (bool_decide (votes_of p < quorum_of (store s))) eqn:Hq,
      (bool_decide (p_votes_for p <= p_votes_against p)) eqn:Hm;
      do 2 eexists; do 2 forward1; rewrite bool_decide_false by tauto;
      (pass; [lia|]); do 3 forward1; unfold Datatypes.id; rewrite ?Hq, ?Hm; cbn iota;
      unfold save_proposal; repeat forward1; by apply runs.
  - do 2 eexists. do 2 forward1. rewrite bool_decide_true by done. by apply runs.
Qed.
End Spec.
