(* ===== verification/GovernanceProps.v ===== *)
(** * Governance: what holds of every run

    The life of a proposal as a step relation, the invariant of chronological
    runs (parameter bounds, timelock, quorum, tallies) and its consequences. *)

From S2P Require Import Prelude Host Contract Governance GovernanceSpec.

(** Bounds of [internal_validate_action]. *)
Definition MIN_VOTING_PERIOD : Z := 14400.
Definition MIN_TIMELOCK_DELAY : Z := 14400.
Definition MIN_QUORUM_BPS : Z := 100.

Section Steps.
Context `{VT : VotingToken}.
Implicit Types (e : Env) (s : GS) (st : Store) (p : Proposal).

(** A committed call that does not concern the proposal under [id], or concerns
    it and has nothing to do: an evaluation of a decided proposal, a second
    queueing. *)
Definition idle op (id : Z) p : Prop :=
  match op with
  | OpVote _ i _ | OpExecute i | OpCancel _ i => i <> id
  | OpEvaluate i => i = id -> p_status p <> Active
  | OpQueue i => i = id -> p_status p = Queued
  | OpInitialize _ _ _ | OpCreate _ _ => True
  end.

(** The effect of the committed call [op], which took storage from [st] to
    [st'], on the proposal stored under [id]. *)
Inductive proposal_step e op st st' (id : Z) p : Proposal -> Prop :=
  | step_none : idle op id p -> proposal_step e op st st' id p p
  | step_vote voter choice weight :
      op = OpVote voter id choice -> authorized e voter = true ->
      p_status p = Active -> ledger_sequence e <= p_voting_end p -> 0 < weight ->
      s_vote st !! (id, voter) = None ->
      s_vote st' = <[(id, voter) := mkVoteRecord choice weight]> (s_vote st) ->
      proposal_step e op st st' id p (voted choice weight p)
  | step_evaluate :
      op = OpEvaluate id -> p_status p = Active -> p_voting_end p < ledger_sequence e ->
      proposal_step e op st st' id p (p <| p_status := verdict st p |>)
  | step_queue :
      op = OpQueue id -> queueable e st p ->
      proposal_step e op st st' id p
        (p <| p_status := Queued |> <| p_eta := ledger_sequence e + timelock_delay st |>)
  | step_execute :
      op = OpExecute id -> p_status p = Queued -> p_eta p <= ledger_sequence e ->
      proposal_step e op st st' id p (p <| p_status := Executed |>)
  | step_cancel caller :
      op = OpCancel caller id -> authorized e caller = true ->
      caller = p_proposer p \/ s_admin st = Some caller ->
      p_status p <> Executed -> p_status p <> Cancelled ->
      proposal_step e op st st' id p (p <| p_status := Cancelled |>).

(** The proposal a call creates. *)
Definition created e st proposer action : Proposal :=
  mkProposal (proposal_count st + 1) proposer action Active (ledger_sequence e)
    (saturating_add u32 (ledger_sequence e) (voting_period st)) 0 0 0 0.

(** The storage around the proposals, after a committed call. *)
Definition config_after op st st' : Prop :=
  match op with
  | OpInitialize admin token registry => s_initialized st = None /\ exists supply,
      st' = mkStore (Some admin) (Some true) (Some token) (Some registry)
        (Some DEFAULT_PROPOSAL_THRESHOLD) (Some DEFAULT_VOTING_PERIOD) (Some DEFAULT_TIMELOCK_DELAY)
        (Some DEFAULT_QUORUM_BPS) (Some 0) (Some supply) (s_proposal st) (s_vote st)
  | OpCreate proposer action => exists props,
      internal_validate_action action = inr tt /\ in_range u64 (proposal_count st + 1) /\
      st' = st <| s_proposal := props |> <| s_proposal_count := Some (proposal_count st + 1) |>
  | OpVote voter id choice => exists props weight,
      0 < weight /\ s_vote st !! (id, voter) = None /\ is_Some (s_proposal st !! id) /\
      st' = st <| s_proposal := props |> <| s_vote ::= <[(id, voter) := mkVoteRecord choice weight]> |>
  | OpExecute id => exists props p,
      s_proposal st !! id = Some p /\ st' = (apply_action (p_action p) st) <| s_proposal := props |>
  | _ => exists props, st' = st <| s_proposal := props |>
  end.

Lemma put_props id p st : put id p st = st <| s_proposal := <[id := p]> (s_proposal st) |>.
Proof. done. Qed.

Lemma apply_action_proposals action st : s_proposal (apply_action action st) = s_proposal st.
Proof. by destruct action. Qed.

(** What becomes of the proposal stored under [id]. *)
Definition proposal_after e op st st' id : Prop :=
  match s_proposal st !! id with
  | Some p => (exists proposer action, op = OpCreate proposer action /\ id = proposal_count st + 1) \/
      exists p', s_proposal st' !! id = Some p' /\ proposal_step e op st st' id p p'
  | None => s_proposal st' !! id = None \/
      exists proposer action, op = OpCreate proposer action /\ id = proposal_count st + 1 /\
        s_proposal st' !! id = Some (created e st proposer action)
  end.

Lemma after_same e op st st' id :
  (forall p, s_proposal st !! id = Some p -> idle op id p) -> s_proposal st' = s_proposal st ->
  proposal_after e op st st' id.
Proof.
  unfold proposal_after. intros Hnv ->. destruct (s_proposal st !! id) as [p|] eqn:Hp; [|by left].
  right. eexists. split; [done|]. constructor. by apply Hnv.
Qed.

Lemma after_insert e op st st' id0 p0 q id :
  s_proposal st' = <[id0 := q]> (s_proposal st) -> s_proposal st !! id0 = Some p0 ->
  (forall p, id <> id0 -> idle op id p) ->
  proposal_step e op st st' id0 p0 q -> proposal_after e op st st' id.
Proof.
  unfold proposal_after. intros -> Hp Hv Hq. destruct (decide (id = id0)) as [->|Hne].
  - rewrite Hp. right. eexists. split; [by rewrite lookup_insert_eq|done].
  - rewrite !lookup_insert_ne by done. case_match; [|by left]. right. eexists. split; [done|].
    constructor. by apply Hv.
Qed.

Ltac idle_solve := let q := fresh "q" in let Hq := fresh "Hq" in intros q Hq; cbn; intros; subst; congruence.

(** A committed call: the configuration around the proposals, and each proposal. *)
Lemma exec_step e op s s' :
  exec e op s = Ok tt s' ->
  chain s' = chain s /\ config_after op (store s) (store s') /\
  ((forall a t r, op <> OpInitialize a t r) -> is_Some (s_initialized (store s))) /\
  forall id, proposal_after e op (store s) (store s') id.
Proof.
  intros Hr. destruct op as [admin token registry|proposer action|voter id choice|id|id|id|caller id];
    cbn [exec] in Hr; try (apply runs_forget in Hr as [? Hr]); apply ensures in Hr; cbv zeta beta in Hr.
  - destruct Hr as (supply & Hi & _ & Hst & Hch). split_and!; [done| |intros Hni; by destruct (Hni admin token registry)|].
    + cbn. split; [done|]. by exists supply.
    + intros id. apply after_same; [done|by rewrite Hst].
  - destruct Hr as (token & power & _ & Hi & _ & _ & _ & Hv & -> & Hu & Hst & Hch).
    split_and!; [done| |done|].
    + eexists. split_and!; [done..|]. rewrite Hst, put_props. done.
    + intros id. unfold proposal_after. rewrite Hst; cbn.
      destruct (decide (id = proposal_count (store s) + 1)) as [->|Hne].
      * rewrite lookup_insert_eq. case_match; [by left; eauto|]. right. do 2 eexists. done.
      * rewrite lookup_insert_ne by done. case_match; [|by left]. right. eexists. split; [done|by constructor].
  - destruct Hr as (p & token & weight & Hau & Hi & Hp & Ha & He & Hn & _ & _ & Hw & _ & Hst & Hch).
    split_and!; [done| |done|].
    + eexists _, weight. split_and!; [done|done|by eexists|]. rewrite Hst, put_props. done.
    + intros i. eapply after_insert; [by rewrite Hst|done|idle_solve|]. eapply step_vote; try done. by rewrite Hst.
  - destruct Hr as (p & Hi & Hp & Hch & Hd). split_and!; [done| |done|].
    + case_decide; destruct Hd as [_ Hd]; [destruct Hd as (_ & _ & Hst)|rename Hd into Hst];
        eexists; rewrite Hst; [by rewrite put_props|]. instantiate (1 := s_proposal (store s)). by destruct (store s).
    + intros i. case_decide.
      * destruct Hd as (He & _ & -> & Hst). eapply after_insert; [by rewrite Hst|done|idle_solve|by constructor].
      * destruct Hd as [_ Hst]. apply after_same; [idle_solve|by rewrite Hst].
  - destruct Hr as (p & Hi & Hp & Hch & Hd). split_and!; [done| |done|].
    + case_decide; [destruct Hd as [_ Hst]|destruct Hd as (_ & _ & _ & Hst)];
        eexists; rewrite Hst; [|by rewrite put_props]. instantiate (1 := s_proposal (store s)). by destruct (store s).
    + intros i. case_decide; [destruct Hd as [_ Hst]|destruct Hd as (Hq & -> & _ & Hst)].
      * apply after_same; [idle_solve|by rewrite Hst].
      * eapply after_insert; [by rewrite Hst|done|idle_solve|by constructor].
  - destruct Hr as (p & Hi & Hp & Hq & Heta & Hch & Hst). split_and!; [done| |done|].
    + eexists _, p. split; [done|]. rewrite Hst, put_props. done.
    + intros i. apply (after_insert _ _ _ _ id p (p <| p_status := Executed |>)); [|done|idle_solve|by constructor].
      rewrite Hst. cbn. by rewrite apply_action_proposals.
  - destruct Hr as (p & admin & Hi & Hau & Had & Hp & H1 & H2 & Hwho & Hch & Hst). split_and!; [done| |done|].
    + eexists. rewrite Hst, put_props. done.
    + intros i. eapply after_insert; [by rewrite Hst|done|idle_solve|]. apply (step_cancel _ _ _ _ _ _ caller); try done.
      destruct Hwho as [->| ->]; auto.
Qed.
End Steps.

(** ** The invariant *)

(** Statuses a proposal only reaches by winning its vote. *)
Definition approved p : bool :=
  match p_status p with Passed | Queued | Executed => true | _ => false end.

Record config_sound (st : Store) : Prop := {
  conf_period : MIN_VOTING_PERIOD <= voting_period st <= 201600;
  conf_delay : MIN_TIMELOCK_DELAY <= timelock_delay st <= 86400;
  conf_quorum : MIN_QUORUM_BPS <= quorum_bps st <= 2000;
  conf_threshold : 0 <= proposal_threshold st;
  conf_count : in_range u64 (proposal_count st);
}.

Record proposal_sound (n : Z) (st : Store) (id : Z) (p : Proposal) : Prop := {
  prop_id : p_id p = id;
  prop_range : 1 <= id <= proposal_count st;
  prop_action : internal_validate_action (p_action p) = inr tt;
  prop_created : 0 <= p_created_at p <= n /\ p_created_at p <= 2 ^ 32 - 1;
  prop_end : Z.min (2 ^ 32 - 1) (p_created_at p + MIN_VOTING_PERIOD) <= p_voting_end p;
  prop_tallies c : 0 <= tally c p;
  prop_approved : approved p = true -> p_voting_end p < n /\ p_votes_against p < p_votes_for p /\
    Z.quot (total_token_supply st * MIN_QUORUM_BPS) 10000 <= votes_of p;
  prop_queued : p_status p = Queued \/ p_status p = Executed -> p_voting_end p + MIN_TIMELOCK_DELAY < p_eta p;
  prop_executed : p_status p = Executed -> p_eta p <= n;
}.

(** The votes of one kind on one proposal. *)
Definition counted (id : Z) (c : VoteChoice) (kv : Z * Address * VoteRecord) : Prop :=
  kv.1.1 = id /\ vr_choice kv.2 = c.

Definition vote_sum st id c : Z := map_sum vr_weight (filter (counted id c) (s_vote st)).

Record sound (n : Z) (st : Store) : Prop := {
  sound_uninit : s_initialized st = None -> s_proposal st = ∅ /\ s_vote st = ∅;
  sound_config : config_sound st;
  sound_proposal id p : s_proposal st !! id = Some p -> proposal_sound n st id p;
  sound_tally id p c : s_proposal st !! id = Some p -> tally c p = vote_sum st id c;
  sound_vote id voter v : s_vote st !! (id, voter) = Some v -> 0 < vr_weight v /\ is_Some (s_proposal st !! id);
}.

Section Invariant.
Context `{VT : VotingToken}.
Implicit Types (e : Env) (s : GS) (st : Store) (p : Proposal).

Lemma sound_empty n : sound n empty_store.
Proof.
  by split.
Qed.

Lemma sound_mono n m st : n <= m -> sound n st -> sound m st.
Proof.
  intros Hnm [H1 H2 H3 H4 H5]. split; try done. intros id p Hp.
  destruct (H3 id p Hp) as [? ? ? [? ?] ? ? Ha ? ?]. split; try done; try lia.
  - intros Hap. destruct (Ha Hap) as (? & ? & ?). split_and!; lia.
  - intros He. etrans; [|exact Hnm]. auto.
Qed.

Lemma sound_quorum st q v :
  config_sound st -> 0 <= v -> q = quorum_of st -> q <= v ->
  Z.quot (total_token_supply st * MIN_QUORUM_BPS) 10000 <= v.
Proof.
  intros Hc Hv -> Hq. destruct (decide (0 <= total_token_supply st)) as [Hs|Hs].
  - etrans; [|exact Hq]. unfold quorum_of, MIN_QUORUM_BPS. pose proof (conf_quorum _ Hc) as Hb.
    unfold MIN_QUORUM_BPS in Hb. rewrite !Z.quot_div_nonneg by nia. apply Z.div_le_mono; nia.
  - unfold MIN_QUORUM_BPS. assert (0 <= Z.quot (-(total_token_supply st * 100)) 10000) as Hn.
    { rewrite Z.quot_div_nonneg by lia. apply Z.div_pos; lia. }
    rewrite Z.quot_opp_l in Hn by lia. lia.
Qed.

Lemma verdict_passed st p :
  verdict st p = Passed -> p_votes_against p < p_votes_for p /\ quorum_of st <= votes_of p.
Proof. unfold verdict. case_decide as Hd; [done|]. intros _. lia. Qed.

Lemma verdict_approved st p : verdict st p = Passed \/ verdict st p = Defeated.
Proof. unfold verdict. case_decide; auto. Qed.

(** A step keeps a sound proposal sound. *)
Lemma step_sound e op st st' id p p' :
  config_sound st -> proposal_sound (ledger_sequence e) st id p -> proposal_step e op st st' id p p' ->
  proposal_sound (ledger_sequence e) st id p'.
Proof.
  intros Hc Hp Hs. pose proof (conf_delay _ Hc) as Hdel.
  assert (0 <= votes_of p) as Hv.
  { pose proof (prop_tallies _ _ _ _ Hp For). pose proof (prop_tallies _ _ _ _ Hp Against).
    pose proof (prop_tallies _ _ _ _ Hp Abstain). unfold votes_of. cbn in *. lia. }
  assert (verdict st p = Passed -> p_votes_against p < p_votes_for p /\
    Z.quot (total_token_supply st * MIN_QUORUM_BPS) 10000 <= votes_of p) as Hpass.
  { intros [? ?]%verdict_passed. split; [done|]. by eapply sound_quorum. }
  destruct Hp as [Hid Hr Hac Hcr Hend Htal Hap Hqu Hex].
  inversion Hs as [Hnv|voter c w Ho Hau Ha Hle Hw Hn Hv'|Ho Ha Hlt|Ho Hq|Ho Hq Hle|caller Ho Hau Hwho Hn1 Hn2]; subst p'.
  - done.
  - destruct c; (split; cbn; try done;
      first [ intros c; specialize (Htal c); destruct c; cbn in *; lia
            | unfold approved; cbn; by rewrite Ha | by rewrite Ha | rewrite Ha; by intros [|] ]).
  - destruct (verdict_approved st p) as [Hvd|Hvd]; rewrite Hvd; split; try done; cbn; try naive_solver.
  - split; try done; cbn.
    + intros _. unfold votes_of; cbn. fold (votes_of p). destruct Hq as [Hq|(Ha & Hlt & Hvd)].
      * apply Hap. unfold approved. by rewrite Hq.
      * destruct (Hpass Hvd). done.
    + intros _. destruct Hq as [Hq|(Ha & Hlt & Hvd)]; [|lia].
      destruct Hap as [Hlt _]; [unfold approved; by rewrite Hq|]. lia.
  - split; try done; cbn.
    + intros _. apply Hap. unfold approved. by rewrite Hq.
    + intros _. apply Hqu. by left.
  - split; try done; cbn; naive_solver.
Qed.

(** The votes counted for a proposal, after one more is recorded. *)
Lemma vote_sum_insert st st' id voter c w i d :
  s_vote st !! (id, voter) = None -> s_vote st' = <[(id, voter) := mkVoteRecord c w]> (s_vote st) ->
  vote_sum st' i d = vote_sum st i d + (if decide (i = id /\ d = c) then w else 0).
Proof.
  intros Hn Hv. unfold vote_sum. rewrite Hv. case_decide as Hd.
  - destruct Hd as [-> ->]. rewrite map_filter_insert_True by done.
    rewrite map_sum_insert_None by (apply map_lookup_filter_None; by left). cbn. lia.
  - rewrite map_filter_insert_False by (unfold counted; cbn; naive_solver).
    rewrite delete_id by done. lia.
Qed.

Lemma tally_voted c d w p : tally d (voted c w p) = tally d p + (if decide (d = c) then w else 0).
Proof. destruct c, d; case_decide; try done; cbn; lia. Qed.

(** Only a vote writes a vote record. *)
Lemma config_votes op st st' :
  (forall voter id c, op <> OpVote voter id c) -> config_after op st st' -> s_vote st' = s_vote st.
Proof.
  intros Hnv Hc. destruct op as [admin token registry|proposer action|voter id choice|id|id|id|caller id];
    cbn in Hc; [| |by destruct (Hnv voter id choice)|..].
  - by destruct Hc as (_ & supply & ->).
  - by destruct Hc as (props & _ & _ & ->).
  - by destruct Hc as (props & ->).
  - by destruct Hc as (props & ->).
  - destruct Hc as (props & p & _ & ->). by destruct (p_action p).
  - by destruct Hc as (props & ->).
Qed.

Lemma config_sound_after op st st' :
  (forall id p, s_proposal st !! id = Some p -> internal_validate_action (p_action p) = inr tt) ->
  config_sound st -> config_after op st st' -> config_sound st'.
Proof.
  intros Hp Hc Ha. destruct op as [admin token registry|proposer action|voter id choice|id|id|id|caller id]; cbn in Ha.
  - destruct Ha as (_ & supply & ->). split; try done.
  - destruct Ha as (props & _ & Hu & ->). by destruct Hc; split.
  - destruct Ha as (props & weight & _ & _ & _ & ->). by destruct Hc; split.
  - destruct Ha as (props & ->). by destruct Hc; split.
  - destruct Ha as (props & ->). by destruct Hc; split.
  - destruct Ha as (props & p & Hl & ->). specialize (Hp _ _ Hl). destruct Hc as [H1 H2 H3 H4 H5].
    destruct (p_action p) eqn:Hact; try (by split); cbn in Hp; unfold within in Hp;
      case_bool_decide; try done; by split; cbn; try lia.
  - destruct Ha as (props & ->). by destruct Hc; split.
Qed.

(** What a proposal's soundness depends on: the supply and the counter. *)
Lemma proposal_sound_proper n st st' id p :
  total_token_supply st' = total_token_supply st -> proposal_count st <= proposal_count st' ->
  proposal_sound n st id p -> proposal_sound n st' id p.
Proof. intros Hs Hc [? ? ? ? ? ? ? ? ?]. split; rewrite ?Hs; try done. lia. Qed.

Lemma config_supply op st st' :
  (forall a t r, op <> OpInitialize a t r) -> config_after op st st' ->
  s_initialized st' = s_initialized st /\ total_token_supply st' = total_token_supply st /\
  proposal_count st <= proposal_count st'.
Proof.
  intros Hni Hc. destruct op as [admin token registry|proposer action|voter id choice|id|id|id|caller id];
    cbn in Hc; [by destruct (Hni admin token registry)|..].
  - destruct Hc as (props & _ & _ & ->). split_and!; [done..|]. unfold proposal_count at 2; cbn. lia.
  - by destruct Hc as (props & weight & _ & _ & _ & ->).
  - by destruct Hc as (props & ->).
  - by destruct Hc as (props & ->).
  - destruct Hc as (props & p & _ & ->). by destruct (p_action p).
  - by destruct Hc as (props & ->).
Qed.

Lemma created_sound e st id proposer action :
  in_range u32 (ledger_sequence e) -> config_sound st -> internal_validate_action action = inr tt ->
  id = proposal_count st + 1 ->
  proposal_sound (ledger_sequence e) (st <| s_proposal_count := Some id |>) id (created e st proposer action).
Proof.
  intros He Hc Ha ->. pose proof (conf_period _ Hc) as Hp. pose proof (conf_count _ Hc) as Hn.
  unfold in_range in *; cbn in He, Hn. unfold MIN_VOTING_PERIOD in *.
  split; cbn; try done; unfold proposal_count; cbn; fold (proposal_count st); try lia.
  - rewrite saturating_add_u32 by lia. unfold MIN_VOTING_PERIOD. lia.
  - by intros [].
  - by intros [|].
Qed.

(** The tallies stay the sums of the recorded votes. *)
Lemma step_tally e op st st' id p p' c :
  config_after op st st' -> tally c p = vote_sum st id c -> proposal_step e op st st' id p p' ->
  tally c p' = vote_sum st' id c.
Proof.
  intros Hc Ht Hs.
  assert ((forall voter i d, op <> OpVote voter i d) -> vote_sum st' id c = tally c p) as Hsame.
  { intros Hnv. unfold vote_sum in *. by rewrite (config_votes _ _ _ Hnv Hc), Ht. }
  destruct Hs as [Hnv|voter d w Ho Hau Ha Hle Hw Hn Hv'|Ho Ha Hlt|Ho Hq|Ho Hq Hle|caller Ho Hau Hwho Hn1 Hn2];
    try (rewrite Hsame by (subst; done); by destruct c).
  - destruct op as [| |voter i d| | | |]; try (rewrite Hsame by done; done).
    cbn in Hc. destruct Hc as (props & w & _ & Hn & _ & Hst').
    rewrite (vote_sum_insert st st' i voter d w id c) by (done || by rewrite Hst').
    rewrite decide_False; [lia|]. intros [-> _]. by apply Hnv.
  - rewrite tally_voted, (vote_sum_insert st st' id voter d w id c) by done. rewrite <- Ht.
    repeat case_decide; try done; naive_solver.
Qed.

Lemma exec_sound e op s s' :
  in_range u32 (ledger_sequence e) -> exec e op s = Ok tt s' ->
  sound (ledger_sequence e) (store s) -> sound (ledger_sequence e) (store s').
Proof.
  intros He (Hch & Hc & Hin & Hp)%exec_step Hs. pose proof (sound_config _ _ Hs) as Hcf.
  pose proof (fun Hnv => config_votes _ _ _ Hnv Hc) as Hcv.
  assert (config_sound (store s')) as Hcf'.
  { eapply config_sound_after; [|done..]. intros id p Hl. by destruct (sound_proposal _ _ Hs id p Hl). }
  assert ((exists a t r, op = OpInitialize a t r) \/ (forall a t r, op <> OpInitialize a t r)) as [Ho|Hni]
    by (destruct op; (left; by eauto) || (right; done)).
  - destruct Ho as (a & t & r & ->). cbn in Hc. destruct Hc as (Hi & supply & Hst').
    destruct (sound_uninit _ _ Hs Hi) as [Hps Hvs]. rewrite Hps, Hvs in Hst'. rewrite Hst' in *.
    split; cbn; done.
  - destruct (config_supply _ _ _ Hni Hc) as (Hie & Hsu & Hco). specialize (Hin Hni).
    split; [rewrite Hie; intros Hno; rewrite Hno in Hin; by destruct (is_Some_None Hin) | done | ..].
    + intros id p' Hl. specialize (Hp id). unfold proposal_after in Hp.
      destruct (s_proposal (store s) !! id) as [p|] eqn:Hpl.
      * pose proof (sound_proposal _ _ Hs id p Hpl) as Hps.
        destruct Hp as [(pr & ac & _ & Hid)|(p'' & Hl' & Hst)].
        { pose proof (prop_range _ _ _ _ Hps). lia. }
        rewrite Hl in Hl'. injection Hl' as <-.
        eapply proposal_sound_proper; [done|done|]. by eapply step_sound.
      * destruct Hp as [Hp|(pr & ac & -> & -> & Hl')]; [congruence|]. rewrite Hl in Hl'. injection Hl' as ->.
        destruct Hc as (props & Hva & Hu & Hst'). eapply proposal_sound_proper; [| |by apply created_sound].
        { by rewrite Hst'. }
        { by rewrite Hst'. }
    + intros id p' c Hl. specialize (Hp id). unfold proposal_after in Hp.
      destruct (s_proposal (store s) !! id) as [p|] eqn:Hpl.
      * destruct Hp as [(pr & ac & _ & Hid)|(p'' & Hl' & Hst)].
        { pose proof (prop_range _ _ _ _ (sound_proposal _ _ Hs id p Hpl)). lia. }
        rewrite Hl in Hl'. injection Hl' as <-. eapply step_tally; [done| |done]. by eapply sound_tally.
      * destruct Hp as [Hp|(pr & ac & -> & -> & Hl')]; [congruence|]. rewrite Hl in Hl'. injection Hl' as ->.
        unfold vote_sum. rewrite Hcv by done.
        assert (filter (counted (proposal_count (store s) + 1) c) (s_vote (store s)) = ∅) as ->
          by (apply map_eq; intros k; rewrite lookup_empty; apply map_lookup_filter_None; right;
              intros rec Hrec [Hik _]; destruct k as [i v]; cbn in Hik; subst i;
              apply (sound_vote _ _ Hs) in Hrec as [_ Hx]; rewrite Hpl in Hx; by destruct (is_Some_None Hx)).
        by destruct c.
    + intros id voter v Hv.
      assert (is_Some (s_proposal (store s) !! id) -> is_Some (s_proposal (store s') !! id)) as Hkeep.
      { intros [p Hpl]. specialize (Hp id). unfold proposal_after in Hp. rewrite Hpl in Hp.
        destruct Hp as [(pr & ac & _ & Hid)|(p'' & Hl' & _)]; [|by eauto].
        pose proof (prop_range _ _ _ _ (sound_proposal _ _ Hs id p Hpl)). lia. }
      destruct op as [| |vo i c| | | |]; try (rewrite Hcv in Hv by done;
        apply (sound_vote _ _ Hs) in Hv; by naive_solver).
      cbn in Hc. destruct Hc as (props & w & Hw & _ & Hx & Hst'). rewrite Hst' in Hv; cbn in Hv.
      apply lookup_insert_Some in Hv as [[[= <- <-] <-]|[_ Hv]].
      * split; [done|auto].
      * apply (sound_vote _ _ Hs) in Hv. naive_solver.
Qed.

Lemma chronicle_sound self n s : chronicle self n s -> sound n (store s).
Proof.
  apply (chronicle_ind' self (fun n s => sound n (store s))).
  - intros a b s1 Hs Hab. by eapply sound_mono.
  - intros s1 e op s2 Hs He _ Hx. eapply exec_sound; [apply He|done..].
  - intros a efs l. apply sound_empty.
  - done.
Qed.
End Invariant.
