(* ===== verification/GovernanceLifecycle.v ===== *)
(** * Governance: properties

    Votes, verdicts, the timelock and the effect of execution, on every state of
    a chronological run. *)

From S2P Require Import Prelude Host Contract Governance GovernanceSpec GovernanceProps.

Section Properties.
Context `{VT : VotingToken} (self : Address).
Implicit Types (e : Env) (s : GS) (st : Store) (p : Proposal).

(** What an evaluation answers, the view answers before and after. *)
Lemma evaluate_view e id s x s' :
  evaluate_proposal e id s = Ok x s' ->
  x <> Active /\ get_proposal_status e id s = Ok x s /\
  forall e2, get_proposal_status e2 id s' = Ok x s'.
Proof.
  intros Hr. apply ensures in Hr. destruct Hr as (p & Hi & Hp & _ & Hd). case_decide as Ha.
  - destruct Hd as (He & Hc & Hx & Hst).
    assert (x <> Active) as Hne by (rewrite Hx; destruct (verdict_approved (store s) p) as [->| ->]; done).
    split_and!; [done| |].
    + apply runs. exists p. rewrite !decide_True, decide_False by (done || lia). done.
    + intros e2. apply runs. exists (p <| p_status := x |>). rewrite Hst, lookup_put, decide_True by done.
      split_and!; [done..|]. by rewrite decide_False.
  - destruct Hd as [-> Hst]. split_and!; [done| |].
    + apply runs. exists p. by rewrite decide_False.
    + intros e2. apply runs. exists p. rewrite Hst. by rewrite decide_False.
Qed.

Lemma view_evaluates e id s x :
  is_Some (s_initialized (store s)) -> get_proposal_status e id s = Ok x s -> x <> Active ->
  exists s', evaluate_proposal e id s = Ok x s'.
Proof.
  intros Hi Hv Hx. pose proof Hv as Hv'. apply runs in Hv. destruct Hv as (p & Hp & _ & Hd).
  destruct (evaluate_commits e id s p Hi Hp) as (y & s' & Hr).
  - intros Ha. rewrite decide_True in Hd by done. case_decide; [done|]. split; [lia|tauto].
  - exists s'. destruct (evaluate_view _ _ _ _ _ Hr) as (_ & Hvy & _). rewrite Hv' in Hvy.
    by injection Hvy as <-.
Qed.

(** No committed call changes a final proposal. *)
Lemma final_step e op s s' id p :
  sound (ledger_sequence e) (store s) -> exec e op s = Ok tt s' ->
  s_proposal (store s) !! id = Some p -> p_status p = Executed \/ p_status p = Cancelled ->
  s_proposal (store s') !! id = Some p.
Proof.
  intros Hs (_ & _ & _ & Hp)%exec_step Hl Hf. specialize (Hp id). unfold proposal_after in Hp.
  rewrite Hl in Hp. destruct Hp as [(pr & ac & _ & Hid)|(p' & -> & Hst)].
  - pose proof (prop_range _ _ _ _ (sound_proposal _ _ Hs id p Hl)). lia.
  - inversion Hst; subst; unfold queueable in *; [done|exfalso..]; intuition congruence.
Qed.

(** C25: the life of a proposal.  A committed call on a proposal takes it exactly
    the step that the call is for: a vote while it is active and open, an
    evaluation once voting is closed, queueing when it won, an execution of a
    queued proposal after its eta, a cancellation - of a queued proposal, too -
    by its proposer or the admin; only evaluating a decided proposal and queueing
    a queued one change nothing.  Every other proposal stays as it is.  Id,
    proposer, action, creation and end of voting never change, and a proposal
    appears only by [create_proposal], under the next id.  (GOVERNANCE_DESIGN.md
    declines the cancellation of a queued proposal; lib.rs has it.) *)
Theorem proposal_lifecycle n e op s s' id :
  chronicle self n s -> n <= ledger_sequence e -> exec e op s = Ok tt s' ->
  match s_proposal (store s) !! id with
  | Some p => exists p', s_proposal (store s') !! id = Some p' /\
      proposal_step e op (store s) (store s') id p p'
  | None => s_proposal (store s') !! id = None \/
      exists proposer action, op = OpCreate proposer action /\ id = proposal_count (store s) + 1 /\
        s_proposal (store s') !! id = Some (created e (store s) proposer action)
  end.
Proof.
  intros Hs%chronicle_sound _ (_ & _ & _ & Hp)%exec_step. specialize (Hp id). unfold proposal_after in Hp.
  destruct (s_proposal (store s) !! id) as [p|] eqn:Hl; [|done].
  destruct Hp as [(pr & ac & _ & Hid)|Hp]; [|done].
  pose proof (prop_range _ _ _ _ (sound_proposal _ _ Hs id p Hl)). lia.
Qed.

(** C26: the tallies are exact.  In every state each tally of a proposal is the
    sum of the weights of the recorded votes of that kind, every recorded weight
    is positive and belongs to a stored proposal, and nobody has more than the
    one recorded vote: a second vote is rejected. *)
Theorem tallies_exact n s id p :
  chronicle self n s -> s_proposal (store s) !! id = Some p ->
  p_votes_for p = vote_sum (store s) id For /\
  p_votes_against p = vote_sum (store s) id Against /\
  p_votes_abstain p = vote_sum (store s) id Abstain /\
  (forall voter v, get_vote (store s) id voter = Some v -> 0 < vr_weight v) /\
  forall e voter choice, has_voted (store s) id voter = true ->
    succeeds e (OpVote voter id choice) s = false.
Proof.
  intros Hs%chronicle_sound Hp.
  pose proof (fun c => sound_tally _ _ Hs id p c Hp) as Ht. split_and!; [apply (Ht For)|apply (Ht Against)|apply (Ht Abstain)| |].
  - intros voter v Hv. by destruct (sound_vote _ _ Hs _ _ _ Hv).
  - intros e voter choice Hv. destruct (succeeds e (OpVote voter id choice) s) eqn:Hx; [|done].
    apply succeeds_call in Hx. cbn [exec] in Hx. apply ensures in Hx.
    destruct Hx as (p' & tk & w & _ & _ & _ & _ & _ & Hn & _). unfold has_voted in Hv. rewrite Hn in Hv.
    apply bool_decide_eq_true_1 in Hv. by destruct (is_Some_None Hv).
Qed.

(** C24: no execution without a won vote and a full timelock.  Whenever an
    execution commits, its proposal was queued with more votes for than against
    and at least 1% of the recorded supply voting, the vote had been open for at
    least 14400 ledgers (unless the ledger sequence saturates) and at least
    14400 more ledgers have passed since it closed. *)
Theorem timelock_enforced n e s s' id :
  chronicle self n s -> n <= ledger_sequence e -> execute_proposal e id s = Ok tt s' ->
  exists p, s_proposal (store s) !! id = Some p /\ p_status p = Queued /\
    p_votes_against p < p_votes_for p /\
    Z.quot (total_token_supply (store s) * MIN_QUORUM_BPS) 10000 <= votes_of p /\
    p_voting_end p + MIN_TIMELOCK_DELAY < ledger_sequence e /\
    (ledger_sequence e < 2 ^ 32 - 1 ->
       p_created_at p + MIN_VOTING_PERIOD + MIN_TIMELOCK_DELAY < ledger_sequence e).
Proof.
  intros Hs%chronicle_sound _ Hr. apply ensures in Hr. destruct Hr as (p & _ & Hp & Hq & Heta & _).
  pose proof (sound_proposal _ _ Hs id p Hp) as Hps. exists p.
  destruct (prop_approved _ _ _ _ Hps) as (_ & Hm & Hv); [unfold approved; by rewrite Hq|].
  pose proof (prop_queued _ _ _ _ Hps (or_introl Hq)). pose proof (prop_end _ _ _ _ Hps).
  unfold MIN_VOTING_PERIOD, MIN_TIMELOCK_DELAY in *. split_and!; try done; lia.
Qed.

(** Governance cannot vote its own safety away.  In every state the voting
    period, the timelock, the quorum and the threshold are within the bounds
    checked when an action is proposed, whatever has been executed; and the
    quorum a vote is measured against is computed without overflow for any
    recorded supply up to [i128::MAX / 2000]. *)
Theorem parameters_bounded n s :
  chronicle self n s ->
  14400 <= voting_period (store s) <= 201600 /\
  14400 <= timelock_delay (store s) <= 86400 /\
  100 <= quorum_bps (store s) <= 2000 /\
  0 <= proposal_threshold (store s) /\
  (0 <= total_token_supply (store s) <= int_max i128 / 2000 ->
     quorum_threshold (store s) s
       = Ok (total_token_supply (store s) * quorum_bps (store s) / 10000) s /\
     total_token_supply (store s) * quorum_bps (store s) / 10000 <= total_token_supply (store s) / 5).
Proof.
  intros Hs%chronicle_sound. destruct (sound_config _ _ Hs) as [H1 H2 H3 H4 _].
  unfold MIN_VOTING_PERIOD, MIN_TIMELOCK_DELAY, MIN_QUORUM_BPS in *. split_and!; try lia.
  intros [Ht0 Ht]. split.
  - apply runs. unfold quorum_of. rewrite Z.quot_div_nonneg by nia. split_and!; try done.
    assert (total_token_supply (store s) * quorum_bps (store s) <= int_max i128 / 2000 * 2000)
      by (apply Z.mul_le_mono_nonneg; lia).
    pose proof (Z.mul_div_le (int_max i128) 2000 ltac:(lia)).
    split; [transitivity 0; [done|nia]|lia].
  - apply Z.div_le_lower_bound; [lia|].
    pose proof (Z.mul_div_le (total_token_supply (store s) * quorum_bps (store s)) 10000 ltac:(lia)). nia.
Qed.

(** The view is the verdict.  On an initialized contract an evaluation
    commits with status [x] exactly when the read-only [get_proposal_status]
    answers [x] and [x] is not [Active]; and after it the view answers [x] at
    every later ledger. *)
Theorem status_view_agrees e s id x :
  is_Some (s_initialized (store s)) ->
  ((exists s', evaluate_proposal e id s = Ok x s') <->
   get_proposal_status e id s = Ok x s /\ x <> Active) /\
  forall s' e2, evaluate_proposal e id s = Ok x s' -> get_proposal_status e2 id s' = Ok x s'.
Proof.
  intros Hi. split; [split|].
  - intros [s' Hr]. destruct (evaluate_view _ _ _ _ _ Hr) as (? & ? & _). done.
  - intros [Hv Hx]. by apply view_evaluates.
  - intros s' e2 Hr. by destruct (evaluate_view _ _ _ _ _ Hr) as (_ & _ & ->).
Qed.

(** When a vote counts.  A vote commits exactly when the voter authorized
    it, the proposal is active and its voting still open, the voter has not
    voted, the token reports a positive balance for the voter at the creation
    ledger, and the tally does not overflow; that balance is then the recorded
    weight and is added to the chosen tally. *)
Theorem vote_iff e s voter id choice :
  is_Some (s_initialized (store s)) -> is_Some (s_kprs_token (store s)) ->
  (exists s', vote e voter id choice s = Ok tt s') <->
  authorized e voter = true /\ exists p token weight,
    s_proposal (store s) !! id = Some p /\ p_status p = Active /\
    ledger_sequence e <= p_voting_end p /\ has_voted (store s) id voter = false /\
    s_kprs_token (store s) = Some token /\
    balance_past (chain s) token voter (as_u32 (p_created_at p)) = Some weight /\ 0 < weight /\
    in_range i128 (tally choice p + weight).
Proof.
  intros Hi Ht. split.
  - intros [s' Hr]. apply ensures in Hr.
    destruct Hr as (p & token & w & Ha & _ & Hp & Hact & Hend & Hn & Htk & Hb & Hw & Hr & _).
    split; [done|]. exists p, token, w. split_and!; try done.
    unfold has_voted. rewrite Hn. apply bool_decide_false. by intros [? ?].
  - intros (Ha & p & token & w & Hp & Hact & Hend & Hn & Htk & Hb & Hw & Hr).
    eexists. unfold vote, internal_get_voting_power_at. do 3 forward1.
    pass; [tauto|]. pass; [lia|]. forward1. rewrite Hn. forward1.
    apply bind_Ok. do 2 eexists. split.
    { do 2 forward1. by apply runs. }
    pass; [lia|]. apply bind_Ok. do 2 eexists. split.
    { apply runs. split; [by apply add_vote_inr|reflexivity]. }
    do 5 forward1. by apply runs.
Qed.

(** An executed or cancelled proposal is final.  No sequence of calls
    changes it, and it can be neither voted on, queued, executed nor cancelled. *)
Theorem final_proposals n s calls id p e op :
  chronicle self n s -> chronological self n calls ->
  s_proposal (store s) !! id = Some p -> p_status p = Executed \/ p_status p = Cancelled ->
  s_proposal (store (run_calls calls s)) !! id = Some p /\
  (op = OpQueue id \/ op = OpExecute id \/ (exists c, op = OpCancel c id) \/ (exists v c, op = OpVote v id c) ->
   succeeds e op (run_calls calls s) = false).
Proof.
  intros Hs%chronicle_sound Hc Hp Hst.
  assert (exists m, sound m (store (run_calls calls s)) /\ s_proposal (store (run_calls calls s)) !! id = Some p)
    as (m & _ & Hl).
  { refine (chronological_ind' self (fun m s => sound m (store s) /\ s_proposal (store s) !! id = Some p)
      _ _ n calls s Hc _); [| |done].
    - intros a b s1 [Hs1 Hl] Hab. split; [by eapply sound_mono|done].
    - intros s1 e1 op1 s2 [Hs1 Hl] He _ Hx. split; [eapply exec_sound; [apply He|done..]|by eapply final_step]. }
  split; [done|]. intros Hop. destruct (succeeds e op (run_calls calls s)) eqn:Hx; [|done].
  apply succeeds_call in Hx. unfold queueable in *.
  destruct Hop as [->|[->|[[c ->]|(v & c & ->)]]]; cbn [exec] in Hx; try (apply runs_forget in Hx as [? Hx]);
    apply ensures in Hx; cbv zeta beta in Hx.
  - destruct Hx as (q & _ & Hq & _ & Hd). rewrite Hl in Hq. injection Hq as <-.
    rewrite decide_False in Hd by intuition congruence. destruct Hd as [Hd _]. unfold queueable in Hd.
    intuition congruence.
  - destruct Hx as (q & _ & Hq & Hqs & _). intuition congruence.
  - destruct Hx as (q & ad & _ & _ & _ & Hq & H1 & H2 & _). intuition congruence.
  - destruct Hx as (q & tk & w & _ & _ & Hq & Ha & _). intuition congruence.
Qed.

(** What an execution does.  It marks the proposal executed, and writes one
    parameter of governance itself when the action names one; for a registry,
    treasury or upgrade action it changes nothing else and calls no other
    contract. *)
Theorem execute_applies e s s' id p :
  s_proposal (store s) !! id = Some p -> execute_proposal e id s = Ok tt s' ->
  chain s' = chain s /\
  store s' = put id (p <| p_status := Executed |>)
    match p_action p with
    | SetVotingPeriod z => (store s) <| s_voting_period := Some z |>
    | SetTimelockDelay z => (store s) <| s_timelock_delay := Some z |>
    | SetQuorumBps z => (store s) <| s_quorum_bps := Some z |>
    | SetProposalThreshold z => (store s) <| s_proposal_threshold := Some z |>
    | _ => store s
    end /\
  events s' = ProposalExecuted id :: events s.
Proof.
  intros Hp Hr. unfold execute_proposal, save_proposal in Hr. run.
  split_and!; [done| |done]. unfold update_store; cbn. by destruct (p_action p).
Qed.
End Properties.
