(* ===== verification/GovernanceSystem.v ===== *)
(** * Governance over the KPRS token

    The token client of Governance.v implemented by the token of KprsToken.v: the
    rest of the chain is the token's storage.  A vote's weight is then the
    balance at the end of the creation ledger, once that ledger is over - and
    only then, as the run at the end shows.  Witnesses of the governance
    properties run on the same chain. *)

From S2P Require Import Prelude Host Contract SampleChain KprsToken KprsTokenSpec KprsTokenProps KprsTokenVesting Governance GovernanceSpec GovernanceProps GovernanceLifecycle.

(** ** The composed chain *)

(** The token contract calls no other contract. *)
Definition no_ledger : Ledger := {|
  ledger := unit;
  Host.balance _ _ _ := 0;
  Host.transfer _ _ _ _ _ _ := None;
  try_invoke l _ _ _ _ := (None, l);
|}.

Abbreviation TokenSys := (@Sys no_ledger KprsToken.Store KprsToken.DataKey KprsToken.Event).
Abbreviation token_exec := (@KprsToken.exec no_ledger).

Definition token_sys (st : KprsToken.Store) : TokenSys :=
  @mkSys no_ledger KprsToken.Store KprsToken.DataKey KprsToken.Event st [] tt.

(** One call of the token, committed or not. *)
Definition token_call (e : Env) (op : KprsToken.Op) (st : KprsToken.Store) : KprsToken.Store :=
  store (Contract.call token_exec e op (token_sys st)).

(** What a read of the token answers. *)
Definition token_answer {A} (m : M TokenSys TokenError A) (st : KprsToken.Store) : option A :=
  answer (m (token_sys st)).

(** The chain seen by governance: the storage of the one KPRS contract. *)
#[export] Instance kprs_chain : Ledger := {
  ledger := KprsToken.Store;
  Host.balance l _ a := KprsToken.balance l a;
  Host.transfer l e _ from to amt :=
    match @KprsToken.transfer no_ledger e from to amt (token_sys l) with
    | Ok _ s => Some (store s)
    | _ => None
    end;
  try_invoke l _ _ _ _ := (None, l);
}.

#[export] Instance kprs_votes : VotingToken := {
  total_supply_of _ _ := Some KprsToken.total_supply;
  balance_now l _ a := Some (KprsToken.balance l a);
  balance_past l _ a n := token_answer (@KprsToken.balance_at no_ledger a n) l;
}.

(** C27: voting power is a snapshot.  For a proposal created in ledger [c], take
    the token as it was at the end of that ledger and let any token calls
    follow in later ledgers, transfers and burns by the voter included: a vote
    that commits is recorded with exactly the balance the voter had at the end
    of ledger [c]. *)
Theorem voting_power_snapshot token_self n (ts : TokenSys) c calls e (s s' : GS) voter id choice p :
  Contract.chronicle token_exec KprsToken.typed_op KprsToken.empty_store token_self n ts ->
  n <= c -> in_range u32 c ->
  Contract.chronological KprsToken.typed_op token_self (c + 1) calls ->
  chain s = store (Contract.run_calls token_exec calls ts) ->
  s_proposal (store s) !! id = Some p -> p_created_at p = c ->
  vote e voter id choice s = Ok tt s' ->
  get_vote (store s') id voter = Some (mkVoteRecord choice (KprsToken.balance (store ts) voter)).
Proof.
  intros Hts Hnc Hc Hcalls Hch Hp Hcr Hr. apply ensures in Hr.
  destruct Hr as (q & token & w & _ & _ & Hq & _ & _ & _ & _ & Hb & _ & _ & Hst & _).
  rewrite Hp in Hq. injection Hq as <-. rewrite Hcr, as_u32_id in Hb by done.
  destruct (past_kept (HL := no_ledger) _ _ _ _ _ voter Hts Hnc Hcalls) as (h & m & Hrep & Hh & Hu & Hv).
  assert (w = KprsToken.balance (store ts) voter) as ->.
  { rewrite Hch in Hb. cbn in Hb. unfold token_answer in Hb.
    rewrite (balance_at_history_value (H := no_ledger) voter c _ h m) in Hb by done.
    rewrite <- Hv. by injection Hb. }
  unfold get_vote. rewrite Hst. cbn. by rewrite lookup_insert_eq.
Qed.

(** ** A sample run and witnesses *)

Definition kprs : Address := addr 30.
Definition keeper_registry : Address := addr 31.
Definition alice : Address := addr 32.

Definition token_genesis : KprsToken.Store :=
  token_call (at_ledger 100 1000) (KprsToken.OpInitialize admin0 keepers dao team public)
    KprsToken.empty_store.

Definition gov_deployed : GS := mkSys empty_store [] token_genesis.

Definition gov_setup : list (Env * Op) :=
  [ (at_ledger 150 1250, OpInitialize admin0 kprs keeper_registry);
    (at_ledger 200 1500, OpCreate keepers (SetQuorumBps 500)) ].

Definition gov_open : GS := run_calls gov_setup gov_deployed.

Definition gov_ballot : list (Env * Op) :=
  [ (at_ledger 210 1550, OpVote keepers 1 For);
    (at_ledger 211 1555, OpVote dao 1 Against);
    (at_ledger 50601 253000, OpQueue 1) ].

Definition gov_queued : GS := run_calls gov_ballot gov_open.
Definition gov_executed : GS := call (at_ledger 79401 397000) (OpExecute 1) gov_queued.

Ltac sample := repeat constructor; by vm_compute.

Ltac sample_calls :=
  repeat (apply chronological_cons; [by vm_compute | sample | sample |]); apply chronological_nil.

Lemma gov_open_chronicle : chronicle self 200 gov_open.
Proof. apply (chronicle_run self 0 gov_setup gov_deployed); [apply chronicle_deploy | sample_calls]. Qed.

Lemma gov_queued_chronicle : chronicle self 50601 gov_queued.
Proof. apply (chronicle_run self 200 gov_ballot gov_open); [apply gov_open_chronicle | sample_calls]. Qed.

Lemma gov_executed_chronicle : chronicle self 79401 gov_executed.
Proof.
  apply (chronicle_call self 50601 gov_queued (at_ledger 79401 397000) (OpExecute 1));
    [apply gov_queued_chronicle | by vm_compute | sample | sample].
Qed.

(** The proposal passes 40 to 25, waits its timelock, and sets the quorum. *)
Example gov_sample :
  (quorum_bps (store gov_queued), succeeds (at_ledger 79400 396995) (OpExecute 1) gov_queued,
   quorum_bps (store gov_executed),
   (fun p => (p_status p, p_eta p, p_votes_for p)) <$> s_proposal (store gov_executed) !! 1)
  = (400, false, 500, Some (Executed, 79401, ALLOC_EARLY_KEEPERS)).
Proof. vm_compute. reflexivity. Qed.

(** Within the creation ledger the snapshot is not final: the keepers vote with
    their 40%, send everything to Alice in the same ledger, and Alice votes with
    the same tokens. *)
Definition gov_voted_once : GS := call (at_ledger 200 1500) (OpVote keepers 1 For) gov_open.

Definition transferred : KprsToken.Store :=
  token_call (at_ledger 200 1500) (KprsToken.OpTransfer keepers alice ALLOC_EARLY_KEEPERS) (chain gov_voted_once).

Definition gov_after_transfer : GS := gov_voted_once <| chain := transferred |>.

Definition gov_double_vote : GS := call (at_ledger 200 1500) (OpVote alice 1 For) gov_after_transfer.

Lemma gov_after_transfer_chronicle : chronicle self 200 gov_after_transfer.
Proof.
  refine (chronicle_other self 200 200 gov_voted_once transferred _ _); [|done].
  apply (chronicle_call self 200 gov_open (at_ledger 200 1500) (OpVote keepers 1 For));
    [apply gov_open_chronicle|by vm_compute|sample|sample].
Qed.

Theorem same_ledger_double_vote :
  chronicle self 200 gov_double_vote /\
  (p_votes_for <$> s_proposal (store gov_double_vote) !! 1) = Some (2 * ALLOC_EARLY_KEEPERS) /\
  KprsToken.balance (chain gov_double_vote) keepers + KprsToken.balance (chain gov_double_vote) alice
    = ALLOC_EARLY_KEEPERS.
Proof.
  split; [|split; vm_compute; reflexivity].
  apply (chronicle_call self 200 gov_after_transfer (at_ledger 200 1500) (OpVote alice 1 For));
    [apply gov_after_transfer_chronicle|by vm_compute|sample|sample].
Qed.

Section Commit.
Context `{VT : VotingToken}.

Lemma vote_commits e voter id choice s :
  succeeds e (OpVote voter id choice) s = true ->
  vote e voter id choice s = Ok tt (call e (OpVote voter id choice) s).
Proof. exact (succeeds_call e (OpVote voter id choice) s). Qed.

Lemma execute_commits e id s :
  succeeds e (OpExecute id) s = true -> execute_proposal e id s = Ok tt (call e (OpExecute id) s).
Proof. exact (succeeds_call e (OpExecute id) s). Qed.
End Commit.

Lemma vote_exec_commits `{VotingToken} e voter id choice s :
  succeeds e (OpVote voter id choice) s = true ->
  exec e (OpVote voter id choice) s = Ok tt (call e (OpVote voter id choice) s).
Proof. exact (succeeds_call e (OpVote voter id choice) s). Qed.

Lemma proposal_lifecycle_witness :
  exists p', s_proposal (store (call (at_ledger 210 1550) (OpVote keepers 1 For) gov_open)) !! 1 = Some p'.
Proof.
  pose proof (proposal_lifecycle self 200 (at_ledger 210 1550) (OpVote keepers 1 For) gov_open
    (call (at_ledger 210 1550) (OpVote keepers 1 For) gov_open) 1 gov_open_chronicle) as H.
  assert (exists p, s_proposal (store gov_open) !! 1 = Some p) as [p Hp].
  { eexists. vm_compute. reflexivity. }
  rewrite Hp in H. destruct H as (p' & Hp' & _).
  - vm_compute. discriminate.
  - refine (vote_exec_commits (at_ledger 210 1550) keepers 1 For gov_open _). vm_compute. reflexivity.
  - exists p'. exact Hp'.
Defined.

Lemma tallies_exact_witness :
  exists p, s_proposal (store gov_queued) !! 1 = Some p /\ p_votes_for p = vote_sum (store gov_queued) 1 For.
Proof.
  assert (exists p, s_proposal (store gov_queued) !! 1 = Some p) as [p Hp].
  { eexists. vm_compute. reflexivity. }
  exists p. split; [exact Hp|].
  destruct (tallies_exact self 50601 gov_queued 1 p gov_queued_chronicle Hp) as [H _]. exact H.
Defined.

Lemma timelock_enforced_witness :
  exists p, s_proposal (store gov_queued) !! 1 = Some p /\ p_voting_end p + MIN_TIMELOCK_DELAY < 79401.
Proof.
  destruct (timelock_enforced self 50601 (at_ledger 79401 397000) gov_queued gov_executed 1)
    as (p & Hp & _ & _ & _ & Ht & _).
  - exact gov_queued_chronicle.
  - vm_compute. discriminate.
  - refine (execute_commits (at_ledger 79401 397000) 1 gov_queued _). vm_compute. reflexivity.
  - exists p. split; [exact Hp|exact Ht].
Defined.

Lemma parameters_bounded_witness : 100 <= quorum_bps (store gov_executed) <= 2000.
Proof.
  destruct (parameters_bounded self 79401 gov_executed gov_executed_chronicle) as (_ & _ & H & _). exact H.
Defined.

Lemma status_view_agrees_witness :
  (exists s', evaluate_proposal (at_ledger 50601 253000) 1 gov_open = Ok Defeated s') <->
  get_proposal_status (at_ledger 50601 253000) 1 gov_open = Ok Defeated gov_open /\ Defeated <> Active.
Proof.
  refine (proj1 (status_view_agrees (at_ledger 50601 253000) gov_open 1 Defeated _)).
  exists true. vm_compute. reflexivity.
Defined.

Lemma vote_iff_witness :
  exists s', vote (at_ledger 210 1550) keepers 1 For gov_open = Ok tt s'.
Proof.
  destruct (vote_iff (at_ledger 210 1550) gov_open keepers 1 For) as [_ H].
  - exists true. vm_compute. reflexivity.
  - exists kprs. vm_compute. reflexivity.
  - apply H. split; [reflexivity|].
    eexists _, kprs, ALLOC_EARLY_KEEPERS.
    split; [vm_compute; reflexivity|].
    split_and!; first [vm_compute; reflexivity | vm_compute; discriminate | vm_compute; split; discriminate].
Defined.

Lemma final_proposals_witness :
  succeeds (at_ledger 80000 400000) (OpExecute 1)
    (run_calls [(at_ledger 79500 397500, OpCancel admin0 1)] gov_executed) = false.
Proof.
  assert (exists p, s_proposal (store gov_executed) !! 1 = Some p /\ p_status p = Executed) as (p & Hp & Hst).
  { eexists. split; [vm_compute; reflexivity|reflexivity]. }
  destruct (final_proposals self 79401 gov_executed [(at_ledger 79500 397500, OpCancel admin0 1)] 1 p
    (at_ledger 80000 400000) (OpExecute 1)) as [_ H].
  - exact gov_executed_chronicle.
  - sample_calls.
  - exact Hp.
  - left. exact Hst.
  - exact (H (or_intror (or_introl eq_refl))).
Defined.

Lemma execute_applies_witness : chain gov_executed = chain gov_queued.
Proof.
  assert (exists p, s_proposal (store gov_queued) !! 1 = Some p) as [p Hp].
  { eexists. vm_compute. reflexivity. }
  destruct (execute_applies (at_ledger 79401 397000) gov_queued gov_executed 1 p Hp) as [H _].
  - refine (execute_commits (at_ledger 79401 397000) 1 gov_queued _). vm_compute. reflexivity.
  - exact H.
Defined.

(** The keepers move almost everything two ledgers after the proposal's creation
    and vote: the weight is the whole former balance. *)
Definition token_at_creation : TokenSys :=
  Contract.call token_exec (at_ledger 100 1000) (KprsToken.OpInitialize admin0 keepers dao team public)
    (token_sys KprsToken.empty_store).

Lemma token_at_creation_chronicle :
  Contract.chronicle token_exec KprsToken.typed_op KprsToken.empty_store self 100 token_at_creation.
Proof.
  refine (Contract.chronicle_call (exec := token_exec) self 0 (token_sys KprsToken.empty_store)
    (at_ledger 100 1000) (KprsToken.OpInitialize admin0 keepers dao team public) _ _ _ _).
  - exact (Contract.chronicle_deploy (exec := token_exec) self 0 [] tt).
  - by vm_compute.
  - sample.
  - sample.
Qed.

Definition token_moves : list (Env * KprsToken.Op) :=
  [ (at_ledger 202 1510, KprsToken.OpTransfer keepers alice 399999999999999) ].

Definition gov_moved : GS :=
  gov_open <| chain := store (Contract.run_calls token_exec token_moves token_at_creation) |>.

Lemma voting_power_snapshot_witness :
  get_vote (store (call (at_ledger 210 1550) (OpVote keepers 1 For) gov_moved)) 1 keepers
    = Some (mkVoteRecord For (KprsToken.balance (store token_at_creation) keepers)).
Proof.
  assert (exists p, s_proposal (store gov_moved) !! 1 = Some p /\ p_created_at p = 200) as (p & Hp & Hc).
  { eexists. split; [vm_compute; reflexivity|reflexivity]. }
  refine (voting_power_snapshot self 100 token_at_creation 200 token_moves (at_ledger 210 1550) gov_moved
    (call (at_ledger 210 1550) (OpVote keepers 1 For) gov_moved) keepers 1 For p _ _ _ _ _ Hp Hc _).
  - exact token_at_creation_chronicle.
  - vm_compute. discriminate.
  - vm_compute. split; discriminate.
  - sample_calls.
  - reflexivity.
  - refine (vote_commits (at_ledger 210 1550) keepers 1 For gov_moved _). vm_compute. reflexivity.
Defined.
