(* ===== verification/Conditions.v ===== *)
(** * Task conditions and the price oracle

    src/contracts/conditions/{time-window,price-threshold,oracle-deviation}/src/
    lib.rs and the reading of a price in src/contracts/oracle-client/src/lib.rs:
    the contracts a task may name as its condition.  The oracle itself is not
    part of the program: [Reflector] is its interface, whose calls may change
    the chain. *)

From S2P Require Import Prelude Host Contract SampleChain.

(** ** The time window *)

Module TimeWindow.

Definition CONDITION_BUMP_LEDGERS : Z := 100000.
Definition CONDITION_BUMP_THRESHOLD : Z := 50000.

Inductive ConditionError := AlreadyInitialized | InvalidWindow.

Inductive DataKey := Start | End | Initialized.

Record Store := mkStore {
  s_start : option Z;
  s_end : option Z;
  s_initialized : option bool;
}.

#[export] Instance update_s_start : Update s_start := fun f s => mkStore (f (s_start s)) (s_end s) (s_initialized s).
#[export] Instance update_s_end : Update s_end := fun f s => mkStore (s_start s) (f (s_end s)) (s_initialized s).
#[export] Instance update_s_initialized : Update s_initialized :=
  fun f s => mkStore (s_start s) (s_end s) (f (s_initialized s)).

Definition empty_store : Store := mkStore None None None.

Abbreviation WS := (Sys Store DataKey Empty_set).
Abbreviation WM := (M (Sys Store DataKey Empty_set) ConditionError).

Section TimeWindow.
Context `{Ledger}.
Implicit Types (e : Env).

Definition initialize e (start end_ : Z) : WM unit :=
  initialized ← read (fun st => default false (s_initialized st));
  fail_if initialized AlreadyInitialized;;
  fail_if (bool_decide (end_ <= start)) InvalidWindow;;
  write (fun st => st <| s_start := Some start |>);;
  write (fun st => st <| s_end := Some end_ |>);;
  write (fun st => st <| s_initialized := Some true |>);;
  log (ExtendInstance CONDITION_BUMP_THRESHOLD CONDITION_BUMP_LEDGERS).

Definition check e (task_id : Z) (st : Store) : bool :=
  if negb (default false (s_initialized st)) then false else
  let start := default (int_max u64) (s_start st) in
  let end_ := default 0 (s_end st) in
  let now := ledger_timestamp e in
  bool_decide (now >= start) && bool_decide (now < end_).

(** The only call that writes. *)
Inductive Op := OpInitialize (start end_ : Z).

Definition exec e (op : Op) : WM unit := match op with OpInitialize start end_ => initialize e start end_ end.

#[export] Instance ensures_initialize e start end_ :
  Ensures (initialize e start end_) (fun s _ s' =>
    default false (s_initialized (store s)) = false /\ start < end_ /\
    store s' = mkStore (Some start) (Some end_) (Some true)).
Proof. ensures_solve. Qed.

Lemma configured_rejects e op s :
  s_initialized (store s) = Some true -> Contract.call exec e op s = s.
Proof.
  intros Hi. apply call_rejected. destruct (Contract.succeeds exec e op s) eqn:Hs; [|done].
  apply succeeds_call in Hs. destruct op; cbn in Hs. apply ensures in Hs. rewrite Hi in Hs. by destruct Hs.
Qed.

(** The window is exact and permanent.  Before a successful [initialize] the
    check answers no; after it, whatever calls are attempted, the check answers
    yes from [start] on and no from [end] on, for every task. *)
Theorem time_window_exact e start end_ s s' calls :
  initialize e start end_ s = Ok tt s' ->
  (forall e' id, check e' id (store s) = false) /\
  forall e' id, check e' id (store (Contract.run_calls exec calls s')) = true <->
    start <= ledger_timestamp e' < end_.
Proof.
  intros Hr. apply ensures in Hr. destruct Hr as (Hi & Hlt & Hst). split.
  - intros e' id. unfold check. by rewrite Hi.
  - assert (Contract.run_calls exec calls s' = s') as ->.
    { induction calls as [|[e1 op] calls IH]; [done|]. cbn.
      rewrite configured_rejects by (by rewrite Hst). exact IH. }
    intros e' id. unfold check. rewrite Hst. cbn.
    rewrite andb_true_iff, !bool_decide_eq_true. lia.
Qed.
End TimeWindow.
End TimeWindow.

(** ** The price oracle *)

Inductive Asset := Stellar (a : Address) | Other (symbol : Symbol).

Record PriceData := mkPriceData { price : Z; timestamp : Z }.

(** Reflector's interface ([ReflectorPulseClient]): [None] stands for every
    outcome of a [try_] call but [Ok(Ok(value))]. *)
Class Reflector `{Ledger} := {
  try_decimals : ledger -> Address -> option Z * ledger;
  try_lastprice : ledger -> Address -> Asset -> option (option PriceData) * ledger;
}.

Record NormalizedPrice := mkNormalized { value : Z; observed_at : Z }.

(** [z as u128] *)
Definition as_u128 (z : Z) : Z := z mod 2 ^ 128.

Section Oracle.
Context `{R : Reflector}.
Implicit Types (e : Env) (oracle : Address) (asset : Asset).

(** The checks on an answered price, and its scaling to 18 decimals. *)
Definition normalize e (max_age_seconds decimals : Z) (data : PriceData) : option NormalizedPrice :=
  if bool_decide (price data <= 0) then None else
  let now := ledger_timestamp e in
  if bool_decide (timestamp data > now) then None else
  age ← checked_sub u64 now (timestamp data);
  if bool_decide (age > max_age_seconds) then None else
  exponent ← checked_sub u32 18 decimals;
  multiplier ← checked u128 (10 ^ exponent);
  value ← checked_mul u128 (as_u128 (price data)) multiplier;
  Some (mkNormalized value (timestamp data)).

Definition read_normalized e oracle asset (max_age_seconds : Z) (l : ledger) : option NormalizedPrice * ledger :=
  let '(decimals, l1) := try_decimals l oracle in
  match decimals with
  | Some d =>
      if bool_decide (d <= 18) then
        let '(data, l2) := try_lastprice l1 oracle asset in
        match data with
        | Some (Some data) => (normalize e max_age_seconds d data, l2)
        | _ => (None, l2)
        end
      else (None, l1)
  | None => (None, l1)
  end.

(** A usable answer: [decimals] and a fresh positive price that fits. *)
Definition quotes e oracle asset (max_age : Z) (l : ledger) (v : Z) : Prop := exists d data,
  (try_decimals l oracle).1 = Some d /\ d <= 18 /\
  (try_lastprice (try_decimals l oracle).2 oracle asset).1 = Some (Some data) /\
  0 < price data /\ timestamp data <= ledger_timestamp e /\
  ledger_timestamp e - timestamp data <= max_age /\
  v = price data * 10 ^ (18 - d) /\ v <= int_max u128.

Lemma normalize_Some e max_age d data p :
  0 <= d <= 18 -> in_range u64 (ledger_timestamp e) -> 0 <= timestamp data -> price data <= int_max i128 ->
  normalize e max_age d data = Some p <->
  0 < price data /\ timestamp data <= ledger_timestamp e /\
  ledger_timestamp e - timestamp data <= max_age /\
  price data * 10 ^ (18 - d) <= int_max u128 /\
  p = mkNormalized (price data * 10 ^ (18 - d)) (timestamp data).
Proof.
  intros Hd Ht H0 Hp. unfold normalize.
  case_bool_decide as Hpos; [split; [done|lia]|].
  case_bool_decide as Hfut; [split; [done|lia]|].
  unfold in_range in Ht; cbn in Ht, Hp.
  unfold checked_sub. rewrite (checked_in_range u64) by (unfold in_range; cbn; lia). cbn.
  case_bool_decide as Hage; [split; [done|lia]|].
  rewrite (checked_in_range u32) by (unfold in_range; cbn; lia). cbn.
  assert (1 <= 10 ^ (18 - d) <= 10 ^ 18) as Hpow.
  { split; [|apply Z.pow_le_mono_r; lia]. pose proof (Z.pow_pos_nonneg 10 (18 - d)). lia. }
  rewrite (checked_in_range u128) by (unfold in_range; cbn in *; lia). cbn.
  assert (as_u128 (price data) = price data) as -> by (apply Z.mod_small; lia).
  unfold checked_mul, checked, in_range. set (v := price data * 10 ^ (18 - d)).
  assert (0 <= v) by (unfold v; nia). cbn. case_decide as Hv; cbn in *.
  - split; [intros [= <-]; split_and!; done || lia | by intros (_ & _ & _ & _ & ->)].
  - split; [done|lia].
Qed.
End Oracle.

(** ** The price threshold *)

Module PriceThreshold.

(** [IOraclePrice::lastprice]: [None] when the callee traps. *)
Class PriceOracle `{Ledger} := lastprice : ledger -> Address -> option (Z * Z).

Inductive ConditionError := NotInitialized | OracleCallFailed | StalePriceData.

Definition condition_error_symbol (x : ConditionError) : string :=
  match x with NotInitialized => "NotInit" | OracleCallFailed => "OracleErr" | StalePriceData => "StalePrice" end.

Definition THRESHOLD_ABOVE : bool := true.
Definition THRESHOLD_BELOW : bool := false.

Record Store := mkStore {
  s_oracle : option Address;
  s_threshold : option Z;
  s_direction : option bool;
}.

Section PriceThreshold.
Context `{PO : PriceOracle}.

(** [initialize] checks neither its caller nor an earlier configuration. *)
Definition initialize (oracle : Address) (threshold : Z) (direction : bool) (st : Store) : Store :=
  mkStore (Some oracle) (Some threshold) (Some direction).

(** [None]: the contract traps. *)
Definition check (st : Store) (l : ledger) : option bool :=
  oracle ← s_oracle st;
  threshold ← s_threshold st;
  direction ← s_direction st;
  answer ← lastprice l oracle;
  let '(price, _) := answer in
  Some (if bool_decide (direction = THRESHOLD_ABOVE) then bool_decide (price > threshold)
        else bool_decide (price < threshold)).

(** The check compares strictly, raw units against raw units, and traps exactly
    when the contract is not configured or the oracle does; a later
    [initialize], by anybody, replaces the configuration. *)
Theorem price_threshold_exact st oracle threshold direction l :
  let st' := initialize oracle threshold direction st in
  (forall b, check st' l = Some b <-> exists price decimals, lastprice l oracle = Some (price, decimals) /\
     b = if direction then bool_decide (threshold < price) else bool_decide (price < threshold)) /\
  (s_oracle st = None -> check st l = None) /\
  forall oracle2 threshold2 direction2,
    initialize oracle2 threshold2 direction2 st' = initialize oracle2 threshold2 direction2 st.
Proof.
  cbv zeta. split_and!; [|by unfold check; intros ->|done].
  intros b. unfold check; cbn. destruct (lastprice l oracle) as [[p d]|]; cbn; [|naive_solver].
  destruct direction; cbn; (split; [intros [= <-]|intros (p' & d' & [= <- <-] & ->)]);
    try (do 2 eexists; split; [done|]); repeat case_bool_decide; done || lia.
Qed.
End PriceThreshold.
End PriceThreshold.

(** ** The oracle deviation *)

Module OracleDeviation.

Definition MIN_MAX_AGE_SECONDS : Z := 1.
Definition MAX_MAX_AGE_SECONDS : Z := 86400.
Definition BPS_SCALE : Z := 10000.

Record DeviationConfig := mkConfig {
  oracle : Address;
  asset : Asset;
  max_age_seconds : Z;
  basis_points : Z;
  reference_price : Z;
}.

Inductive DeviationError :=
  | AlreadyInitialized
  | InvalidBasisPoints
  | InvalidMaxAge
  | PriceUnavailable
  | NotInitialized.

Inductive DataKey := Config.

(** Storage is the one entry [Config]. *)
Definition Store : Type := option DeviationConfig.

Abbreviation DS := (Sys Store DataKey Empty_set).
Abbreviation DM := (M (Sys Store DataKey Empty_set) DeviationError).

(** [U256::mul] traps on overflow. *)
Definition u256 : int_type := IntType 0 (2 ^ 256 - 1).

Section Deviation.
Context `{R : Reflector}.
Implicit Types (e : Env).

(** A [read_normalized] call from the contract. *)
Definition read_price e (o : Address) (a : Asset) (max_age : Z) : DM (option NormalizedPrice) :=
  fun s => let '(p, l) := read_normalized e o a max_age (chain s) in Ok p (s <| chain := l |>).

Definition initialize e (o : Address) (a : Asset) (max_age bps : Z) : DM unit :=
  stored ← read (fun st : Store => st);
  fail_if (bool_decide (is_Some stored)) AlreadyInitialized;;
  fail_if (bool_decide (bps > BPS_SCALE)) InvalidBasisPoints;;
  fail_if (negb (bool_decide (MIN_MAX_AGE_SECONDS <= max_age <= MAX_MAX_AGE_SECONDS))) InvalidMaxAge;;
  answer ← read_price e o a max_age;
  reference ← ok_or answer PriceUnavailable;
  write (fun _ => Some (mkConfig o a max_age bps (value reference))).

Definition deviation_met (reference current bps : Z) : option bool :=
  let difference :=
    if bool_decide (current >= reference) then checked_sub u128 current reference
    else checked_sub u128 reference current in
  match difference with
  | None => Some false
  | Some difference =>
      moved ← checked_mul u256 difference BPS_SCALE;
      required ← checked_mul u256 reference bps;
      Some (bool_decide (moved >= required))
  end.

Definition is_met e (task_id : Z) : DM bool :=
  stored ← read (fun st : Store => st);
  match stored with
  | None => mret false
  | Some config =>
      answer ← read_price e (oracle config) (asset config) (max_age_seconds config);
      match answer with
      | None => mret false
      | Some current => expect (deviation_met (reference_price config) (value current) (basis_points config))
      end
  end.

Definition config : DM DeviationConfig :=
  stored ← read (fun st : Store => st);
  ok_or stored NotInitialized.

Lemma deviation_met_exact reference current bps :
  in_range u128 reference -> in_range u128 current -> 0 <= bps <= BPS_SCALE ->
  deviation_met reference current bps
    = Some (bool_decide (reference * bps <= Z.abs (current - reference) * BPS_SCALE)).
Proof.
  unfold in_range; cbn. unfold BPS_SCALE. intros Hr Hc Hb. unfold deviation_met.
  assert ((if bool_decide (current >= reference) then checked_sub u128 current reference
           else checked_sub u128 reference current) = Some (Z.abs (current - reference))) as ->.
  { case_bool_decide; apply checked_sub_Some; unfold in_range; cbn; lia. }
  unfold BPS_SCALE, checked_mul.
  rewrite (checked_in_range u256 (Z.abs _ * _)) by (unfold in_range, u256; cbn; nia). cbn.
  rewrite (checked_in_range u256 (_ * bps)) by (unfold in_range, u256; cbn; nia). cbn.
  f_equal. apply bool_decide_ext. lia.
Qed.

#[export] Instance runs_read_price e o a max_age :
  Runs (read_price e o a max_age) (fun s p s' =>
    p = (read_normalized e o a max_age (chain s)).1 /\
    s' = s <| chain := (read_normalized e o a max_age (chain s)).2 |>).
Proof. intros s p s'. unfold read_price. destruct (read_normalized _ _ _ _ _); cbn. naive_solver. Qed.
End Deviation.

(** What the code relies on about a Reflector answer: the Rust types. *)
Class TypedReflector `{R : Reflector} : Prop := {
  decimals_typed l o d : (try_decimals l o).1 = Some d -> in_range u32 d;
  price_typed l o a data : (try_lastprice l o a).1 = Some (Some data) ->
    in_range i128 (price data) /\ in_range u64 (timestamp data);
}.

Section Exact.
Context `{TR : TypedReflector}.
Implicit Types (e : Env).

(** [read_normalized] answers exactly the usable quotes. *)
Lemma read_normalized_quotes e o a max_age l v :
  in_range u64 (ledger_timestamp e) ->
  (exists t, (read_normalized e o a max_age l).1 = Some (mkNormalized v t)) <-> quotes e o a max_age l v.
Proof.
  intros He. unfold read_normalized, quotes.
  pose proof (decimals_typed l o) as Hdt. destruct (try_decimals l o) as [[d|] l1] eqn:Hdec; cbn in *; [|naive_solver].
  specialize (Hdt d eq_refl). unfold in_range in Hdt; cbn in Hdt.
  case_bool_decide as H18; [|split; [naive_solver|intros (d' & data & [= <-] & ? & _); lia]].
  pose proof (price_typed l1 o a) as Hpt. destruct (try_lastprice l1 o a) as [[[data|]|] l2] eqn:Hlp; cbn in *;
    try naive_solver.
  destruct (Hpt data eq_refl) as [Hp Ht]. unfold in_range in Hp, Ht; cbn in Hp, Ht.
  split.
  - intros [t Hn]. apply normalize_Some in Hn; [|lia|done|lia|cbn; lia].
    destruct Hn as (H1 & H2 & H3 & H4 & [= -> ->]). exists d, data. done.
  - intros (d' & data' & [= <-] & _ & [= <-] & H1 & H2 & H3 & -> & H4). exists (timestamp data).
    apply normalize_Some; [lia|done|lia|cbn; lia|done].
Qed.

Lemma quotes_range e o a max_age l v : quotes e o a max_age l v -> 0 < v /\ in_range u128 v.
Proof.
  intros (d & data & _ & Hd & _ & Hp & _ & _ & -> & Hv). unfold in_range; cbn in *.
  pose proof (Z.pow_pos_nonneg 10 (18 - d)). assert (0 < price data * 10 ^ (18 - d)) by nia. lia.
Qed.

(** C28: the deviation is exact.  A committed [initialize] records as reference a
    usable quote of the oracle - at most 18 decimals, positive, not in the
    future, at most [max_age] old, and scaled to 18 decimals without overflow -
    and is the last: every later one is rejected.  From then on [is_met] never
    traps or errs and answers yes exactly when the oracle gives a usable quote
    [v] with [|v - reference| * 10000 >= reference * basis_points], computed
    without rounding or overflow. *)
Theorem deviation_exact e o a max_age bps (s s' : DS) :
  in_range u64 (ledger_timestamp e) -> in_range u32 bps ->
  initialize e o a max_age bps s = Ok tt s' ->
  exists reference, quotes e o a max_age (chain s) reference /\
    store s' = Some (mkConfig o a max_age bps reference) /\
    (forall e2 o2 a2 max_age2 bps2 (s2 : DS), store s2 = store s' ->
       invoke (initialize e2 o2 a2 max_age2 bps2) s2 = (Rejected AlreadyInitialized, s2)) /\
    forall e2 id (s2 : DS), store s2 = store s' -> in_range u64 (ledger_timestamp e2) ->
      exists b s3, is_met e2 id s2 = Ok b s3 /\ store s3 = store s2 /\
        (b = true <-> exists v, quotes e2 o a max_age (chain s2) v /\
           reference * bps <= Z.abs (v - reference) * 10000).
Proof.
  intros He Hb Hr. unfold initialize in Hr. run.
  match goal with p : NormalizedPrice |- _ => destruct p as [reference t] end.
  assert (quotes e o a max_age (chain s) reference) as Hq.
  { apply read_normalized_quotes; [done|]. by exists t. }
  exists reference. split; [done|]. split; [done|]. split.
  - intros e2 o2 a2 max_age2 bps2 s2 Hst. cbn in Hst.
    unfold initialize, invoke, read, gets, mbind, M_bind, fail_if, fail. by rewrite Hst.
  - intros e2 id s2 Hst He2. cbn in Hst.
    unfold is_met, read, gets, mbind, M_bind, read_price. rewrite Hst. cbn [oracle asset max_age_seconds basis_points reference_price].
    destruct (quotes_range _ _ _ _ _ _ Hq) as [_ Href].
    pose proof (read_normalized_quotes e2 o a max_age (chain s2)) as Hrq.
    destruct (read_normalized e2 o a max_age (chain s2)) as [[[v t2]|] l2] eqn:Hrn; cbn in Hrq.
    + assert (quotes e2 o a max_age (chain s2) v) as Hv by (apply Hrq; [done|by exists t2]).
      destruct (quotes_range _ _ _ _ _ _ Hv) as [_ Hvr]. unfold in_range in Hb; cbn in Hb.
      rewrite deviation_met_exact by (done || unfold BPS_SCALE in *; lia). cbn.
      do 2 eexists. split; [done|]. split; [done|]. rewrite bool_decide_eq_true. split.
      * intros Hm. by exists v.
      * intros (v' & Hv' & Hm). apply Hrq in Hv' as [t' [= <- _]]; done.
    + do 2 eexists. split; [done|]. split; [done|]. split; [done|]. intros (v & Hv & _).
      apply Hrq in Hv as [t' Ht']; done.
Qed.
End Exact.

(** A sample oracle: BTC at 7 decimals, its price the chain's one balance. *)
Section Sample.
Definition btc : Asset := Other "BTC".

#[local] Instance sample_reflector : Reflector := {
  try_decimals l _ := (Some 7, l);
  try_lastprice l _ a := (Some (match a with Other _ => Some (mkPriceData (Z.min (2 ^ 100) (bal l token token)) 1000) | _ => None end), l);
}.

#[local] Instance sample_typed : TypedReflector.
Proof.
  split.
  - intros l o d [= <-]. unfold in_range; cbn. lia.
  - intros l o [a|sym] data; cbn; [done|]. intros [= <-]. unfold in_range; cbn. unfold bal. lia.
Qed.

Definition quoted (p : Z) : Balances := <[(token, token) := p]> ∅.

Definition before : DS := mkSys None [] (quoted 50000).
Definition configured : DS :=
  (invoke (initialize (at_ledger 10 1005) (addr 9) btc 300 500) before).2.

Lemma initialize_commits e o a max_age bps (s : DS) :
  (match initialize e o a max_age bps s with Ok _ _ => true | _ => false end) = true ->
  initialize e o a max_age bps s = Ok tt (invoke (initialize e o a max_age bps) s).2.
Proof. unfold invoke. by destruct (initialize e o a max_age bps s) as [[] s'| |]. Qed.

Lemma deviation_exact_witness :
  exists reference, quotes (at_ledger 10 1005) (addr 9) btc 300 (chain before) reference /\
    store configured = Some (mkConfig (addr 9) btc 300 500 reference).
Proof.
  destruct (deviation_exact (at_ledger 10 1005) (addr 9) btc 300 500 before configured) as (r & Hq & Hs & _).
  - vm_compute. split; discriminate.
  - vm_compute. split; discriminate.
  - refine (initialize_commits (at_ledger 10 1005) (addr 9) btc 300 500 before _). vm_compute. reflexivity.
  - exists r. split; [exact Hq|exact Hs].
Defined.

(** A 5% move meets the condition, a smaller or a stale one does not. *)
Example deviation_sample :
  let met e p := match is_met e 1 (configured <| chain := quoted p |>) with Ok b _ => Some b | _ => None end in
  (met (at_ledger 11 1010) 52500, met (at_ledger 11 1010) 52499, met (at_ledger 11 1010) 47500,
   met (at_ledger 11 1301) 60000) = (Some true, Some false, Some true, Some false).
Proof. vm_compute. reflexivity. Qed.
End Sample.
End OracleDeviation.
