(* ===== verification/IndexerEvents.v ===== *)
(** * Indexer: events

    src/indexer/src/events.rs (the event types, their topics, wire names and
    payloads), the raw events of rpc.rs, and the parser of ingest/parse.rs.
    [i128] amounts are [Z]; [I128] is a transparent wrapper.  [parse_event]
    fails with a typed error where the source builds a message from the same
    data. *)

From S2P Require Import Prelude.

(** A fallible function without state: [Result<A, E>]. *)
#[export] Instance sum_ret E : MRet (sum E) := fun A a => inr a.
#[export] Instance sum_bind E : MBind (sum E) := fun A B f r =>
  match r with inl x => inl x | inr a => f a end.

(** [Iterator::find] *)
Fixpoint find {A} (p : A -> bool) (l : list A) : option A :=
  match l with
  | [] => None
  | x :: l => if p x then Some x else find p l
  end.

Lemma find_Some {A} (P : A -> Prop) `{!forall x, Decision (P x)} l x :
  find (fun x => bool_decide (P x)) l = Some x -> P x /\ x ∈ l.
Proof.
  induction l as [|y l IH]; [done|]; cbn. case_bool_decide as Hy.
  - intros [= ->]. split; [done | set_solver].
  - intros [? ?]%IH. split; [done | set_solver].
Qed.

(** ** Event types *)

Module EventType.

Inductive t :=
  | TaskRegistered
  | ConditionNotMet
  | TaskClaimed
  | TaskExecuted
  | TaskExpired
  | TaskCancelled
  | RewardIncreased
  | DeadlineExtended
  | RewardsWithdrawn
  | Paused
  | FeeUpdated
  | AdminTransferred
  | MinRewardUpdated
  | FeesSwept
  | Initialized
  | Upgraded
  | ReputationUpdated
  | OraclePriceConditionSet.

#[global] Instance eq_dec : EqDecision t.
Proof. solve_decision. Defined.

(** The [(verb, noun)] topic pair. *)
Definition topics (ty : t) : string * string :=
  (match ty with
  | TaskRegistered => ("reg", "task")
  | ConditionNotMet => ("condfail", "task")
  | TaskClaimed => ("claim", "task")
  | TaskExecuted => ("exec", "task")
  | TaskExpired => ("exp", "task")
  | TaskCancelled => ("cancel", "task")
  | RewardIncreased => ("topup", "task")
  | DeadlineExtended => ("extend", "task")
  | RewardsWithdrawn => ("wdraw", "reward")
  | Paused => ("paused", "admin")
  | FeeUpdated => ("fee", "admin")
  | AdminTransferred => ("admin", "xfer")
  | MinRewardUpdated => ("minrwd", "admin")
  | FeesSwept => ("sweep", "admin")
  | Initialized => ("init", "admin")
  | Upgraded => ("upgrade", "admin")
  | ReputationUpdated => ("update", "reputation")
  | OraclePriceConditionSet => ("oracond", "task")
  end)%string.

(** The array both lookups search, in its order. *)
Definition ALL : list t :=
  [TaskRegistered; ConditionNotMet; TaskClaimed; TaskExecuted; TaskExpired; TaskCancelled;
   RewardIncreased; DeadlineExtended; RewardsWithdrawn; Paused; FeeUpdated; AdminTransferred;
   MinRewardUpdated; FeesSwept; Initialized; Upgraded; ReputationUpdated;
   OraclePriceConditionSet].

Definition from_topics (verb noun : string) : option t :=
  find (fun ty => bool_decide (topics ty = (verb, noun))) ALL.

Definition as_str (ty : t) : string :=
  (match ty with
  | TaskRegistered => "task_registered"
  | ConditionNotMet => "condition_not_met"
  | TaskClaimed => "task_claimed"
  | TaskExecuted => "task_executed"
  | TaskExpired => "task_expired"
  | TaskCancelled => "task_cancelled"
  | RewardIncreased => "reward_increased"
  | DeadlineExtended => "deadline_extended"
  | RewardsWithdrawn => "rewards_withdrawn"
  | Paused => "paused"
  | FeeUpdated => "fee_updated"
  | AdminTransferred => "admin_transferred"
  | MinRewardUpdated => "min_reward_updated"
  | FeesSwept => "fees_swept"
  | Initialized => "initialized"
  | Upgraded => "upgraded"
  | ReputationUpdated => "reputation_updated"
  | OraclePriceConditionSet => "oracle_price_condition_set"
  end)%string.

Definition parse (s : string) : option t :=
  find (fun ty => bool_decide (as_str ty = s)) ALL.

End EventType.

(** ** Payloads *)

Module EventPayload.

Inductive t :=
  | TaskRegistered (task_id : Z) (owner : string) (reward deadline : Z) (condition : option string)
  | ConditionNotMet (task_id : Z) (condition : string)
  | TaskClaimed (task_id : Z) (keeper : string) (claim_ledger : Z)
  | TaskExecuted (task_id : Z) (keeper : string) (net_reward : Z) (proof : string)
  | TaskExpired (task_id : Z)
  | TaskCancelled (task_id : Z) (owner : string)
  | RewardIncreased (task_id new_reward : Z)
  | DeadlineExtended (task_id new_deadline : Z)
  | RewardsWithdrawn (keeper : string) (amount : Z)
  | Paused (paused : bool)
  | FeeUpdated (old_bps new_bps : Z)
  | AdminTransferred (old_admin new_admin : string)
  | MinRewardUpdated (old_min new_min : Z)
  | FeesSwept (treasury : string) (amount remaining : Z)
  | Initialized (admin reward_token : string) (fee_bps : Z)
  | Upgraded (admin new_wasm_hash : string)
  | ReputationUpdated (keeper action : string) (score : Z)
  | OraclePriceConditionSet (task_id : Z) (oracle asset : string) (threshold : Z).

#[global] Instance eq_dec : EqDecision t.
Proof. solve_decision. Defined.

Definition event_type (p : t) : EventType.t :=
  match p with
  | TaskRegistered _ _ _ _ _ => EventType.TaskRegistered
  | ConditionNotMet _ _ => EventType.ConditionNotMet
  | TaskClaimed _ _ _ => EventType.TaskClaimed
  | TaskExecuted _ _ _ _ => EventType.TaskExecuted
  | TaskExpired _ => EventType.TaskExpired
  | TaskCancelled _ _ => EventType.TaskCancelled
  | RewardIncreased _ _ => EventType.RewardIncreased
  | DeadlineExtended _ _ => EventType.DeadlineExtended
  | RewardsWithdrawn _ _ => EventType.RewardsWithdrawn
  | Paused _ => EventType.Paused
  | FeeUpdated _ _ => EventType.FeeUpdated
  | AdminTransferred _ _ => EventType.AdminTransferred
  | MinRewardUpdated _ _ => EventType.MinRewardUpdated
  | FeesSwept _ _ _ => EventType.FeesSwept
  | Initialized _ _ _ => EventType.Initialized
  | Upgraded _ _ => EventType.Upgraded
  | ReputationUpdated _ _ _ => EventType.ReputationUpdated
  | OraclePriceConditionSet _ _ _ _ => EventType.OraclePriceConditionSet
  end.

Definition task_id (p : t) : option Z :=
  match p with
  | TaskRegistered id _ _ _ _ | ConditionNotMet id _ | TaskClaimed id _ _ | TaskExecuted id _ _ _
  | TaskExpired id | TaskCancelled id _ | RewardIncreased id _ | DeadlineExtended id _
  | OraclePriceConditionSet id _ _ _ => Some id
  | _ => None
  end.

Definition owner (p : t) : option string :=
  match p with
  | TaskRegistered _ owner _ _ _ | TaskCancelled _ owner => Some owner
  | _ => None
  end.

Definition keeper (p : t) : option string :=
  match p with
  | TaskClaimed _ keeper _ | TaskExecuted _ keeper _ _ | RewardsWithdrawn keeper _ => Some keeper
  | _ => None
  end.

Definition condition (p : t) : option string :=
  match p with
  | TaskRegistered _ _ _ _ (Some condition) | ConditionNotMet _ condition => Some condition
  | _ => None
  end.

End EventPayload.

(** One ingested event. *)
Record IndexedEvent := mkIndexedEvent {
  cursor : Z;
  ie_ledger : Z;
  ie_ledger_close_time : Z;
  ie_tx_hash : string;
  ie_event_index : Z;
  ie_event_type : EventType.t;
  payload : EventPayload.t;
}.

(** ** Raw events (rpc.rs) *)

Inductive RawValue :=
  | Void
  | U32 (v : Z)
  | U64 (v : Z)
  | I128 (v : Z)
  | Bool (v : bool)
  | AddressV (v : string)
  | BytesV (v : string)
  | SymbolV (v : string).

#[export] Instance RawValue_eq_dec : EqDecision RawValue.
Proof. solve_decision. Defined.

Record RawEvent := mkRawEvent {
  re_ledger : Z;
  re_ledger_close_time : Z;
  re_tx_hash : string;
  re_event_index : Z;
  re_topics : list string;
  re_values : list RawValue;
}.

#[export] Instance RawEvent_eq_dec : EqDecision RawEvent.
Proof. solve_decision. Defined.

(** ** The parser (ingest/parse.rs) *)

Inductive ParseError :=
  | MissingField (event : EventType.t) (fields expected : nat)
  | TypeMismatch (event : EventType.t) (index : nat) (expected : string) (got : RawValue).

Abbreviation Parsed := (sum ParseError).

Definition at_ (values : list RawValue) (index : nat) (event : EventType.t) : Parsed RawValue :=
  match values !! index with
  | Some v => inr v
  | None => inl (MissingField event (length values) (index + 1))
  end.

Definition u64_at values index event : Parsed Z :=
  v ← at_ values index event;
  match v with U64 v => mret v | other => inl (TypeMismatch event index "u64" other) end.

Definition u32_at values index event : Parsed Z :=
  v ← at_ values index event;
  match v with U32 v => mret v | other => inl (TypeMismatch event index "u32" other) end.

Definition i128_at values index event : Parsed Z :=
  v ← at_ values index event;
  match v with I128 v => mret v | other => inl (TypeMismatch event index "i128" other) end.

Definition bool_at values index event : Parsed bool :=
  v ← at_ values index event;
  match v with Bool v => mret v | other => inl (TypeMismatch event index "bool" other) end.

Definition address_at values index event : Parsed string :=
  v ← at_ values index event;
  match v with AddressV v => mret v | other => inl (TypeMismatch event index "address" other) end.

Definition optional_address_at (values : list RawValue) (index : nat) event : Parsed (option string) :=
  match values !! index with
  | None => mret None
  | Some Void => mret None
  | Some (AddressV v) => mret (Some v)
  | Some other => inl (TypeMismatch event index "address or void" other)
  end.

Definition bytes_at values index event : Parsed string :=
  v ← at_ values index event;
  match v with BytesV v => mret v | other => inl (TypeMismatch event index "bytes" other) end.

Definition symbol_at values index event : Parsed string :=
  v ← at_ values index event;
  match v with SymbolV v => mret v | other => inl (TypeMismatch event index "symbol" other) end.

(** The payload of a recognised event; [None] for the one type that is
    recognised but never parsed. *)
Definition parse_payload (ty : EventType.t) (v : list RawValue) : Parsed (option EventPayload.t) :=
  match ty with
  | EventType.TaskRegistered =>
      task_id ← u64_at v 0 ty; owner ← address_at v 1 ty; reward ← i128_at v 2 ty;
      deadline ← u64_at v 3 ty; condition ← optional_address_at v 4 ty;
      mret (Some (EventPayload.TaskRegistered task_id owner reward deadline condition))
  | EventType.ConditionNotMet =>
      task_id ← u64_at v 0 ty; condition ← address_at v 1 ty;
      mret (Some (EventPayload.ConditionNotMet task_id condition))
  | EventType.TaskClaimed =>
      task_id ← u64_at v 0 ty; keeper ← address_at v 1 ty; claim_ledger ← u32_at v 2 ty;
      mret (Some (EventPayload.TaskClaimed task_id keeper claim_ledger))
  | EventType.TaskExecuted =>
      task_id ← u64_at v 0 ty; keeper ← address_at v 1 ty; net_reward ← i128_at v 2 ty;
      proof ← bytes_at v 3 ty;
      mret (Some (EventPayload.TaskExecuted task_id keeper net_reward proof))
  | EventType.TaskExpired =>
      task_id ← u64_at v 0 ty; mret (Some (EventPayload.TaskExpired task_id))
  | EventType.TaskCancelled =>
      task_id ← u64_at v 0 ty; owner ← address_at v 1 ty;
      mret (Some (EventPayload.TaskCancelled task_id owner))
  | EventType.RewardIncreased =>
      task_id ← u64_at v 0 ty; new_reward ← i128_at v 1 ty;
      mret (Some (EventPayload.RewardIncreased task_id new_reward))
  | EventType.DeadlineExtended =>
      task_id ← u64_at v 0 ty; new_deadline ← u64_at v 1 ty;
      mret (Some (EventPayload.DeadlineExtended task_id new_deadline))
  | EventType.RewardsWithdrawn =>
      keeper ← address_at v 0 ty; amount ← i128_at v 1 ty;
      mret (Some (EventPayload.RewardsWithdrawn keeper amount))
  | EventType.Paused =>
      paused ← bool_at v 0 ty; mret (Some (EventPayload.Paused paused))
  | EventType.FeeUpdated =>
      old_bps ← u32_at v 0 ty; new_bps ← u32_at v 1 ty;
      mret (Some (EventPayload.FeeUpdated old_bps new_bps))
  | EventType.AdminTransferred =>
      old_admin ← address_at v 0 ty; new_admin ← address_at v 1 ty;
      mret (Some (EventPayload.AdminTransferred old_admin new_admin))
  | EventType.MinRewardUpdated =>
      old_min ← i128_at v 0 ty; new_min ← i128_at v 1 ty;
      mret (Some (EventPayload.MinRewardUpdated old_min new_min))
  | EventType.FeesSwept =>
      treasury ← address_at v 0 ty; amount ← i128_at v 1 ty; remaining ← i128_at v 2 ty;
      mret (Some (EventPayload.FeesSwept treasury amount remaining))
  | EventType.Initialized =>
      admin ← address_at v 0 ty; reward_token ← address_at v 1 ty; fee_bps ← u32_at v 2 ty;
      mret (Some (EventPayload.Initialized admin reward_token fee_bps))
  | EventType.Upgraded =>
      admin ← address_at v 0 ty; new_wasm_hash ← bytes_at v 1 ty;
      mret (Some (EventPayload.Upgraded admin new_wasm_hash))
  | EventType.OraclePriceConditionSet =>
      task_id ← u64_at v 0 ty; oracle ← address_at v 1 ty; asset ← symbol_at v 2 ty;
      threshold ← i128_at v 3 ty;
      mret (Some (EventPayload.OraclePriceConditionSet task_id oracle asset threshold))
  | EventType.ReputationUpdated => mret None
  end.

Definition parse_event (raw : RawEvent) : Parsed (option EventPayload.t) :=
  match re_topics raw !! 0%nat, re_topics raw !! 1%nat with
  | Some verb, Some noun =>
      match EventType.from_topics verb noun with
      | Some ty => parse_payload ty (re_values raw)
      | None => mret None
      end
  | _, _ => mret None
  end.
