(* ===== verification/IndexerWire.v ===== *)
(** * Indexer: the wire between the registry and the indexer

    Each event of src/contracts/keeper-registry/src/events.rs as it reaches
    the indexer - its topics and its payload tuple - and what
    src/indexer/src/ingest/parse.rs makes of it. *)

From S2P Require Import Prelude Host RegistryTypes IndexerEvents.

(** The textual encodings of addresses (stellar-strkey) and of bytes (hex). *)
Class Encoding := {
  strkey : Address -> string;
  hex_encode : Bytes -> string;
}.

Section Wire.
Context `{Encoding}.
Implicit Types (ev : Event) (raw : RawEvent).

Definition address_value (a : Address) : RawValue := AddressV (strkey a).
Definition option_value (o : option Address) : RawValue :=
  match o with Some a => address_value a | None => Void end.

(** The payload tuple each [emit_*] publishes. *)
Definition event_values ev : list RawValue :=
  match ev with
  | TaskRegistered task_id owner reward deadline condition =>
      [U64 task_id; address_value owner; I128 reward; U64 deadline; option_value condition]
  | TaskConditionNotMet task_id condition => [U64 task_id; address_value condition]
  | TaskClaimed task_id keeper ledger => [U64 task_id; address_value keeper; U32 ledger]
  | TaskExecuted task_id keeper net_reward proof =>
      [U64 task_id; address_value keeper; I128 net_reward; BytesV (hex_encode proof)]
  | TaskExpired task_id => [U64 task_id]
  | TaskCancelled task_id owner => [U64 task_id; address_value owner]
  | RewardsWithdrawn keeper amount => [address_value keeper; I128 amount]
  | RewardIncreased task_id new_reward => [U64 task_id; I128 new_reward]
  | DeadlineExtended task_id new_deadline => [U64 task_id; U64 new_deadline]
  | PausedSet paused => [Bool paused]
  | FeeUpdated old_bps new_bps => [U32 old_bps; U32 new_bps]
  | AdminTransferred old_admin new_admin => [address_value old_admin; address_value new_admin]
  | MinRewardUpdated old_min new_min => [I128 old_min; I128 new_min]
  | FeesSwept treasury amount remaining => [address_value treasury; I128 amount; I128 remaining]
  | Initialized admin reward_token fee_bps =>
      [address_value admin; address_value reward_token; U32 fee_bps]
  | Upgraded admin new_wasm_hash => [address_value admin; BytesV (hex_encode new_wasm_hash)]
  | TaskVerificationFailed task_id keeper => [U64 task_id; address_value keeper]
  | VerifierAttached task_id verifier => [U64 task_id; address_value verifier]
  | VerifierUpdated task_id old_verifier new_verifier =>
      [U64 task_id; option_value old_verifier; option_value new_verifier]
  | StakeDeposited keeper amount new_total => [address_value keeper; I128 amount; I128 new_total]
  | UnbondInitiated keeper amount unlock_ledger =>
      [address_value keeper; I128 amount; U32 unlock_ledger]
  | StakeWithdrawn keeper amount => [address_value keeper; I128 amount]
  | Slashed slash_id keeper amount reason =>
      [U64 slash_id; address_value keeper; I128 amount; SymbolV reason]
  | MinStakeUpdated old_min new_min => [I128 old_min; I128 new_min]
  | SlashAppealRaised slash_id keeper => [U64 slash_id; address_value keeper]
  | SlashAppealResolved slash_id upheld => [U64 slash_id; Bool upheld]
  | DisputeWindowUpdated old_ledgers new_ledgers => [U32 old_ledgers; U32 new_ledgers]
  | ExecutionDisputed task_id keeper => [U64 task_id; address_value keeper]
  | ExecutionDisputeResolved task_id upheld => [U64 task_id; Bool upheld]
  | RewardsFinalized keeper task_id amount => [address_value keeper; U64 task_id; I128 amount]
  | ReputationFloorUpdated old_floor_bps new_floor_bps => [U32 old_floor_bps; U32 new_floor_bps]
  | OraclePriceConditionSet task_id oracle asset threshold =>
      [U64 task_id; address_value oracle; SymbolV asset; I128 threshold]
  end.

(** [raw] is [ev] as it reaches the indexer. *)
Definition carries raw ev : Prop :=
  re_topics raw = [(event_topics ev).1; (event_topics ev).2] /\ re_values raw = event_values ev.

(** The payload with the fields of [ev]; [None] for the events the indexer has
    no type for. *)
Definition decoded ev : option EventPayload.t :=
  match ev with
  | TaskRegistered task_id owner reward deadline condition =>
      Some (EventPayload.TaskRegistered task_id (strkey owner) reward deadline (strkey <$> condition))
  | TaskConditionNotMet task_id condition =>
      Some (EventPayload.ConditionNotMet task_id (strkey condition))
  | TaskClaimed task_id keeper ledger => Some (EventPayload.TaskClaimed task_id (strkey keeper) ledger)
  | TaskExecuted task_id keeper net_reward proof =>
      Some (EventPayload.TaskExecuted task_id (strkey keeper) net_reward (hex_encode proof))
  | TaskExpired task_id => Some (EventPayload.TaskExpired task_id)
  | TaskCancelled task_id owner => Some (EventPayload.TaskCancelled task_id (strkey owner))
  | RewardsWithdrawn keeper amount => Some (EventPayload.RewardsWithdrawn (strkey keeper) amount)
  | RewardIncreased task_id new_reward => Some (EventPayload.RewardIncreased task_id new_reward)
  | DeadlineExtended task_id new_deadline => Some (EventPayload.DeadlineExtended task_id new_deadline)
  | PausedSet paused => Some (EventPayload.Paused paused)
  | FeeUpdated old_bps new_bps => Some (EventPayload.FeeUpdated old_bps new_bps)
  | AdminTransferred old_admin new_admin =>
      Some (EventPayload.AdminTransferred (strkey old_admin) (strkey new_admin))
  | MinRewardUpdated old_min new_min => Some (EventPayload.MinRewardUpdated old_min new_min)
  | FeesSwept treasury amount remaining =>
      Some (EventPayload.FeesSwept (strkey treasury) amount remaining)
  | Initialized admin reward_token fee_bps =>
      Some (EventPayload.Initialized (strkey admin) (strkey reward_token) fee_bps)
  | Upgraded admin new_wasm_hash =>
      Some (EventPayload.Upgraded (strkey admin) (hex_encode new_wasm_hash))
  | OraclePriceConditionSet task_id oracle asset threshold =>
      Some (EventPayload.OraclePriceConditionSet task_id (strkey oracle) asset threshold)
  | _ => None
  end.

Lemma parse_carried raw ev : carries raw ev -> parse_event raw = inr (decoded ev).
Proof.
  destruct raw as [l t h i ts vs]. intros [Ht Hv]. cbn in Ht, Hv. subst ts vs.
  unfold parse_event. cbn [re_topics re_values].
  destruct ev; try reflexivity; cbn; by destruct condition.
Qed.

(** The topics of the events the registry emits and the indexer has no type for. *)
Definition unknown_topics : list (string * string) :=
  [("verfail", "task"); ("vattach", "task"); ("vupdate", "task"); ("stkdep", "stake"); ("unbond", "stake");
   ("stkwd", "stake"); ("slash", "stake"); ("minstk", "admin"); ("appeal", "stake"); ("resolve", "stake");
   ("disptwin", "admin"); ("exdisp", "task"); ("exresolv", "task"); ("finalize", "reward");
   ("repfloor", "admin")]%string.

Lemma decoded_unknown ev : decoded ev = None <-> event_topics ev ∈ unknown_topics.
Proof.
  split.
  - intros Hev. destruct ev; try discriminate Hev; apply (bool_decide_unpack _); by vm_compute.
  - intros Hev%(bool_decide_pack _). destruct ev; try reflexivity; by vm_compute in Hev.
Qed.

(** C30: the wire round trip of the events the indexer has a type for.  Whatever
    the registry publishes parses without error.  An event of one of the 17 known
    types parses to the payload with exactly the published fields; of the other
    15 - verifiers, stakes, slashes, appeals, disputes, finalized rewards and
    three settings - nothing is kept: they, and only they, parse to "not
    recognised", and none is mistaken for one the indexer knows.  And the names
    are a bijection: topic pairs and wire names resolve back to their type, and
    only the type's own name does. *)
Theorem wire_roundtrip :
  (forall raw ev, carries raw ev -> parse_event raw = inr (decoded ev)) /\
  (forall raw ev, carries raw ev -> parse_event raw = inr None <-> event_topics ev ∈ unknown_topics) /\
  (forall verb noun ty, EventType.from_topics verb noun = Some ty <-> EventType.topics ty = (verb, noun)) /\
  (forall s ty, EventType.parse s = Some ty <-> EventType.as_str ty = s).
Proof.
  split; [apply parse_carried|]. split; [|split].
  - intros raw ev Hc. rewrite (parse_carried _ _ Hc), <- decoded_unknown. split; [by intros [=] | by intros ->].
  - intros verb noun ty. split.
    + intros Hf. unfold EventType.from_topics in Hf. by apply find_Some in Hf as [? _].
    + intros Ht. apply (f_equal fst) in Ht as Hv. apply (f_equal snd) in Ht as Hn. cbn in Hv, Hn. subst.
      by destruct ty.
  - intros s ty. split.
    + intros Hf. unfold EventType.parse in Hf. by apply find_Some in Hf as [? _].
    + intros <-. by destruct ty.
Qed.
End Wire.
