(* ===== verification/IndexerState.v ===== *)
(** * Indexer: state folded from the event history

    src/indexer/src/state.rs: a task's state, a keeper's summary and the
    registry's configuration as folds over the events, oldest first.  Sums of
    i128 amounts trap on overflow ([None]). *)

From S2P Require Import Prelude IndexerEvents.

Module TaskStatus.
Inductive t := Pending | Claimed | Executed | Cancelled | Expired.

#[global] Instance eq_dec : EqDecision t.
Proof. solve_decision. Defined.
End TaskStatus.

Record TaskState := mkTaskState {
  ts_task_id : Z;
  ts_owner : string;
  ts_status : TaskStatus.t;
  ts_reward : Z;
  ts_deadline : Z;
  ts_condition : option string;
  ts_condition_rejection_count : Z;
  ts_keeper : option string;
  ts_claim_ledger : option Z;
  ts_net_reward : option Z;
  ts_last_ledger : Z;
  ts_oracle_address : option string;
  ts_asset : option string;
  ts_oracle_threshold : option Z;
}.

#[export] Instance update_task_id : Update ts_task_id :=
  fun f s => mkTaskState (f (ts_task_id s)) (ts_owner s) (ts_status s) (ts_reward s) (ts_deadline s) (ts_condition s) (ts_condition_rejection_count s) (ts_keeper s) (ts_claim_ledger s) (ts_net_reward s) (ts_last_ledger s) (ts_oracle_address s) (ts_asset s) (ts_oracle_threshold s).
#[export] Instance update_owner : Update ts_owner :=
  fun f s => mkTaskState (ts_task_id s) (f (ts_owner s)) (ts_status s) (ts_reward s) (ts_deadline s) (ts_condition s) (ts_condition_rejection_count s) (ts_keeper s) (ts_claim_ledger s) (ts_net_reward s) (ts_last_ledger s) (ts_oracle_address s) (ts_asset s) (ts_oracle_threshold s).
#[export] Instance update_status : Update ts_status :=
  fun f s => mkTaskState (ts_task_id s) (ts_owner s) (f (ts_status s)) (ts_reward s) (ts_deadline s) (ts_condition s) (ts_condition_rejection_count s) (ts_keeper s) (ts_claim_ledger s) (ts_net_reward s) (ts_last_ledger s) (ts_oracle_address s) (ts_asset s) (ts_oracle_threshold s).
#[export] Instance update_reward : Update ts_reward :=
  fun f s => mkTaskState (ts_task_id s) (ts_owner s) (ts_status s) (f (ts_reward s)) (ts_deadline s) (ts_condition s) (ts_condition_rejection_count s) (ts_keeper s) (ts_claim_ledger s) (ts_net_reward s) (ts_last_ledger s) (ts_oracle_address s) (ts_asset s) (ts_oracle_threshold s).
#[export] Instance update_deadline : Update ts_deadline :=
  fun f s => mkTaskState (ts_task_id s) (ts_owner s) (ts_status s) (ts_reward s) (f (ts_deadline s)) (ts_condition s) (ts_condition_rejection_count s) (ts_keeper s) (ts_claim_ledger s) (ts_net_reward s) (ts_last_ledger s) (ts_oracle_address s) (ts_asset s) (ts_oracle_threshold s).
#[export] Instance update_condition : Update ts_condition :=
  fun f s => mkTaskState (ts_task_id s) (ts_owner s) (ts_status s) (ts_reward s) (ts_deadline s) (f (ts_condition s)) (ts_condition_rejection_count s) (ts_keeper s) (ts_claim_ledger s) (ts_net_reward s) (ts_last_ledger s) (ts_oracle_address s) (ts_asset s) (ts_oracle_threshold s).
#[export] Instance update_condition_rejection_count : Update ts_condition_rejection_count :=
  fun f s => mkTaskState (ts_task_id s) (ts_owner s) (ts_status s) (ts_reward s) (ts_deadline s) (ts_condition s) (f (ts_condition_rejection_count s)) (ts_keeper s) (ts_claim_ledger s) (ts_net_reward s) (ts_last_ledger s) (ts_oracle_address s) (ts_asset s) (ts_oracle_threshold s).
#[export] Instance update_keeper : Update ts_keeper :=
  fun f s => mkTaskState (ts_task_id s) (ts_owner s) (ts_status s) (ts_reward s) (ts_deadline s) (ts_condition s) (ts_condition_rejection_count s) (f (ts_keeper s)) (ts_claim_ledger s) (ts_net_reward s) (ts_last_ledger s) (ts_oracle_address s) (ts_asset s) (ts_oracle_threshold s).
#[export] Instance update_claim_ledger : Update ts_claim_ledger :=
  fun f s => mkTaskState (ts_task_id s) (ts_owner s) (ts_status s) (ts_reward s) (ts_deadline s) (ts_condition s) (ts_condition_rejection_count s) (ts_keeper s) (f (ts_claim_ledger s)) (ts_net_reward s) (ts_last_ledger s) (ts_oracle_address s) (ts_asset s) (ts_oracle_threshold s).
#[export] Instance update_net_reward : Update ts_net_reward :=
  fun f s => mkTaskState (ts_task_id s) (ts_owner s) (ts_status s) (ts_reward s) (ts_deadline s) (ts_condition s) (ts_condition_rejection_count s) (ts_keeper s) (ts_claim_ledger s) (f (ts_net_reward s)) (ts_last_ledger s) (ts_oracle_address s) (ts_asset s) (ts_oracle_threshold s).
#[export] Instance update_last_ledger : Update ts_last_ledger :=
  fun f s => mkTaskState (ts_task_id s) (ts_owner s) (ts_status s) (ts_reward s) (ts_deadline s) (ts_condition s) (ts_condition_rejection_count s) (ts_keeper s) (ts_claim_ledger s) (ts_net_reward s) (f (ts_last_ledger s)) (ts_oracle_address s) (ts_asset s) (ts_oracle_threshold s).
#[export] Instance update_oracle_address : Update ts_oracle_address :=
  fun f s => mkTaskState (ts_task_id s) (ts_owner s) (ts_status s) (ts_reward s) (ts_deadline s) (ts_condition s) (ts_condition_rejection_count s) (ts_keeper s) (ts_claim_ledger s) (ts_net_reward s) (ts_last_ledger s) (f (ts_oracle_address s)) (ts_asset s) (ts_oracle_threshold s).
#[export] Instance update_asset : Update ts_asset :=
  fun f s => mkTaskState (ts_task_id s) (ts_owner s) (ts_status s) (ts_reward s) (ts_deadline s) (ts_condition s) (ts_condition_rejection_count s) (ts_keeper s) (ts_claim_ledger s) (ts_net_reward s) (ts_last_ledger s) (ts_oracle_address s) (f (ts_asset s)) (ts_oracle_threshold s).
#[export] Instance update_oracle_threshold : Update ts_oracle_threshold :=
  fun f s => mkTaskState (ts_task_id s) (ts_owner s) (ts_status s) (ts_reward s) (ts_deadline s) (ts_condition s) (ts_condition_rejection_count s) (ts_keeper s) (ts_claim_ledger s) (ts_net_reward s) (ts_last_ledger s) (ts_oracle_address s) (ts_asset s) (f (ts_oracle_threshold s)).

Module TaskFold.

(** One event against the state of a registered task; [None]: not an event of
    a task's life. *)
Definition apply (p : EventPayload.t) (state : TaskState) : option TaskState :=
  match p with
  | EventPayload.TaskClaimed _ keeper' claim_ledger' =>
      Some (state <| ts_status := TaskStatus.Claimed |> <| ts_keeper := Some keeper' |>
                  <| ts_claim_ledger := Some claim_ledger' |>)
  | EventPayload.TaskExecuted _ keeper' net_reward' _ =>
      Some (state <| ts_status := TaskStatus.Executed |> <| ts_keeper := Some keeper' |>
                  <| ts_net_reward := Some net_reward' |>)
  | EventPayload.TaskExpired _ => Some (state <| ts_status := TaskStatus.Expired |>)
  | EventPayload.TaskCancelled _ _ => Some (state <| ts_status := TaskStatus.Cancelled |>)
  | EventPayload.RewardIncreased _ new_reward => Some (state <| ts_reward := new_reward |>)
  | EventPayload.DeadlineExtended _ new_deadline => Some (state <| ts_deadline := new_deadline |>)
  | EventPayload.OraclePriceConditionSet _ oracle asset' threshold =>
      Some (state <| ts_oracle_address := Some oracle |> <| ts_asset := Some asset' |>
                  <| ts_oracle_threshold := Some threshold |>)
  | EventPayload.ConditionNotMet _ _ =>
      Some (state <| ts_condition_rejection_count ::= fun n => saturating_add u64 n 1 |>)
  | _ => None
  end.

(** One iteration of the loop. *)
Definition step (id : Z) (state : option TaskState) (event : IndexedEvent) : option TaskState :=
  match payload event with
  | EventPayload.TaskRegistered _ owner reward deadline condition =>
      Some (mkTaskState id owner TaskStatus.Pending reward deadline condition 0 None None None
              (ie_ledger event) None None None)
  | other =>
      match state with
      | None => None
      | Some st =>
          match apply other st with
          | Some st' => Some (st' <| ts_last_ledger := ie_ledger event |>)
          | None => Some st
          end
      end
  end.

(** [TaskState::fold] *)
Definition fold (id : Z) (history : list IndexedEvent) : option TaskState :=
  foldl (step id) None history.

End TaskFold.

Record KeeperSummary := mkKeeperSummary {
  ks_keeper : string;
  claimed_task_ids : list Z;
  executed_task_ids : list Z;
  total_earned : Z;
  total_withdrawn : Z;
  credited_balance : Z;
}.

Module KeeperFold.

(** The four accumulators of the loop. *)
Record Acc := mkAcc { claimed : list Z; executed : list Z; earned : Z; withdrawn : Z }.

Definition step (acc : Acc) (event : IndexedEvent) : option Acc :=
  match payload event with
  | EventPayload.TaskClaimed task_id _ _ =>
      Some (mkAcc (claimed acc ++ [task_id]) (executed acc) (earned acc) (withdrawn acc))
  | EventPayload.TaskExecuted task_id _ net_reward _ =>
      total ← checked_add i128 (earned acc) net_reward;
      Some (mkAcc (claimed acc) (executed acc ++ [task_id]) total (withdrawn acc))
  | EventPayload.RewardsWithdrawn _ amount =>
      total ← checked_add i128 (withdrawn acc) amount;
      Some (mkAcc (claimed acc) (executed acc) (earned acc) total)
  | _ => Some acc
  end.

Definition loop (events : list IndexedEvent) : option Acc :=
  foldl (fun acc event => acc ≫= fun acc => step acc event) (Some (mkAcc [] [] 0 0)) events.

(** [KeeperSummary::fold] *)
Definition fold (keeper : string) (events : list IndexedEvent) : option KeeperSummary :=
  acc ← loop events;
  credited ← checked_sub i128 (earned acc) (withdrawn acc);
  Some (mkKeeperSummary keeper (claimed acc) (executed acc) (earned acc) (withdrawn acc) credited).

End KeeperFold.

Record AdminConfig := mkAdminConfig {
  ac_admin : option string;
  ac_reward_token : option string;
  ac_fee_bps : option Z;
  ac_paused : option bool;
  ac_min_reward : option Z;
  total_fees_swept : Z;
  current_wasm_hash : option string;
}.

#[export] Instance update_ac_admin : Update ac_admin :=
  fun f s => mkAdminConfig (f (ac_admin s)) (ac_reward_token s) (ac_fee_bps s) (ac_paused s) (ac_min_reward s) (total_fees_swept s) (current_wasm_hash s).
#[export] Instance update_ac_reward_token : Update ac_reward_token :=
  fun f s => mkAdminConfig (ac_admin s) (f (ac_reward_token s)) (ac_fee_bps s) (ac_paused s) (ac_min_reward s) (total_fees_swept s) (current_wasm_hash s).
#[export] Instance update_ac_fee_bps : Update ac_fee_bps :=
  fun f s => mkAdminConfig (ac_admin s) (ac_reward_token s) (f (ac_fee_bps s)) (ac_paused s) (ac_min_reward s) (total_fees_swept s) (current_wasm_hash s).
#[export] Instance update_ac_paused : Update ac_paused :=
  fun f s => mkAdminConfig (ac_admin s) (ac_reward_token s) (ac_fee_bps s) (f (ac_paused s)) (ac_min_reward s) (total_fees_swept s) (current_wasm_hash s).
#[export] Instance update_ac_min_reward : Update ac_min_reward :=
  fun f s => mkAdminConfig (ac_admin s) (ac_reward_token s) (ac_fee_bps s) (ac_paused s) (f (ac_min_reward s)) (total_fees_swept s) (current_wasm_hash s).
#[export] Instance update_total_fees_swept : Update total_fees_swept :=
  fun f s => mkAdminConfig (ac_admin s) (ac_reward_token s) (ac_fee_bps s) (ac_paused s) (ac_min_reward s) (f (total_fees_swept s)) (current_wasm_hash s).
#[export] Instance update_current_wasm_hash : Update current_wasm_hash :=
  fun f s => mkAdminConfig (ac_admin s) (ac_reward_token s) (ac_fee_bps s) (ac_paused s) (ac_min_reward s) (total_fees_swept s) (f (current_wasm_hash s)).

Module ConfigFold.

(** [AdminConfig::default()] *)
Definition unknown : AdminConfig := mkAdminConfig None None None None None 0 None.

(** One iteration of the loop; the sum of swept fees is kept in the record. *)
Definition step (config : AdminConfig) (event : IndexedEvent) : option AdminConfig :=
  match payload event with
  | EventPayload.Initialized admin reward_token fee_bps =>
      Some (config <| ac_admin := Some admin |> <| ac_reward_token := Some reward_token |>
                   <| ac_fee_bps := Some fee_bps |>
                   <| ac_paused ::= fun p => Some (from_option id false p) |>)
  | EventPayload.Paused paused => Some (config <| ac_paused := Some paused |>)
  | EventPayload.FeeUpdated _ new_bps => Some (config <| ac_fee_bps := Some new_bps |>)
  | EventPayload.AdminTransferred _ new_admin => Some (config <| ac_admin := Some new_admin |>)
  | EventPayload.MinRewardUpdated _ new_min => Some (config <| ac_min_reward := Some new_min |>)
  | EventPayload.FeesSwept _ amount _ =>
      swept ← checked_add i128 (total_fees_swept config) amount;
      Some (config <| total_fees_swept := swept |>)
  | EventPayload.Upgraded _ new_wasm_hash =>
      Some (config <| current_wasm_hash := Some new_wasm_hash |>)
  | _ => Some config
  end.

(** [AdminConfig::fold] *)
Definition fold (events : list IndexedEvent) : option AdminConfig :=
  foldl (fun config event => config ≫= fun config => step config event) (Some unknown) events.

End ConfigFold.
