(* ===== verification/IndexerAddress.v ===== *)
(** * Indexer: canonical addresses

    src/indexer/src/address.rs, over the string codec of stellar-strkey as an
    interface. *)

From S2P Require Import Prelude Host IndexerEvents.

(** stellar-strkey: [from_string] and [to_string] of the three kinds of
    address; a muxed account carries a key and an id. *)
Class Strkey := {
  account_from_string : string -> option Bytes;
  account_to_string : Bytes -> string;
  contract_from_string : string -> option Bytes;
  contract_to_string : Bytes -> string;
  muxed_from_string : string -> option (Bytes * Z);
}.

(** The encoders are deterministic and the decoders accept canonical strings
    only. *)
Class LawfulStrkey `{Strkey} : Prop := {
  account_decode s k : account_from_string s = Some k <-> account_to_string k = s;
  contract_decode s k : contract_from_string s = Some k <-> contract_to_string k = s;
  kinds_disjoint s : is_Some (account_from_string s) -> contract_from_string s = None;
}.

Inductive AddressNormalizationError := Invalid (input : string).

Section Normalize.
Context `{Strkey}.

Definition normalize_address (input : string) : AddressNormalizationError + string :=
  match account_from_string input with
  | Some account => inr (account_to_string account)
  | None =>
      match contract_from_string input with
      | Some contract => inr (contract_to_string contract)
      | None =>
          match muxed_from_string input with
          | Some (ed25519, _) => inr (account_to_string ed25519)
          | None => inl (Invalid input)
          end
      end
  end.

(** [normalized_or_as_given] of store.rs *)
Definition normalized_or_as_given (address : string) : string :=
  match normalize_address address with inr a => a | inl _ => address end.

Context `{!LawfulStrkey}.

(** A stored address is its own normal form. *)
Lemma normalize_account k : normalize_address (account_to_string k) = inr (account_to_string k).
Proof. unfold normalize_address. by rewrite (proj2 (account_decode _ k) eq_refl). Qed.

Lemma normalize_contract k : normalize_address (contract_to_string k) = inr (contract_to_string k).
Proof.
  unfold normalize_address. pose proof (proj2 (contract_decode _ k) eq_refl) as Hc.
  destruct (account_from_string _) eqn:Ha; [|by rewrite Hc].
  rewrite (kinds_disjoint _ (ltac:(by rewrite Ha))) in Hc. done.
Qed.

Lemma normalized_twice a : normalized_or_as_given (normalized_or_as_given a) = normalized_or_as_given a.
Proof.
  unfold normalized_or_as_given at 2 3. destruct (normalize_address a) as [|b] eqn:Ha; unfold normalized_or_as_given.
  - by rewrite Ha.
  - unfold normalize_address in Ha. destruct (account_from_string a); [simplify_eq; by rewrite normalize_account|].
    destruct (contract_from_string a); [simplify_eq; by rewrite normalize_contract|].
    destruct (muxed_from_string a) as [[? ?]|]; [simplify_eq; by rewrite normalize_account | done].
Qed.

(** Normalizing is idempotent, leaves canonical addresses alone, and takes a
    muxed account to the account it names: a query for either finds the same
    rows. *)
Theorem normalize_canonical s a :
  normalize_address s = inr a ->
  normalize_address a = inr a /\
  (is_Some (account_from_string s) \/ is_Some (contract_from_string s) -> a = s) /\
  (forall k id, account_from_string s = None -> contract_from_string s = None ->
     muxed_from_string s = Some (k, id) -> a = account_to_string k).
Proof.
  unfold normalize_address at 1. intros Hn.
  destruct (account_from_string s) as [k|] eqn:Ha; [|destruct (contract_from_string s) as [k|] eqn:Hc;
    [|destruct (muxed_from_string s) as [[k i]|] eqn:Hm; [|done]]]; simplify_eq;
    (split; [by auto using normalize_account, normalize_contract|]); split; try naive_solver.
  - intros _. by apply account_decode.
  - intros _. by apply contract_decode.
Qed.
End Normalize.
