(* ===== verification/IndexerReorg.v ===== *)
(** * Indexer: ledger fingerprints

    src/indexer/src/reorg.rs, the part without the database: a ledger's
    fingerprint and how two of them disagree.  [fingerprint] folds FNV-1a over
    the events of the ledger in the order of (tx_hash, event_index). *)

From Stdlib Require Import Sorted Permutation String Ascii.
From stdpp Require Import sorting.
From S2P Require Import Prelude StableSort Host IndexerEvents.

Record LedgerFingerprint := mkLedgerFingerprint {
  lf_ledger : Z;
  lf_event_count : Z;
  lf_digest : Z;
}.

#[export] Instance LedgerFingerprint_eq_dec : EqDecision LedgerFingerprint.
Proof. solve_decision. Defined.

(** [serde_json::to_vec] of a payload. *)
Class ValuesCodec := { values_to_vec : list RawValue -> option Bytes }.

(** ** FNV-1a, 64 bits *)

Definition OFFSET : Z := 0xcbf29ce484222325.
Definition PRIME : Z := 0x00000100000001b3.

Definition byte_value (b : Byte.byte) : Z := Z.of_N (Byte.to_N b).

Definition fnv_fold (acc : Z) (bytes : list Z) : Z :=
  foldl (fun hash byte => (Z.lxor hash byte * PRIME) mod 2 ^ 64) acc bytes.

(** [str::as_bytes] *)
Definition str_bytes (s : string) : list Z := byte_value <$> String.list_byte_of_string s.

(** [to_be_bytes] of a [w]-byte integer, two's complement. *)
Definition to_be_bytes (w : nat) (z : Z) : list Z :=
  (fun i => Z.land (Z.shiftr z (8 * Z.of_nat i)) 255) <$> reverse (seq 0 w).

(** ** Sorting *)

(** [(&a.tx_hash, a.event_index).cmp(&(&b.tx_hash, b.event_index))], as "not
    greater". *)
Definition key_le (a b : RawEvent) : bool :=
  match String.compare (re_tx_hash a) (re_tx_hash b) with
  | Lt => true
  | Gt => false
  | Eq => bool_decide (re_event_index a <= re_event_index b)
  end.

Definition sort_events (l : list RawEvent) : list RawEvent := sort_by key_le l.

(** ** The fingerprint *)

Section Fingerprint.
Context `{ValuesCodec}.

Definition digest_event (digest : Z) (event : RawEvent) : Z :=
  let digest := fnv_fold digest (str_bytes (re_tx_hash event)) in
  let digest := fnv_fold digest (to_be_bytes 4 (re_event_index event)) in
  let digest := fnv_fold digest (to_be_bytes 8 (re_ledger_close_time event)) in
  let digest := foldl (fun d topic => fnv_fold d (str_bytes topic)) digest (re_topics event) in
  match values_to_vec (re_values event) with
  | Some encoded => fnv_fold digest (byte_value <$> encoded)
  | None => digest
  end.

Definition in_ledger (ledger : Z) (events : list RawEvent) : list RawEvent :=
  filter (fun event => re_ledger event = ledger) events.

Definition fingerprint (ledger : Z) (events : list RawEvent) : LedgerFingerprint :=
  let sorted := sort_events (in_ledger ledger events) in
  mkLedgerFingerprint ledger (as_u32 (Z.of_nat (length sorted))) (foldl digest_event OFFSET sorted).
End Fingerprint.

(** ** Disagreements *)

Inductive DiscrepancyKind := EventsDisappeared | EventsAppeared | ContentChanged.

Record Discrepancy := mkDiscrepancy {
  dc_ledger : Z;
  dc_recorded : LedgerFingerprint;
  dc_observed : LedgerFingerprint;
  dc_kind : DiscrepancyKind;
}.

Inductive Observation :=
  | FirstSight (f : LedgerFingerprint)
  | Consistent (f : LedgerFingerprint)
  | Discrepant (d : Discrepancy).

(** The [match] on the two event counts. *)
Definition kind_of (recorded observed : LedgerFingerprint) : DiscrepancyKind :=
  match lf_event_count observed ?= lf_event_count recorded with
  | Lt => EventsDisappeared
  | Gt => EventsAppeared
  | Eq => ContentChanged
  end.

(** ** The sort *)

Abbreviation key_order := (order key_le).

Lemma key_le_trans a b c : key_order a b -> key_order b c -> key_order a c.
Proof.
  unfold order, key_le. intros Hab Hbc.
  destruct (String.compare (re_tx_hash a) (re_tx_hash b)) eqn:E1; try done;
    destruct (String.compare (re_tx_hash b) (re_tx_hash c)) eqn:E2; try done.
  - apply String.compare_eq_iff in E1, E2. rewrite E1, E2, string_compare_refl.
    repeat case_bool_decide; try done; lia.
  - apply String.compare_eq_iff in E1. by rewrite E1, E2.
  - apply String.compare_eq_iff in E2. by rewrite <- E2, E1.
  - by rewrite (string_compare_trans_lt _ _ _ E1 E2).
Qed.

Lemma key_le_total a b : key_le a b = false -> key_order b a.
Proof.
  unfold order, key_le. rewrite (String.compare_antisym (re_tx_hash b)).
  destruct (String.compare (re_tx_hash a) (re_tx_hash b)); cbn; try done.
  repeat case_bool_decide; try done; lia.
Qed.

Lemma key_le_antisym a b :
  key_order a b -> key_order b a -> (re_tx_hash a, re_event_index a) = (re_tx_hash b, re_event_index b).
Proof.
  unfold order, key_le. rewrite (String.compare_antisym (re_tx_hash b)).
  destruct (String.compare (re_tx_hash a) (re_tx_hash b)) eqn:E; cbn; try done.
  apply String.compare_eq_iff in E. repeat case_bool_decide; try done. intros _ _. rewrite E. f_equal. lia.
Qed.

(** Events with distinct keys have one sorted order. *)
Lemma sort_events_unique l1 l2 :
  Permutation l1 l2 -> NoDup ((fun e => (re_tx_hash e, re_event_index e)) <$> l1) ->
  sort_events l1 = sort_events l2.
Proof. apply sort_by_unique; [apply key_le_trans | apply key_le_total | apply key_le_antisym]. Qed.
