(* ===== verification/IndexerProgress.v ===== *)
(** * Indexer: ingestion progress

    src/indexer/src/progress.rs.  Each method is one atomic read-modify-write,
    so interleaved calls are sequences of them. *)

From S2P Require Import Prelude.

(** The sentinel for "not observed yet". *)
Definition UNOBSERVED : Z := 0.

Record Inner := mkInner {
  latest_known_ledger : Z;
  last_ingested_ledger : Z;
  cycles : Z;
}.

#[export] Instance update_latest_known_ledger : Update latest_known_ledger :=
  fun f s => mkInner (f (latest_known_ledger s)) (last_ingested_ledger s) (cycles s).
#[export] Instance update_last_ingested_ledger : Update last_ingested_ledger :=
  fun f s => mkInner (latest_known_ledger s) (f (last_ingested_ledger s)) (cycles s).
#[export] Instance update_cycles : Update cycles :=
  fun f s => mkInner (latest_known_ledger s) (last_ingested_ledger s) (f (cycles s)).

Definition new_progress : Inner := mkInner 0 0 0.

(** [fetch_max], [fetch_add] *)
Definition observe_tip (tip : Z) (p : Inner) : Inner :=
  p <| latest_known_ledger ::= fun v => Z.max v tip |>.
Definition observe_ingested (l : Z) (p : Inner) : Inner :=
  p <| last_ingested_ledger ::= fun v => Z.max v l |>.
Definition observe_cycle (p : Inner) : Inner := p <| cycles ::= fun v => (v + 1) mod 2 ^ 64 |>.

Record ProgressSnapshot := mkProgressSnapshot {
  ps_latest_known_ledger : option Z;
  ps_last_ingested_ledger : option Z;
  ps_cycles : Z;
}.

Definition read_atomic (v : Z) : option Z := if bool_decide (v = UNOBSERVED) then None else Some v.

Definition snapshot (p : Inner) : ProgressSnapshot :=
  mkProgressSnapshot (read_atomic (latest_known_ledger p)) (read_atomic (last_ingested_ledger p))
    (cycles p).

Definition lag_ledgers (s : ProgressSnapshot) : option Z :=
  tip ← ps_latest_known_ledger s;
  ingested ← ps_last_ingested_ledger s;
  Some (saturating_sub u32 tip ingested).

(** ** The lag metric *)

Inductive Observed := Tip (l : Z) | Ingested (l : Z) | Cycle.

Definition observe (p : Inner) (o : Observed) : Inner :=
  match o with
  | Tip l => observe_tip l p
  | Ingested l => observe_ingested l p
  | Cycle => observe_cycle p
  end.

(** The highest ledger of one kind, 0 if there is none. *)
Definition tips (os : list Observed) : list Z := omap (fun o => match o with Tip l => Some l | _ => None end) os.
Definition ingests (os : list Observed) : list Z := omap (fun o => match o with Ingested l => Some l | _ => None end) os.
Definition highest (ls : list Z) : Z := foldr Z.max 0 ls.

Lemma highest_nonneg l : 0 <= highest l.
Proof. unfold highest. induction l; cbn in *; lia. Qed.

Lemma highest_app l1 l2 : highest (l1 ++ l2) = Z.max (highest l1) (highest l2).
Proof. pose proof (highest_nonneg l2). unfold highest in *. induction l1; cbn in *; lia. Qed.

Lemma highest_tips_snoc os o :
  highest (tips (os ++ [o])) = Z.max (highest (tips os)) (match o with Tip l => Z.max l 0 | _ => 0 end).
Proof. unfold tips. rewrite omap_app, highest_app. by destruct o. Qed.

Lemma highest_ingests_snoc os o :
  highest (ingests (os ++ [o])) =
  Z.max (highest (ingests os)) (match o with Ingested l => Z.max l 0 | _ => 0 end).
Proof. unfold ingests. rewrite omap_app, highest_app. by destruct o. Qed.

Lemma observed_max os :
  latest_known_ledger (foldl observe new_progress os) = highest (tips os) /\
  last_ingested_ledger (foldl observe new_progress os) = highest (ingests os).
Proof.
  induction os as [|o os [IH1 IH2]] using rev_ind; [done|].
  rewrite foldl_app, highest_tips_snoc, highest_ingests_snoc.
  pose proof (highest_nonneg (tips os)). pose proof (highest_nonneg (ingests os)).
  destruct o; cbn; rewrite ?IH1, ?IH2; lia.
Qed.

(** Whatever the interleaving, the lag is the highest tip seen minus the
    highest ledger ingested, never negative, and unknown until both are. *)
Theorem lag_exact os :
  Forall (fun l => in_range u32 l) (tips os ++ ingests os) ->
  lag_ledgers (snapshot (foldl observe new_progress os)) =
  if bool_decide (highest (tips os) = 0 \/ highest (ingests os) = 0) then None
  else Some (Z.max 0 (highest (tips os) - highest (ingests os))).
Proof.
  intros Hr. destruct (observed_max os) as [H1 H2].
  assert (forall ls, Forall (fun l => in_range u32 l) ls -> 0 <= highest ls < 2 ^ 32) as Hh.
  { intros ls. unfold in_range, highest; cbn. induction 1; cbn in *; lia. }
  apply Forall_app in Hr as [Ht%Hh Hi%Hh].
  unfold lag_ledgers, snapshot, read_atomic; cbn. rewrite H1, H2. unfold UNOBSERVED.
  repeat case_bool_decide; cbn; try done; try tauto.
  unfold saturating_sub, clamp; cbn. f_equal. lia.
Qed.
