(* ===== verification/IndexerStore.v ===== *)
(** * Indexer: the event store

    src/indexer/src/store.rs: the statements it runs against the tables of
    src/indexer/migrations.  A table is a list of rows in the order of its
    primary key; a SELECT is a filter, INSERT .. ON CONFLICT DO NOTHING leaves
    a conflicting row alone but uses up a number of the AUTOINCREMENT sequence,
    so the cursors have gaps.  Any statement may fail: [io] consumes one bit of
    [faults].  Columns that are only written (timestamps) are left out. *)

From S2P Require Import Prelude Host IndexerEvents IndexerState IndexerAddress IndexerReorg IndexerProgress.

(** serde_json: what is encoded decodes to the same payload. *)
Class JsonCodec := {
  json : Type;
  to_json : EventPayload.t -> option json;
  from_json : json -> option EventPayload.t;
  from_to_json p j : to_json p = Some j -> from_json j = Some p;
}.

(** ** Casts *)

(** [z as i64], [z as u64] *)
Definition as_i64 (z : Z) : Z := (z + 2 ^ 63) mod 2 ^ 64 - 2 ^ 63.
Definition as_u64 (z : Z) : Z := z mod 2 ^ 64.

Lemma as_u64_as_i64 z : in_range u64 z -> as_u64 (as_i64 z) = z.
Proof.
  unfold in_range, as_u64, as_i64; cbn. intros Hz.
  rewrite Zminus_mod_idemp_l. replace (z + 2 ^ 63 - 2 ^ 63) with z by lia.
  apply Z.mod_small. lia.
Qed.

Lemma as_i64_inj a b : in_range u64 a -> in_range u64 b -> as_i64 a = as_i64 b -> a = b.
Proof. intros Ha Hb Hab. rewrite <- (as_u64_as_i64 a), <- (as_u64_as_i64 b) by done. by rewrite Hab. Qed.

Inductive Failure :=
  | Database (context : string)
  | EncodingPayload
  | DecodingPayload
  | ReadingTip
  | FetchingEvents (next : Z)
  | Malformed (e : ParseError)
  | LedgerDiscrepancyError (d : Discrepancy)
  | Mismatched (payload : EventPayload.t)
  | OutOfFuel.

Record Checkpoint := mkCheckpoint { last_ledger : Z; backfill_complete : bool }.

Section Store.
Context `{JsonCodec} `{Strkey}.

(** ** Tables *)

Record Row := mkRow {
  r_cursor : Z;
  r_ledger : Z;
  r_ledger_close_time : Z;
  r_tx_hash : string;
  r_event_index : Z;
  r_event_type : string;
  r_task_id : option Z;
  r_owner_address : option string;
  r_keeper_address : option string;
  r_condition_address : option string;
  r_payload : json;
}.

Record Fingerprint := mkFingerprint { f_event_count : Z; f_digest : Z }.

(** [d_sequence]: the table's row of sqlite_sequence, the last number
    AUTOINCREMENT drew, whether a row took it or a conflict discarded it. *)
Record Db := mkDb {
  d_events : list Row;
  d_sequence : Z;
  d_checkpoint : option Checkpoint;
  d_fingerprints : gmap Z Fingerprint;
}.
#[export] Instance update_d_events : Update d_events :=
  fun f s => mkDb (f (d_events s)) (d_sequence s) (d_checkpoint s) (d_fingerprints s).
#[export] Instance update_d_sequence : Update d_sequence :=
  fun f s => mkDb (d_events s) (f (d_sequence s)) (d_checkpoint s) (d_fingerprints s).
#[export] Instance update_d_checkpoint : Update d_checkpoint :=
  fun f s => mkDb (d_events s) (d_sequence s) (f (d_checkpoint s)) (d_fingerprints s).
#[export] Instance update_d_fingerprints : Update d_fingerprints :=
  fun f s => mkDb (d_events s) (d_sequence s) (d_checkpoint s) (f (d_fingerprints s)).

(** A fresh database, after the migrations. *)
Definition empty_db : Db := mkDb [] 0 None ∅.

(** The process: its database, the faults to come, the events sent to live
    subscribers and the alerts raised (newest first), the ingestion progress,
    and the number of requests the event source has served. *)
Record World := mkWorld {
  db : Db;
  faults : list bool;
  sent : list IndexedEvent;
  alerts : list Discrepancy;
  progress : Inner;
  requests : nat;
}.
#[export] Instance update_db : Update db :=
  fun f s => mkWorld (f (db s)) (faults s) (sent s) (alerts s) (progress s) (requests s).
#[export] Instance update_faults : Update faults :=
  fun f s => mkWorld (db s) (f (faults s)) (sent s) (alerts s) (progress s) (requests s).
#[export] Instance update_sent : Update sent :=
  fun f s => mkWorld (db s) (faults s) (f (sent s)) (alerts s) (progress s) (requests s).
#[export] Instance update_alerts : Update alerts :=
  fun f s => mkWorld (db s) (faults s) (sent s) (f (alerts s)) (progress s) (requests s).
#[export] Instance update_progress : Update progress :=
  fun f s => mkWorld (db s) (faults s) (sent s) (alerts s) (f (progress s)) (requests s).
#[export] Instance update_requests : Update requests :=
  fun f s => mkWorld (db s) (faults s) (sent s) (alerts s) (progress s) (f (requests s)).

Abbreviation IM := (M World Failure).

(** One statement of the pool: the next bit decides whether it goes through. *)
Definition io (context : string) : IM unit := fun w =>
  match faults w with
  | [] => Ok tt w
  | true :: rest => Ok tt (w <| faults := rest |>)
  | false :: rest => Err (Database context) (w <| faults := rest |>)
  end.

Definition query {A} (context : string) (f : Db -> A) : IM A :=
  io context;; gets (fun w => f (db w)).
Definition execute (context : string) (f : Db -> Db) : IM unit :=
  io context;; modify (fun w => w <| db ::= f |>).

(** ** Inserting *)

(** The UNIQUE (tx_hash, event_index) constraint. *)
Definition conflicts (tx_hash : string) (event_index : Z) (row : Row) : bool :=
  bool_decide (r_tx_hash row = tx_hash) && bool_decide (r_event_index row = event_index).

Definition new_row (cursor ledger ledger_close_time : Z) (tx_hash : string) (event_index : Z)
    (payload : EventPayload.t) (encoded : json) : Row :=
  mkRow cursor ledger ledger_close_time tx_hash event_index
    (EventType.as_str (EventPayload.event_type payload))
    (as_i64 <$> EventPayload.task_id payload) (EventPayload.owner payload)
    (EventPayload.keeper payload) (EventPayload.condition payload) encoded.

(** The statement draws its number before the constraint is looked at; at the
    largest one it fails, conflict or not. *)
Definition insert_event (ledger ledger_close_time : Z) (tx_hash : string) (event_index : Z)
    (payload : EventPayload.t) : IM (option IndexedEvent) :=
  encoded ← ok_or (to_json payload) EncodingPayload;
  d ← query "inserting event" id;
  cursor ← ok_or (checked_add i64 (d_sequence d) 1) (Database "inserting event");
  if existsb (conflicts tx_hash event_index) (d_events d) then
    modify (fun w => w <| db := d <| d_sequence := cursor |> |>);;
    mret None
  else
  modify (fun w => w <| db := d
    <| d_events := d_events d ++
         [new_row cursor ledger ledger_close_time tx_hash event_index payload encoded] |>
    <| d_sequence := cursor |> |>);;
  mret (Some (mkIndexedEvent cursor ledger ledger_close_time tx_hash event_index
                (EventPayload.event_type payload) payload)).

(** ** Reading *)

Definition row_to_event (row : Row) : option IndexedEvent :=
  payload ← from_json (r_payload row);
  Some (mkIndexedEvent (r_cursor row) (as_u32 (r_ledger row)) (r_ledger_close_time row)
          (r_tx_hash row) (as_u32 (r_event_index row)) (EventPayload.event_type payload) payload).

(** A query for events, decoded row by row. *)
Definition select (context : string) (p : Row -> bool) : IM (list IndexedEvent) :=
  rows ← query context (fun d => filter p (d_events d));
  ok_or (mapM row_to_event rows) DecodingPayload.

Record EventPage := mkEventPage { p_events : list IndexedEvent; p_next_cursor : option Z }.

(** The WHERE clause of [events_after]. *)
Definition after_clause (after : option Z) (event_type : option EventType.t)
    (address : option string) (row : Row) : bool :=
  bool_decide (r_cursor row > from_option id 0 after) &&
  match event_type with
  | None => true
  | Some ty => bool_decide (r_event_type row = EventType.as_str ty)
  end &&
  match address with
  | None => true
  | Some a => bool_decide (r_owner_address row = Some a) || bool_decide (r_keeper_address row = Some a)
  end.

Definition events_after (after : option Z) (limit : Z) (event_type : option EventType.t)
    (address : option string) : IM EventPage :=
  rows ← query "reading event page" (fun d =>
    take (Z.to_nat (limit + 1))
      (filter (after_clause after event_type (normalized_or_as_given <$> address)) (d_events d)));
  let has_more := bool_decide (Z.of_nat (length rows) > limit) in
  events ← ok_or (mapM row_to_event (take (Z.to_nat limit) rows)) DecodingPayload;
  mret (mkEventPage events (if has_more then cursor <$> list.last events else None)).

Definition of_task (task_id : Z) (row : Row) : bool :=
  bool_decide (r_task_id row = Some (as_i64 task_id)).

Definition task_history (task_id : Z) : IM (list IndexedEvent) :=
  select "reading task history" (of_task task_id).

Definition task_history_bounded (task_id limit : Z) : IM (list IndexedEvent) :=
  rows ← query "reading bounded task history" (fun d =>
    take (Z.to_nat limit) (filter (of_task task_id) (d_events d)));
  ok_or (mapM row_to_event rows) DecodingPayload.

Definition task_state (task_id : Z) : IM (option TaskState) :=
  history ← task_history task_id;
  mret (TaskFold.fold task_id history).

Definition of_keeper (keeper : string) (row : Row) : bool :=
  bool_decide (r_keeper_address row = Some keeper).

Definition keeper_summary (keeper : string) : IM KeeperSummary :=
  let keeper := normalized_or_as_given keeper in
  events ← select "reading keeper events" (of_keeper keeper);
  expect (KeeperFold.fold keeper events).

(** The types [admin_config] asks for. *)
Definition admin_types : list string :=
  ["initialized"; "paused"; "fee_updated"; "admin_transferred"; "min_reward_updated"; "fees_swept";
   "upgraded"]%string.

Definition of_admin (row : Row) : bool := bool_decide (r_event_type row ∈ admin_types).

Definition admin_config : IM AdminConfig :=
  events ← select "reading admin events" of_admin;
  expect (ConfigFold.fold events).

Definition checkpoint : IM (option Checkpoint) :=
  query "reading ingest checkpoint" d_checkpoint.

Definition save_checkpoint (cp : Checkpoint) : IM unit :=
  execute "saving ingest checkpoint" (fun d => d <| d_checkpoint := Some cp |>).
End Store.
