(* ===== verification/IndexerStoreSpec.v ===== *)
(** * Indexer: what the store holds and what its queries return

    The rows against the events they were inserted for, the queries as filters
    of those events, and paging by cursor. *)

From Stdlib Require Import Sorted.
From S2P Require Import Prelude Host IndexerEvents IndexerState IndexerAddress IndexerReorg IndexerProgress IndexerStore.

(** ** Postconditions of fallible code

    [wp m s Q R]: run from [s], [m] returns with [Q] or fails with [R], and does
    not trap. *)

Section Wp.
Context {S E : Type}.

Definition wp {A} (m : M S E A) (s : S) (Q : A -> S -> Prop) (R : S -> Prop) : Prop :=
  match m s with Ok a s' => Q a s' | Err _ s' => R s' | Panic => False end.

Lemma wp_bind {A B} (m : M S E A) (f : A -> M S E B) s Q R :
  wp m s (fun a s' => wp (f a) s' Q R) R -> wp (m ≫= f) s Q R.
Proof. unfold wp, mbind, M_bind. by destruct (m s). Qed.

Lemma wp_ret {A} (a : A) s (Q : A -> S -> Prop) R : Q a s -> wp (mret a) s Q R.
Proof. done. Qed.

Lemma wp_mono {A} (m : M S E A) s (Q Q' : A -> S -> Prop) (R R' : S -> Prop) :
  wp m s Q R -> (forall a s', Q a s' -> Q' a s') -> (forall s', R s' -> R' s') -> wp m s Q' R'.
Proof. unfold wp. destruct (m s); naive_solver. Qed.

Lemma wp_ok_or {A} (o : option A) (x : E) a s (Q : A -> S -> Prop) R :
  o = Some a -> Q a s -> wp (ok_or o x) s Q R.
Proof. by intros ->. Qed.

Lemma wp_modify (f : S -> S) s (Q : unit -> S -> Prop) R :
  Q tt (f s) -> wp (modify f) s Q R.
Proof. done. Qed.

Lemma wp_gets {A} (f : S -> A) s (Q : A -> S -> Prop) R :
  Q (f s) s -> wp (gets f) s Q R.
Proof. done. Qed.
End Wp.

Section StoreSpec.
Context `{JsonCodec} `{Strkey}.
Implicit Types (w : World) (d : Db).

(** ** Rows and the events they hold *)

(** A recognised event: what arrived, and its payload. *)
Definition Entry : Type := RawEvent * EventPayload.t.
Implicit Types (x : Entry) (es : list Entry).

Definition typed_entry x : Prop :=
  in_range u32 (re_ledger x.1) /\ in_range u32 (re_event_index x.1) /\
  (forall id, EventPayload.task_id x.2 = Some id -> in_range u64 id).

Definition key x : string * Z := (re_tx_hash x.1, re_event_index x.1).

Definition row_for (c : Z) x (j : json) : Row :=
  new_row c (re_ledger x.1) (re_ledger_close_time x.1) (re_tx_hash x.1) (re_event_index x.1) x.2 j.

(** The event as it is read back, with its cursor. *)
Definition event_for (c : Z) x : IndexedEvent :=
  mkIndexedEvent c (re_ledger x.1) (re_ledger_close_time x.1) (re_tx_hash x.1) (re_event_index x.1)
    (EventPayload.event_type x.2) x.2.

(** [rows] are the rows of [es], with the cursors [cs]. *)
Fixpoint rows_at (cs : list Z) (rows : list Row) es : Prop :=
  match cs, rows, es with
  | [], [], [] => True
  | c :: cs, row :: rows, x :: es =>
      (exists j, to_json x.2 = Some j /\ row = row_for c x j) /\ typed_entry x /\ rows_at cs rows es
  | _, _, _ => False
  end.

Fixpoint events_at (cs : list Z) es : list IndexedEvent :=
  match cs, es with c :: cs, x :: es => event_for c x :: events_at cs es | _, _ => [] end.

Definition cursors d : list Z := r_cursor <$> d_events d.

(** The cursors given out: ascending, with gaps where an insertion met a row it
    conflicted with. *)
Definition ascending (cs : list Z) (last : Z) : Prop :=
  StronglySorted Z.lt cs /\ Forall (fun c => 0 < c <= last) cs.

(** The store holds exactly [es], in their order. *)
Definition holds d es : Prop :=
  rows_at (cursors d) (d_events d) es /\ ascending (cursors d) (d_sequence d) /\ 0 <= d_sequence d.

(** What is stored: [es] with their cursors. *)
Definition contents d es : list IndexedEvent := events_at (cursors d) es.

Lemma rows_at_length cs rows es : rows_at cs rows es -> length cs = length es.
Proof.
  revert rows es. induction cs as [|c cs IH]; intros [|row rows] [|x es] Hr; try done. cbn.
  f_equal. by eapply IH, Hr.
Qed.

Lemma events_at_length cs es : length cs = length es -> length (events_at cs es) = length es.
Proof. revert es. induction cs as [|c cs IH]; intros [|x es] Hl; try done. cbn in *. f_equal. apply IH. lia. Qed.

Lemma events_at_app cs cs' es es' :
  length cs = length es -> events_at (cs ++ cs') (es ++ es') = events_at cs es ++ events_at cs' es'.
Proof. revert es. induction cs as [|c cs IH]; intros [|x es] Hl; try done. cbn in *. f_equal. apply IH. lia. Qed.

Lemma events_at_cursors cs es : length cs = length es -> cursor <$> events_at cs es = cs.
Proof. revert es. induction cs as [|c cs IH]; intros [|x es] Hl; try done. cbn in *. f_equal. apply IH. lia. Qed.

Lemma holds_length d es : holds d es -> length (cursors d) = length es.
Proof. intros [Hr _]. by eapply rows_at_length. Qed.

Lemma ascending_snoc cs last : ascending cs last -> 0 <= last -> ascending (cs ++ [last + 1]) (last + 1).
Proof.
  intros [Hs Hr] Hlast. split.
  - clear Hlast. induction Hs as [|c cs Hs IH Hc]; cbn; [by repeat constructor|].
    apply list.Forall_cons in Hr as [Hb Hr]. constructor; [by apply IH|]. apply Forall_app. split; [done|].
    repeat constructor. lia.
  - apply Forall_app. split; [|repeat constructor; lia].
    eapply list.Forall_impl; [exact Hr|]. cbn. lia.
Qed.

Lemma ascending_skip cs last last' : ascending cs last -> last <= last' -> ascending cs last'.
Proof.
  intros [Hs Hr] Hl. split; [done|]. eapply list.Forall_impl; [exact Hr|]. cbn. lia.
Qed.

Lemma rows_at_snoc cs rows es c x j :
  rows_at cs rows es -> typed_entry x -> to_json x.2 = Some j ->
  rows_at (cs ++ [c]) (rows ++ [row_for c x j]) (es ++ [x]).
Proof.
  revert rows es. induction cs as [|c' cs IH]; intros [|row rows] [|y es] Hr Hx Hj; try done; cbn in *.
  - split_and!; [|done..]. by exists j.
  - destruct Hr as (Hrow & Hy & Hr). split_and!; [done..|]. by apply IH.
Qed.

Lemma holds_empty : holds empty_db [].
Proof. split; [done|]. split; [|done]. split; constructor. Qed.

(** A number drawn and given to a row, and one drawn in vain. *)
Lemma holds_insert d es x j :
  holds d es -> typed_entry x -> to_json x.2 = Some j ->
  holds (d <| d_events := d_events d ++ [row_for (d_sequence d + 1) x j] |>
           <| d_sequence := d_sequence d + 1 |>) (es ++ [x]).
Proof.
  intros (Hr & Ha & Hp) Hx Hj. unfold holds, cursors in *. cbn. rewrite fmap_app. cbn. split_and!; [|
    by apply ascending_snoc | lia]. by apply rows_at_snoc.
Qed.

Lemma holds_skip d es : holds d es -> holds (d <| d_sequence := d_sequence d + 1 |>) es.
Proof.
  intros (Hr & Ha & Hp). split_and!; [done| |cbn; lia]. eapply ascending_skip; [exact Ha|]. cbn. lia.
Qed.

Lemma rows_at_conflict cs rows es tx idx :
  rows_at cs rows es -> existsb (conflicts tx idx) rows = bool_decide ((tx, idx) ∈ key <$> es).
Proof.
  revert rows es. induction cs as [|c cs IH]; intros [|row rows] [|x es] Hr; try done; cbn in *.
  destruct Hr as ((j & _ & ->) & _ & Hr). rewrite (IH _ _ Hr).
  assert (conflicts tx idx (row_for c x j) = bool_decide ((tx, idx) = key x)) as ->.
  { unfold conflicts, key; cbn. repeat case_bool_decide; cbn; naive_solver. }
  repeat case_bool_decide; cbn; try done; exfalso; set_solver.
Qed.

Lemma row_for_event k x j :
  to_json x.2 = Some j -> typed_entry x -> row_to_event (row_for k x j) = Some (event_for k x).
Proof.
  intros Hj (Hl & Hi & _). unfold row_to_event; cbn. rewrite (from_to_json _ _ Hj); cbn.
  by rewrite !as_u32_id.
Qed.

(** A query whose WHERE clause says [q] of the row's event returns those
    events, oldest first. *)
Lemma rows_filter (p : Row -> bool) (q : IndexedEvent -> bool) cs rows es :
  rows_at cs rows es ->
  (forall c x j, typed_entry x -> p (row_for c x j) = q (event_for c x)) ->
  mapM row_to_event (filter p rows) = Some (filter q (events_at cs es)).
Proof.
  intros Hr Hpq. revert rows es Hr. induction cs as [|c cs IH]; intros [|row rows] [|x es] Hr; try done.
  destruct Hr as ((j & Hj & ->) & Hx & Hr). cbn [events_at]. rewrite !filter_cons, Hpq by done.
  case_decide; [|by apply IH]. cbn. rewrite row_for_event by done. cbn. by rewrite (IH _ _ Hr).
Qed.

Lemma filter_rows_length (p : Row -> bool) (q : IndexedEvent -> bool) cs rows es :
  rows_at cs rows es ->
  (forall c x j, typed_entry x -> p (row_for c x j) = q (event_for c x)) ->
  length (filter p rows) = length (filter q (events_at cs es)).
Proof.
  intros Hr Hpq. revert rows es Hr. induction cs as [|c cs IH]; intros [|row rows] [|x es] Hr; try done.
  destruct Hr as ((j & Hj & ->) & Hx & Hr). cbn [events_at]. rewrite !filter_cons, Hpq by done.
  case_decide; cbn; [f_equal|]; by apply IH.
Qed.

(** ** The queries *)

Definition clause_type (ty : option EventType.t) (p : EventPayload.t) : bool :=
  match ty with None => true | Some ty => bool_decide (EventPayload.event_type p = ty) end.

Definition clause_address (a : option string) (p : EventPayload.t) : bool :=
  match a with
  | None => true
  | Some a => bool_decide (EventPayload.owner p = Some a) || bool_decide (EventPayload.keeper p = Some a)
  end.

Lemma as_str_inj a b : EventType.as_str a = EventType.as_str b -> a = b.
Proof. by destruct a, b. Qed.

Lemma after_clause_spec after ty a c x j :
  typed_entry x ->
  after_clause after ty a (row_for c x j) =
  bool_decide (c > from_option id 0 after) && clause_type ty x.2 && clause_address a x.2.
Proof.
  intros _. unfold after_clause, clause_type, clause_address; cbn.
  destruct ty as [ty|]; [|by destruct a].
  rewrite (bool_decide_ext (EventType.as_str _ = _) (EventPayload.event_type x.2 = ty));
    [by destruct a | split; [apply as_str_inj | by intros ->]].
Qed.

Lemma of_task_spec id c x j :
  in_range u64 id -> typed_entry x ->
  of_task id (row_for c x j) = bool_decide (EventPayload.task_id x.2 = Some id).
Proof.
  intros Hid (_ & _ & Hx). unfold of_task; cbn. apply bool_decide_ext.
  destruct (EventPayload.task_id x.2) as [id'|]; cbn; [|done]. split; [|by intros [= ->]].
  intros [= Heq]. f_equal. apply as_i64_inj; auto.
Qed.

Lemma of_admin_spec c x j :
  of_admin (row_for c x j) = bool_decide (EventPayload.event_type x.2 ∈
    [EventType.Initialized; EventType.Paused; EventType.FeeUpdated; EventType.AdminTransferred;
     EventType.MinRewardUpdated; EventType.FeesSwept; EventType.Upgraded]).
Proof. unfold of_admin; cbn. by destruct (EventPayload.event_type x.2). Qed.

Lemma io_ok ctx w : faults w = [] -> io ctx w = Ok tt w.
Proof. unfold io. by intros ->. Qed.

Lemma query_ok {A} ctx (f : Db -> A) w : faults w = [] -> query ctx f w = Ok (f (db w)) w.
Proof. intros Hf. unfold query, mbind, M_bind. by rewrite io_ok. Qed.

Lemma select_ok ctx p q w es :
  faults w = [] -> holds (db w) es ->
  (forall c x j, typed_entry x -> p (row_for c x j) = q (event_for c x)) ->
  select ctx p w = Ok (filter q (contents (db w) es)) w.
Proof.
  intros Hf [Hr _] Hpq. unfold select, mbind, M_bind. rewrite query_ok by done.
  by rewrite (rows_filter p q _ _ _ Hr Hpq).
Qed.

Lemma task_history_ok id w es :
  faults w = [] -> holds (db w) es -> in_range u64 id ->
  task_history id w =
    Ok (filter (fun e => EventPayload.task_id (payload e) = Some id) (contents (db w) es)) w.
Proof.
  intros Hf Hh Hid. unfold task_history.
  rewrite (select_ok _ _ (fun e => bool_decide (EventPayload.task_id (payload e) = Some id)) _ es Hf Hh)
    by (intros; by apply of_task_spec).
  f_equal. apply list.list_filter_iff. intros e. apply bool_decide_spec.
Qed.
Lemma holds_typed d es : holds d es -> Forall typed_entry es.
Proof.
  intros [Hr _]. revert Hr. generalize (cursors d) as cs. generalize (d_events d) as rows.
  induction es as [|x es IH]; intros [|row rows] [|c cs] Hr; try done. destruct Hr as (_ & Hx & Hr).
  constructor; [done | by eapply IH].
Qed.

End StoreSpec.
