(* ===== verification/IndexerGovernance.v ===== *)
(** * Indexer: governance events

    src/indexer/src/ingest/governance.rs over the tables and views of
    src/indexer/src/schema/governance.sql: events stored once per cursor, the
    lifecycle of a proposal and the votes of an address as views over them.
    The event type and the conversion of numbers to SQL text come from modules
    the crate does not have: an event has the fields the parser reads, the
    conversion is an interface.  Every statement may fail. *)

From Stdlib Require Import Sorted Permutation.
From stdpp Require Import gmap.
From S2P Require Import Prelude StableSort Host IndexerEvents IndexerState IndexerAddress IndexerReorg IndexerProgress IndexerStore.

(** ** Events *)

Inductive GovPayload :=
  | ProposalCreated (proposal_id : Z) (proposer : string) (eta : Z) (action : option string)
  | VoteCast (proposal_id : Z) (voter : string) (support : Z) (voting_power : option Z)
  | ProposalExecuted (proposal_id : Z)
  | ProposalExecutionFailed (proposal_id : Z)
  | ProposalCancelled (proposal_id : Z)
  | OtherPayload.

Record GovEvent := mkGovEvent { g_ledger : Z; g_tx_index : Z; g_event_index : Z; g_payload : GovPayload }.

#[export] Instance GovPayload_eq_dec : EqDecision GovPayload.
Proof. solve_decision. Defined.
#[export] Instance GovEvent_eq_dec : EqDecision GovEvent.
Proof. solve_decision. Defined.

(** ** Tables *)

Definition as_i32 (z : Z) : Z := (z + 2 ^ 31) mod 2 ^ 32 - 2 ^ 31.

(** PRIMARY KEY (ledger, tx_index, event_index) *)
Definition Key : Type := Z * Z * Z.

Record ProposalRow := mkProposalRow { p_proposal_id : Z; p_proposer : string; p_eta : Z; p_action : option string }.
Record VoteRow := mkVoteRow { v_proposal_id : Z; v_voter : string; v_support : Z; v_voting_power : Z }.
Record ExecutionRow := mkExecutionRow { x_proposal_id : Z; x_status : string }.

Record Tables := mkTables {
  governance_proposals : gmap Key ProposalRow;
  governance_votes : gmap Key VoteRow;
  governance_executions : gmap Key ExecutionRow;
}.

Definition no_rows : Tables := mkTables ∅ ∅ ∅.

Record GovDb := mkGovDb { tables : Tables; gov_faults : list bool }.

Inductive IndexerError := Database | BadNumeric.

(** [i128_to_sql], [i128_from_sql], and the text Postgres reads and writes for a
    numeric. *)
Class SqlNumeric := {
  i128_to_sql : Z -> string;
  i128_from_sql : string -> option Z;
  numeric_in : string -> option Z;
  numeric_out : Z -> string;
  numeric_of_i128 z : in_range i128 z -> numeric_in (i128_to_sql z) = Some z;
  i128_of_numeric z : in_range i128 z -> i128_from_sql (numeric_out z) = Some z;
}.

Abbreviation GM := (M GovDb IndexerError).

Definition sql : GM unit := fun s =>
  match gov_faults s with
  | [] => Ok tt s
  | true :: rest => Ok tt (mkGovDb (tables s) rest)
  | false :: rest => Err Database (mkGovDb (tables s) rest)
  end.

(** ON CONFLICT (ledger, tx_index, event_index) DO NOTHING *)
Definition insert_new {R} (k : Key) (r : R) (m : gmap Key R) : gmap Key R :=
  match m !! k with Some _ => m | None => <[k := r]> m end.

Definition on_proposals (f : gmap Key ProposalRow -> gmap Key ProposalRow) (t : Tables) : Tables :=
  mkTables (f (governance_proposals t)) (governance_votes t) (governance_executions t).
Definition on_votes (f : gmap Key VoteRow -> gmap Key VoteRow) (t : Tables) : Tables :=
  mkTables (governance_proposals t) (f (governance_votes t)) (governance_executions t).
Definition on_executions (f : gmap Key ExecutionRow -> gmap Key ExecutionRow) (t : Tables) : Tables :=
  mkTables (governance_proposals t) (governance_votes t) (f (governance_executions t)).

Definition write_rows (f : Tables -> Tables) : GM unit :=
  sql;; modify (fun s => mkGovDb (f (tables s)) (gov_faults s)).

Definition cursor_key (e : GovEvent) : Key := (as_i64 (g_ledger e), as_i64 (g_tx_index e), as_i64 (g_event_index e)).

Section Governance.
Context `{SqlNumeric}.
Implicit Types (e : GovEvent) (es : list GovEvent) (t : Tables).

(** ** Ingestion *)

Definition ingest_event e : GM unit :=
  let c := cursor_key e in
  match g_payload e with
  | ProposalCreated id proposer eta action =>
      write_rows (on_proposals (insert_new c (mkProposalRow (as_i64 id) proposer (as_i64 eta) action)))
  | VoteCast id voter support voting_power =>
      vp ← ok_or (numeric_in (i128_to_sql (default 0 voting_power))) Database;
      write_rows (on_votes (insert_new c (mkVoteRow (as_i64 id) voter (as_i32 support) vp)))
  | ProposalExecuted id => write_rows (on_executions (insert_new c (mkExecutionRow (as_i64 id) "executed")))
  | ProposalExecutionFailed id => write_rows (on_executions (insert_new c (mkExecutionRow (as_i64 id) "failed")))
  | ProposalCancelled id => write_rows (on_executions (insert_new c (mkExecutionRow (as_i64 id) "cancelled")))
  | OtherPayload => mret tt
  end.

(** A caller hands over the stream, event by event, until one fails. *)
Definition ingest_all es : GM unit := for_each es ingest_event.

(** ** Views *)

(** The order of (ledger, tx_index, event_index). *)
Definition key_lt (a b : Key) : bool :=
  let '(l1, t1, i1) := a in
  let '(l2, t2, i2) := b in
  bool_decide (l1 < l2) ||
  (bool_decide (l1 = l2) && (bool_decide (t1 < t2) || (bool_decide (t1 = t2) && bool_decide (i1 < i2)))).

(** DISTINCT ON .. ORDER BY ledger DESC, tx_index DESC, event_index DESC: the
    row with the greatest key. *)
Definition latest {R} (rows : list (Key * R)) : option (Key * R) :=
  foldr (fun x best => match best with Some y => if key_lt y.1 x.1 then Some x else Some y | None => Some x end) None rows.

(** The rows of a proposal. *)
Definition rows_of {R} (id_of : R -> Z) (id : Z) (m : gmap Key R) : list (Key * R) :=
  filter (fun kr => id_of kr.2 = id) (map_to_list m).

Definition with_support (s : Z) (l : list (Key * VoteRow)) : list (Key * VoteRow) :=
  filter (fun kv => v_support kv.2 = s) l.

Definition count {A} (l : list A) : Z := Z.of_nat (length l).
Definition power (l : list (Key * VoteRow)) : Z := list_sum (fun kv => v_voting_power kv.2) l.

(** A row of governance_proposal_lifecycle. *)
Record LifecycleRow := mkLifecycleRow {
  lr_proposal : Key * ProposalRow;
  lr_votes : list (Key * VoteRow);
  lr_execution : option (Key * ExecutionRow);
}.

Definition lifecycle_view t (id : Z) : option LifecycleRow :=
  p ← latest (rows_of p_proposal_id id (governance_proposals t));
  Some (mkLifecycleRow p (rows_of v_proposal_id id (governance_votes t))
    (latest (rows_of x_proposal_id id (governance_executions t)))).

Record ProposalLifecycle := mkProposalLifecycle {
  pl_proposal_id : Z;
  pl_proposer : string;
  pl_eta : Z;
  pl_created_ledger : Z;
  pl_total_votes : Z;
  pl_votes_for : Z;
  pl_votes_against : Z;
  pl_votes_abstain : Z;
  pl_voting_power_for : Z;
  pl_voting_power_against : Z;
  pl_voting_power_abstain : Z;
  pl_status : string;
  pl_execution_ledger : option Z;
}.

Definition key_ledger (k : Key) : Z := as_u32 k.1.1.

(** A numeric column read as text. *)
Definition numeric_column (n : Z) : GM Z := ok_or (i128_from_sql (numeric_out n)) BadNumeric.

Definition proposal_lifecycle (proposal_id : Z) : GM (option ProposalLifecycle) :=
  sql;;
  row ← gets (fun s => lifecycle_view (tables s) (as_i64 proposal_id));
  match row with
  | None => mret None
  | Some (mkLifecycleRow (k, p) votes execution) =>
      power_for ← numeric_column (power (with_support 1 votes));
      power_against ← numeric_column (power (with_support 0 votes));
      power_abstain ← numeric_column (power (with_support 2 votes));
      mret (Some (mkProposalLifecycle (as_u64 (p_proposal_id p)) (p_proposer p) (as_u64 (p_eta p)) (key_ledger k)
        (count votes) (count (with_support 1 votes)) (count (with_support 0 votes)) (count (with_support 2 votes))
        power_for power_against power_abstain
        (from_option (fun x => x_status x.2) "queued"%string execution)
        ((fun x => key_ledger x.1) <$> execution)))
  end.

Record VoterActivityItem := mkVoterActivityItem {
  va_voter : string;
  va_proposal_id : Z;
  va_support : Z;
  va_voting_power : Z;
  va_ledger : Z;
  va_tx_index : Z;
  va_event_index : Z;
  va_proposer : option string;
  va_eta : option Z;
}.

Definition newest_first (a b : Key * VoteRow) : bool := negb (key_lt a.1 b.1).

Definition voter_rows t (voter : string) : list (Key * VoteRow) :=
  sort_by newest_first (filter (fun kv => v_voter kv.2 = voter) (map_to_list (governance_votes t))).

Definition voter_item t (kv : Key * VoteRow) : GM VoterActivityItem :=
  let '((l, tx, i), v) := kv in
  let p := snd <$> latest (rows_of p_proposal_id (v_proposal_id v) (governance_proposals t)) in
  vp ← numeric_column (v_voting_power v);
  mret (mkVoterActivityItem (v_voter v) (as_u64 (v_proposal_id v)) (as_u32 (v_support v)) vp (as_u32 l) (as_u32 tx) (as_u32 i)
    (p_proposer <$> p) (as_u64 ∘ p_eta <$> p)).

(** The items of the rows, in order; the first bad number ends it. *)
Fixpoint voter_items t (rows : list (Key * VoteRow)) : GM (list VoterActivityItem) :=
  match rows with
  | [] => mret []
  | kv :: rows => item ← voter_item t kv; items ← voter_items t rows; mret (item :: items)
  end.

(** LIMIT and OFFSET are refused when they are negative as i64. *)
Definition voter_activity (voter : string) (limit offset : Z) : GM (list VoterActivityItem) :=
  sql;;
  (if bool_decide (as_i64 limit < 0) || bool_decide (as_i64 offset < 0) then fail Database else mret tt);;
  t ← gets tables;
  voter_items t (take (Z.to_nat (as_i64 limit)) (drop (Z.to_nat (as_i64 offset)) (voter_rows t voter))).
End Governance.

(** ** What is stored *)

(** One event per cursor. *)
Definition consistent (es : list GovEvent) : Prop :=
  forall e1 e2, e1 ∈ es -> e2 ∈ es -> cursor_key e1 = cursor_key e2 -> e1 = e2.

Definition typed_payload (p : GovPayload) : Prop :=
  match p with
  | ProposalCreated id _ eta _ => in_range u64 id /\ in_range u64 eta
  | VoteCast id _ support power => in_range u64 id /\ in_range u32 support /\ in_range i128 (default 0 power)
  | ProposalExecuted id | ProposalExecutionFailed id | ProposalCancelled id => in_range u64 id
  | OtherPayload => True
  end.

Definition typed_gov (e : GovEvent) : Prop :=
  in_range u32 (g_ledger e) /\ in_range u32 (g_tx_index e) /\ in_range u32 (g_event_index e) /\ typed_payload (g_payload e).

Definition proposal_row (e : GovEvent) : option ProposalRow :=
  match g_payload e with
  | ProposalCreated id proposer eta action => Some (mkProposalRow (as_i64 id) proposer (as_i64 eta) action)
  | _ => None
  end.
Definition vote_row (e : GovEvent) : option VoteRow :=
  match g_payload e with
  | VoteCast id voter support power => Some (mkVoteRow (as_i64 id) voter (as_i32 support) (default 0 power))
  | _ => None
  end.
Definition execution_row (e : GovEvent) : option ExecutionRow :=
  match g_payload e with
  | ProposalExecuted id => Some (mkExecutionRow (as_i64 id) "executed")
  | ProposalExecutionFailed id => Some (mkExecutionRow (as_i64 id) "failed")
  | ProposalCancelled id => Some (mkExecutionRow (as_i64 id) "cancelled")
  | _ => None
  end.

Definition insert_row {R} (row : GovEvent -> option R) (m : gmap Key R) (e : GovEvent) : gmap Key R :=
  match row e with Some r => insert_new (cursor_key e) r m | None => m end.

Definition record_event (t : Tables) (e : GovEvent) : Tables :=
  mkTables (insert_row proposal_row (governance_proposals t) e) (insert_row vote_row (governance_votes t) e)
    (insert_row execution_row (governance_executions t) e).

Definition tables_of (es : list GovEvent) : Tables := foldl record_event no_rows es.

Lemma tables_of_eq es :
  tables_of es = mkTables (foldl (insert_row proposal_row) ∅ es) (foldl (insert_row vote_row) ∅ es)
    (foldl (insert_row execution_row) ∅ es).
Proof.
  induction es as [|e es IH] using rev_ind; [done|]. unfold tables_of in *. by rewrite !foldl_app, IH.
Qed.

Lemma recorded_lookup {R} (row : GovEvent -> option R) es k r :
  consistent es ->
  foldl (insert_row row) ∅ es !! k = Some r <-> exists e, e ∈ es /\ cursor_key e = k /\ row e = Some r.
Proof.
  revert k r. induction es as [|e es IH] using rev_ind; intros k r Hc.
  { cbn. rewrite lookup_empty. split; [done|]. by intros (e & He%elem_of_nil & _). }
  assert (forall k r, foldl (insert_row row) ∅ es !! k = Some r <-> exists e, e ∈ es /\ cursor_key e = k /\ row e = Some r) as IH'.
  { intros k' r'. apply IH. intros e1 e2 H1 H2. apply Hc; set_solver. }
  rewrite foldl_app. cbn. unfold insert_row at 1, insert_new.
  assert (forall e', e' ∈ es ++ [e] <-> e' ∈ es \/ e' = e) as Hin by set_solver.
  destruct (row e) as [r0|] eqn:Hr0.
  - destruct (foldl (insert_row row) ∅ es !! cursor_key e) as [r1|] eqn:H1.
    + rewrite IH'. split; [intros (e' & ? & ?); exists e'; by rewrite Hin; auto|].
      intros (e' & [He'| ->]%Hin & Hk & Hr); [by exists e'|].
      apply IH' in H1 as (e1 & H1 & Hk1 & Hr1). exists e1.
      assert (e1 = e) as -> by (apply Hc; [apply Hin; by left | apply Hin; by right | done]). done.
    + rewrite fin_maps.lookup_insert. case_decide as Hk.
      * split; [intros [= <-]; exists e; by rewrite Hin; auto|].
        intros (e' & He' & Hk' & Hr). assert (e' = e) as -> by (apply Hc; [done | apply Hin; by right | congruence]).
        congruence.
      * rewrite IH'. split; [intros (e' & ? & ?); exists e'; by rewrite Hin; auto|].
        intros (e' & [He'| ->]%Hin & Hk' & Hr); [by exists e' | done].
  - rewrite IH'. split; [intros (e' & ? & ?); exists e'; by rewrite Hin; auto|].
    intros (e' & [He'| ->]%Hin & Hk & Hr); [by exists e' | congruence].
Qed.

(** Only which events there are matters. *)
Lemma recorded_same {R} (row : GovEvent -> option R) es es' :
  consistent es -> (forall e, e ∈ es' <-> e ∈ es) -> foldl (insert_row row) ∅ es' = foldl (insert_row row) ∅ es.
Proof.
  intros Hc Hs. assert (consistent es') as Hc' by (intros e1 e2 H1%Hs H2%Hs; by apply Hc).
  apply map_eq. intros k. apply option_eq. intros r. rewrite !recorded_lookup by done. by setoid_rewrite Hs.
Qed.

Lemma tables_of_same es es' : consistent es -> (forall e, e ∈ es' <-> e ∈ es) -> tables_of es' = tables_of es.
Proof. intros Hc Hs. rewrite !tables_of_eq. f_equal; by apply recorded_same. Qed.

Definition keyed {R} (row : GovEvent -> option R) (e : GovEvent) : option (Key * R) := pair (cursor_key e) <$> row e.

Lemma NoDup_omap_inj {A B} (f : A -> option B) l :
  NoDup l -> (forall a1 a2 b, a1 ∈ l -> a2 ∈ l -> f a1 = Some b -> f a2 = Some b -> a1 = a2) -> NoDup (omap f l).
Proof.
  induction 1 as [|a l Ha Hl IH]; intros Hinj; [constructor|]. cbn. destruct (f a) as [b|] eqn:Hb; [constructor|].
  - intros (a' & Ha' & Hb')%list_elem_of_omap. assert (a = a') as -> by (eapply Hinj; set_solver). done.
  - apply IH. intros a1 a2 b' H1 H2. apply Hinj; set_solver.
  - apply IH. intros a1 a2 b' H1 H2. apply Hinj; set_solver.
Qed.

(** The rows of a table, one for each event that gives one. *)
Lemma recorded_rows {R} (row : GovEvent -> option R) es :
  consistent es -> map_to_list (foldl (insert_row row) ∅ es) ≡ₚ omap (keyed row) (remove_dups es).
Proof.
  intros Hc. apply NoDup_Permutation.
  - apply NoDup_map_to_list.
  - apply NoDup_omap_inj; [apply NoDup_remove_dups|]. intros a1 a2 [k r] H1 H2 Hr1 Hr2.
    rewrite elem_of_remove_dups in H1, H2.
    unfold keyed in *. destruct (row a1), (row a2); try done.
    unfold fmap, option_fmap, option_map in *. apply Hc; [done..|]. congruence.
  - intros [k r]. rewrite elem_of_map_to_list, recorded_lookup, list_elem_of_omap by done.
    setoid_rewrite elem_of_remove_dups. unfold keyed. split.
    + intros (e & He & <- & Hr). exists e. by rewrite Hr.
    + intros (e & He & Hr). destruct (row e) as [r'|] eqn:Hrow; [|done].
      unfold fmap, option_fmap, option_map in Hr. exists e. injection Hr as Hk <-. split; [done|]. split; [|done].
      by destruct k as [[]], Hk.
Qed.

(** ** Ingestion under faults *)

Section Ingest.
Context `{SqlNumeric}.

Lemma ingest_event_spec e s :
  typed_gov e ->
  (exists fs, ingest_event e s = Ok tt (mkGovDb (record_event (tables s) e) fs) /\ (gov_faults s = [] -> fs = [])) \/
  (gov_faults s <> [] /\ exists fs, ingest_event e s = Err Database (mkGovDb (tables s) fs)).
Proof.
  intros (_ & _ & _ & Hp). destruct s as [[ps vs xs] fs].
  assert (forall f, (exists fs', write_rows f (mkGovDb (mkTables ps vs xs) fs) = Ok tt (mkGovDb (f (mkTables ps vs xs)) fs') /\ (fs = [] -> fs' = [])) \/
    (fs <> [] /\ exists fs', write_rows f (mkGovDb (mkTables ps vs xs) fs) = Err Database (mkGovDb (mkTables ps vs xs) fs'))) as Hw.
  { intros f. unfold write_rows, mbind, M_bind, sql. destruct fs as [|[] fs]; cbn.
    - left. by exists [].
    - left. exists fs. split; [done|]. done.
    - right. split; [done|]. by exists fs. }
  unfold ingest_event, record_event, insert_row, proposal_row, vote_row, execution_row.
  destruct (g_payload e); cbn [typed_payload tables gov_faults governance_proposals governance_votes governance_executions] in *; try apply Hw.
  - unfold mbind, M_bind, ok_or. rewrite numeric_of_i128 by tauto. cbn -[write_rows]. apply Hw.
  - left. by exists fs.
Qed.

(** A delivery records a prefix of the stream, all of it without a fault. *)
Lemma ingest_all_spec es s :
  Forall typed_gov es ->
  exists l fs, l `prefix_of` es /\
    (ingest_all es s = Ok tt (mkGovDb (foldl record_event (tables s) l) fs) /\ l = es /\ (gov_faults s = [] -> fs = []) \/
     ingest_all es s = Err Database (mkGovDb (foldl record_event (tables s) l) fs) /\ gov_faults s <> []).
Proof.
  intros Ht. revert s. induction Ht as [|e es He Hes IH]; intros s.
  { exists [], (gov_faults s). split; [done|]. left. by destruct s. }
  destruct (ingest_event_spec e s He) as [(fs & Hi & Hfs)|(Hf & fs & Hi)].
  - destruct (IH (mkGovDb (record_event (tables s) e) fs)) as (l & fs' & Hl & Hr). exists (e :: l), fs'.
    split; [by apply prefix_cons|]. unfold ingest_all in *. cbn [for_each]. unfold mbind, M_bind. rewrite Hi.
    cbn [tables gov_faults foldl] in *. destruct Hr as [(-> & -> & Hn)|(-> & Hn)]; [left | right]; auto.
  - exists [], fs. split; [apply prefix_nil|]. right. unfold ingest_all. cbn [for_each]. unfold mbind, M_bind.
    by rewrite Hi.
Qed.

(** Deliveries of a stream that fail, one after the other. *)
Definition attempt (es : list GovEvent) (t : Tables) (faults : list bool) : Tables :=
  match ingest_all es (mkGovDb t faults) with Ok _ s | Err _ s => tables s | Panic => t end.

Definition after_attempts (es : list GovEvent) (attempts : list (list bool)) : Tables :=
  foldl (attempt es) no_rows attempts.

Lemma after_attempts_spec es attempts :
  Forall typed_gov es -> exists l, after_attempts es attempts = tables_of l /\ forall e, e ∈ l -> e ∈ es.
Proof.
  intros Ht. induction attempts as [|fs attempts IH] using rev_ind; [exists []; split; [done | set_solver]|].
  destruct IH as (l & Hl & Hin). unfold after_attempts in *. rewrite foldl_app. cbn. rewrite Hl. unfold attempt.
  destruct (ingest_all_spec es (mkGovDb (tables_of l) fs) Ht) as (k & fs' & [k' ->] & Hr).
  exists (l ++ k). split.
  - destruct Hr as [(-> & _)|(-> & _)]; cbn; unfold tables_of; by rewrite foldl_app.
  - set_solver.
Qed.

Lemma ingest_complete es l :
  consistent es -> Forall typed_gov es -> (forall e, e ∈ l -> e ∈ es) ->
  ingest_all es (mkGovDb (tables_of l) []) = Ok tt (mkGovDb (tables_of es) []).
Proof.
  intros Hc Ht Hl. destruct (ingest_all_spec es (mkGovDb (tables_of l) []) Ht) as (k & fs & _ & [(-> & -> & Hfs)|(_ & Hf)]); [|done].
  rewrite Hfs by done. cbn [tables]. do 2 f_equal. transitivity (tables_of (l ++ es)).
  - unfold tables_of. by rewrite foldl_app.
  - apply tables_of_same; [done | set_solver].
Qed.
End Ingest.

(** ** The views *)

Lemma key_lt_spec (a b : Key) :
  key_lt a b = true <->
  a.1.1 < b.1.1 \/ (a.1.1 = b.1.1 /\ (a.1.2 < b.1.2 \/ (a.1.2 = b.1.2 /\ a.2 < b.2))).
Proof.
  destruct a as [[l1 t1] i1], b as [[l2 t2] i2]. unfold key_lt. cbn.
  by rewrite !orb_true_iff, !andb_true_iff, !bool_decide_eq_true, orb_true_iff, andb_true_iff, !bool_decide_eq_true.
Qed.

Lemma key_lt_trans a b c : key_lt a b = true -> key_lt b c = true -> key_lt a c = true.
Proof. rewrite !key_lt_spec. lia. Qed.

Lemma key_lt_total a b : key_lt a b = false -> a = b \/ key_lt b a = true.
Proof.
  intros Hab. destruct (key_lt b a) eqn:Hba; [by right|]. left.
  assert (~ key_lt a b = true) as H1 by congruence. assert (~ key_lt b a = true) as H2 by congruence.
  rewrite key_lt_spec in H1, H2. destruct a as [[]], b as [[]]. cbn in *. f_equal; [f_equal|]; lia.
Qed.

Lemma latest_spec {R} (rows : list (Key * R)) :
  match latest rows with
  | Some x => x ∈ rows /\ forall y, y ∈ rows -> y.1 = x.1 \/ key_lt y.1 x.1 = true
  | None => rows = []
  end.
Proof.
  unfold latest. induction rows as [|x rows IH]; [done|]. cbn.
  destruct (foldr _ None rows) as [y|]; [|subst rows; split; [set_solver|]; intros y ->%list_elem_of_singleton; by left].
  destruct IH as [Hy Hmax]. destruct (key_lt y.1 x.1) eqn:Hlt.
  - split; [set_solver|]. intros z [->|Hz]%elem_of_cons; [by left|]. right.
    destruct (Hmax z Hz) as [->|]; [done | by eapply key_lt_trans].
  - split; [set_solver|]. intros z [->|Hz]%elem_of_cons; [|auto]. apply key_lt_total in Hlt as [->|]; auto.
Qed.

Lemma as_i64_small z : in_range u32 z -> as_i64 z = z.
Proof. unfold in_range, as_i64; cbn. intros. rewrite Z.mod_small; lia. Qed.

Lemma as_u32_as_i32 z : in_range u32 z -> as_u32 (as_i32 z) = z.
Proof.
  unfold in_range, as_u32, as_i32; cbn. intros Hz. rewrite Zminus_mod_idemp_l, Z.mod_small; lia.
Qed.

Lemma as_i32_choice s z : in_range u32 z -> 0 <= s < 3 -> as_i32 z = s <-> z = s.
Proof.
  intros Hz Hs. split; [intros Heq | intros ->].
  - rewrite <- (as_u32_as_i32 z Hz), Heq. unfold as_u32. apply Z.mod_small. lia.
  - unfold as_i32. rewrite Z.mod_small; lia.
Qed.

(** The event of [P] with the greatest cursor. *)
Definition newest (es : list GovEvent) (P : GovEvent -> Prop) (e : GovEvent) : Prop :=
  e ∈ es /\ P e /\ forall e', e' ∈ es -> P e' -> e' = e \/ key_lt (cursor_key e') (cursor_key e) = true.

Definition creates (id : Z) (e : GovEvent) : Prop := exists proposer eta action, g_payload e = ProposalCreated id proposer eta action.

(** What an execution event says of proposal [id]. *)
Definition outcome (id : Z) (e : GovEvent) : option string :=
  match g_payload e with
  | ProposalExecuted i => if decide (i = id) then Some "executed"%string else None
  | ProposalExecutionFailed i => if decide (i = id) then Some "failed"%string else None
  | ProposalCancelled i => if decide (i = id) then Some "cancelled"%string else None
  | _ => None
  end.

Definition is_vote (id : Z) (e : GovEvent) : bool :=
  match g_payload e with VoteCast i _ _ _ => bool_decide (i = id) | _ => false end.
Definition is_choice (id s : Z) (e : GovEvent) : bool :=
  match g_payload e with VoteCast i _ support _ => bool_decide (i = id) && bool_decide (support = s) | _ => false end.
Definition power_of (e : GovEvent) : Z := match g_payload e with VoteCast _ _ _ p => default 0 p | _ => 0 end.

(** The votes of a kind, and the power behind them. *)
Definition tally (es : list GovEvent) (id s : Z) : Z := count (List.filter (is_choice id s) (remove_dups es)).
Definition weight (es : list GovEvent) (id s : Z) : Z := list_sum power_of (List.filter (is_choice id s) (remove_dups es)).

Record lifecycle_of (es : list GovEvent) (id : Z) (l : ProposalLifecycle) : Prop := {
  lo_id : pl_proposal_id l = id;
  lo_created : exists e action, newest es (creates id) e /\ g_ledger e = pl_created_ledger l /\
    g_payload e = ProposalCreated id (pl_proposer l) (pl_eta l) action;
  lo_total : pl_total_votes l = count (List.filter (is_vote id) (remove_dups es));
  lo_counts : pl_votes_for l = tally es id 1 /\ pl_votes_against l = tally es id 0 /\ pl_votes_abstain l = tally es id 2;
  lo_powers : pl_voting_power_for l = weight es id 1 /\ pl_voting_power_against l = weight es id 0 /\
    pl_voting_power_abstain l = weight es id 2;
  lo_status : (pl_status l = "queued"%string /\ pl_execution_ledger l = None /\ forall e, e ∈ es -> outcome id e = None) \/
    exists e, newest es (fun e => is_Some (outcome id e)) e /\ outcome id e = Some (pl_status l) /\
      pl_execution_ledger l = Some (g_ledger e);
}.

Lemma rows_of_elem {R} (id_of : R -> Z) (id : Z) (m : gmap Key R) kr :
  kr ∈ rows_of id_of id m <-> id_of kr.2 = id /\ m !! kr.1 = Some kr.2.
Proof. unfold rows_of. rewrite list_elem_of_filter. destruct kr. by rewrite elem_of_map_to_list. Qed.

Lemma latest_event {R} (row : GovEvent -> option R) (id_of : R -> Z) (id : Z) es (P : GovEvent -> Prop) :
  consistent es -> (forall e, e ∈ es -> P e <-> exists r, row e = Some r /\ id_of r = id) ->
  match latest (rows_of id_of id (foldl (insert_row row) ∅ es)) with
  | Some kr => exists e, newest es P e /\ cursor_key e = kr.1 /\ row e = Some kr.2 /\ id_of kr.2 = id
  | None => forall e, e ∈ es -> ~ P e
  end.
Proof.
  intros Hc HP. pose proof (latest_spec (rows_of id_of id (foldl (insert_row row) ∅ es))) as Hl.
  assert (forall e r, e ∈ es -> row e = Some r -> id_of r = id ->
    (cursor_key e, r) ∈ rows_of id_of id (foldl (insert_row row) ∅ es)) as Hrow.
  { intros e r He Hr Hid. apply rows_of_elem. split; [done|]. apply recorded_lookup; [done|]. by exists e. }
  destruct (latest _) as [[k r]|].
  - destruct Hl as [[Hid Hk]%rows_of_elem Hmax]. cbn in *. apply recorded_lookup in Hk as (e & He & <- & Hr); [|done].
    exists e. split_and!; [|done..]. split_and!; [done | apply HP; by eauto|].
    intros e' He' (r' & Hr' & Hid')%HP; [|done].
    destruct (Hmax _ (Hrow e' r' He' Hr' Hid')) as [Heq|]; [left; by apply Hc | by right].
  - intros e He (r & Hr & Hid)%HP; [|done]. specialize (Hrow e r He Hr Hid). rewrite Hl in Hrow. by apply elem_of_nil in Hrow.
Qed.

Lemma list_sum_view {A B} (f : A -> option B) (P : B -> Prop) `{!forall x, Decision (P x)} (q : A -> bool) g h l :
  (forall a, a ∈ l -> match f a with Some b => (P b <-> q a = true) /\ g b = h a | None => q a = false end) ->
  list_sum g (filter P (omap f l)) = list_sum h (List.filter q l).
Proof.
  induction l as [|a l IH]; intros Hl; [done|]. cbn [omap list_omap List.filter].
  assert (list_sum g (filter P (omap f l)) = list_sum h (List.filter q l)) as IH' by (apply IH; intros; apply Hl; set_solver).
  pose proof (Hl a ltac:(set_solver)) as Ha. destruct (f a) as [b|]; [|by rewrite Ha].
  rewrite filter_cons. destruct Ha as [HP Hg]. case_decide as Hd.
  - apply HP in Hd. rewrite Hd, !list_sum_cons. by rewrite IH', Hg.
  - destruct (q a); [by destruct Hd; apply HP | done].
Qed.

Lemma count_sum {A} (l : list A) : count l = list_sum (fun _ => 1) l.
Proof. unfold count. induction l as [|x l IH]; [done|]. rewrite list_sum_cons. cbn [length]. lia. Qed.

Lemma list_sum_perm_eq {A} (f : A -> Z) l1 l2 : l1 ≡ₚ l2 -> list_sum f l1 = list_sum f l2.
Proof. induction 1; rewrite ?list_sum_cons; lia. Qed.

(** The votes of a proposal, row by row. *)
Lemma votes_sum es id g h :
  consistent es -> Forall typed_gov es -> in_range u64 id ->
  (forall e r, vote_row e = Some r -> g (cursor_key e, r) = h e) ->
  list_sum g (rows_of v_proposal_id (as_i64 id) (governance_votes (tables_of es))) =
    list_sum h (List.filter (is_vote id) (remove_dups es)) /\
  forall s, 0 <= s < 3 ->
    list_sum g (with_support s (rows_of v_proposal_id (as_i64 id) (governance_votes (tables_of es)))) =
    list_sum h (List.filter (is_choice id s) (remove_dups es)).
Proof.
  intros Hc Ht Hid Hg. rewrite tables_of_eq. cbn [governance_votes]. unfold with_support, rows_of. setoid_rewrite list_filter_filter.
  pose proof (recorded_rows vote_row es Hc) as Hp.
  assert (forall e, e ∈ remove_dups es -> typed_gov e) as Hty.
  { intros e He. rewrite elem_of_remove_dups in He. rewrite list.Forall_forall in Ht. by apply Ht. }
  split; [|intros s Hs].
  - rewrite (list_sum_perm_eq _ _ _ (filter_Permutation _ _ _ Hp)). apply list_sum_view. intros e He.
    specialize (Hg e). destruct (Hty e He) as (_ & _ & _ & Hpay). unfold keyed, vote_row, is_vote in *. revert Hg Hpay.
    destruct (g_payload e); try done. intros Hg (Hi & Hsu & _). cbn. rewrite bool_decide_eq_true.
    split; [|by apply Hg]. split; [by apply as_i64_inj | by intros ->].
  - rewrite (list_sum_perm_eq _ _ _ (filter_Permutation _ _ _ Hp)). apply list_sum_view. intros e He.
    specialize (Hg e). destruct (Hty e He) as (_ & _ & _ & Hpay). unfold keyed, vote_row, is_choice in *. revert Hg Hpay.
    destruct (g_payload e); try done. intros Hg (Hi & Hsu & _). cbn. rewrite andb_true_iff, !bool_decide_eq_true.
    rewrite (as_i32_choice s) by done. split; [|by apply Hg].
    split; [intros [-> Hii] | intros [-> ->]; done]. split; [by apply as_i64_inj | done].
Qed.

Lemma creates_row id es :
  Forall typed_gov es -> in_range u64 id ->
  forall e, e ∈ es -> creates id e <-> exists r, proposal_row e = Some r /\ p_proposal_id r = as_i64 id.
Proof.
  intros Ht Hid e He. rewrite list.Forall_forall in Ht. destruct (Ht e He) as (_ & _ & _ & Hp).
  unfold creates, proposal_row. destruct (g_payload e); try (split; [naive_solver | by intros (? & ? & _)]). cbn in Hp. split.
  - intros (? & ? & ? & [= -> -> -> ->]). by eexists.
  - intros (r & [= <-] & Hi). cbn in Hi. apply as_i64_inj in Hi as ->; [by eauto | tauto | done].
Qed.

Lemma outcome_row id es :
  Forall typed_gov es -> in_range u64 id ->
  forall e r, e ∈ es -> execution_row e = Some r -> x_proposal_id r = as_i64 id -> outcome id e = Some (x_status r).
Proof.
  intros Ht Hid e r He. rewrite list.Forall_forall in Ht. destruct (Ht e He) as (_ & _ & _ & Hp).
  unfold execution_row, outcome. destruct (g_payload e); try done; intros [= <-] Hi; cbn in Hp, Hi;
    apply as_i64_inj in Hi as ->; try done; by rewrite decide_True.
Qed.

Lemma outcome_some id es :
  Forall typed_gov es -> in_range u64 id ->
  forall e, e ∈ es -> is_Some (outcome id e) <-> exists r, execution_row e = Some r /\ x_proposal_id r = as_i64 id.
Proof.
  intros Ht Hid e He. split.
  - unfold outcome, execution_row. destruct (g_payload e); try (by intros []);
      (case_decide; [subst; by eexists | by intros []]).
  - intros (r & Hr & Hi). rewrite (outcome_row id es Ht Hid e r He Hr Hi). by eexists.
Qed.

Section Views.
Context `{SqlNumeric} (es : list GovEvent).
Context (Hc : consistent es) (Ht : Forall typed_gov es).

Definition stored : GovDb := mkGovDb (tables_of es) [].

Lemma created_row id :
  in_range u64 id ->
  match latest (rows_of p_proposal_id (as_i64 id) (governance_proposals (tables_of es))) with
  | Some (k, p) => exists e action proposer eta, newest es (creates id) e /\ key_ledger k = g_ledger e /\
      g_payload e = ProposalCreated id proposer eta action /\
      p = mkProposalRow (as_i64 id) proposer (as_i64 eta) action /\ in_range u64 eta
  | None => forall e, e ∈ es -> ~ creates id e
  end.
Proof.
  intros Hid. rewrite tables_of_eq. cbn [governance_proposals].
  pose proof (latest_event proposal_row p_proposal_id (as_i64 id) es (creates id) Hc (creates_row id es Ht Hid)) as Hl.
  destruct (latest _) as [[k p]|]; [|done]. destruct Hl as (e & Hn & Hk & Hr & _). cbn in Hk, Hr.
  pose proof Hn as (He & (proposer & eta & action & Hp) & _). exists e, action, proposer, eta. split; [done|].
  rewrite list.Forall_forall in Ht. destruct (Ht e He) as (Hle & _ & _ & Hty). rewrite Hp in Hty.
  unfold proposal_row in Hr. rewrite Hp in Hr. split_and!; [|done|by injection Hr as <- | apply Hty].
  subst k. unfold key_ledger. cbn. rewrite as_i64_small by done. by apply as_u32_id.
Qed.

(** The powers of a proposal's votes fit their columns. *)
Definition summable (id : Z) : Prop := forall s, 0 <= s < 3 -> in_range i128 (weight es id s).

Lemma lifecycle_exact id :
  in_range u64 id -> summable id ->
  exists r, proposal_lifecycle id stored = Ok r stored /\
    match r with Some l => lifecycle_of es id l | None => forall e, e ∈ es -> ~ creates id e end.
Proof.
  intros Hid Hs. unfold proposal_lifecycle, lifecycle_view, stored, mbind, M_bind. cbn [sql gov_faults gets tables].
  pose proof (created_row id Hid) as Hcr.
  destruct (latest (rows_of p_proposal_id _ _)) as [[k p]|]; cbn; [|by exists None].
  destruct Hcr as (e & action & proposer & eta & Hn & Hk & Hp & -> & Heta).
  pose proof (votes_sum es id (fun kv => v_voting_power kv.2) power_of Hc Ht Hid) as [_ Hpow].
  { intros e' r. unfold vote_row, power_of. destruct (g_payload e'); try done. by intros [= <-]. }
  pose proof (votes_sum es id (fun _ => 1) (fun _ => 1) Hc Ht Hid ltac:(done)) as [Hall Hcnt].
  assert (forall s, 0 <= s < 3 -> forall w, numeric_column (power (with_support s (rows_of v_proposal_id (as_i64 id)
    (governance_votes (tables_of es))))) w = Ok (weight es id s) w) as Hnum.
  { intros s Hs3 w. unfold power. rewrite Hpow by done. fold (weight es id s). unfold numeric_column.
    by rewrite i128_of_numeric by by apply Hs. }
  unfold mbind, M_bind. rewrite !Hnum by lia. unfold mret, M_ret. eexists. split; [reflexivity|].
  rewrite tables_of_eq. cbn [governance_executions].
  pose proof (latest_event execution_row x_proposal_id (as_i64 id) es _ Hc (outcome_some id es Ht Hid)) as Hx.
  split; cbn.
  - by apply as_u64_as_i64.
  - exists e, action. by rewrite Hk, as_u64_as_i64.
  - by rewrite !count_sum, <- Hall, tables_of_eq.
  - unfold tally. rewrite !count_sum, <- !Hcnt by lia. by rewrite tables_of_eq.
  - done.
  - destruct (latest _) as [[kx x]|]; cbn; [right | left].
    + destruct Hx as (ex & Hnx & Hkx & Hrx & Hix). cbn in *. exists ex. split; [done|].
      pose proof Hnx as (Hex & _). split; [by eapply outcome_row|]. subst kx. unfold key_ledger. cbn.
      rewrite list.Forall_forall in Ht. destruct (Ht ex Hex) as (Hle & _).
      rewrite as_i64_small, as_u32_id by done. done.
    + split_and!; [done..|]. intros e' He'. specialize (Hx e' He'). destruct (outcome id e'); [|done].
      destruct Hx. by eexists.
Qed.

(** ** The feed of a voter *)

Definition item_key (i : VoterActivityItem) : Key := (va_ledger i, va_tx_index i, va_event_index i).
Definition newer (a b : VoterActivityItem) : Prop := key_lt (item_key b) (item_key a) = true.

(** An item tells a vote of [voter], with what the newest creation says. *)
Definition tells (voter : string) (i : VoterActivityItem) : Prop :=
  exists e power, e ∈ es /\ item_key i = cursor_key e /\ va_voter i = voter /\
    g_payload e = VoteCast (va_proposal_id i) voter (va_support i) power /\ va_voting_power i = default 0 power /\
    ((va_proposer i = None /\ va_eta i = None /\ forall c, c ∈ es -> ~ creates (va_proposal_id i) c) \/
     exists c proposer eta action, newest es (creates (va_proposal_id i)) c /\
       g_payload c = ProposalCreated (va_proposal_id i) proposer eta action /\
       va_proposer i = Some proposer /\ va_eta i = Some eta).

Lemma newest_vote_trans a b c : order newest_first a b -> order newest_first b c -> order newest_first a c.
Proof.
  unfold order, newest_first. rewrite !negb_true_iff. intros Hab Hbc.
  destruct (key_lt a.1 c.1) eqn:Hac; [|done]. apply key_lt_total in Hab as [Hab|Hab].
  - rewrite Hab in Hac. congruence.
  - rewrite (key_lt_trans _ _ _ Hab Hac) in Hbc. done.
Qed.

Lemma newest_vote_total a b : newest_first a b = false -> order newest_first b a.
Proof.
  unfold order, newest_first. rewrite negb_false_iff, negb_true_iff. intros Hab.
  destruct (key_lt b.1 a.1) eqn:Hba; [|done]. rewrite key_lt_spec in Hab, Hba. lia.
Qed.

Lemma voter_row_elem voter kv :
  kv ∈ voter_rows (tables_of es) voter <->
  exists e, e ∈ es /\ cursor_key e = kv.1 /\ vote_row e = Some kv.2 /\ v_voter kv.2 = voter.
Proof.
  unfold voter_rows. rewrite sort_by_perm, list_elem_of_filter, tables_of_eq. cbn [governance_votes]. destruct kv as [k v].
  rewrite elem_of_map_to_list, recorded_lookup by done. cbn. split; [intros (Hv & e & ?) | intros (e & ? & ? & ? & Hv)].
  - exists e. tauto.
  - split; [done|]. by exists e.
Qed.

Lemma voter_item_ok voter kv :
  kv ∈ voter_rows (tables_of es) voter ->
  exists i, (forall w, voter_item (tables_of es) kv w = Ok i w) /\ item_key i = kv.1 /\ tells voter i.
Proof.
  intros (e & He & Hk & Hr & Hv)%voter_row_elem. pose proof Ht as Hty. rewrite list.Forall_forall in Hty.
  destruct (Hty e He) as (Hl & Htx & Hi & Hp). unfold vote_row in Hr.
  destruct (g_payload e) as [|pid vtr support power| | | |] eqn:Hpay; try done. cbn in Hp. destruct Hp as (Hpid & Hsu & Hpow).
  destruct kv as [[[l tx] i] v]. cbn in Hk, Hr, Hv. injection Hr as <-. cbn in Hv. subst vtr.
  injection Hk as <- <- <-. unfold voter_item, mbind, M_bind, numeric_column, ok_or. cbn [v_voting_power v_proposal_id v_support v_voter].
  rewrite i128_of_numeric by done. eexists. split; [intros w; reflexivity|].
  assert (forall z, in_range u32 z -> as_u32 (as_i64 z) = as_i64 z) as Hcol.
  { intros z Hz. rewrite as_i64_small by done. by apply as_u32_id. }
  unfold item_key. cbn [va_voter va_proposal_id va_support va_voting_power va_ledger va_tx_index va_event_index va_proposer va_eta fst snd].
  rewrite !Hcol by done. split; [done|]. exists e, power.
  unfold item_key, cursor_key. cbn [va_voter va_proposal_id va_support va_voting_power va_ledger va_tx_index va_event_index va_proposer va_eta fst snd].
  rewrite as_u64_as_i64, as_u32_as_i32 by done.
  split_and!; try done. pose proof (created_row pid Hpid) as Hcr.
  destruct (latest (rows_of p_proposal_id _ _)) as [[k p]|].
  - right. destruct Hcr as (c & action & proposer & eta & Hn & _ & Hp & -> & Heta). exists c, proposer, eta, action.
    split_and!; [done..|]. cbn. by rewrite as_u64_as_i64.
  - by left.
Qed.

(** The items of all the rows of a voter, in the order of the feed. *)
Lemma voter_items_ok voter rows :
  (forall kv, kv ∈ rows -> kv ∈ voter_rows (tables_of es) voter) ->
  exists items, Forall2 (fun kv i => (forall w, voter_item (tables_of es) kv w = Ok i w) /\ item_key i = kv.1 /\ tells voter i) rows items.
Proof.
  induction rows as [|kv rows IH]; intros Hin; [by exists []|].
  destruct (voter_item_ok voter kv) as (i & Hi); [set_solver|].
  destruct IH as (items & His); [set_solver|]. exists (i :: items). by constructor.
Qed.

Lemma voter_items_run voter rows items w :
  Forall2 (fun kv i => (forall w, voter_item (tables_of es) kv w = Ok i w) /\ item_key i = kv.1 /\ tells voter i) rows items ->
  voter_items (tables_of es) rows w = Ok items w.
Proof.
  induction 1 as [|kv i rows items [Hi _] Hr IH]; [done|]. cbn [voter_items]. unfold mbind, M_bind. by rewrite Hi, IH.
Qed.

Lemma voter_rows_strict voter :
  StronglySorted (fun a b : Key * VoteRow => key_lt b.1 a.1 = true) (voter_rows (tables_of es) voter).
Proof.
  pose proof (sort_by_sorted newest_first newest_vote_trans newest_vote_total
    (filter (fun kv => v_voter kv.2 = voter) (map_to_list (governance_votes (tables_of es))))) as Hs.
  assert (NoDup (fst <$> voter_rows (tables_of es) voter)) as Hnd.
  { unfold voter_rows. rewrite sort_by_perm. eapply sublist_NoDup; [|apply fmap_sublist, sublist_filter].
    apply NoDup_fst_map_to_list. }
  fold (voter_rows (tables_of es) voter) in Hs. revert Hnd.
  induction Hs as [|x l Hs IH Hx]; intros Hnd; [constructor|]. cbn in Hnd. apply list.NoDup_cons in Hnd as [Hni Hnd].
  constructor; [by apply IH|]. rewrite list.Forall_forall in Hx |- *. intros y Hy. specialize (Hx y Hy).
  unfold order, newest_first in Hx. rewrite negb_true_iff in Hx. apply key_lt_total in Hx as [Heq|]; [|done].
  destruct Hni. rewrite Heq. by apply list_elem_of_fmap_2.
Qed.

Lemma voter_feed voter :
  exists items, StronglySorted newer items /\ Forall (tells voter) items /\
    (forall e id support power, e ∈ es -> g_payload e = VoteCast id voter support power ->
       exists i, i ∈ items /\ item_key i = cursor_key e) /\
    forall limit offset, 0 <= limit < 2 ^ 63 -> 0 <= offset < 2 ^ 63 ->
      voter_activity voter limit offset stored = Ok (take (Z.to_nat limit) (drop (Z.to_nat offset) items)) stored.
Proof.
  destruct (voter_items_ok voter (voter_rows (tables_of es) voter) ltac:(done)) as (items & His).
  exists items. split_and!.
  - pose proof (voter_rows_strict voter) as Hs. revert Hs.
    induction His as [|kv i rows items (_ & Hk & _) His IH]; intros Hs; [constructor|].
    apply StronglySorted_inv in Hs as [Hs Hx]. constructor; [by apply IH|]. clear IH Hs. rewrite list.Forall_forall in Hx. apply list.Forall_forall.
    intros j Hj. apply list_elem_of_lookup in Hj as [n Hn]. destruct (Forall2_lookup_r _ _ _ _ _ His Hn) as (kv' & Hn' & _ & Hk' & _).
    unfold newer. rewrite Hk, Hk'. apply Hx. by eapply list_elem_of_lookup_2.
  - induction His as [|kv i rows items (_ & _ & Hi) His IH]; by constructor.
  - intros e id support power He Hp.
    assert ((cursor_key e, mkVoteRow (as_i64 id) voter (as_i32 support) (default 0 power)) ∈ voter_rows (tables_of es) voter) as Hin.
    { apply voter_row_elem. exists e. unfold vote_row. by rewrite Hp. }
    apply list_elem_of_lookup in Hin as [n Hn]. destruct (Forall2_lookup_l _ _ _ _ _ His Hn) as (i & Hi & _ & Hk & _).
    exists i. split; [by eapply list_elem_of_lookup_2 | done].
  - intros limit offset Hl Ho. unfold voter_activity, stored, mbind, M_bind. cbn [sql gov_faults].
    assert (forall z, 0 <= z < 2 ^ 63 -> as_i64 z = z) as Hid.
    { intros z Hz. unfold as_i64. rewrite Z.mod_small; lia. }
    rewrite !Hid, !bool_decide_false by lia. cbn [orb mret M_ret gets tables].
    apply (voter_items_run voter). by apply Forall2_take, Forall2_drop.
Qed.
End Views.

(** C8: governance events are stored once and read back whole.  After any
    number of deliveries of the stream that fail anywhere, one that does not
    fail leaves the tables as the events alone determine them - in whatever
    order they come and however often.  The lifecycle of a proposal is then its
    newest creation, every vote counted once under its choice with its power,
    and its newest outcome, queued when there is none; and the feed of a voter
    is its votes, every one once and newest first, in pages that cut that list
    and nothing else. *)
Theorem governance_views_exact `{SqlNumeric} es attempts :
  consistent es -> Forall typed_gov es ->
  ingest_all es (mkGovDb (after_attempts es attempts) []) = Ok tt (stored es) /\
  (forall es', (forall e, e ∈ es' <-> e ∈ es) -> ingest_all es' (mkGovDb no_rows []) = Ok tt (stored es)) /\
  (forall id, in_range u64 id -> summable es id ->
     exists r, proposal_lifecycle id (stored es) = Ok r (stored es) /\
       match r with Some l => lifecycle_of es id l | None => forall e, e ∈ es -> ~ creates id e end) /\
  forall voter, exists items, StronglySorted newer items /\ Forall (tells es voter) items /\
    (forall e id support power, e ∈ es -> g_payload e = VoteCast id voter support power ->
       exists i, i ∈ items /\ item_key i = cursor_key e) /\
    forall limit offset, 0 <= limit < 2 ^ 63 -> 0 <= offset < 2 ^ 63 ->
      voter_activity voter limit offset (stored es) = Ok (take (Z.to_nat limit) (drop (Z.to_nat offset) items)) (stored es).
Proof.
  intros Hc Ht. split_and!.
  - destruct (after_attempts_spec es attempts Ht) as (l & -> & Hl). by apply ingest_complete.
  - intros es' Hs. unfold stored. rewrite <- (tables_of_same es es' Hc Hs). apply (ingest_complete es' []).
    + intros e1 e2 H1%Hs H2%Hs. by apply Hc.
    + apply list.Forall_forall. intros e He%Hs. rewrite list.Forall_forall in Ht. by apply Ht.
    + intros e He. by apply elem_of_nil in He.
  - intros id. by apply lifecycle_exact.
  - intros voter. by apply voter_feed.
Qed.
