(* ===== verification/IndexerPaging.v ===== *)
(** * Indexer: paging through the event feed

    [events_after] of src/indexer/src/store.rs followed page by page, the
    cursor of one page the start of the next, while ingestion goes on between
    the requests. *)

From Stdlib Require Import Sorted.
From stdpp Require sorting.
From S2P Require Import Prelude Host IndexerEvents IndexerState IndexerAddress IndexerReorg IndexerProgress IndexerStore IndexerStoreSpec.

Section Paging.
Context `{JsonCodec} `{Strkey}.
Implicit Types (w : World) (es : list Entry).

(** A client's traversal: each page is read from the world of its moment;
    [None]: the worlds ran out, or a read failed. *)
Fixpoint traverse (after : option Z) (limit : Z) (ty : option EventType.t) (a : option string)
    (ws : list World) : option (list IndexedEvent) :=
  match ws with
  | [] => None
  | w :: ws =>
      match events_after after limit ty a w with
      | Ok page _ =>
          match p_next_cursor page with
          | None => Some (p_events page)
          | Some c => rest ← traverse (Some c) limit ty a ws; Some (p_events page ++ rest)
          end
      | _ => None
      end
  end.

Lemma traverse_cons after limit ty a w ws :
  traverse after limit ty a (w :: ws) =
  match events_after after limit ty a w with
  | Ok page _ =>
      match p_next_cursor page with
      | None => Some (p_events page)
      | Some c => rest ← traverse (Some c) limit ty a ws; Some (p_events page ++ rest)
      end
  | _ => None
  end.
Proof. done. Qed.

(** The filter of the feed. *)
Definition wanted (ty : option EventType.t) (a : option string) (e : IndexedEvent) : bool :=
  clause_type ty (payload e) && clause_address (normalized_or_as_given <$> a) (payload e).

Definition wanted_after (c : Z) ty a (e : IndexedEvent) : bool :=
  bool_decide (cursor e > c) && wanted ty a e.

(** ** Cursors *)

Lemma events_at_cursor cs es last :
  length cs = length es -> ascending cs last -> Forall (fun e => 0 < cursor e <= last) (events_at cs es).
Proof.
  intros Hl [_ Hr]. rewrite <- (events_at_cursors cs es Hl) in Hr. rewrite list.Forall_fmap in Hr. exact Hr.
Qed.

Lemma events_at_sorted cs es :
  length cs = length es -> StronglySorted Z.lt cs ->
  StronglySorted (fun a b => cursor a < cursor b) (events_at cs es).
Proof.
  intros Hl Hs. revert es Hl. induction Hs as [|c cs Hs IH Hc]; intros [|x es] Hl; try done; [constructor|].
  cbn in *. assert (length cs = length es) as Hl' by lia. constructor; [by apply IH|].
  rewrite <- (events_at_cursors cs es Hl') in Hc. rewrite list.Forall_fmap in Hc. exact Hc.
Qed.

Lemma contents_cursor d es : holds d es -> Forall (fun e => 0 < cursor e <= d_sequence d) (contents d es).
Proof. intros Hh. apply events_at_cursor; [by apply holds_length | apply Hh]. Qed.

Lemma contents_sorted d es : holds d es -> StronglySorted (fun a b => cursor a < cursor b) (contents d es).
Proof. intros Hh. apply events_at_sorted; [by apply holds_length | apply Hh]. Qed.

Lemma cursor_sorted_filter (q : IndexedEvent -> bool) l :
  StronglySorted (fun a b => cursor a < cursor b) l ->
  StronglySorted (fun a b => cursor a < cursor b) (filter q l).
Proof.
  induction 1 as [|x l Hl IH Hx]; [constructor|]. rewrite filter_cons. case_decide; [|done].
  constructor; [done | by apply Forall_filter].
Qed.

(** What lies after the last event of a page is what the page left out. *)
Lemma after_page l n e :
  StronglySorted (fun a b => cursor a < cursor b) l -> list.last (take n l) = Some e ->
  filter (fun x => bool_decide (cursor x > cursor e) : bool) l = drop n l.
Proof.
  intros Hs. revert n. induction Hs as [|x l Hl IH Hx]; intros [|n] He; try done.
  cbn [take] in He. rewrite list.last_cons in He. cbn [drop].
  destruct (list.last (take n l)) as [e'|] eqn:Hlast; simplify_eq.
  - rewrite filter_cons, (IH n Hlast). case_decide as Hgt; [|done].
    apply bool_decide_unpack in Hgt. assert (e ∈ l) as Hin.
    { apply list.last_Some_elem_of in Hlast. by eapply elem_of_take in Hlast as (? & ? & _); eapply list_elem_of_lookup_2. }
    rewrite list.Forall_forall in Hx. specialize (Hx _ Hin). lia.
  - apply list.last_None in Hlast. rewrite filter_cons. case_decide as Hgt.
    { apply bool_decide_unpack in Hgt. lia. }
    rewrite filter_all; [|eapply list.Forall_impl; [exact Hx|]; cbn; intros y ?; apply bool_decide_pack; lia].
    destruct n; [done|]. by destruct l.
Qed.

(** ** Pages *)

Lemma mapM_take {A B} (f : A -> option B) n l k :
  mapM f l = Some k -> mapM f (take n l) = Some (take n k).
Proof. rewrite !mapM_Some. apply Forall2_take. Qed.

Lemma events_after_ok after limit ty a w es :
  faults w = [] -> holds (db w) es -> 0 <= limit ->
  let found := filter (wanted_after (from_option id 0 after) ty a) (contents (db w) es) in
  events_after after limit ty a w =
  Ok (if bool_decide (Z.of_nat (length found) > limit)
      then mkEventPage (take (Z.to_nat limit) found) (cursor <$> list.last (take (Z.to_nat limit) found))
      else mkEventPage found None) w.
Proof.
  intros Hf [Hr _] Hl found. unfold contents in found. unfold events_after, mbind, M_bind. rewrite query_ok by done.
  set (p := after_clause _ _ _).
  assert (forall c x j, typed_entry x ->
    p (row_for c x j) = wanted_after (from_option id 0 after) ty a (event_for c x)) as Hp.
  { intros c x j Hx. unfold p, wanted_after, wanted. rewrite after_clause_spec by done. cbn.
    by rewrite <- andb_assoc. }
  pose proof (rows_filter _ _ _ _ _ Hr Hp) as Hm. pose proof (filter_rows_length _ _ _ _ _ Hr Hp) as Hn.
  fold found in Hm, Hn. rewrite take_take, Nat.min_l by lia.
  rewrite (mapM_take _ _ _ _ Hm). cbn. rewrite length_take, Hn.
  case_bool_decide; case_bool_decide; try lia; [done|].
  unfold mret, M_ret. by rewrite take_ge by lia.
Qed.

(** ** The traversal *)

Lemma wanted_after_split c c' ty a (l : list IndexedEvent) :
  c <= c' ->
  filter (wanted_after c' ty a) l =
  filter (fun x => bool_decide (cursor x > c') : bool) (filter (wanted_after c ty a) l).
Proof.
  intros Hc. rewrite list_filter_filter. apply list.list_filter_iff. intros e. unfold wanted_after.
  rewrite !andb_True, !bool_decide_spec. intuition lia.
Qed.

Lemma filter_ext_in (p q : IndexedEvent -> bool) l :
  Forall (fun e => p e = q e) l -> filter p l = filter q l.
Proof. induction 1 as [|e l He Hl IH]; [done|]. by rewrite !filter_cons, He, IH. Qed.

(** ** A store that only grows *)

(** A world the client may read, holding the first events of [all]. *)
Definition serves (all : list Entry) w es : Prop := faults w = [] /\ holds (db w) es /\ es `prefix_of` all.

(** From one request to the next: events are appended, and those stored keep
    their cursors. *)
Definition appended (r r' : World * list Entry) : Prop :=
  r.2 `prefix_of` r'.2 /\ cursors (db r.1) `prefix_of` cursors (db r'.1).

(** What was stored is still there, and what was added has larger cursors. *)
Lemma appended_contents w w' es es' :
  holds (db w) es -> holds (db w') es' -> appended (w, es) (w', es') ->
  exists more, contents (db w') es' = contents (db w) es ++ more /\
    forall e e', e ∈ contents (db w) es -> e' ∈ more -> cursor e < cursor e'.
Proof.
  intros Hh Hh' [[es1 Hes] [cs1 Hcs]]. cbn in Hes, Hcs. subst es'. pose proof (contents_sorted _ _ Hh') as Hs.
  unfold contents in *. rewrite Hcs, events_at_app in Hs |- * by by apply holds_length.
  exists (events_at cs1 es1). split; [done|]. intros e e' He He'. by eapply (sorting.StronglySorted_app_1_elem_of _ _ _ e e' Hs).
Qed.

(** What a page leaves of an extended history. *)
Lemma page_rest c ty a w w' es es' n e :
  holds (db w) es -> holds (db w') es' -> appended (w, es) (w', es') ->
  let l := filter (wanted_after c ty a) (contents (db w) es) in
  list.last (take n l) = Some e ->
  filter (wanted_after c ty a) (contents (db w') es') =
  take n l ++ filter (wanted_after (cursor e) ty a) (contents (db w') es').
Proof.
  intros Hh Hh' Happ l He. destruct (appended_contents _ _ _ _ Hh Hh' Happ) as (more & Hmore & Hlt).
  assert (e ∈ l) as Hin.
  { apply list.last_Some_elem_of in He. apply elem_of_take in He as (i & Hi & _).
    by eapply list_elem_of_lookup_2. }
  apply list_elem_of_filter in Hin as [Hc Hin]. unfold wanted_after in Hc.
  apply andb_True in Hc as [Hc%bool_decide_unpack _].
  rewrite Hmore, !list.filter_app, (wanted_after_split c (cursor e)) by lia. fold l.
  rewrite (after_page l n e); [|by apply cursor_sorted_filter, contents_sorted|done].
  rewrite app_assoc, take_drop. f_equal. apply filter_ext_in.
  apply list.Forall_forall. intros e' He'. specialize (Hlt _ _ Hin He').
  unfold wanted_after. by rewrite !bool_decide_true by lia.
Qed.

(** How many stored events a client that got to [c] has behind it. *)
Definition passed (c : Z) (cs : list Z) : nat := length (filter (fun x : Z => x <= c) cs).

Lemma passed_prefix c cs cs' : cs `prefix_of` cs' -> (passed c cs <= passed c cs')%nat.
Proof. intros [more ->]. unfold passed. rewrite list.filter_app, length_app. lia. Qed.

Lemma passed_more c c' cs : c < c' -> c' ∈ cs -> (passed c cs < passed c' cs)%nat.
Proof.
  intros Hc Hin. unfold passed. induction cs as [|x cs IH]; [by apply elem_of_nil in Hin|].
  assert (length (filter (fun x : Z => (x <= c)%Z) cs) <= length (filter (fun x : Z => (x <= c')%Z) cs))%nat as Hle.
  { clear -Hc. induction cs as [|x cs IH]; [done|]. rewrite !filter_cons. repeat case_decide; cbn; lia. }
  rewrite !filter_cons. apply elem_of_cons in Hin as [<-|Hin].
  - rewrite decide_False, decide_True by lia. cbn. lia.
  - specialize (IH Hin). repeat case_decide; cbn; lia.
Qed.

Lemma passed_bound c cs : (passed c cs <= length cs)%nat.
Proof. apply length_filter. Qed.

(** The last event of a full page is stored, after the page's start. *)
Lemma page_cursor c ty a d es n e :
  holds d es -> list.last (take n (filter (wanted_after c ty a) (contents d es))) = Some e ->
  c < cursor e /\ cursor e ∈ cursors d.
Proof.
  intros Hh He. apply list.last_Some_elem_of in He. apply elem_of_take in He as (i & Hi & _).
  apply list_elem_of_lookup_2, list_elem_of_filter in Hi as [Hc Hin]. unfold wanted_after in Hc.
  apply andb_True in Hc as [Hc%bool_decide_unpack _]. split; [lia|].
  rewrite <- (events_at_cursors (cursors d) es) by by apply holds_length. by apply list_elem_of_fmap_2.
Qed.

Lemma Forall2_zip_holds all ws ess w es :
  Forall2 (serves all) ws ess -> (w, es) ∈ zip ws ess -> holds (db w) es.
Proof.
  induction 1 as [|w1 es1 ws ess (_ & Hh & _) Hws IH]; [by intros ?%elem_of_nil|].
  cbn. intros [[= -> ->]|Hin]%elem_of_cons; [done | by apply IH].
Qed.

Lemma traverse_from all limit ty a ws ess (after : option Z) w es :
  0 < limit -> Forall2 (serves all) (w :: ws) (es :: ess) -> StronglySorted appended (zip (w :: ws) (es :: ess)) ->
  (length all <= length ws + passed (from_option id 0%Z after) (cursors (db w)))%nat ->
  exists w' es', (w', es') ∈ zip (w :: ws) (es :: ess) /\ traverse after limit ty a (w :: ws) =
    Some (filter (wanted_after (from_option id 0 after) ty a) (contents (db w') es')).
Proof.
  intros Hlim Hw. revert w es after Hw.
  revert ess. induction ws as [|w2 ws IH]; intros ess w es after Hw Hs Hlen;
    inversion Hw as [|? ? ? ? (Hf & Hh & Hp) Hws]; subst; rewrite traverse_cons;
    rewrite (events_after_ok _ _ _ _ _ es) by (done || lia); set (found := filter _ _);
    (case_bool_decide as Hmore; [|exists w, es; split; [cbn; set_solver | done]]);
    cbn [p_next_cursor p_events];
    (destruct (list.last (take (Z.to_nat limit) found)) as [e|] eqn:Hlast;
      [|apply list.last_None in Hlast; apply (f_equal length) in Hlast; rewrite length_take in Hlast; cbn in Hlast; lia]);
    destruct (page_cursor _ _ _ _ _ _ _ Hh Hlast) as [Hc Hin];
    pose proof (passed_more _ _ _ Hc Hin) as Hstep;
    pose proof (passed_bound (cursor e) (cursors (db w))) as Hbound;
    rewrite (holds_length _ _ Hh) in Hbound; pose proof (prefix_length es all Hp).
  - cbn in Hlen. lia.
  - destruct ess as [|es2 ess]; [by inversion Hws|]. cbn [zip zip_with] in Hs.
    apply StronglySorted_inv in Hs as [Hs Happ]. rewrite list.Forall_forall in Happ.
    assert (appended (w, es) (w2, es2)) as Hfirst by (apply Happ; cbn; set_solver).
    destruct (IH ess w2 es2 (Some (cursor e)) Hws Hs) as (w' & es' & Hin' & Ht).
    { cbn in *. pose proof (passed_prefix (cursor e) _ _ (proj2 Hfirst)). cbn in *. lia. }
    exists w', es'. split; [by right|]. change (cursor <$> Some e) with (Some (cursor e)). cbv beta iota.
    rewrite Ht. cbn. f_equal. symmetry.
    apply (page_rest _ _ _ w w' es es'); [done| |by apply Happ|done].
    eapply Forall2_zip_holds; done.
Qed.

(** C31: paging reads every event exactly once.  Following [next_cursor] from the
    start, with a positive page limit, over a store that only grows between the
    requests, the traversal ends after at most one request more than there are
    events, and the concatenated pages are exactly the wanted events, in the
    order of ingestion, of the store as one of the requests found it: no event
    is skipped at a page boundary or read twice, and events ingested
    mid-traversal do not shift the pages.  The cursors ascend and may have gaps,
    as a page read again leaves them. *)
Theorem paging_exact all limit ty a ws ess :
  0 < limit -> Forall2 (serves all) ws ess -> StronglySorted appended (zip ws ess) ->
  (length all < length ws)%nat ->
  exists w es, (w, es) ∈ zip ws ess /\
    traverse None limit ty a ws = Some (filter (wanted ty a) (contents (db w) es)).
Proof.
  intros Hlim Hw Hs Hlen. destruct ws as [|w ws]; [cbn in Hlen; lia|].
  destruct ess as [|es ess]; [by inversion Hw|]. cbn in Hlen.
  destruct (traverse_from all limit ty a ws ess None w es) as (w' & es' & Hin & Ht); try done; [lia|].
  exists w', es'. split; [done|]. rewrite Ht. f_equal. apply filter_ext_in.
  eapply list.Forall_impl; [apply contents_cursor; by eapply Forall2_zip_holds|]. cbn. intros e He.
  unfold wanted_after. by rewrite bool_decide_true by lia.
Qed.
End Paging.
