(* ===== verification/IndexerTasks.v ===== *)
(** * Indexer: task lookups

    The rest of src/indexer/src/store.rs: task ids by owner and by keeper, whole
    and in pages, and the states of many tasks by one statement; what they answer
    on a database that holds a history. *)

From Stdlib Require Import Sorted Permutation.
From stdpp Require Import sorting.
From S2P Require Import Prelude Host IndexerEvents IndexerState IndexerAddress IndexerReorg IndexerProgress IndexerStore IndexerStoreSpec IndexerPaging.

Section Tasks.
Context `{JsonCodec} `{Strkey}.
Implicit Types (w : World) (d : Db) (es : list Entry).
Abbreviation IM := (M World Failure).

(** ** Task ids *)

(** SELECT DISTINCT task_id .. ORDER BY task_id DESC, in the order of the
    column's type, i64. *)
Definition descending (a b : Z) : Prop := b <= a.
#[local] Instance descending_dec : RelDecision descending := fun a b => decide (b <= a).

Definition distinct_desc (ids : list Z) : list Z := merge_sort descending (remove_dups ids).

Definition ids_where (p : Row -> bool) d : list Z := distinct_desc (omap r_task_id (filter p (d_events d))).

Definition of_owner (owner : string) (row : Row) : bool := bool_decide (r_owner_address row = Some owner).

(** [?2 IS NULL OR task_id < ?2] *)
Definition below (after : option Z) (id : Z) : bool :=
  match after with None => true | Some a => bool_decide (id < as_i64 a) end.

(** The two paged queries, which differ in the column they select by. *)
Definition task_ids_paged (context : string) (p : Row -> bool) (after : option Z) (limit : Z) :
    IM (list Z * option Z) :=
  rows ← query context (fun d =>
    take (Z.to_nat (limit + 1))
      (filter (below after) (ids_where p d)));
  let has_more := bool_decide (Z.of_nat (length rows) > limit) in
  let ids := as_u64 <$> take (Z.to_nat limit) rows in
  mret (ids, if has_more then list.last ids else None).

Definition task_ids_by_owner_paged (owner : string) (after : option Z) (limit : Z) :=
  task_ids_paged "reading task ids by owner" (of_owner (normalized_or_as_given owner)) after limit.

Definition task_ids_by_keeper_paged (keeper : string) (after : option Z) (limit : Z) :=
  task_ids_paged "reading task ids by keeper" (of_keeper (normalized_or_as_given keeper)) after limit.

Definition task_ids_by_owner (owner : string) : IM (list Z) :=
  rows ← query "reading tasks by owner" (ids_where (of_owner (normalized_or_as_given owner)));
  mret (as_u64 <$> rows).

Definition task_ids_by_keeper (keeper : string) : IM (list Z) :=
  rows ← query "reading tasks by keeper" (ids_where (of_keeper (normalized_or_as_given keeper)));
  mret (as_u64 <$> rows).

(** ** Many tasks at once *)

Definition of_tasks (ids : list Z) (row : Row) : bool :=
  match r_task_id row with Some id => bool_decide (id ∈ as_i64 <$> ids) | None => false end.

(** [entry(task_id).or_default().push(event)] *)
Definition push_event (m : gmap Z (list IndexedEvent)) (id : Z) (event : IndexedEvent) :=
  <[id := default [] (m !! id) ++ [event]]> m.

(** One row of the batch; [row.get("task_id")] panics on NULL. *)
Definition group_row (m : gmap Z (list IndexedEvent)) (row : Row) : IM (gmap Z (list IndexedEvent)) :=
  task_id ← expect (r_task_id row);
  event ← ok_or (row_to_event row) DecodingPayload;
  mret (push_event m (as_u64 task_id) event).

Definition task_states (task_ids : list Z) : IM (list TaskState) :=
  match task_ids with
  | [] => mret []
  | _ =>
      rows ← query "batch reading task events" (fun d => filter (of_tasks task_ids) (d_events d));
      events_by_task ← for_fold rows ∅ group_row;
      mret (omap (fun id => events ← events_by_task !! id; TaskFold.fold id events) task_ids)
  end.

(** ** Ids in the store *)

Lemma distinct_desc_spec ids x : x ∈ distinct_desc ids <-> x ∈ ids.
Proof. unfold distinct_desc. by rewrite merge_sort_Permutation, elem_of_remove_dups. Qed.

Lemma distinct_desc_sorted ids : StronglySorted (fun a b => b < a) (distinct_desc ids).
Proof.
  unfold distinct_desc.
  assert (NoDup (merge_sort descending (remove_dups ids))) as Hnd.
  { rewrite merge_sort_Permutation. apply NoDup_remove_dups. }
  assert (StronglySorted descending (merge_sort descending (remove_dups ids))) as Hs.
  { apply StronglySorted_merge_sort; hnf; unfold descending; intros; lia. }
  revert Hnd. induction Hs as [|x l Hs IH Hx]; intros Hnd; [constructor|]. apply list.NoDup_cons in Hnd as [Hnx Hnd].
  constructor; [by apply IH|]. rewrite list.Forall_forall in Hx |- *. intros y Hy. specialize (Hx y Hy).
  assert (x <> y) by (by intros ->). unfold descending in Hx. lia.
Qed.

Lemma distinct_desc_NoDup ids : NoDup (distinct_desc ids).
Proof. unfold distinct_desc. rewrite merge_sort_Permutation. apply NoDup_remove_dups. Qed.

(** The ids of the events [q] selects. *)
Definition ids_of (q : EventPayload.t -> bool) es : list Z :=
  distinct_desc (omap (fun e => if q e.2 then as_i64 <$> EventPayload.task_id e.2 else None) es).

Lemma ids_where_eq p q d es :
  holds d es -> (forall c x j, typed_entry x -> p (row_for c x j) = q x.2) -> ids_where p d = ids_of q es.
Proof.
  intros [Hr _] Hpq. unfold ids_where, ids_of. f_equal. revert Hr.
  generalize (d_events d) as rows, (cursors d) as cs. intros rows. revert es.
  induction rows as [|row rows IH]; intros [|e es] [|c cs] Hr; try done.
  destruct Hr as ((j & _ & ->) & He & Hr). rewrite filter_cons, Hpq by done. cbn [omap list_omap].
  case_decide; destruct (q e.2); try done; cbn; [|by apply (IH _ cs)].
  destruct (EventPayload.task_id e.2); cbn; [f_equal|]; by apply (IH _ cs).
Qed.

Lemma ids_of_spec q es x :
  x ∈ ids_of q es <-> exists e id, e ∈ es /\ q e.2 = true /\ EventPayload.task_id e.2 = Some id /\ x = as_i64 id.
Proof.
  unfold ids_of. rewrite distinct_desc_spec, list_elem_of_omap. split.
  - intros (e & Hin & Hx). destruct (q e.2) eqn:Hq; [|done].
    destruct (EventPayload.task_id e.2) as [id|] eqn:Hid; [|done]. cbn in Hx. simplify_eq. by exists e, id.
  - intros (e & id & Hin & Hq & Hid & ->). exists e. by rewrite Hq, Hid.
Qed.

Lemma ids_of_prefix q es es' x : es `prefix_of` es' -> x ∈ ids_of q es -> x ∈ ids_of q es'.
Proof. intros [more ->]. rewrite !ids_of_spec. intros (e & id & Hin & ?). exists e, id. set_solver. Qed.

(** ** Casts *)

Lemma as_i64_range z : - 2 ^ 63 <= as_i64 z < 2 ^ 63.
Proof. unfold as_i64. pose proof (Z.mod_pos_bound (z + 2 ^ 63) (2 ^ 64)). lia. Qed.

Lemma as_i64_as_u64 x : - 2 ^ 63 <= x < 2 ^ 63 -> as_i64 (as_u64 x) = x.
Proof.
  intros Hx. unfold as_i64, as_u64. rewrite Zplus_mod_idemp_l, Z.mod_small; lia.
Qed.

Lemma ids_of_range q es x : x ∈ ids_of q es -> as_i64 (as_u64 x) = x.
Proof. rewrite ids_of_spec. intros (? & id & _ & _ & _ & ->). apply as_i64_as_u64, as_i64_range. Qed.
End Tasks.

(** ** Paging through the tasks of an address

    The pages of [task_ids_by_owner_paged] and [task_ids_by_keeper_paged] put
    together while ingestion goes on, and the batch [task_states] against
    [task_state] task by task. *)

Section TaskPages.
Context `{JsonCodec} `{Strkey}.
Implicit Types (w : World) (es : list Entry).

Section Paged.
Context (context : string) (p : Row -> bool) (q : EventPayload.t -> bool).
Context (selects : forall c x j, typed_entry x -> p (row_for c x j) = q x.2).

Lemma task_ids_paged_ok after limit w es :
  faults w = [] -> holds (db w) es -> 0 <= limit ->
  let found := filter (below after) (ids_of q es) in
  task_ids_paged context p after limit w =
  Ok (as_u64 <$> take (Z.to_nat limit) found,
      if bool_decide (Z.of_nat (length found) > limit)
      then as_u64 <$> list.last (take (Z.to_nat limit) found) else None) w.
Proof.
  intros Hf Hh Hl found. unfold task_ids_paged, mbind, M_bind. rewrite query_ok by done.
  rewrite (ids_where_eq p q _ _ Hh selects). fold found. unfold mret, M_ret.
  rewrite take_take, Nat.min_l by lia. rewrite length_take, fmap_last.
  repeat case_bool_decide; try done; lia.
Qed.

(** The pages of a client that follows [next_cursor]. *)
Fixpoint traverse_ids (after : option Z) (limit : Z) (ws : list World) : option (list Z) :=
  match ws with
  | [] => None
  | w :: ws =>
      match task_ids_paged context p after limit w with
      | Ok (ids, None) _ => Some ids
      | Ok (ids, Some c) _ => rest ← traverse_ids (Some c) limit ws; Some (ids ++ rest)
      | _ => None
      end
  end.

Lemma filter_ext_bool (f g : Z -> bool) (l : list Z) : (forall x, f x = g x) -> filter f l = filter g l.
Proof. intros Hfg. apply list.list_filter_iff. intros x. by rewrite Hfg. Qed.

(** ** Descending lists cut at a page's end *)

Lemma sorted_filter_desc (f : Z -> bool) l :
  StronglySorted (fun a b => b < a) l -> StronglySorted (fun a b => b < a) (filter f l).
Proof.
  induction 1 as [|x l Hl IH Hx]; [constructor|]. rewrite filter_cons. case_decide; [|done].
  constructor; [done | by apply Forall_filter].
Qed.

Lemma take_last_split l n c :
  StronglySorted (fun a b => b < a) l -> list.last (take n l) = Some c ->
  Forall (fun x => c <= x) (take n l) /\ forall x, x ∈ l -> x ∈ take n l \/ x < c.
Proof.
  intros Hs. revert n. induction Hs as [|x l Hl IH Hx]; intros [|n] Hc; try done.
  cbn [take] in *. rewrite list.last_cons in Hc. rewrite list.Forall_forall in Hx.
  destruct (list.last (take n l)) as [c'|] eqn:Hlast; simplify_eq.
  - destruct (IH n Hlast) as [Hge Hin]. split.
    + constructor; [|done]. assert (c ∈ l) as Hcl.
      { apply list.last_Some_elem_of in Hlast. apply elem_of_take in Hlast as (i & Hi & _).
        by eapply list_elem_of_lookup_2. }
      specialize (Hx _ Hcl). lia.
    + intros y Hy. apply elem_of_cons in Hy as [->|Hy]; [set_solver|]. destruct (Hin y Hy); [set_solver | by right].
  - apply list.last_None in Hlast. rewrite Hlast. split; [by repeat constructor|].
    intros y Hy. apply elem_of_cons in Hy as [->|Hy]; [set_solver|]. right. by apply Hx.
Qed.

Definition under (c x : Z) : bool := bool_decide (x < c).

Lemma filter_below_shrinks after (c : Z) (l : list Z) :
  NoDup l -> c ∈ l -> below after c = true -> (forall x, x < c -> below after x = true) ->
  (length (filter (under c) l) < length (filter (below after) l))%nat.
Proof.
  intros Hnd Hc Hbc Hb.
  assert (c :: filter (under c) l ⊆+ filter (below after) l) as Hsub.
  { apply NoDup_submseteq.
    - constructor; [|by apply list.NoDup_filter]. rewrite list_elem_of_filter. unfold under. rewrite bool_decide_spec. lia.
    - intros x Hx. apply list_elem_of_filter. apply elem_of_cons in Hx as [->|Hx]; [by rewrite Hbc|].
      apply list_elem_of_filter in Hx as [Hlt Hx]. apply bool_decide_unpack in Hlt. by rewrite Hb. }
  apply submseteq_length in Hsub. cbn in Hsub. lia.
Qed.
Lemma sorted_app_desc l1 l2 c :
  StronglySorted (fun a b => b < a) l1 -> StronglySorted (fun a b => b < a) l2 ->
  Forall (fun x => c <= x) l1 -> Forall (fun x => x < c) l2 -> StronglySorted (fun a b => b < a) (l1 ++ l2).
Proof.
  intros H1 H2 Hge Hlt. induction H1 as [|x l1 H1 IH Hx]; [done|]. cbn.
  apply list.Forall_cons in Hge as [Hxc Hge]. constructor; [by apply IH|]. apply Forall_app. split; [done|].
  eapply list.Forall_impl; [exact Hlt|]. cbn. lia.
Qed.

Lemma sorted_take_desc n l :
  StronglySorted (fun a b => b < a) l -> StronglySorted (fun a b => b < a) (take n l).
Proof.
  intros Hs. revert n. induction Hs; intros [|n]; cbn; constructor; [auto|]. by apply Forall_take.
Qed.

Lemma ids_page_sorted after es :
  StronglySorted (fun a b => b < a) (filter (below after) (ids_of q es)).
Proof. apply sorted_filter_desc, distinct_desc_sorted. Qed.

(** ** The traversal *)

Lemma traverse_ids_from all limit ws ess after :
  0 < limit -> Forall2 (serves all) ws ess -> StronglySorted prefix ess ->
  (length (filter (below after) (ids_of q all)) < length ws)%nat ->
  exists k, traverse_ids after limit ws = Some (as_u64 <$> k) /\ StronglySorted (fun a b => b < a) k /\
    (forall x, x ∈ k -> below after x = true /\ x ∈ ids_of q all) /\
    (forall es x, head ess = Some es -> x ∈ ids_of q es -> below after x = true -> x ∈ k).
Proof.
  intros Hlim Hw. revert after.
  induction Hw as [|w es ws ess (Hf & Hh & Hp) Hws IH]; intros after Hs Hlen; cbn in Hlen; [lia|].
  apply StronglySorted_inv in Hs as [Hs Hes]. cbn [traverse_ids].
  rewrite (task_ids_paged_ok _ _ _ es) by (done || lia).
  set (found := filter (below after) (ids_of q es)).
  assert (forall x, x ∈ found <-> below after x = true /\ x ∈ ids_of q es) as Hfound.
  { intros x. unfold found. rewrite list_elem_of_filter. destruct (below after x); naive_solver. }
  case_bool_decide as Hmore.
  2: { exists found. rewrite take_ge by lia. split_and!; [done | apply ids_page_sorted | |].
    - intros x [Hb Hx]%Hfound. split; [done|]. by eapply ids_of_prefix.
    - intros es' x [= <-] Hx Hb. by apply Hfound. }
  destruct (list.last (take (Z.to_nat limit) found)) as [c|] eqn:Hlast; cbn [fmap option_fmap option_map].
  2: { apply list.last_None in Hlast. apply (f_equal length) in Hlast. rewrite length_take in Hlast. cbn in Hlast. lia. }
  destruct (take_last_split found _ c (ids_page_sorted _ _) Hlast) as [Hge Hsplit].
  assert (c ∈ found) as Hcf.
  { apply list.last_Some_elem_of in Hlast. by apply elem_of_take in Hlast as (i & ?%list_elem_of_lookup_2 & _). }
  apply Hfound in Hcf as [Hbc Hc].
  assert (forall x, below (Some (as_u64 c)) x = under c x) as Hbelow.
  { intros x. unfold under. cbn. by rewrite (ids_of_range _ _ _ Hc). }
  assert (forall x, x < c -> below after x = true) as Hdown.
  { intros x Hx. destruct after as [a|]; [|done]. cbn in *. apply bool_decide_eq_true in Hbc. case_bool_decide; [done | lia]. }
  assert (length (filter (below (Some (as_u64 c))) (ids_of q all)) < length ws)%nat as Hfewer.
  { rewrite (filter_ext_bool _ _ _ Hbelow). pose proof (filter_below_shrinks after c (ids_of q all) (distinct_desc_NoDup _)
      (ids_of_prefix _ _ _ _ Hp Hc) Hbc Hdown). lia. }
  destruct (IH (Some (as_u64 c)) Hs Hfewer) as (k & -> & Hk & Hkin & Hkall).
  exists (take (Z.to_nat limit) found ++ k). split_and!.
  - cbn. by rewrite fmap_app.
  - eapply (sorted_app_desc _ _ c); [apply sorted_take_desc, ids_page_sorted | done | done|].
    apply list.Forall_forall. intros x Hx. apply Hkin in Hx as [Hx _]. rewrite Hbelow in Hx. by apply bool_decide_eq_true in Hx.
  - intros x [Hx|Hx]%elem_of_app.
    + apply elem_of_take in Hx as (i & Hx%list_elem_of_lookup_2 & _). apply Hfound in Hx as [? Hx].
      split; [done|]. by eapply ids_of_prefix.
    + apply Hkin in Hx as [Hx ?]. rewrite Hbelow in Hx. apply bool_decide_eq_true in Hx. auto.
  - intros es' x [= <-] Hx Hb. apply elem_of_app. destruct (Hsplit x) as [?|Hlt]; [by apply Hfound | by left|].
    right. destruct ess as [|es2 ess].
    + inversion Hws; subst. cbn in *. lia.
    + apply (Hkall es2); [done| |rewrite Hbelow; by apply bool_decide_eq_true].
      apply list.Forall_cons in Hes as [Hes _]. by eapply ids_of_prefix.
Qed.
End Paged.
(** ** The batch *)

(** The events of one task. *)
Definition events_of (id : Z) (l : list IndexedEvent) : list IndexedEvent :=
  filter (fun e => EventPayload.task_id (payload e) = Some id) l.

Lemma events_of_cons id e l :
  events_of id (e :: l) =
  if decide (EventPayload.task_id (payload e) = Some id) then e :: events_of id l else events_of id l.
Proof. unfold events_of. by rewrite filter_cons. Qed.

Lemma of_tasks_spec ids c x j :
  Forall (in_range u64) ids -> typed_entry x ->
  of_tasks ids (row_for c x j) =
  match EventPayload.task_id x.2 with Some id => bool_decide (id ∈ ids) | None => false end.
Proof.
  intros Hids (_ & _ & Hx). unfold of_tasks; cbn.
  destruct (EventPayload.task_id x.2) as [id|]; cbn; [|done]. apply bool_decide_ext.
  rewrite list_elem_of_fmap. split; [|intros Hin; by exists id].
  intros (id' & Heq & Hin). rewrite list.Forall_forall in Hids.
  by rewrite (as_i64_inj id id' (Hx _ eq_refl) (Hids _ Hin) Heq).
Qed.

Lemma push_event_lookup m id e id' :
  default [] (push_event m id e !! id') = default [] (m !! id') ++ (if decide (id = id') then [e] else []).
Proof.
  unfold push_event. rewrite fin_maps.lookup_insert. case_decide; subst; [done|]. by rewrite app_nil_r.
Qed.

Lemma group_row_ok m k x j id w :
  EventPayload.task_id x.2 = Some id -> to_json x.2 = Some j -> typed_entry x ->
  group_row m (row_for k x j) w = Ok (push_event m id (event_for k x)) w.
Proof.
  intros Hid Hj Hx. unfold group_row, mbind, M_bind.
  change (r_task_id (row_for k x j)) with (as_i64 <$> EventPayload.task_id x.2).
  rewrite Hid. cbn -[row_to_event row_for]. rewrite row_for_event by done. cbn.
  destruct Hx as (_ & _ & Hid64). by rewrite as_u64_as_i64 by auto.
Qed.

Lemma group_rows ids cs rows es m w :
  Forall (in_range u64) ids -> rows_at cs rows es ->
  exists m', for_fold (filter (of_tasks ids) rows) m group_row w = Ok m' w /\
    forall id, id ∈ ids -> default [] (m' !! id) = default [] (m !! id) ++ events_of id (events_at cs es).
Proof.
  intros Hids. revert cs es m. induction rows as [|row rows IH]; intros [|k cs] [|x es] m Hr; try done.
  - exists m. split; [done|]. intros id _. by rewrite app_nil_r.
  - destruct Hr as ((j & Hj & ->) & Hx & Hr). rewrite filter_cons, of_tasks_spec by done.
    destruct (EventPayload.task_id x.2) as [id|] eqn:Hid; [case_bool_decide as Hin|].
    + rewrite decide_True by done. cbn [for_fold]. unfold mbind, M_bind. rewrite (group_row_ok _ _ _ _ id) by done.
      destruct (IH _ _ (push_event m id (event_for k x)) Hr) as (m' & -> & Hm'). exists m'. split; [done|].
      intros id' Hin'. rewrite (Hm' _ Hin'), push_event_lookup, <- app_assoc. f_equal.
      cbn [events_at]. rewrite events_of_cons. cbn [payload event_for]. rewrite Hid.
      repeat case_decide; naive_solver.
    + rewrite decide_False by (by intros []). destruct (IH _ _ m Hr) as (m' & -> & Hm'). exists m'. split; [done|].
      intros id' Hin'. rewrite (Hm' _ Hin'). f_equal. cbn [events_at]. rewrite events_of_cons.
      cbn [payload event_for]. rewrite Hid, decide_False; [done | naive_solver].
    + rewrite decide_False by (by intros []). destruct (IH _ _ m Hr) as (m' & -> & Hm'). exists m'. split; [done|].
      intros id' Hin'. rewrite (Hm' _ Hin'). f_equal. cbn [events_at]. rewrite events_of_cons.
      cbn [payload event_for]. by rewrite Hid, decide_False.
Qed.

(** What the store knows of task [id]: a fold looks at no cursor, so any will
    do. *)
Definition state_in es (id : Z) : option TaskState :=
  TaskFold.fold id (events_of id (event_for 0 <$> es)).

Lemma fold_uncursored id cs es :
  length cs = length es -> TaskFold.fold id (events_of id (events_at cs es)) = state_in es id.
Proof.
  unfold state_in, TaskFold.fold. generalize (None : option TaskState) as acc. revert es.
  induction cs as [|c cs IH]; intros [|x es] acc Hl; try done. cbn [events_at fmap list_fmap].
  rewrite !events_of_cons. cbn [payload event_for]. cbn in Hl. case_decide; cbn [foldl]; apply IH; lia.
Qed.

Lemma fold_default (m : gmap Z (list IndexedEvent)) id :
  (events ← m !! id; TaskFold.fold id events) = TaskFold.fold id (default [] (m !! id)).
Proof. by destruct (m !! id). Qed.

Lemma task_states_ok ids w es :
  faults w = [] -> holds (db w) es -> Forall (in_range u64) ids ->
  task_states ids w = Ok (omap (state_in es) ids) w.
Proof.
  intros Hf Hh Hids. pose proof Hh as [Hr _]. unfold task_states. destruct ids as [|id ids]; [done|].
  set (l := id :: ids) in *. unfold mbind, M_bind. rewrite query_ok by done.
  destruct (group_rows l (cursors (db w)) (d_events (db w)) es ∅ w Hids Hr) as (m & -> & Hm).
  unfold mret, M_ret. f_equal. clearbody l. induction l as [|i l IH]; [done|]. cbn.
  rewrite fold_default, Hm by set_solver. rewrite lookup_empty. cbn [from_option app].
  rewrite fold_uncursored by by apply holds_length.
  rewrite IH; [done | by apply list.Forall_cons in Hids as [_ ?] | intros i' ?; apply Hm; set_solver].
Qed.
End TaskPages.
