(* ===== verification/IndexerIngest.v ===== *)
(** * Indexer: ingestion

    src/indexer/src/ingest/mod.rs ([ingest_batch]), the database half of
    reorg.rs ([observe]) and the walk of backfill.rs ([run_to_tip]), over the
    event source of rpc.rs as an interface. *)

From stdpp Require Import sorting.
From S2P Require Import Prelude Host IndexerEvents IndexerState IndexerAddress IndexerReorg IndexerProgress IndexerStore.

Record IngestOutcome := mkIngestOutcome { stored : Z; duplicates : Z; unrecognised : Z }.

Record BackfillReport := mkBackfillReport {
  b_stored : Z;
  b_duplicates : Z;
  b_unrecognised : Z;
  b_pages : Z;
  b_last_ledger : Z;
}.

(** rpc.rs's [EventPage] *)
Record SourcePage := mkSourcePage { sp_events : list RawEvent; latest_ledger_scanned : Z }.

(** The trait [EventSource]; [None] is a failed request.  Answers depend on how
    many requests were served before, so a source may change between them. *)
Class EventSource := {
  get_events : nat -> string -> Z -> Z -> option SourcePage;
  latest_ledger : nat -> option Z;
}.

Section Ingest.
Context `{JsonCodec} `{ValuesCodec}.
Abbreviation IM := (M World Failure).

(** ** Batches *)

(** [parse_event(event)?] *)
Definition parsed_event (event : RawEvent) : Failure + option EventPayload.t :=
  match parse_event event with inl e => inl (Malformed e) | inr p => inr p end.

(** One iteration of [ingest_batch]. *)
Definition ingest_one (outcome : IngestOutcome) (event : RawEvent) : IM IngestOutcome :=
  parsed ← lift (parsed_event event);
  match parsed with
  | None => mret (mkIngestOutcome (stored outcome) (duplicates outcome) (unrecognised outcome + 1))
  | Some payload =>
      result ← insert_event (re_ledger event) (re_ledger_close_time event) (re_tx_hash event)
                 (re_event_index event) payload;
      match result with
      | Some indexed =>
          modify (fun w => w <| sent ::= cons indexed |>);;
          mret (mkIngestOutcome (stored outcome + 1) (duplicates outcome) (unrecognised outcome))
      | None =>
          mret (mkIngestOutcome (stored outcome) (duplicates outcome + 1) (unrecognised outcome))
      end
  end.

Definition ingest_batch (raw : list RawEvent) : IM IngestOutcome :=
  for_fold raw (mkIngestOutcome 0 0 0) ingest_one.

(** ** Re-observed ledgers *)

(** [ReorgDetector::observe] *)
Definition observe (ledger : Z) (events : list RawEvent) : IM Observation :=
  let observed := fingerprint ledger events in
  existing ← query "reading the recorded ledger fingerprint" (fun d => d_fingerprints d !! ledger);
  match existing with
  | None =>
      execute "recording the ledger fingerprint" (fun d => d <| d_fingerprints ::= fun m =>
        match m !! ledger with
        | Some _ => m
        | None => <[ledger := mkFingerprint (lf_event_count observed) (as_i64 (lf_digest observed))]> m
        end |>);;
      mret (FirstSight observed)
  | Some row =>
      let recorded := mkLedgerFingerprint ledger (as_u32 (f_event_count row)) (as_u64 (f_digest row)) in
      if decide (recorded = observed) then mret (Consistent observed)
      else
        let discrepancy := mkDiscrepancy ledger recorded observed (kind_of recorded observed) in
        modify (fun w => w <| alerts ::= cons discrepancy |>);;
        mret (Discrepant discrepancy)
  end.

(** [ReorgDetector::recorded] *)
Definition recorded (ledger : Z) : IM (option LedgerFingerprint) :=
  row ← query "reading the recorded ledger fingerprint" (fun d => d_fingerprints d !! ledger);
  mret ((fun r => mkLedgerFingerprint ledger (as_u32 (f_event_count r)) (as_u64 (f_digest r))) <$> row).

(** [Vec::dedup] *)
Fixpoint dedup (l : list Z) : list Z :=
  match l with
  | x :: (y :: _) as l' => if bool_decide (x = y) then dedup l' else x :: dedup l'
  | _ => l
  end.

Definition ledgers_of (events : list RawEvent) : list Z := dedup (merge_sort Z.le (re_ledger <$> events)).

Definition check_page (events : list RawEvent) : IM unit :=
  for_each (ledgers_of events) (fun ledger =>
    observation ← observe ledger events;
    match observation with
    | Discrepant discrepancy => fail (LedgerDiscrepancyError discrepancy)
    | _ => mret tt
    end).

(** ** The walk *)

Section Backfill.
Context `{EventSource} (contract_id : string) (page_size : Z).

(** [Backfiller::new] keeps a positive page size. *)
Definition new_page_size (page_size : Z) : Z := Z.max page_size 1.

(** A request to the source. *)
Definition request {A} (f : nat -> option A) (x : Failure) : IM A :=
  n ← gets requests;
  modify (fun w => w <| requests ::= S |>);;
  ok_or (f n) x.

Definition absorb (report : BackfillReport) (outcome : IngestOutcome) : BackfillReport :=
  mkBackfillReport (b_stored report + stored outcome) (b_duplicates report + duplicates outcome)
    (b_unrecognised report + unrecognised outcome) (b_pages report + 1) (b_last_ledger report).

Definition with_last_ledger (l : Z) (report : BackfillReport) : BackfillReport :=
  mkBackfillReport (b_stored report) (b_duplicates report) (b_unrecognised report) (b_pages report) l.

Definition resume_ledger (configured_start : Z) : IM Z :=
  cp ← checkpoint;
  mret (match cp with
        | Some cp => saturating_add u32 (last_ledger cp) 1
        | None => configured_start
        end).

(** One iteration of the loop: the report so far and where to go on. *)
Definition walk_page (next tip : Z) (report : BackfillReport) : IM (BackfillReport * Z) :=
  page ← request (fun n => get_events n contract_id next page_size) (FetchingEvents next);
  check_page (sp_events page);;
  outcome ← ingest_batch (sp_events page);
  let scanned_through :=
    Z.max (latest_ledger_scanned page) (Z.min (saturating_add u32 next (page_size - 1)) tip) in
  save_checkpoint (mkCheckpoint scanned_through (bool_decide (scanned_through >= tip)));;
  modify (fun w => w <| progress ::= observe_ingested scanned_through |>);;
  mret (with_last_ledger scanned_through (absorb report outcome), saturating_add u32 scanned_through 1).

(** The [while next <= tip] loop. *)
Fixpoint walk (fuel : nat) (next tip : Z) (report : BackfillReport) : IM BackfillReport :=
  if bool_decide (next <= tip) then
    match fuel with
    | O => fail OutOfFuel
    | S fuel =>
        stepped ← walk_page next tip report;
        walk fuel stepped.2 tip stepped.1
    end
  else mret report.

(** Enough for one ledger per page. *)
Definition walk_fuel (next tip : Z) : nat := Z.to_nat (tip - next + 1).

Definition run_to_tip (configured_start : Z) : IM BackfillReport :=
  next ← resume_ledger configured_start;
  tip ← request latest_ledger ReadingTip;
  modify (fun w => w <| progress ::= observe_tip tip |>);;
  modify (fun w => w <| progress ::= observe_ingested (saturating_sub u32 next 1) |>);;
  report ← walk (walk_fuel next tip) next tip (mkBackfillReport 0 0 0 0 (saturating_sub u32 next 1));
  (if bool_decide (b_pages report = 0)
   then save_checkpoint (mkCheckpoint (b_last_ledger report) true)
   else mret tt);;
  modify (fun w => w <| progress ::= observe_cycle |>);;
  mret report.
End Backfill.
End Ingest.
