(* ===== verification/IndexerIngestSpec.v ===== *)
(** * Indexer: batches, fingerprints and pages against an honest history

    What [ingest_batch] and [check_page] do to a store that holds a prefix of
    the recognised history, faults included. *)

From Stdlib Require Import Sorted.
From stdpp Require Import sorting.
From S2P Require Import Prelude Host IndexerEvents IndexerState IndexerAddress IndexerReorg IndexerProgress IndexerStore IndexerStoreSpec IndexerIngest.

(** ** Segments of a history sorted by ledger *)

Definition by_ledger (a b : RawEvent) : Prop := re_ledger a <= re_ledger b.

Definition from_ledger (l : Z) (h : list RawEvent) : list RawEvent := filter (fun e => l <= re_ledger e) h.
Definition between (l m : Z) (h : list RawEvent) : list RawEvent :=
  filter (fun e => l <= re_ledger e < m) h.

Lemma filter_none {A} (P : A -> Prop) `{!forall x, Decision (P x)} l :
  Forall (fun x => ~ P x) l -> filter P l = [].
Proof. induction 1 as [|x l Hx Hl IH]; [done|]. by rewrite filter_cons, decide_False. Qed.

Lemma from_ledger_split l m h :
  StronglySorted by_ledger h -> l <= m -> from_ledger l h = between l m h ++ from_ledger m h.
Proof.
  intros Hs Hlm. unfold from_ledger, between. induction Hs as [|x h Hs IH Hx]; [done|].
  rewrite !filter_cons. destruct (decide (re_ledger x < m)) as [Hlt|Hge].
  - rewrite (decide_False (P := m <= re_ledger x)) by lia.
    destruct (decide (l <= re_ledger x)).
    + rewrite !decide_True by lia. cbn. by f_equal.
    + rewrite !decide_False by lia. done.
  - assert (Forall (fun e => m <= re_ledger e) h) as Hall.
    { eapply list.Forall_impl; [exact Hx|]. unfold by_ledger. cbn. lia. }
    rewrite !(decide_True (P := _ <= re_ledger x)) by lia. rewrite decide_False by lia.
    rewrite !(filter_all (fun e => m <= re_ledger e)) by done.
    rewrite filter_all by (eapply list.Forall_impl; [exact Hall|]; cbn; lia).
    rewrite filter_none; [done|]. eapply list.Forall_impl; [exact Hall|]. cbn. lia.
Qed.

Lemma length_omap_filter {A B} (f : A -> option B) (P Q : A -> Prop)
    `{!forall x, Decision (P x), !forall x, Decision (Q x)} l :
  (forall x, P x -> Q x) -> (length (omap f (filter P l)) <= length (omap f (filter Q l)))%nat.
Proof.
  intros HPQ. induction l as [|x l IH]; [done|]. rewrite !filter_cons.
  repeat case_decide; cbn; try (destruct (f x); cbn); try lia; exfalso; auto.
Qed.

(** ** Fingerprints *)

Lemma fnv_range acc bytes : in_range u64 acc -> in_range u64 (fnv_fold acc bytes).
Proof.
  unfold fnv_fold. revert acc. induction bytes as [|b bytes IH]; intros acc Ha; [done|]. cbn.
  apply IH. unfold in_range; cbn. pose proof (Z.mod_pos_bound (Z.lxor acc b * PRIME) (2 ^ 64)). lia.
Qed.

Lemma foldl_range {A} (f : Z -> A -> Z) l acc :
  (forall d x, in_range u64 d -> in_range u64 (f d x)) -> in_range u64 acc -> in_range u64 (foldl f acc l).
Proof. intros Hf. revert acc. induction l as [|x l IH]; intros acc Ha; [done|]. cbn. auto. Qed.

Lemma digest_range `{ValuesCodec} l events : in_range u64 (lf_digest (fingerprint l events)).
Proof.
  apply foldl_range; [|by vm_compute]. intros d e Hd. unfold digest_event.
  destruct (values_to_vec _); repeat apply fnv_range;
    (apply foldl_range; [intros; by apply fnv_range | by repeat apply fnv_range]).
Qed.

Lemma fingerprint_in_ledger `{ValuesCodec} l a b :
  in_ledger l a = in_ledger l b -> fingerprint l a = fingerprint l b.
Proof. unfold fingerprint. by intros ->. Qed.

(** The order a source serves a ledger's events in does not matter.  Two
    answers with the same events of a ledger, in any order and with any events
    of other ledgers around them, have the same fingerprint - so a paging
    artifact is never a discrepancy - as long as the events of the ledger have
    distinct (tx_hash, event_index). *)
Theorem fingerprint_order_independent `{ValuesCodec} l a b :
  Permutation (in_ledger l a) (in_ledger l b) ->
  NoDup ((fun e => (re_tx_hash e, re_event_index e)) <$> in_ledger l a) ->
  fingerprint l a = fingerprint l b.
Proof.
  intros Hp Hk. unfold fingerprint. by rewrite (sort_events_unique _ _ Hp Hk).
Qed.

Lemma dedup_elem x l : x ∈ dedup l -> x ∈ l.
Proof.
  induction l as [|y [|z l] IH]; [done..|]. cbn. case_bool_decide as Hyz; [subst; set_solver|].
  intros [->|Hx]%elem_of_cons; [set_solver|]. apply IH in Hx. set_solver.
Qed.

Lemma ledgers_of_elem l events : l ∈ ledgers_of events -> l ∈ re_ledger <$> events.
Proof.
  unfold ledgers_of. intros Hl%dedup_elem. by rewrite merge_sort_Permutation in Hl.
Qed.

(** ** The fault discipline

    [F] says whether faults may occur: without it, the remaining fault bits
    are empty and nothing fails. *)

Section Honest.
Context `{JsonCodec} `{Strkey} `{ValuesCodec}.
Implicit Types (w : World) (d : Db) (es : list Entry).
Variable F : Prop.

Definition calm w : Prop := F \/ faults w = [].

(** A world that differs in the faults to come only. *)
Definition only_faults w w' : Prop := exists fs, w' = w <| faults := fs |>.

Lemma wp_io ctx w (Q : unit -> World -> Prop) (R : World -> Prop) :
  calm w ->
  (forall w', only_faults w w' -> calm w' -> Q tt w') ->
  (forall w', only_faults w w' -> F -> R w') -> wp (io ctx) w Q R.
Proof.
  intros Hc HQ HR. unfold wp, io. destruct (faults w) as [|[] fs] eqn:Hf.
  - apply HQ; [|done]. exists []. destruct w; cbn in *. by subst.
  - destruct Hc as [Hc|Hc]; [|congruence]. apply HQ; [by eexists | by left].
  - destruct Hc as [Hc|Hc]; [|congruence]. apply HR; [by eexists | done].
Qed.

Lemma wp_query {A} ctx (f : Db -> A) w (Q : A -> World -> Prop) R :
  calm w ->
  (forall w', only_faults w w' -> calm w' -> Q (f (db w)) w') ->
  (forall w', only_faults w w' -> F -> R w') -> wp (query ctx f) w Q R.
Proof.
  intros Hc HQ HR. apply wp_bind, wp_io; [done| |done].
  intros w' [fs ->] Hc'. apply wp_gets. by apply HQ; [eexists|].
Qed.

Lemma wp_execute ctx f w (Q : unit -> World -> Prop) R :
  calm w ->
  (forall w', only_faults w w' -> calm w' -> Q tt (w' <| db := f (db w) |>)) ->
  (forall w', only_faults w w' -> F -> R w') -> wp (execute ctx f) w Q R.
Proof.
  intros Hc HQ HR. apply wp_bind, wp_io; [done| |done].
  intros w' [fs ->] Hc'. apply wp_modify. by apply HQ; [eexists|].
Qed.

(** ** The history *)

Definition entry_of (e : RawEvent) : option Entry :=
  match parse_event e with inr (Some p) => Some (e, p) | _ => None end.

(** An event the indexer can take: it parses, to a payload that can be
    encoded, with fields in range. *)
Definition takes (e : RawEvent) : Prop :=
  exists o, parse_event e = inr o /\
    forall p, o = Some p -> typed_entry (e, p) /\ is_Some (to_json p).

(** The events the indexer has a type for. *)
Definition recognised (h : list RawEvent) : list Entry := omap entry_of h.

Lemma recognised_keys h : key <$> recognised h = (fun e => (re_tx_hash e, re_event_index e)) <$>
  filter (fun e => is_Some (entry_of e)) h.
Proof.
  unfold recognised. induction h as [|e h IH]; [done|]. rewrite filter_cons. cbn.
  destruct (entry_of e) as [x|] eqn:He; cbn.
  - rewrite decide_True by done. cbn. rewrite IH. f_equal. unfold entry_of in He.
    by destruct (parse_event e) as [|[]]; simplify_eq.
  - rewrite decide_False by by intros [? [=]]. done.
Qed.

Lemma recognised_length h : (length (recognised h) <= length h)%nat.
Proof. unfold recognised. induction h as [|e h IH]; [done|]. cbn. destruct (entry_of e); cbn; lia. Qed.

Lemma NoDup_fmap_filter {A B} (f : A -> B) (P : A -> Prop) `{!forall x, Decision (P x)} l :
  NoDup (f <$> l) -> NoDup (f <$> filter P l).
Proof.
  intros Hn. eapply sublist_NoDup; [exact Hn|]. apply fmap_sublist, sublist_filter.
Qed.

(** ** One insertion *)

(** The part of the world ingestion leaves alone. *)
Definition beside w0 w : Prop :=
  d_checkpoint (db w) = d_checkpoint (db w0) /\ d_fingerprints (db w) = d_fingerprints (db w0) /\
  requests w = requests w0 /\ alerts w = alerts w0 /\ progress w = progress w0.

Lemma beside_faults w0 w w' : beside w0 w -> only_faults w w' -> beside w0 w'.
Proof. by intros Hb [fs ->]. Qed.

(** A number is drawn whether the event is new or not. *)
Lemma insert_event_spec w0 w x es (Q : option IndexedEvent -> World -> Prop) (R : World -> Prop) :
  calm w -> beside w0 w -> holds (db w) es -> typed_entry x -> is_Some (to_json x.2) ->
  (F \/ d_sequence (db w) < int_max i64) ->
  (forall w', calm w' -> beside w0 w' -> d_sequence (db w') = d_sequence (db w) + 1 ->
     key x ∈ key <$> es -> holds (db w') es -> Q None w') ->
  (forall w' ev, calm w' -> beside w0 w' -> d_sequence (db w') = d_sequence (db w) + 1 ->
     key x ∉ key <$> es -> holds (db w') (es ++ [x]) -> Q (Some ev) w') ->
  (forall w', F -> beside w0 w' -> d_sequence (db w') = d_sequence (db w) -> holds (db w') es -> R w') ->
  wp (insert_event (re_ledger x.1) (re_ledger_close_time x.1) (re_tx_hash x.1) (re_event_index x.1) x.2)
    w Q R.
Proof.
  intros Hc Hb Hh Hx [j Hj] Hroom HN HS HR. pose proof Hh as (Hr & _ & Hp). unfold insert_event.
  apply wp_bind. apply (wp_ok_or _ _ j); [done|]. apply wp_bind, wp_query; [done| |].
  2:{ intros w' Hw HF. destruct Hw as [fs ->]. by apply HR. }
  intros w' Hw Hc'. unfold id. assert (beside w0 w') as Hb' by by eapply beside_faults.
  assert (db w' = db w) as Hdb by by destruct Hw as [fs ->].
  apply wp_bind. destruct (checked_add i64 (d_sequence (db w)) 1) as [c|] eqn:Hseq.
  2:{ apply checked_None in Hseq. unfold in_range in Hseq. cbn in Hseq, Hroom.
      apply HR; [|done | by rewrite Hdb | by rewrite Hdb]. destruct Hroom as [?|?]; [done | lia]. }
  apply checked_add_Some in Hseq as [-> _]. apply wp_ret.
  rewrite (rows_at_conflict _ _ _ _ _ Hr). case_bool_decide as Hk; apply wp_bind, wp_modify, wp_ret.
  - apply HN; [done | by destruct Hw as [fs ->] | done | done |]. by apply holds_skip.
  - apply HS; [done | by destruct Hw as [fs ->] | done | done |]. by apply holds_insert.
Qed.

(** ** A batch *)

(** The store holds the first [n] recognised events of [E]; at most [B] numbers
    were drawn for the cursors, and without faults there are as many. *)
Definition ingesting (E : list Entry) (n : nat) (B : Z) w0 w : Prop :=
  calm w /\ beside w0 w /\ holds (db w) (take n E) /\ d_sequence (db w) <= B /\ (F \/ B <= int_max i64).

Section Batch.
Variable E : list Entry.
Hypothesis HE_keys : NoDup (key <$> E).

(** The next event to take is new exactly when the store holds what precedes
    it. *)
Lemma next_entry pre x post n :
  E = pre ++ x :: post -> (length pre <= n)%nat ->
  ((length pre < n)%nat /\ key x ∈ fmap key (take n E)) \/
  (take n E = pre /\ ~ (key x ∈ fmap key (take n E)) /\ take (S n) E = take n E ++ [x]).
Proof.
  intros HE Hn. destruct (decide (length pre < n)%nat) as [Hlt|Hge].
  - left. split; [done|]. subst E. apply list_elem_of_fmap_2.
    rewrite take_app_ge by lia. destruct (n - length pre)%nat eqn:Hk; [lia|]. cbn. set_solver.
  - right. assert (n = length pre) as -> by lia. rewrite HE, take_app_length. split_and!; [done| |].
    + rewrite HE, fmap_app, fmap_cons in HE_keys. apply list.NoDup_app in HE_keys as (_ & Hd & _).
      intros Hin. apply (Hd _ Hin). set_solver.
    + replace (S (length pre)) with (length (pre ++ [x])) by (rewrite length_app; cbn; lia).
      assert (pre ++ x :: post = (pre ++ [x]) ++ post) as -> by by rewrite <- app_assoc.
      by rewrite take_app_length.
Qed.

(** [seg] draws at most as many numbers as it has events. *)
Lemma ingest_segment seg pre post n B w0 w oc :
  Forall takes seg -> E = pre ++ recognised seg ++ post -> (length pre <= n)%nat ->
  ingesting E n B w0 w -> (F \/ B + Z.of_nat (length seg) <= int_max i64) ->
  wp (for_fold seg oc ingest_one) w
    (fun _ w' => exists n', (n <= n')%nat /\ (length (pre ++ recognised seg) <= n')%nat /\
       ingesting E n' (B + Z.of_nat (length seg)) w0 w')
    (fun w' => F /\ exists n', (n <= n')%nat /\ ingesting E n' (B + Z.of_nat (length seg)) w0 w').
Proof.
  intros Ht. revert pre n B w oc.
  induction Ht as [|e seg (o & Hparse & Ho) Ht IH]; intros pre n B w oc HE Hn (Hc & Hb & Hh & Hs & HB) Hroom.
  - apply wp_ret. exists n. rewrite app_nil_r. cbn. rewrite Z.add_0_r. by split_and!.
  - cbn [for_fold]. apply wp_bind. unfold ingest_one, parsed_event. rewrite Hparse.
    apply wp_bind. apply wp_ret.
    replace (B + Z.of_nat (length (e :: seg))) with ((B + 1) + Z.of_nat (length seg)) in * by (cbn; lia).
    assert (F \/ B + 1 <= int_max i64) as HB1 by (destruct Hroom; [by left | right; lia]).
    destruct o as [p|].
    + assert (entry_of e = Some (e, p)) as Hent by (unfold entry_of; by rewrite Hparse).
      unfold recognised in HE; cbn in HE; rewrite Hent in HE; cbn in HE.
      destruct (Ho p eq_refl) as [Htyped Hjson].
      apply wp_bind. apply (insert_event_spec w0 w (e, p) (take n E)); try done; cbn [fst snd].
      * destruct HB1; [by left | right; lia].
      * intros w' Hc' Hb' Hs' Hk Hh'. apply wp_ret.
        destruct (next_entry _ _ _ _ HE Hn) as [[Hlt _]|(_ & Hk' & _)]; [|done].
        eapply wp_mono; [apply (IH (pre ++ [(e, p)]) n (B + 1))| |].
        -- by rewrite <- app_assoc.
        -- rewrite length_app. cbn. lia.
        -- split_and!; (done || lia).
        -- done.
        -- intros _ w'' (n' & ? & Hle & ?). exists n'. split_and!; [done| |done].
           unfold recognised in *; cbn. rewrite Hent. by rewrite <- app_assoc in Hle.
        -- done.
      * intros w' ev Hc' Hb' Hs' Hk Hh'. apply wp_bind, wp_modify, wp_ret.
        destruct (next_entry _ _ _ _ HE Hn) as [[_ Hk']|(Hpre & _ & Htake)]; [done|].
        eapply wp_mono; [apply (IH (pre ++ [(e, p)]) (S n) (B + 1))| |].
        -- by rewrite <- app_assoc.
        -- rewrite length_app. cbn. lia.
        -- split_and!; try done; [by rewrite Htake | cbn; lia].
        -- done.
        -- intros _ w'' (n' & ? & Hle & ?). exists n'. split_and!; [lia| |done].
           unfold recognised in *; cbn. rewrite Hent. by rewrite <- app_assoc in Hle.
        -- intros w'' (? & n' & ? & ?). split; [done|]. exists n'. split; [lia|done].
      * intros w' HF Hb' Hs' Hh'. split; [done|]. exists n. split; [done|].
        split_and!; [by left | done | done | lia | by left].
    + assert (recognised (e :: seg) = recognised seg) as Hrec.
      { unfold recognised; cbn. unfold entry_of at 1. by rewrite Hparse. }
      rewrite Hrec in HE |- *. apply wp_ret. apply (IH pre n (B + 1)); [done..| |done].
      split_and!; (done || lia).
Qed.
End Batch.

(** ** Pages *)

(** The events of a contract as an honest source has them, oldest first. *)
Variable history : list RawEvent.

Record honest_history : Prop := {
  history_sorted : StronglySorted by_ledger history;
  history_keys : NoDup ((fun e => (re_tx_hash e, re_event_index e)) <$> history);
  history_takes : Forall takes history;
}.

(** Every recorded fingerprint is that of the history. *)
Definition fingerprints_match d : Prop := forall l row,
  d_fingerprints d !! l = Some row ->
  row = mkFingerprint (lf_event_count (fingerprint l history))
          (as_i64 (lf_digest (fingerprint l history))).

Lemma recorded_match l :
  mkLedgerFingerprint l (as_u32 (lf_event_count (fingerprint l history)))
    (as_u64 (as_i64 (lf_digest (fingerprint l history)))) = fingerprint l history.
Proof.
  rewrite as_u64_as_i64 by apply digest_range. unfold fingerprint, as_u32; cbn. f_equal.
  by rewrite Zmod_mod.
Qed.

(** What a check leaves alone. *)
Definition checking w0 w : Prop :=
  calm w /\ d_events (db w) = d_events (db w0) /\ d_sequence (db w) = d_sequence (db w0) /\
  d_checkpoint (db w) = d_checkpoint (db w0) /\ requests w = requests w0 /\
  alerts w = alerts w0 /\ progress w = progress w0 /\ fingerprints_match (db w).

Lemma checking_faults w0 w w' : checking w0 w -> only_faults w w' -> calm w' -> checking w0 w'.
Proof. intros (_ & Hck) [fs ->] Hc. by split. Qed.

Lemma observe_spec l events w0 w :
  checking w0 w -> in_ledger l events = in_ledger l history ->
  wp (IndexerIngest.observe l events) w
    (fun o w' => checking w0 w' /\ forall dc, o <> Discrepant dc) (fun w' => F /\ checking w0 w').
Proof.
  intros Hck Hl. unfold IndexerIngest.observe. rewrite (fingerprint_in_ledger _ _ _ Hl).
  pose proof Hck as (Hc & _ & _ & _ & _ & _ & _ & Hfp).
  apply wp_bind, wp_query; [done| |].
  2:{ intros w' Hw HF. split; [done|]. eapply checking_faults; [done..|by left]. }
  intros w1 Hw Hc1. assert (checking w0 w1) as Hck1 by by eapply checking_faults.
  destruct (d_fingerprints (db w) !! l) as [row|] eqn:Hrow.
  - rewrite (Hfp _ _ Hrow). cbn. rewrite recorded_match, decide_True by done. by apply wp_ret.
  - apply wp_bind, wp_execute; [done| |].
    2:{ intros w' Hw' HF. split; [done|]. eapply checking_faults; [done..|by left]. }
    intros w2 [fs ->] Hc2. apply wp_ret. split; [|done].
    destruct Hck1 as (_ & He & Hs & Hcp & Hrq & Hal & Hpr & Hfp1). split_and!; try done.
    intros l' row'. cbn. destruct Hw as [fs' ->]. cbn. rewrite Hrow.
    rewrite lookup_insert_Some. intros [[<- <-]|[_ Hl']]; [done | by apply Hfp].
Qed.

Lemma check_page_spec events w0 w :
  checking w0 w -> (forall l, l ∈ re_ledger <$> events -> in_ledger l events = in_ledger l history) ->
  wp (check_page events) w (fun _ w' => checking w0 w') (fun w' => F /\ checking w0 w').
Proof.
  intros Hck Hl. unfold check_page.
  assert (Forall (fun l => in_ledger l events = in_ledger l history) (ledgers_of events)) as Hall.
  { apply list.Forall_forall. intros l Hin. by apply Hl, ledgers_of_elem. }
  revert w Hck. induction Hall as [|l ls Hle Hls IH]; intros w Hck; [by apply wp_ret|].
  cbn [for_each]. apply wp_bind, wp_bind. eapply wp_mono; [by apply observe_spec| |done].
  intros o w1 [Hck1 Ho]. destruct o; [apply wp_ret; by apply IH..|]. by edestruct Ho.
Qed.
End Honest.
