(* ===== verification/IndexerBackfill.v ===== *)
(** * Indexer: the backfill walk

    [run_to_tip] of src/indexer/src/backfill.rs: against an honest source it
    ends, it leaves the store holding the recognised history up to its
    checkpoint, and an interruption at any statement costs nothing; against
    any source, nothing stored is ever rewritten. *)

From Stdlib Require Import Sorted.
From stdpp Require Import sorting.
From S2P Require Import Prelude Host IndexerEvents IndexerState IndexerAddress IndexerReorg IndexerProgress IndexerStore IndexerStoreSpec IndexerIngest IndexerIngestSpec.

Section Backfill.
Context `{JsonCodec} `{Strkey} `{ValuesCodec} `{EventSource}.
Implicit Types (w : World) (d : Db).
Variable history : list RawEvent.
Variables (contract_id : string) (page_size start : Z).

(** An honest source: [closed n] is the last ledger closed when it serves
    request [n].  A page holds every event of the requested ledgers that have
    closed, and claims no ledger beyond them; u32::MAX is out of reach. *)
Record honest_source (closed : nat -> Z) : Prop := {
  closed_mono n m : (n <= m)%nat -> closed n <= closed m;
  closed_range n : 0 <= closed n < 2 ^ 32 - 1;
  tip_closed n tip : latest_ledger n = Some tip -> 0 <= tip <= closed n;
  page_events n from limit page : get_events n contract_id from limit = Some page ->
    sp_events page =
      filter (fun e => from <= re_ledger e < Z.min (from + limit) (closed n + 1)) history;
  page_scanned n from limit page : 0 <= from -> 1 <= limit ->
    get_events n contract_id from limit = Some page -> 0 <= latest_ledger_scanned page /\ latest_ledger_scanned page < Z.min (from + limit) (closed n + 1);
}.

(** What is to be stored: the recognised events from [start] on; [upto l] those
    before ledger [l]. *)
Definition expected : list Entry := recognised (from_ledger start history).
Definition upto (l : Z) : list Entry := recognised (between start l history).

(** Everything before ledger [next] is among the first [n] of [expected]. *)
Definition covered (next : Z) (n : nat) : Prop := start <= next /\ (length (upto next) <= n)%nat.

(** The state between two statements of a walk. *)
Definition tracking (F : Prop) (n : nat) w : Prop :=
  calm F w /\ holds (db w) (take n expected) /\ fingerprints_match history (db w) /\ alerts w = [] /\
  match d_checkpoint (db w) with
  | Some cp => 0 <= last_ledger cp < 2 ^ 32 - 1 /\ covered (last_ledger cp + 1) n
  | None => True
  end.

Hypothesis Hhistory : honest_history history.
Hypothesis Hstart : 0 <= start < 2 ^ 32.
Hypothesis Hpage : 1 <= page_size < 2 ^ 32.

Lemma expected_keys : NoDup (key <$> expected).
Proof.
  unfold expected. rewrite recognised_keys. apply NoDup_fmap_filter, NoDup_fmap_filter.
  apply Hhistory.
Qed.

Lemma recognised_app a b : recognised (a ++ b) = recognised a ++ recognised b.
Proof. apply omap_app. Qed.

(** A page is the segment of [expected] from its first ledger to its last. *)
Lemma expected_page from hi :
  start <= from -> from <= hi ->
  expected = upto from ++ recognised (between from hi history) ++ recognised (from_ledger hi history).
Proof.
  intros Hf Hh. unfold expected, upto. pose proof (history_sorted _ Hhistory) as Hs.
  rewrite (from_ledger_split start from), (from_ledger_split from hi) by done.
  by rewrite !recognised_app.
Qed.

Lemma upto_page from hi :
  start <= from -> from <= hi -> upto from ++ recognised (between from hi history) = upto hi.
Proof.
  intros Hf Hh. pose proof (history_sorted _ Hhistory) as Hs.
  pose proof (expected_page from hi Hf Hh) as Ha.
  pose proof (expected_page hi hi ltac:(lia) ltac:(lia)) as Hb.
  rewrite Ha, (app_assoc (upto from)) in Hb.
  assert (between hi hi history = []) as Hnil.
  { unfold between. apply filter_none, list.Forall_forall. intros e _. lia. }
  rewrite Hnil in Hb. by apply app_inv_tail in Hb.
Qed.

Lemma covered_mono l m n n' :
  covered m n -> start <= l <= m -> (n <= n')%nat -> covered l n'.
Proof.
  intros [_ Hc] Hl Hn. split; [lia|]. etransitivity; [|etransitivity; [exact Hc|exact Hn]].
  apply length_omap_filter. intros e. lia.
Qed.

(** ** One page *)

Section Walk.
Variable F : Prop.
Variable closed : nat -> Z.
Hypothesis Hsource : honest_source closed.

(** Without faults, every request from the [N]-th on is answered. *)
Variable N : nat.
Hypothesis Hresponsive : F \/ forall n, (N <= n)%nat ->
  (forall from, is_Some (get_events n contract_id from page_size)) /\ is_Some (latest_ledger n).

(** [B]: the numbers that may be drawn for cursors.  Without faults there are as
    many.  A walk draws one for each event it is served, and no ledger is served
    twice. *)
Variable B : Z.
Hypothesis HB : F \/ B <= int_max i64.

Definition budget (next tip : Z) w : Prop :=
  d_sequence (db w) <= B /\
  (next <= tip -> d_sequence (db w) + Z.of_nat (length (from_ledger next history)) <= B).

Lemma page_in_ledger n from page l :
  get_events n contract_id from page_size = Some page ->
  l ∈ re_ledger <$> sp_events page -> in_ledger l (sp_events page) = in_ledger l history.
Proof.
  intros Hp. rewrite (page_events _ Hsource _ _ _ _ Hp).
  intros (e & -> & [He _]%list_elem_of_filter)%list_elem_of_fmap.
  unfold in_ledger. rewrite list_filter_filter. apply list.list_filter_iff. intros e'. intuition lia.
Qed.

(** Where the walk stands: everything before [next] is stored, and the tip it
    runs to has closed. *)
Definition walking (next tip : Z) (n : nat) w : Prop :=
  tracking F n w /\ covered next n /\ 0 <= next < 2 ^ 32 /\ 0 <= tip <= closed (requests w) /\
  (N <= requests w)%nat /\ budget next tip w.

Lemma request_spec {A} (f : nat -> option A) x w (Q : A -> World -> Prop) (R : World -> Prop) :
  (F \/ is_Some (f (requests w))) ->
  (forall a, f (requests w) = Some a -> Q a (w <| requests ::= S |>)) ->
  (F -> R (w <| requests ::= S |>)) -> wp (request f x) w Q R.
Proof.
  intros Hf HQ HR. unfold request. apply wp_bind, wp_gets. apply wp_bind, wp_modify.
  destruct (f (requests w)) as [a|] eqn:Ha.
  - apply (wp_ok_or _ _ a); [done|]. by apply HQ.
  - unfold ok_or, wp, fail. apply HR. destruct Hf as [Hf|[? Hf]]; [done | congruence].
Qed.

Lemma walk_page_spec next tip n w report :
  walking next tip n w -> next <= tip ->
  wp (walk_page contract_id page_size next tip report) w
    (fun r w' => exists n', (n <= n')%nat /\ walking r.2 tip n' w' /\ next < r.2 /\
       b_last_ledger r.1 = r.2 - 1 /\ b_pages r.1 = b_pages report + 1 /\
       d_checkpoint (db w') = Some (mkCheckpoint (r.2 - 1) (bool_decide (r.2 - 1 >= tip))))
    (fun w' => F /\ exists n', (n <= n')%nat /\ tracking F n' w' /\ d_sequence (db w') <= B).
Proof.
  intros ((Hc & Hh & Hfp & Hal & Hcp) & Hcov & Hnext & Htip & HN & HsB & Hroom) Hle. unfold walk_page.
  specialize (Hroom Hle).
  pose proof (closed_range _ Hsource (requests w)) as Hcl.
  apply wp_bind, request_spec.
  { destruct Hresponsive as [?|Hg]; [by left | right; by apply Hg]. }
  2:{ intros HF. split; [done|]. exists n. split; [done|]. split; [by split_and! | done]. }
  intros page Hp.
  pose proof (page_events _ Hsource _ _ _ _ Hp) as Hev.
  pose proof (page_scanned _ Hsource _ _ _ _ (proj1 Hnext) (proj1 Hpage) Hp) as Hsc.
  set (hi := Z.min (next + page_size) (closed (requests w) + 1)) in *.
  change (sp_events page = between next hi history) in Hev.
  set (w1 := w <| requests ::= S |>).
  apply wp_bind. eapply wp_mono.
  { apply (check_page_spec F history (sp_events page) w1 w1); [by split_and!|].
    intros l Hl. by eapply page_in_ledger. }
  2:{ intros w' [HF (Hc' & He' & Hs' & Hcp' & _ & Hal' & _ & Hfp')]. split; [done|]. exists n. split; [done|].
      split; [split_and!; [done| |done| |]|].
      - unfold holds, cursors in *. by rewrite He', Hs'.
      - by rewrite Hal'.
      - by rewrite Hcp'.
      - by rewrite Hs'. }
  intros [] w2 (Hc2 & He2 & Hs2 & Hcp2 & Hrq2 & Hal2 & Hpr2 & Hfp2).
  pose proof (from_ledger_split next hi history (history_sorted _ Hhistory) ltac:(lia)) as Hsplit.
  apply (f_equal length) in Hsplit. rewrite length_app in Hsplit.
  apply wp_bind. eapply wp_mono.
  { apply (ingest_segment F expected expected_keys (sp_events page)
      (upto next) (recognised (from_ledger hi history)) n (d_sequence (db w)) w2 w2).
    - rewrite Hev. apply Forall_filter, Hhistory.
    - rewrite Hev. apply expected_page; [apply Hcov | lia].
    - apply Hcov.
    - split_and!; [done..| | |].
      + unfold holds, cursors in *. by rewrite He2, Hs2.
      + by rewrite Hs2.
      + destruct HB; [by left | right; lia].
    - rewrite Hev. destruct HB; [by left | right; lia]. }
  2:{ intros w' [HF (n' & Hn' & Hc' & (Hcp' & Hfp' & _ & Hal' & _) & Hh' & Hs' & _)]. split; [done|].
      exists n'. split; [done|]. rewrite Hev in Hs'. split; [|lia]. split_and!; [done|done| | |].
      - intros l row. rewrite Hfp'. apply Hfp2.
      - by rewrite Hal', Hal2.
      - rewrite Hcp', Hcp2. cbn. destruct (d_checkpoint (db w)) as [cp|]; [|done].
        destruct Hcp as [? Hcp]. split; [done|]. eapply covered_mono; [exact Hcp | destruct Hcp; lia | done]. }
  intros outcome w3 (n' & Hn' & Hlen & Hc3 & (Hcp3 & Hfp3 & Hrq3 & Hal3 & _) & Hh3 & Hs3 & _).
  rewrite Hev, upto_page in Hlen by (apply Hcov || lia). rewrite Hev in Hs3.
  set (scanned := Z.max _ _).
  assert (next <= scanned < hi) as Hscan.
  { unfold scanned, saturating_add, clamp. cbn. lia. }
  assert (scanned + 1 <= tip -> scanned + 1 = hi) as Hhi.
  { unfold scanned, saturating_add, clamp in *. cbn in *. lia. }
  assert (saturating_add u32 scanned 1 = scanned + 1) as Hsat.
  { unfold saturating_add, clamp. cbn. lia. }
  assert (covered (scanned + 1) n') as Hcov'.
  { eapply covered_mono; [split; [|exact Hlen]; destruct Hcov; lia | destruct Hcov; lia | done]. }
  apply wp_bind, (wp_execute F); [done| |].
  - intros w4 [fs ->] Hc4. apply wp_bind, wp_modify, wp_ret. exists n'. cbn [fst snd].
    rewrite Hsat. split; [done|]. split; [split; [|split; [done|split; [lia|split; [|split]]]]|split_and!].
    + split; [done|]. split; [done|]. split; [|split].
      * intros l row. cbn. rewrite Hfp3. apply Hfp2.
      * cbn. by rewrite Hal3, Hal2.
      * cbn. split; [lia | done].
    + cbn. rewrite Hrq3, Hrq2. cbn.
      pose proof (closed_mono _ Hsource (requests w) (S (requests w)) ltac:(lia)). lia.
    + cbn. rewrite Hrq3, Hrq2. cbn. lia.
    + split; cbn; [lia|]. intros Hmore. rewrite (Hhi Hmore). lia.
    + lia.
    + cbn. lia.
    + done.
    + cbn. by replace (scanned + 1 - 1) with scanned by lia.
  - intros w4 [fs ->] HF. split; [done|]. exists n'. split; [done|]. split; [|cbn; lia].
    split; [by left|]. split; [done|]. split; [|split].
    + intros l row. cbn. rewrite Hfp3. apply Hfp2.
    + cbn. by rewrite Hal3, Hal2.
    + cbn. rewrite Hcp3, Hcp2. cbn. destruct (d_checkpoint (db w)) as [cp|]; [|done].
      destruct Hcp as [? Hcp]. split; [done|]. eapply covered_mono; [exact Hcp | destruct Hcp; lia | done].
Qed.

(** ** The loop *)

Lemma walk_spec fuel next tip n w report :
  walking next tip n w -> (Z.to_nat (tip - next + 1) <= fuel)%nat ->
  wp (walk contract_id page_size fuel next tip report) w
    (fun r w' => (tip < next /\ r = report /\ w' = w) \/
       exists n' next', (n <= n')%nat /\ walking next' tip n' w' /\ tip < next' /\
         b_pages report < b_pages r /\ b_last_ledger r = next' - 1 /\
         d_checkpoint (db w') = Some (mkCheckpoint (next' - 1) true))
    (fun w' => F /\ exists n', (n <= n')%nat /\ tracking F n' w' /\ d_sequence (db w') <= B).
Proof.
  revert next n w report. induction fuel as [|fuel IH]; intros next n w report Hw Hfuel; cbn [walk];
    case_bool_decide as Hle; [lia | apply wp_ret; left; split_and!; [lia|done..] | |
      apply wp_ret; left; split_and!; [lia|done..]].
  apply wp_bind. eapply wp_mono; [by apply (walk_page_spec next tip n) | |done].
  intros [report1 next1] w1 (n1 & Hn1 & Hw1 & Hlt & Hlast & Hpages & Hcp). cbn [fst snd] in *.
  eapply wp_mono; [apply (IH next1 n1 w1 report1); [done | lia] | |].
  - intros r w' [(Htip & -> & ->)|(n' & next' & ? & ? & ? & ? & ? & ?)]; right.
    + exists n1, next1. split_and!; [done..|lia|done|]. rewrite Hcp. by rewrite bool_decide_true by lia.
    + exists n', next'. split_and!; try done; lia.
  - intros w' (HF & n' & Hn' & Ht). split; [done|]. exists n'. split; [lia|done].
Qed.

(** ** A run *)

Lemma covered_start n : covered start n.
Proof.
  split; [done|]. unfold upto, between. rewrite filter_none; [cbn; lia|].
  apply list.Forall_forall. intros e _. lia.
Qed.

Lemma run_to_tip_spec n w :
  tracking F n w -> (N <= requests w)%nat -> d_sequence (db w) + Z.of_nat (length history) <= B ->
  wp (run_to_tip contract_id page_size start) w
    (fun r w' => exists n' tip, (n <= n')%nat /\ tracking F n' w' /\
       latest_ledger (requests w) = Some tip /\ tip <= b_last_ledger r /\
       d_checkpoint (db w') = Some (mkCheckpoint (b_last_ledger r) true) /\ d_sequence (db w') <= B)
    (fun w' => F /\ exists n', (n <= n')%nat /\ tracking F n' w' /\ d_sequence (db w') <= B).
Proof.
  intros Ht HN Hroom. unfold run_to_tip, resume_ledger, checkpoint.
  apply wp_bind, wp_bind, (wp_query F); [apply Ht| |].
  2:{ intros w' [fs ->] HF. split; [done|]. exists n. split; [done|]. destruct Ht as (_ & Ht).
      split; [split; [by left | done] | cbn; lia]. }
  intros w1 [fs ->] Hc1. apply wp_ret. set (next := match d_checkpoint (db w) with Some cp => saturating_add u32 (last_ledger cp) 1 | None => start end).
  assert (covered next n /\ 0 <= next < 2 ^ 32) as [Hcov Hnext].
  { unfold next. destruct Ht as (_ & _ & _ & _ & Hcp). destruct (d_checkpoint (db w)) as [cp|].
    - destruct Hcp as [Hr Hcp]. unfold saturating_add, clamp; cbn.
      replace (Z.max 0 _) with (last_ledger cp + 1) by lia. split; [done|lia].
    - split; [apply covered_start | lia]. }
  apply wp_bind, request_spec.
  { destruct Hresponsive as [?|Hg]; [by left | right; by apply Hg]. }
  2:{ intros HF. split; [done|]. exists n. split; [done|]. destruct Ht as (_ & Ht).
      split; [by split | cbn; lia]. }
  cbn. intros tip Htip. destruct (tip_closed _ Hsource _ _ Htip) as [Htip0 Htipc].
  apply wp_bind, wp_modify. apply wp_bind, wp_modify. apply wp_bind.
  eapply wp_mono.
  { apply (walk_spec _ next tip n); [|done]. split; [destruct Ht as (_ & Ht); by split|].
    split; [done|]. split; [done|]. cbn.
    pose proof (closed_mono _ Hsource (requests w) (S (requests w)) ltac:(lia)).
    pose proof (length_filter (fun e => next <= re_ledger e) history). unfold budget, from_ledger. cbn.
    split_and!; lia. }
  2: done.
  intros r w' [(Hlt & -> & ->)|(n' & next' & Hn' & Hw' & Hlt & Hpages & Hlast & Hcp)].
  - assert (saturating_sub u32 next 1 = next - 1) as Hsat.
    { unfold saturating_sub, clamp; cbn. lia. }
    cbn [b_pages b_last_ledger]. rewrite bool_decide_true by done. rewrite Hsat.
    apply wp_bind, (wp_execute F); [done| |].
    + intros w2 [fs2 ->] Hc2. apply wp_bind, wp_modify, wp_ret. exists n, tip. cbn.
      split; [done|]. split; [|split_and!; [done | lia | done | lia]].
      destruct Ht as (_ & Hh & Hfp & Hal & _). split; [done|]. split; [done|]. split; [done|].
      split; [done|]. cbn. split; [lia|]. by replace (next - 1 + 1) with next by lia.
    + intros w2 [fs2 ->] HF. split; [done|]. exists n. split; [done|]. destruct Ht as (_ & Ht).
      split; [split; [by left | done] | cbn; lia].
  - rewrite bool_decide_false by (cbn in *; lia). apply wp_bind, wp_ret, wp_bind, wp_modify, wp_ret.
    exists n', tip. split; [done|]. split; [by apply Hw'|]. rewrite Hlast.
    split_and!; [done | lia | done |]. apply Hw'.
Qed.
End Walk.

(** ** Interrupted and resumed *)

(** One run with some statements failing, however it ends. *)
Definition attempt w (crash : list bool) : World :=
  match run_to_tip contract_id page_size start (w <| faults := crash |>) with
  | Ok _ w' => w'
  | Err _ w' => w'
  | Panic => w
  end.

Definition fresh : World := mkWorld empty_db [] [] [] new_progress 0.

Lemma fresh_tracking : tracking True 0 fresh.
Proof.
  split; [by left|]. split; [apply holds_empty|]. split; [|done].
  intros l row Hl. cbn in Hl. by rewrite lookup_empty in Hl.
Qed.

(** Each run draws at most one number for each event of the history. *)
Lemma attempts_tracking closed crashes :
  honest_source closed -> exists n, tracking True n (foldl attempt fresh crashes) /\
    d_sequence (db (foldl attempt fresh crashes)) <= Z.of_nat (length crashes * length history).
Proof.
  intros Hs. induction crashes as [|crash crashes [n [IH Hn]]] using rev_ind;
    [exists 0%nat; split; [apply fresh_tracking | done]|].
  rewrite foldl_app, length_app. cbn. set (w := foldl attempt fresh crashes) in *.
  assert (tracking True n (w <| faults := crash |>)) as Ht.
  { destruct IH as (_ & IH). split; [by left | exact IH]. }
  pose proof (run_to_tip_spec True closed Hs 0 (or_introl I) _ (or_introl I) n _ Ht ltac:(lia)
    (Z.le_refl _)) as Hwp. cbn in Hwp.
  unfold attempt, wp in *. destruct (run_to_tip _ _ _ _) as [r w'|x w'|]; [| |done].
  - destruct Hwp as (n' & tip & _ & Ht' & _ & _ & _ & Hd). exists n'. split; [done | lia].
  - destruct Hwp as (_ & n' & _ & Ht' & Hd). exists n'. split; [done | lia].
Qed.

(** A database that has cursors left for one more pass. *)
Definition roomy w : Prop := d_sequence (db w) + Z.of_nat (length history) <= int_max i64.

(** A run without faults, from any state the walk can be in. *)
Lemma clean_run closed n w :
  honest_source closed -> tracking True n w -> roomy w ->
  (forall m, (requests w <= m)%nat ->
     (forall from, is_Some (get_events m contract_id from page_size)) /\ is_Some (latest_ledger m)) ->
  exists r w' n' tip, run_to_tip contract_id page_size start (w <| faults := [] |>) = Ok r w' /\
    latest_ledger (requests w) = Some tip /\ tip <= b_last_ledger r /\
    d_checkpoint (db w') = Some (mkCheckpoint (b_last_ledger r) true) /\ tracking False n' w'.
Proof.
  intros Hs Ht Hroom Hresp. assert (tracking False n (w <| faults := [] |>)) as Ht'.
  { destruct Ht as (_ & Ht). split; [by right | exact Ht]. }
  pose proof (run_to_tip_spec False closed Hs (requests w) (or_intror Hresp) (int_max i64)
    (or_intror (Z.le_refl _)) n _ Ht' ltac:(cbn; lia) Hroom) as Hwp.
  unfold wp in Hwp. destruct (run_to_tip _ _ _ _) as [r w'|x w'|]; [|by destruct Hwp|done].
  destruct Hwp as (n' & tip & _ & Htr & Htip & Hle & Hck & _). exists r, w', n', tip. by split_and!.
Qed.

Lemma attempts_roomy closed crashes :
  honest_source closed -> Z.of_nat (S (length crashes) * length history) <= int_max i64 ->
  roomy (foldl attempt fresh crashes).
Proof.
  intros Hs Hmax. destruct (attempts_tracking closed crashes Hs) as (n & _ & Hd). unfold roomy. lia.
Qed.

(** Backfill is crash-safe and complete.  Interrupt runs at any statements,
    as often as you like: the store holds a prefix of the recognised history -
    nothing twice, nothing out of order, nothing invented -, no alert was
    raised, and what the checkpoint promises is stored.  And a run without
    faults, whatever came before, returns: it ends with the checkpoint at or
    past the chain tip, marked complete, and every recognised event up to it
    stored; the runs together must not exhaust the 2^63 - 1 cursors. *)
Theorem backfill_complete closed crashes :
  honest_source closed -> Z.of_nat (S (length crashes) * length history) <= int_max i64 ->
  let w := foldl attempt fresh crashes in
  (exists n, holds (db w) (take n expected) /\ alerts w = [] /\
     forall cp, d_checkpoint (db w) = Some cp -> covered (last_ledger cp + 1) n) /\
  ((forall n, (requests w <= n)%nat ->
      (forall from, is_Some (get_events n contract_id from page_size)) /\ is_Some (latest_ledger n)) ->
   exists r w' n tip, run_to_tip contract_id page_size start (w <| faults := [] |>) = Ok r w' /\
     latest_ledger (requests w) = Some tip /\ tip <= b_last_ledger r /\
     d_checkpoint (db w') = Some (mkCheckpoint (b_last_ledger r) true) /\
     holds (db w') (take n expected) /\ covered (b_last_ledger r + 1) n /\ alerts w' = []).
Proof.
  intros Hs Hmax w. destruct (attempts_tracking closed crashes Hs) as (n & Ht & _). fold w in Ht. split.
  - exists n. destruct Ht as (_ & Hh & _ & Hal & Hcp). split_and!; [done..|].
    intros cp Hc. rewrite Hc in Hcp. apply Hcp.
  - intros Hresp.
    destruct (clean_run closed n w Hs Ht (attempts_roomy _ _ Hs Hmax) Hresp) as (r & w' & n' & tip & Hrun & Htip & Hle & Hck & Htr).
    destruct Htr as (_ & Hh & _ & Hal & Hcp). rewrite Hck in Hcp.
    exists r, w', n', tip. split_and!; try done. apply Hcp.
Qed.
End Backfill.

(** ** Any source *)

Section AnySource.
Context `{JsonCodec} `{Strkey} `{ValuesCodec} `{EventSource}.
Implicit Types (w : World) (d : Db).

(** Rows are only appended, numbers only drawn, recorded fingerprints never
    change. *)
Definition grows d d' : Prop :=
  d_events d `prefix_of` d_events d' /\ d_sequence d <= d_sequence d' /\
  forall l f, d_fingerprints d !! l = Some f -> d_fingerprints d' !! l = Some f.

(** The same of a world, whose requests are only counted up. *)
Definition grown w w' : Prop := grows (db w) (db w') /\ (requests w <= requests w')%nat.

Definition keeps {A} (m : M World Failure A) : Prop := forall w,
  match m w with Ok _ w' | Err _ w' => grown w w' | Panic => False end.

Lemma grows_refl d : grows d d.
Proof. split_and!; (done || lia). Qed.

Lemma grown_refl w : grown w w.
Proof. split; [apply grows_refl | done]. Qed.

Lemma grown_same w w' : db w = db w' -> requests w = requests w' -> grown w w'.
Proof. intros Hd Hr. unfold grown. rewrite Hd, Hr. split; [apply grows_refl | done]. Qed.

Lemma grown_trans w1 w2 w3 : grown w1 w2 -> grown w2 w3 -> grown w1 w3.
Proof. intros [(? & ? & ?) ?] [(? & ? & ?) ?]. split; [split_and!; [by etransitivity | lia | eauto] | lia]. Qed.

Lemma keeps_bind {A B} (m : M World Failure A) (f : A -> M World Failure B) :
  keeps m -> (forall a, keeps (f a)) -> keeps (m ≫= f).
Proof.
  intros Hm Hf w. specialize (Hm w). unfold mbind, M_bind. destruct (m w) as [a w1|x w1|]; [|done..].
  specialize (Hf a w1). destruct (f a w1); [| |done]; by eapply grown_trans.
Qed.

Lemma keeps_ret {A} (a : A) : keeps (mret a).
Proof. intros w. apply grown_refl. Qed.

Lemma keeps_fail {A} x : keeps (fail x : M World Failure A).
Proof. intros w. apply grown_refl. Qed.

Lemma keeps_lift {A} (r : Failure + A) : keeps (lift r).
Proof. destruct r; [apply keeps_fail | apply keeps_ret]. Qed.

Lemma keeps_ok_or {A} (o : option A) x : keeps (ok_or o x).
Proof. destruct o; [apply keeps_ret | apply keeps_fail]. Qed.

Lemma keeps_modify f : (forall w, grown w (f w)) -> keeps (modify f).
Proof. intros Hf w. apply Hf. Qed.

Lemma keeps_io ctx : keeps (io ctx).
Proof. intros w. unfold io. destruct (faults w) as [|[] ?]; by apply grown_same. Qed.

Lemma keeps_query {A} ctx (f : Db -> A) : keeps (query ctx f).
Proof. apply keeps_bind; [apply keeps_io|]. intros _ w. apply grown_refl. Qed.

Lemma keeps_execute ctx f : (forall d, grows d (f d)) -> keeps (execute ctx f).
Proof. intros Hf. apply keeps_bind; [apply keeps_io|]. intros _ w. split; [apply Hf | done]. Qed.

Lemma keeps_for_fold {A B} (l : list A) (b : B) f : (forall b x, keeps (f b x)) -> keeps (for_fold l b f).
Proof. intros Hf. revert b. induction l; intros b; cbn; auto using keeps_ret, keeps_bind. Qed.

Lemma keeps_for_each {A} (l : list A) f : (forall x, keeps (f x)) -> keeps (for_each l f).
Proof. intros Hf. induction l; cbn; auto using keeps_ret, keeps_bind. Qed.

Lemma query_cases {A} ctx (f : Db -> A) w :
  (exists fs, query ctx f w = Ok (f (db w)) (w <| faults := fs |>)) \/
  (exists fs x, query ctx f w = Err x (w <| faults := fs |>)).
Proof.
  unfold query, io, mbind, M_bind, gets. destruct w as [d [|[] fs] se al pr rq]; cbn.
  - left. by exists [].
  - left. by exists fs.
  - right. by exists fs, (Database ctx).
Qed.

Lemma keeps_insert l t tx i p : keeps (insert_event l t tx i p).
Proof.
  apply keeps_bind; [apply keeps_ok_or|]. intros j w. unfold mbind, M_bind.
  destruct (query_cases "inserting event" id w) as [[fs ->]|(fs & x & ->)]; [|by apply grown_same].
  unfold id, ok_or. destruct (checked_add i64 (d_sequence (db w)) 1) as [c|] eqn:Hc; [|by apply grown_same].
  apply checked_add_Some in Hc as [-> _]. cbn.
  destruct (existsb (conflicts tx i) (d_events (db w))); cbn; (split; [split_and!; cbn; [|lia|done]|done]);
    [done | by eexists].
Qed.

Create HintDb keeps.
#[local] Hint Resolve keeps_ret keeps_fail keeps_lift keeps_ok_or keeps_query keeps_insert grown_same : keeps.

Lemma keeps_observe l events : keeps (IndexerIngest.observe l events).
Proof.
  apply keeps_bind; [auto with keeps|]. intros [row|]; cbv zeta iota.
  - destruct (decide _); [auto with keeps|]. apply keeps_bind; [|auto with keeps].
    apply keeps_modify. auto with keeps.
  - apply keeps_bind; [|auto with keeps]. apply keeps_execute. intros d. split_and!; [done | cbn; lia|]. cbn.
    destruct (d_fingerprints d !! l) as [f|] eqn:Hl; [done|].
    intros l' f' Hl'. rewrite fin_maps.lookup_insert. by case_decide; subst; [congruence|].
Qed.

Lemma keeps_check_page events : keeps (check_page events).
Proof.
  apply keeps_for_each. intros l. apply keeps_bind; [apply keeps_observe|].
  intros []; auto with keeps.
Qed.

Lemma keeps_ingest_batch raw : keeps (ingest_batch raw).
Proof.
  apply keeps_for_fold. intros oc e. apply keeps_bind; [auto with keeps|]. intros [p|]; [|auto with keeps].
  apply keeps_bind; [auto with keeps|]. intros [ev|]; [|auto with keeps].
  apply keeps_bind; [|auto with keeps]. apply keeps_modify. auto with keeps.
Qed.

Lemma keeps_save cp : keeps (save_checkpoint cp).
Proof. apply keeps_execute. intros d. split_and!; (done || (cbn; lia)). Qed.

Lemma keeps_request {A} (f : nat -> option A) x : keeps (request f x).
Proof.
  apply keeps_bind; [intros w; apply grown_refl|]. intros n. apply keeps_bind; [|auto with keeps].
  apply keeps_modify. intros w. split; [apply grows_refl | cbn; lia].
Qed.

Lemma keeps_walk c ps fuel next tip r : keeps (walk c ps fuel next tip r).
Proof.
  revert next r. induction fuel as [|fuel IH]; intros next r; cbn; case_bool_decide; auto with keeps.
  apply keeps_bind; [|auto]. apply keeps_bind; [apply keeps_request|]. intros page.
  apply keeps_bind; [apply keeps_check_page|]. intros _.
  apply keeps_bind; [apply keeps_ingest_batch|]. intros oc.
  apply keeps_bind; [apply keeps_save|]. intros _.
  apply keeps_bind; [|auto with keeps]. apply keeps_modify. auto with keeps.
Qed.

Lemma keeps_run_to_tip c ps start : keeps (run_to_tip c ps start).
Proof.
  unfold run_to_tip, resume_ledger, checkpoint.
  apply keeps_bind; [apply keeps_bind; auto with keeps|]. intros next.
  apply keeps_bind; [apply keeps_request|]. intros tip.
  apply keeps_bind; [apply keeps_modify; auto with keeps|]. intros _.
  apply keeps_bind; [apply keeps_modify; auto with keeps|]. intros _.
  apply keeps_bind; [apply keeps_walk|]. intros r.
  apply keeps_bind; [case_bool_decide; [apply keeps_save | auto with keeps]|]. intros _.
  apply keeps_bind; [apply keeps_modify|]; auto with keeps.
Qed.

(** Detect, never reconcile.  Whatever a source answers and whichever
    statements fail, a run only appends to the event table and never changes a
    recorded fingerprint, whether it returns or fails. *)
Theorem append_only c ps start w :
  match run_to_tip c ps start w with
  | Ok _ w' | Err _ w' => grows (db w) (db w')
  | Panic => False
  end.
Proof.
  pose proof (keeps_run_to_tip c ps start w) as Hk.
  destruct (run_to_tip c ps start w); [apply Hk | apply Hk | done].
Qed.

Lemma attempt_grown c ps start w crash : grown w (attempt c ps start w crash).
Proof.
  unfold attempt. pose proof (keeps_run_to_tip c ps start (w <| faults := crash |>)) as Hk.
  destruct (run_to_tip _ _ _ _); [apply Hk | apply Hk | done].
Qed.
End AnySource.
