(* ===== verification/IndexerService.v ===== *)
(** * Indexer: the running service

    [run_until_shutdown] of src/indexer/src/backfill.rs and [Service::run] of
    src/indexer/src/service.rs: ingestion and the HTTP server under one
    lifecycle.  The jobs, the signal and the timers interleave, so the service
    is a step relation.  A pass takes effect when it ends; one that is dropped
    has its effect up to the statement it was waiting for. *)

From stdpp Require Import list.
From S2P Require Import Prelude Host IndexerEvents IndexerState IndexerAddress IndexerReorg IndexerProgress IndexerStore IndexerStoreSpec IndexerIngest IndexerIngestSpec IndexerBackfill.

(** Where [run_until_shutdown] stands: in a pass, in a pass after the request to
    stop, sleeping between passes, returned (with or without a pass it gave up
    on), or dropped by the service. *)
Inductive Ingestion :=
  | Passing
  | Draining
  | Sleeping
  | Returned (result : Failure + unit) (gave_up : bool)
  | Dropped.

(** The future of [axum::serve], and whether it ended well. *)
Inductive Http := Serving | Ended (ok : bool).

Inductive ServiceError :=
  | IngestionStopped
  | IngestionFailed (x : Failure)
  | ServerStopped
  | ServerFailed
  | IngestionFailedDraining (x : Failure)
  | ServerFailedDraining.

Abbreviation Outcome := (ServiceError + unit)%type.

(** Before the first [select!], between it and the return, after it. *)
Inductive Mode :=
  | Supervising
  | Stopping (outcome : Outcome) (ingestion_done http_done : bool)
  | Exited (outcome : Outcome).

Section Service.
Context `{JsonCodec} `{Strkey} `{ValuesCodec} `{EventSource}.

(** [signal]: the future [shutdown] is ready. *)
Record Service := mkService {
  world : World;
  signal : bool;
  ingestion : Ingestion;
  http : Http;
  mode : Mode;
}.

Implicit Types (w : World) (s : Service).

(** The watch channel: [stop_tx.send(true)] directly follows the [select!]. *)
Definition stop s : bool := match mode s with Supervising => false | _ => true end.

(** What the drain waits for, [None] while it is not there yet. *)
Definition ingestion_result (done : bool) (i : Ingestion) : option (option ServiceError) :=
  if done then Some None
  else match i with
       | Returned (inl x) _ => Some (Some (IngestionFailedDraining x))
       | Returned (inr _) _ => Some None
       | _ => None
       end.

Definition http_result (done : bool) (h : Http) : option (option ServiceError) :=
  if done then Some None
  else match h with
       | Ended ok => Some (if ok then None else Some ServerFailedDraining)
       | Serving => None
       end.

(** Keep the first failure. *)
Definition keep_first (outcome : Outcome) (result : option ServiceError) : Outcome :=
  match outcome, result with inr _, Some err => inl err | _, _ => outcome end.

Definition settle (outcome : Outcome) (ingestion_result http_result : option ServiceError) : Outcome :=
  foldl keep_first outcome [ingestion_result; http_result].

Variables (contract_id : string) (page_size start : Z).

Definition pass : M World Failure BackfillReport := run_to_tip contract_id page_size start.

(** The pass dropped at its [k]-th statement. *)
Definition cut (k : nat) w : World :=
  attempt contract_id page_size start w (take k (faults w ++ replicate k true) ++ [false]).

(** The loop of [run_until_shutdown]. *)
Inductive ingest_step (stop : bool) : Ingestion -> World -> Ingestion -> World -> Prop :=
  | Pass_done w r w' : pass w = Ok r w' -> ingest_step stop Passing w Sleeping w'
  | Pass_failed w x w' : pass w = Err x w' -> ingest_step stop Passing w (Returned (inl x) false) w'
  | Pass_stopped w : stop = true -> ingest_step stop Passing w Draining w
  | Drain_done w r w' : pass w = Ok r w' -> ingest_step stop Draining w (Returned (inr tt) false) w'
  | Drain_failed w x w' : pass w = Err x w' -> ingest_step stop Draining w (Returned (inl x) false) w'
  | Drain_elapsed w k : ingest_step stop Draining w (Returned (inr tt) true) (cut k w)
  | Sleep_over w : ingest_step stop Sleeping w Passing w
  | Sleep_stopped w : stop = true -> ingest_step stop Sleeping w (Returned (inr tt) false) w.

(** The state and the database when the process lets go of the ingestion. *)
Definition dropped (i : Ingestion) : Ingestion :=
  match i with Passing | Draining | Sleeping => Dropped | _ => i end.

Definition dropped_world (k : nat) s : World :=
  match ingestion s with Passing | Draining => cut k (world s) | _ => world s end.

Inductive step : Service -> Service -> Prop :=
  | Signalled w g i h m : step (mkService w g i h m) (mkService w true i h m)
  | Ingests w g i h m i' w' :
      match m with Supervising | Stopping _ false _ => True | _ => False end ->
      ingest_step (stop (mkService w g i h m)) i w i' w' ->
      step (mkService w g i h m) (mkService w' g i' h m)
  | Server_ends w g i m ok :
      match m with Exited _ => False | _ => True end ->
      step (mkService w g i Serving m) (mkService w g i (Ended ok) m)
  | Shutdown w i h :
      step (mkService w true i h Supervising) (mkService w true i h (Stopping (inr tt) false false))
  | Ingestion_ends w g r u h :
      step (mkService w g (Returned r u) h Supervising)
        (mkService w g (Returned r u) h
           (Stopping (inl match r with inr _ => IngestionStopped | inl x => IngestionFailed x end) true false))
  | Http_ends w g i ok :
      step (mkService w g i (Ended ok) Supervising)
        (mkService w g i (Ended ok) (Stopping (inl (if ok then ServerStopped else ServerFailed)) false true))
  | Drained w g i h o i_done h_done ri rh :
      ingestion_result i_done i = Some ri -> http_result h_done h = Some rh ->
      step (mkService w g i h (Stopping o i_done h_done)) (mkService w g i h (Exited (settle o ri rh)))
  | Drain_timed_out k w g i h o i_done h_done :
      step (mkService w g i h (Stopping o i_done h_done))
        (mkService (dropped_world k (mkService w g i h (Stopping o i_done h_done))) g (dropped i) h (Exited o)).

Inductive run : Service -> Service -> Prop :=
  | Run_refl s : run s s
  | Run_step s t u : run s t -> step t u -> run s u.

(** A process starts on the database it finds; [crash] are its faults. *)
Definition launch w (crash : list bool) : Service :=
  mkService (mkWorld (db w) crash [] (alerts w) new_progress (requests w)) false Passing Serving Supervising.

(** Processes one after the other, each to its exit or to the moment it is killed. *)
Inductive lived : World -> Prop :=
  | Lived_fresh : lived fresh
  | Lived_next w crash s k : lived w -> run (launch w crash) s -> lived (dropped_world k s).

(** ** What the service promises *)

Definition settled (i : Ingestion) : bool :=
  match i with Sleeping | Returned (inr _) false => true | _ => false end.

Definition gave_up_pass (i : Ingestion) : bool :=
  match i with Dropped | Returned _ true => true | _ => false end.

(** The checkpoint is complete, and at or past a tip the source reported from
    request [N] on. *)
Definition up_to_date (N : nat) w : Prop := exists cp m tip,
  d_checkpoint (db w) = Some cp /\ IndexerStore.backfill_complete cp = true /\
  (N <= m)%nat /\ latest_ledger m = Some tip /\ tip <= last_ledger cp.

(** An error reports what happened. *)
Definition explains s (e : ServiceError) : Prop :=
  match e with
  | IngestionStopped => False
  | IngestionFailed x | IngestionFailedDraining x => ingestion s = Returned (inl x) false
  | ServerStopped => http s = Ended true
  | ServerFailed | ServerFailedDraining => http s = Ended false
  end.

Definition accounts_for s (o : Outcome) : Prop :=
  match o with inl e => explains s e | inr _ => signal s = true end.

Definition answers (N : nat) : Prop := forall n, (N <= n)%nat ->
  (forall from, is_Some (get_events n contract_id from page_size)) /\ is_Some (latest_ledger n).

(** ** Passes *)

Variable history : list RawEvent.
Hypothesis Hhistory : honest_history history.
Hypothesis Hstart : 0 <= start < 2 ^ 32.
Hypothesis Hpage : 1 <= page_size < 2 ^ 32.
Variable closed : nat -> Z.
Hypothesis Hsource : honest_source history contract_id closed.

Abbreviation tracked := (tracking history start True).
Abbreviation roomy := (roomy history).

Lemma pass_cases n w :
  tracked n w ->
  match pass w with
  | Ok _ w' => (exists n', tracked n' w') /\ up_to_date (requests w) w'
  | Err _ w' => exists n', tracked n' w'
  | Panic => False
  end.
Proof.
  intros Ht.
  pose proof (run_to_tip_spec history contract_id page_size start Hhistory Hstart Hpage True closed Hsource
    0 (or_introl I) _ (or_introl I) n w Ht ltac:(lia) (Z.le_refl _)) as Hwp.
  unfold wp in Hwp. fold pass in Hwp. destruct (pass w) as [r w'|x w'|]; [| |done].
  - destruct Hwp as (n' & tip & _ & Ht' & Htip & Hle & Hcp & _). split; [by exists n'|].
    exists (mkCheckpoint (b_last_ledger r) true), (requests w), tip. by split_and!.
  - destruct Hwp as (_ & n' & _ & Ht' & _). by exists n'.
Qed.

Lemma pass_requests w :
  match pass w with Ok _ w' | Err _ w' => (requests w <= requests w')%nat | Panic => True end.
Proof.
  pose proof (keeps_run_to_tip contract_id page_size start w) as Hk. fold pass in Hk.
  destruct (pass w); [apply Hk | apply Hk | done].
Qed.

(** Cursors left later were left before. *)
Lemma roomy_before w w' : roomy w' -> d_sequence (db w) <= d_sequence (db w') -> roomy w.
Proof. unfold IndexerBackfill.roomy. lia. Qed.

Lemma pass_draws w :
  match pass w with Ok _ w' | Err _ w' => d_sequence (db w) <= d_sequence (db w') | Panic => True end.
Proof.
  pose proof (keeps_run_to_tip contract_id page_size start w) as Hk. fold pass in Hk.
  destruct (pass w); [apply Hk | apply Hk | done].
Qed.

Lemma cut_draws k w : d_sequence (db w) <= d_sequence (db (cut k w)).
Proof. apply attempt_grown. Qed.

(** With the source answering, no fault to come and cursors left, a pass
    returns. *)
Lemma pass_healthy n w :
  tracked n w -> roomy w -> faults w = [] -> answers (requests w) -> exists r w', pass w = Ok r w' /\ faults w' = [].
Proof.
  intros Ht Hroom Hf Hr.
  destruct (clean_run history contract_id page_size start Hhistory Hstart Hpage closed n w Hsource Ht Hroom Hr)
    as (r & w' & n' & tip & Hrun & _ & _ & _ & Hc & _).
  assert (w <| faults := [] |> = w) as Hw by (destruct w; cbn in *; by subst).
  rewrite Hw in Hrun. exists r, w'. split; [done|]. by destruct Hc.
Qed.

Lemma cut_tracked k n w : tracked n w -> exists n', tracked n' (cut k w).
Proof.
  intros (_ & Ht). unfold cut, attempt. set (crash := _ ++ [false]).
  assert (tracked n (w <| faults := crash |>)) as Ht' by (split; [by left | exact Ht]).
  pose proof (pass_cases _ _ Ht') as Hp. fold pass. destruct (pass _); [apply Hp | done | by exists n].
Qed.

Lemma cut_requests k w : (requests w <= requests (cut k w))%nat.
Proof. apply attempt_grown. Qed.

(** ** The invariant of a process *)

(** What is known of the mode. *)
Definition consistent s : Prop :=
  match mode s with
  | Supervising => match ingestion s with Draining | Dropped | Returned (inr _) _ => False | _ => True end
  | Stopping o _ _ | Exited o => accounts_for s o
  end.

(** [N]: the requests served before the process started. *)
Record inv (N : nat) (crash : list bool) s : Prop := {
  inv_tracked : exists n, tracked n (world s);
  inv_requests : (N <= requests (world s))%nat;
  inv_settled : settled (ingestion s) = true -> up_to_date N (world s);
  inv_failed x u : ingestion s = Returned (inl x) u -> u = false;
  inv_healthy : crash = [] -> answers N -> roomy (world s) ->
    (gave_up_pass (ingestion s) = true \/ faults (world s) = []) /\ forall x u, ingestion s <> Returned (inl x) u;
  inv_mode : consistent s;
}.

Lemma up_to_date_mono N N' w : (N <= N')%nat -> up_to_date N' w -> up_to_date N w.
Proof. intros HN (cp & m & tip & ? & ? & ? & ? & ?). exists cp, m, tip. split_and!; (done || lia). Qed.

Lemma answers_mono N N' : (N <= N')%nat -> answers N -> answers N'.
Proof. intros HN Ha n Hn. apply Ha. lia. Qed.

(** What a step of the loop does to the first five clauses. *)
Lemma ingest_inv N crash st i w i' w' g h m :
  ingest_step st i w i' w' -> inv N crash (mkService w g i h m) ->
  consistent (mkService w' g i' h m) -> inv N crash (mkService w' g i' h m).
Proof.
  intros Hstep [[n Ht] HN Hset Hfl Hh _] Hc; cbn in *.
  assert (forall r w1, pass w = Ok r w1 -> (exists n', tracked n' w1) /\ (N <= requests w1)%nat /\ up_to_date N w1) as Hok.
  { intros r w1 Hp. pose proof (pass_cases n w Ht) as Hcs. pose proof (pass_requests w) as Hr. rewrite Hp in *.
    destruct Hcs as [? Hu]. split_and!; [done | lia | by eapply up_to_date_mono]. }
  assert (forall x w1, pass w = Err x w1 -> (exists n', tracked n' w1) /\ (N <= requests w1)%nat) as Herr.
  { intros x w1 Hp. pose proof (pass_cases n w Ht) as Hcs. pose proof (pass_requests w) as Hr. rewrite Hp in *.
    split; [done | lia]. }
  assert (crash = [] -> answers N -> gave_up_pass i = false -> roomy w -> exists r w1, pass w = Ok r w1 /\ faults w1 = []) as Hgood.
  { intros Hcr Ha Hg Hm. destruct (Hh Hcr Ha Hm) as [[Hg'|Hf] _]; [congruence|].
    eapply pass_healthy; [done..|]. by eapply answers_mono. }
  assert (forall j, (forall x u, j <> Returned (inl x) u) -> gave_up_pass i = false -> crash = [] -> answers N -> roomy w ->
    (gave_up_pass j = true \/ faults w = []) /\ forall x u, j <> Returned (inl x) u) as Hquiet.
  { intros j Hj Hg Hcr Ha Hm. split; [|done]. destruct (Hh Hcr Ha Hm) as [[|] _]; [congruence | by right]. }
  pose proof (pass_draws w) as Hdraw.
  destruct Hstep as [w r w' Hp|w x w' Hp|w Hs|w r w' Hp|w x w' Hp|w k|w|w Hs]; cbn in *.
  - destruct (Hok _ _ Hp) as (? & ? & ?). rewrite Hp in Hdraw. split; try done. intros Hcr Ha Hm.
    destruct (Hgood Hcr Ha eq_refl) as (r1 & w1 & Hp1 & Hf); [by eapply roomy_before|].
    split; [right|done]. cbn. congruence.
  - destruct (Herr _ _ Hp). rewrite Hp in Hdraw. split; try done; [by intros x' u [= <- <-]|]. intros Hcr Ha Hm.
    destruct (Hgood Hcr Ha eq_refl) as (r1 & w1 & Hp1 & Hf); [by eapply roomy_before|]. congruence.
  - split; try done; [by exists n | by apply Hquiet].
  - destruct (Hok _ _ Hp) as (? & ? & ?). rewrite Hp in Hdraw. split; try done. intros Hcr Ha Hm.
    destruct (Hgood Hcr Ha eq_refl) as (r1 & w1 & Hp1 & Hf); [by eapply roomy_before|].
    split; [right|done]. cbn. congruence.
  - destruct (Herr _ _ Hp). rewrite Hp in Hdraw. split; try done; [by intros x' u [= <- <-]|]. intros Hcr Ha Hm.
    destruct (Hgood Hcr Ha eq_refl) as (r1 & w1 & Hp1 & Hf); [by eapply roomy_before|]. congruence.
  - split; try done; [by eapply cut_tracked | pose proof (cut_requests k w); cbn; lia |]. intros _ _ _. split; [by left | done].
  - split; try done; [by exists n | by apply Hquiet].
  - split; try done; [by exists n | by apply Hquiet].
Qed.

Lemma ingest_consistent w g i h m i' w' :
  ingest_step (stop (mkService w g i h m)) i w i' w' -> consistent (mkService w g i h m) ->
  consistent (mkService w' g i' h m).
Proof.
  intros Hstep Hc. destruct m as [|o a b|o]; unfold consistent, stop in *; cbn in *.
  - by inversion Hstep; subst.
  - destruct o as [e|[]]; [|done]. destruct e; cbn in *; try done; by inversion Hstep; subst.
  - destruct o as [e|[]]; [|done]. destruct e; cbn in *; try done; by inversion Hstep; subst.
Qed.

Lemma accounts_keep_first s o r :
  accounts_for s o -> (forall e, r = Some e -> explains s e) -> accounts_for s (keep_first o r).
Proof. intros Ho Hr. destruct o as [e|[]], r as [e'|]; cbn in *; try done. by apply Hr. Qed.

Lemma dropped_returned i r u : dropped i = Returned r u -> i = Returned r u.
Proof. by destruct i. Qed.

Lemma timed_out_inv N crash s k o :
  inv N crash s -> accounts_for s o ->
  inv N crash (mkService (dropped_world k s) (signal s) (dropped (ingestion s)) (http s) (Exited o)).
Proof.
  destruct s as [w g i h m]. intros [[n Ht] HN Hset Hfl Hh _] Ho; cbn in *.
  assert ((exists n', tracked n' (dropped_world k (mkService w g i h m))) /\
    (N <= requests (dropped_world k (mkService w g i h m)))%nat /\
    d_sequence (db w) <= d_sequence (db (dropped_world k (mkService w g i h m)))) as (Hn & Hr & Hd).
  { pose proof (cut_tracked k n w Ht). pose proof (cut_requests k w). pose proof (cut_draws k w).
    unfold dropped_world; cbn. destruct i; split_and!; (done || lia || by exists n). }
  split; cbn.
  - done.
  - done.
  - intros Hs. destruct i; try done. by apply Hset.
  - intros x u Hi%dropped_returned. by apply Hfl in Hi.
  - intros Hcr Ha Hm. destruct (Hh Hcr Ha ltac:(by eapply roomy_before)) as [Hg Hx].
    split; [|by intros x u Hi%dropped_returned; eapply Hx].
    destruct i; try (by left). destruct Hg; [by left | by right].
  - unfold consistent; cbn. destruct o as [[]|]; cbn in *; try done; by rewrite Ho.
Qed.

Lemma service_step_inv N crash s t : step s t -> inv N crash s -> inv N crash t.
Proof.
  intros Hstep Hi. destruct Hstep as [w g i h m|w g i h m i' w' _ Hs|w g i m ok Hm|w i h|w g r u h|w g i ok|
    w g i h o a b ri rh Hri Hrh|k w g i h o a b].
  - destruct Hi as [? ? ? ? ? Hc]. split; try done. unfold consistent in *; cbn in *.
    destruct m as [|o ? ?|o]; [done| |]; by destruct o.
  - eapply ingest_inv; [done..|]. eapply ingest_consistent; [done|]. apply Hi.
  - destruct Hi as [? ? ? ? ? Hc]. split; try done. unfold consistent in *; cbn in *.
    destruct m as [|o ? ?|o]; [done| |]; by destruct o as [[]|[]].
  - destruct Hi as [? ? ? ? ? Hc]. by split.
  - destruct Hi as [? ? ? Hf ? Hc]. split; try done. unfold consistent in *; cbn in *.
    destruct r as [x|[]]; [|done]. cbn. by rewrite (Hf x u).
  - destruct Hi as [? ? ? ? ? Hc]. split; try done. unfold consistent; cbn. by destruct ok.
  - destruct Hi as [? ? ? Hf ? Hc]. split; try done. unfold consistent in *; cbn in *.
    change (accounts_for (mkService w g i h (Exited (settle o ri rh))) (settle o ri rh)).
    unfold settle; cbn. apply accounts_keep_first; [apply accounts_keep_first|].
    + destruct o as [[]|[]]; done.
    + intros e ->. unfold ingestion_result in Hri. destruct a; [done|]. destruct i as [| | |[x|[]] u|]; try done.
      injection Hri as <-. cbn in *. by rewrite (Hf x u).
    + intros e ->. unfold http_result in Hrh. destruct b; [done|]. destruct h as [|[]]; try done. by injection Hrh as <-.
  - apply (timed_out_inv _ _ (mkService w g i h (Stopping o a b)) k o Hi). apply Hi.
Qed.

Lemma launch_inv w crash : (exists n, tracked n w) -> inv (requests w) crash (launch w crash).
Proof.
  intros [n Ht]. split; cbn; try done.
  - exists n. destruct Ht as (_ & Hh & Hf & Ha & Hc). split; [by left|]. by split_and!.
  - intros -> _ _. split; [by right | done].
Qed.

Lemma run_inv w crash s : (exists n, tracked n w) -> run (launch w crash) s -> inv (requests w) crash s.
Proof.
  intros Ht Hrun. remember (launch w crash) as s0 eqn:Hs0. induction Hrun as [s|s t u Hrun IH Hstep].
  - subst. by apply launch_inv.
  - eapply service_step_inv; [done|]. by apply IH.
Qed.

Lemma lived_tracked w : lived w -> exists n, tracked n w.
Proof.
  induction 1 as [|w crash s k Hl IH Hrun].
  - exists 0%nat. by apply fresh_tracking.
  - pose proof (run_inv _ _ _ IH Hrun) as [[n Ht] _ _ _ _ _]. unfold dropped_world.
    destruct (ingestion s); try (by exists n); by eapply cut_tracked.
Qed.

(** C6: over a source whose pages hold every event of their ledgers and claim no
    ledger beyond them, the service loses nothing, whatever becomes of it.
    Processes are started one after the other on the same database, with any
    interleaving of passes, sleeps, the HTTP server's end, the signal and the
    drain windows, and each goes on to its exit or is killed in the middle of a
    pass.  At every moment
    the store holds a prefix of the recognised history, nothing twice, without
    an alert, and what the checkpoint promises is stored.  Between passes, and
    after a shutdown that was given the time to finish its pass, the checkpoint
    is complete and has reached a tip this process was told.  The exit code
    tells the truth: success only after a signal, and an error is that of the
    job that failed - ingestion never just stops.  And without faults, the
    source answering and cursors left for a pass, ingestion has not failed, and
    the pass it is in returns.  The cursors stored ascend, with a gap wherever a
    ledger was read again. *)
Theorem service_lossless w crash s :
  lived w -> run (launch w crash) s ->
  (exists n, holds (db (world s)) (take n (expected history start)) /\ alerts (world s) = [] /\
     forall cp, d_checkpoint (db (world s)) = Some cp -> covered history start (last_ledger cp + 1) n) /\
  (settled (ingestion s) = true -> up_to_date (requests w) (world s)) /\
  (forall o, mode s = Exited o -> accounts_for s o) /\
  (crash = [] -> answers (requests w) -> roomy (world s) ->
     (forall x u, ingestion s <> Returned (inl x) u) /\
     (forall x, mode s <> Exited (inl (IngestionFailed x))) /\
     (ingestion s = Passing -> exists r w', pass (world s) = Ok r w')).
Proof.
  intros Hl Hrun. pose proof (run_inv _ _ _ (lived_tracked _ Hl) Hrun) as [[n Ht] HN Hset Hfl Hh Hc].
  assert (forall o, mode s = Exited o -> accounts_for s o) as Hexit.
  { intros o Ho. unfold consistent in Hc. by rewrite Ho in Hc. }
  split; [|split; [done|split; [done|]]].
  - exists n. destruct Ht as (_ & Hd & _ & Ha & Hcp). split_and!; [done..|].
    intros cp Hck. rewrite Hck in Hcp. apply Hcp.
  - intros Hcr Ha Hm. destruct (Hh Hcr Ha Hm) as [Hg Hx]. split_and!; [done| |].
    + intros x Hmode. by apply (Hx x false), (Hexit _ Hmode).
    + intros Hp. rewrite Hp in Hg. destruct Hg as [|Hf]; [done|].
      destruct (pass_healthy n (world s) Ht Hm Hf ltac:(by eapply answers_mono)) as (r & w' & Hr & _). by exists r, w'.
Qed.

(** A shutdown whose drain times out is reported like one that drained: the pass
    was dropped and the server still serving. *)
Lemma timed_out_succeeds w : exists s, run (launch w []) s /\
  mode s = Exited (inr tt) /\ ingestion s = Dropped /\ http s = Serving.
Proof.
  eexists. split; [|split; [|split]].
  - eapply Run_step; [|apply (Drain_timed_out 0)]. eapply Run_step; [|apply Shutdown].
    eapply Run_step; [|apply Signalled with (g := false)]. apply Run_refl.
  - done.
  - done.
  - done.
Qed.
End Service.
