(* ===== verification/IndexerMirror.v ===== *)
(** * Indexer against the registry

    The folds of IndexerState.v over what the registry publishes: the indexer's
    configuration and tasks are the contract's. *)

From S2P Require Import Prelude Host Contract SampleChain RegistryTypes RegistryInternal RegistryReputation RegistryTask RegistryStaking RegistryAdmin RegistryBatch RegistryViews RegistrySystem RegistrySample RegistryInvariants RegistryReplay IndexerEvents IndexerWire IndexerState IndexerAddress IndexerReorg IndexerProgress IndexerStore IndexerStoreSpec IndexerIngest IndexerIngestSpec.

Section Mirror.
Context `{Encoding}.
Implicit Types (ev : Event) (log : list Event) (v : View).

(** The payloads of a log (newest event first), oldest first. *)
Definition feed log : list EventPayload.t := omap decoded (reverse log).

(** ** Configuration *)

Definition config_shows (c : AdminConfig) v : Prop :=
  ac_admin c = strkey <$> v_admin v /\ ac_reward_token c = strkey <$> v_reward_token v /\
  ac_fee_bps c = v_fee_bps v /\ ac_paused c = v_paused v /\ ac_min_reward c = v_min_reward v.

(** The fees the events say were swept. *)
Definition swept (p : EventPayload.t) : Z :=
  match p with EventPayload.FeesSwept _ amount _ => amount | _ => 0 end.

Lemma on_task_fields id f v :
  v_admin (on_task id f v) = v_admin v /\ v_reward_token (on_task id f v) = v_reward_token v /\
  v_fee_bps (on_task id f v) = v_fee_bps v /\ v_paused (on_task id f v) = v_paused v /\
  v_min_reward (on_task id f v) = v_min_reward v.
Proof. unfold on_task. by destruct (v_task v !! id). Qed.

Lemma config_on_task c id f v : config_shows c v -> config_shows c (on_task id f v).
Proof.
  unfold config_shows. by destruct (on_task_fields id f v) as (-> & -> & -> & -> & ->).
Qed.

Lemma config_silent c v ev : config_shows c v -> decoded ev = None -> config_shows c (replay ev v).
Proof. intros Hc Hd. by destruct ev. Qed.

Lemma config_step c v ev x p :
  config_shows c v -> decoded ev = Some p -> payload x = p ->
  in_range i128 (total_fees_swept c + swept p) ->
  exists c', ConfigFold.step c x = Some c' /\ config_shows c' (replay ev v) /\
    total_fees_swept c' = total_fees_swept c + swept p.
Proof.
  intros Hc Hd Hx Hr. unfold ConfigFold.step. rewrite Hx. clear Hx.
  destruct ev; cbn in Hd; simplify_eq; cbn [swept replay] in *;
    try (unfold checked_add; rewrite checked_in_range by (by cbn in Hr));
    (eexists; split; [reflexivity|]; split; [|cbn; lia]); try (by apply config_on_task);
    destruct Hc as (H1 & H2 & H3 & H4 & H5); split_and!; cbn; try done.
  by rewrite H4.
Qed.

Lemma feed_cons ev log : feed (ev :: log) = feed log ++ option_list (decoded ev).
Proof. unfold feed. rewrite reverse_cons, omap_app. cbn. by destruct (decoded ev). Qed.

Lemma config_mirror log evs :
  payload <$> evs = feed log -> Forall sound log ->
  list_sum swept (feed log) <= int_max i128 ->
  exists c, ConfigFold.fold evs = Some c /\ config_shows c (replay_log log) /\
    total_fees_swept c = list_sum swept (feed log) /\ 0 <= list_sum swept (feed log).
Proof.
  revert evs. induction log as [|ev log IH]; intros evs Hev Hs Hmax.
  - apply fmap_nil_inv in Hev as ->. by exists ConfigFold.unknown.
  - apply list.Forall_cons in Hs as [Hsev Hs]. rewrite feed_cons in Hev, Hmax |- *.
    rewrite list_sum_app in *.
    assert (0 <= list_sum swept (option_list (decoded ev))) as Hnn.
    { destruct ev; cbn in *; lia. }
    destruct (decoded ev) as [p|] eqn:Hd; cbn in Hev, Hmax, Hnn |- *.
    + apply fmap_app_inv in Hev as (evs1 & evs2 & H1 & H2 & ->).
      destruct evs2 as [|x [|]]; simplify_eq/=. destruct (IH evs1 ltac:(by symmetry)) as (c & Hf & Hc & Ht & H0); [done | cbn in *; lia |].
      destruct (config_step c (replay_log log) ev x (payload x) Hc Hd eq_refl) as (c' & Hstep & Hc' & Ht').
      { rewrite Ht. unfold in_range. cbn in *. lia. }
      exists c'. unfold ConfigFold.fold in *. rewrite foldl_app, Hf. cbn. rewrite Hstep.
      split_and!; try done; cbn in *; lia.
    + rewrite app_nil_r in Hev. destruct (IH evs Hev) as (c & Hf & Hc & Ht & H0); [done | cbn in *; lia |].
      exists c. split_and!; [done | by apply config_silent | cbn; lia..].
Qed.

(** ** Tasks *)

Definition shown_status (st : TaskStatus) : TaskStatus.t :=
  match st with
  | Pending => TaskStatus.Pending
  | Claimed => TaskStatus.Claimed
  | Executed => TaskStatus.Executed
  | Cancelled => TaskStatus.Cancelled
  | Expired => TaskStatus.Expired
  end.

(** The indexer's task against the contract's. *)
Definition task_shows (ts : TaskState) (t : TaskView) : Prop :=
  ts_owner ts = strkey (tv_owner t) /\ ts_status ts = shown_status (tv_status t) /\
  ts_reward ts = tv_reward t /\ ts_deadline ts = tv_deadline t /\
  ts_condition ts = strkey <$> tv_condition t /\ ts_keeper ts = strkey <$> tv_claimer t /\
  ts_claim_ledger ts = tv_claim_ledger t.

(** Both unknown, or both known and alike. *)
Definition shows (ts : option TaskState) (t : option TaskView) : Prop :=
  match ts, t with
  | Some ts, Some t => task_shows ts t
  | None, None => True
  | _, _ => False
  end.

Lemma on_task_lookup id f v : v_task (on_task id f v) !! id = f <$> v_task v !! id.
Proof.
  unfold on_task. destruct (v_task v !! id) as [t|] eqn:Hid; cbn; [|done]. by rewrite lookup_insert_eq.
Qed.

Lemma on_task_lookup_ne id id' f v : id <> id' -> v_task (on_task id f v) !! id' = v_task v !! id'.
Proof.
  intros Hne. unfold on_task. destruct (v_task v !! id); cbn; [|done]. by rewrite lookup_insert_ne.
Qed.

Lemma shows_step id ts v ev x p :
  shows ts (v_task v !! id) -> decoded ev = Some p -> payload x = p ->
  EventPayload.task_id p = Some id ->
  shows (TaskFold.step id ts x) (v_task (replay ev v) !! id).
Proof.
  intros Hs Hd Hx Hid. unfold TaskFold.step. rewrite Hx. clear Hx.
  destruct ev; cbn in Hd; simplify_eq; cbn in Hid; simplify_eq; cbn [replay];
    rewrite ?on_task_lookup; cbn [v_task update update_v_task]; rewrite ?lookup_insert_eq;
    try done; destruct ts as [ts|], (v_task v !! id) as [t|]; try done; cbn in *; try done;
    destruct Hs as (? & ? & ? & ? & ? & ? & ?); by split_and!.
Qed.

Lemma shows_other id v ev :
  (forall p, decoded ev = Some p -> EventPayload.task_id p <> Some id) ->
  v_task (replay ev v) !! id = v_task v !! id.
Proof.
  intros Hne. destruct ev; cbn in *; try done;
    try (apply on_task_lookup_ne; intros ->; by eapply Hne).
  rewrite lookup_insert_ne; [done|]. intros ->. by eapply Hne.
Qed.

(** A task's history in the feed. *)
Definition history_of (id : Z) (evs : list IndexedEvent) : list IndexedEvent :=
  filter (fun e => EventPayload.task_id (payload e) = Some id) evs.

Lemma task_mirror log evs id :
  payload <$> evs = feed log ->
  shows (TaskFold.fold id (history_of id evs)) (v_task (replay_log log) !! id).
Proof.
  revert evs. induction log as [|ev log IH]; intros evs Hev.
  - apply fmap_nil_inv in Hev as ->. done.
  - rewrite feed_cons in Hev. cbn [replay_log foldr]. fold (replay_log log).
    destruct (decoded ev) as [p|] eqn:Hd; cbn in Hev.
    + apply fmap_app_inv in Hev as (evs1 & evs2 & H1 & H2 & ->).
      destruct evs2 as [|x [|]]; simplify_eq/=. specialize (IH evs1 ltac:(by symmetry)).
      unfold history_of, TaskFold.fold in *. rewrite list.filter_app, foldl_app, filter_cons.
      case_decide as Hid; cbn.
      * by eapply shows_step.
      * rewrite shows_other; [done|]. intros p Hp. congruence.
    + rewrite app_nil_r in Hev. rewrite shows_other; [by apply IH|]. congruence.
Qed.

(** ** The queries *)

Section Queries.
Context `{JsonCodec} `{Strkey}.
Implicit Types (w : World) (es : list Entry).

Lemma payload_contents d es : holds d es -> payload <$> contents d es = snd <$> es.
Proof.
  intros Hh%holds_length. unfold contents. revert es Hh.
  induction (cursors d) as [|c cs IH]; intros [|x es] Hl; try done. cbn in *. f_equal. apply IH. lia.
Qed.

(** The query of [admin_config] leaves out no event its fold reads. *)
Definition admin_event (e : IndexedEvent) : bool :=
  bool_decide (EventPayload.event_type (payload e) ∈
    [EventType.Initialized; EventType.Paused; EventType.FeeUpdated; EventType.AdminTransferred;
     EventType.MinRewardUpdated; EventType.FeesSwept; EventType.Upgraded]).

Lemma config_fold_filter evs : ConfigFold.fold (filter admin_event evs) = ConfigFold.fold evs.
Proof.
  unfold ConfigFold.fold. generalize (Some ConfigFold.unknown) as acc.
  induction evs as [|e evs IH]; intros acc; [done|]. rewrite filter_cons. case_decide as He; cbn; [apply IH|].
  rewrite IH. f_equal. destruct acc as [c|]; [|done]. cbn. unfold ConfigFold.step.
  unfold admin_event in He. by destruct (payload e).
Qed.

Lemma admin_config_ok w es c :
  faults w = [] -> holds (db w) es -> ConfigFold.fold (contents (db w) es) = Some c ->
  admin_config w = Ok c w.
Proof.
  intros Hf Hh Hc. unfold admin_config, mbind, M_bind.
  rewrite (select_ok _ _ admin_event _ es Hf Hh) by (intros; apply of_admin_spec).
  by rewrite config_fold_filter, Hc.
Qed.

Lemma task_state_ok id w es :
  faults w = [] -> holds (db w) es -> in_range u64 id ->
  task_state id w = Ok (TaskFold.fold id (history_of id (contents (db w) es))) w.
Proof.
  intros Hf Hh Hid. unfold task_state, mbind, M_bind. by rewrite (task_history_ok _ _ es).
Qed.

Context `{HL : Ledger}.

(** The indexer mirrors the registry.  Over a store that holds the events a
    registry has published, the API's configuration is the contract's - admin,
    reward token, fee, pause flag, minimum reward, with the fees swept summed -
    and the API's state of any task is the contract's task: unknown exactly
    when the contract has none, and otherwise with its owner, status, reward,
    deadline, condition, keeper and claim ledger. *)
Theorem indexer_mirrors_registry self (s : RS) w es :
  logged self s -> faults w = [] -> holds (db w) es -> snd <$> es = feed (Host.events s) ->
  list_sum swept (snd <$> es) <= int_max i128 ->
  (exists c, admin_config w = Ok c w /\
     ac_admin c = strkey <$> s_admin (store s) /\
     ac_reward_token c = strkey <$> s_reward_token (store s) /\
     ac_fee_bps c = s_fee_bps (store s) /\ ac_paused c = s_paused (store s) /\
     ac_min_reward c = s_min_reward (store s) /\
     total_fees_swept c = list_sum swept (snd <$> es)) /\
  (forall id, in_range u64 id -> exists ts, task_state id w = Ok ts w /\
     shows ts (view_task <$> s_task (store s) !! id)).
Proof.
  intros Hl Hf Hh Hfeed Hmax. rewrite <- (payload_contents _ _ Hh) in Hfeed.
  pose proof (logged_replay _ _ Hl) as Hview. split.
  - destruct (config_mirror _ _ Hfeed (logged_sound _ _ Hl)) as (c & Hc & (Ha & Ht & Hfe & Hp & Hm) & Hsum & _).
    { rewrite <- Hfeed. by rewrite payload_contents. }
    rewrite <- Hfeed, (payload_contents _ _ Hh) in Hsum. rewrite <- Hview in *.
    exists c. split; [by eapply admin_config_ok|]. by split_and!.
  - intros id Hid. eexists. split; [by apply task_state_ok|].
    pose proof (task_mirror _ _ id Hfeed) as Hs. rewrite <- Hview in Hs. unfold view in Hs; cbn [v_task] in Hs.
    by rewrite lookup_fmap in Hs.
Qed.
End Queries.
End Mirror.
