(* ===== verification/IndexerEndToEnd.v ===== *)
(** * From the registry to the API

    The registry's events, served by an honest source, ingested by an
    interrupted and resumed backfill, folded by the API: the answers are the
    contract's. *)

From Stdlib Require Import Sorted.
From S2P Require Import Prelude Host Contract SampleChain RegistryTypes RegistryInternal RegistryReputation RegistryTask RegistryStaking RegistryAdmin RegistryBatch RegistryViews RegistrySystem RegistrySample RegistryInvariants RegistryReplay IndexerEvents IndexerWire IndexerState IndexerAddress IndexerReorg IndexerProgress IndexerStore IndexerStoreSpec IndexerIngest IndexerIngestSpec IndexerBackfill IndexerMirror.

Section EndToEnd.
Context `{Encoding} `{JsonCodec} `{Strkey} `{ValuesCodec} `{EventSource} `{HL : Ledger}.
Variables (contract_id : string) (page_size start : Z).

(** What the source serves is what the registry published. *)
Lemma carried_feed history log :
  Forall2 carries history (reverse log) -> snd <$> recognised history = feed log.
Proof.
  unfold feed, recognised. induction 1 as [|raw ev history evs Hc Hcs IH]; [done|].
  cbn. unfold entry_of at 1. rewrite (parse_carried _ _ Hc). destruct (decoded ev); cbn; by rewrite ?IH.
Qed.

(** A run that reaches a tip beyond the history stores all of it. *)
Lemma covers_history history n tip :
  Forall (fun e => start <= re_ledger e <= tip) history -> covered history start (tip + 1) n ->
  take n (expected history start) = recognised history.
Proof.
  intros Hall [_ Hlen]. unfold expected, upto, from_ledger, between in *.
  rewrite filter_all in Hlen |- *.
  - by apply take_ge.
  - eapply list.Forall_impl; [exact Hall|]. cbn. lia.
  - eapply list.Forall_impl; [exact Hall|]. cbn. lia.
Qed.

(** C5: end to end.  Take any state of the registry and the events it published,
    served by an honest source - one whose page holds every event of its ledgers,
    which the client of rpc.rs does not ensure.  However often the backfill was
    interrupted before, as long as the runs do not exhaust the 2^63 - 1 cursors,
    one run without faults returns, and from then on the API's configuration and
    the API's state of every task are the contract's. *)
Theorem end_to_end self (s : RS) history closed crashes :
  logged self s -> Forall2 carries history (reverse (Host.events s)) ->
  honest_history history -> 0 <= start < 2 ^ 32 -> 1 <= page_size < 2 ^ 32 ->
  honest_source history contract_id closed ->
  list_sum swept (feed (Host.events s)) <= int_max i128 ->
  Z.of_nat (S (length crashes) * length history) <= int_max i64 ->
  (forall n tip, latest_ledger n = Some tip -> Forall (fun e => start <= re_ledger e <= tip) history) ->
  let w := foldl (attempt contract_id page_size start) fresh crashes in
  (forall n, (requests w <= n)%nat ->
     (forall from, is_Some (get_events n contract_id from page_size)) /\ is_Some (latest_ledger n)) ->
  exists r w', run_to_tip contract_id page_size start (w <| faults := [] |>) = Ok r w' /\
    (exists c, admin_config w' = Ok c w' /\
       ac_admin c = strkey <$> s_admin (store s) /\
       ac_reward_token c = strkey <$> s_reward_token (store s) /\
       ac_fee_bps c = s_fee_bps (store s) /\ ac_paused c = s_paused (store s) /\
       ac_min_reward c = s_min_reward (store s) /\
       total_fees_swept c = list_sum swept (feed (Host.events s))) /\
    (forall id, in_range u64 id -> exists ts, task_state id w' = Ok ts w' /\
       shows ts (view_task <$> s_task (store s) !! id)).
Proof.
  intros Hl Hcar Hh Hstart Hpage Hs Hmax Hcur Htip w Hresp.
  pose proof (attempts_roomy history contract_id page_size start Hh Hstart Hpage closed crashes Hs Hcur) as Hroom.
  destruct (attempts_tracking history contract_id page_size start Hh Hstart Hpage closed crashes Hs)
    as (n & Ht & _).
  fold w in Ht, Hroom.
  destruct (clean_run history contract_id page_size start Hh Hstart Hpage closed n w Hs Ht Hroom Hresp)
    as (r & w' & n' & tip & Hrun & Hlatest & Hle & Hck & (Hcalm & Hholds & _ & _ & Hcp)).
  exists r, w'. split; [done|].
  rewrite Hck in Hcp. cbn in Hcp. destruct Hcp as [_ Hcov].
  assert (take n' (expected history start) = recognised history) as Hall.
  { eapply covers_history; [|exact Hcov]. eapply list.Forall_impl; [by eapply Htip|]. cbn. lia. }
  rewrite Hall in Hholds. rewrite <- (carried_feed _ _ Hcar).
  apply (indexer_mirrors_registry self s w'); try done.
  - by destruct Hcalm.
  - by apply carried_feed.
  - by rewrite (carried_feed _ _ Hcar).
Qed.
End EndToEnd.
