(* ===== verification/IndexerSample.v ===== *)
(** * Indexer: a sample run

    The events of the registry's sample deployment (RegistrySample.v), served
    from ledger 100 on, one ledger each; a concrete codec for every interface.
    The witnesses of the indexer's theorems run on it. *)

From Stdlib Require Import Sorted.
From stdpp Require Import sorting pretty.
From S2P Require Import Prelude Host Contract SampleChain RegistryTypes RegistryInternal RegistryReputation RegistryTask RegistryStaking RegistryAdmin RegistryBatch RegistryViews RegistrySystem RegistrySample RegistryInvariants RegistryReplay IndexerEvents IndexerWire IndexerState IndexerAddress IndexerReorg IndexerProgress IndexerStore IndexerStoreSpec IndexerPaging IndexerIngest IndexerIngestSpec IndexerBackfill IndexerService IndexerMirror IndexerEndToEnd.

(** ** Codecs *)

Definition sample_encoding : Encoding := {|
  strkey a := ("G" +:+ pretty (addr_id a))%string;
  hex_encode b := pretty (length b);
|}.

#[export] Existing Instance sample_encoding.

#[export] Instance sample_json : JsonCodec := {|
  json := EventPayload.t;
  to_json := Some;
  from_json := Some;
  from_to_json p j H := eq_sym H;
|}.

#[export] Instance sample_strkey : Strkey := {|
  account_from_string s := None;
  account_to_string b := "";
  contract_from_string s := None;
  contract_to_string b := "";
  muxed_from_string s := None;
|}.

#[export] Instance sample_values : ValuesCodec := {| values_to_vec v := Some [] |}.

(** ** The source *)

Fixpoint served (l : Z) (evs : list Event) : list RawEvent :=
  match evs with
  | [] => []
  | ev :: evs =>
      mkRawEvent l (5 * l) ("tx" +:+ pretty l) 0 [(event_topics ev).1; (event_topics ev).2] (event_values ev)
      :: served (l + 1) evs
  end.

Definition sample_history : list RawEvent :=
  Eval vm_compute in served 100 (reverse (Host.events settled_state)).

Definition sample_tip : Z := 150.

#[export] Instance sample_source : EventSource := {|
  get_events n c from limit := Some (mkSourcePage
    (filter (fun e => from <= re_ledger e < Z.min (from + limit) (sample_tip + 1)) sample_history)
    (Z.max 0 (Z.min (from + limit) (sample_tip + 1) - 1)));
  latest_ledger n := Some sample_tip;
|}.

(** ** Its history is honest *)

Definition takes_b (e : RawEvent) : bool :=
  match parse_event e with
  | inl _ => false
  | inr None => true
  | inr (Some p) =>
      bool_decide (in_range u32 (re_ledger e)) && bool_decide (in_range u32 (re_event_index e)) &&
      match EventPayload.task_id p with Some id => bool_decide (in_range u64 id) | None => true end
  end.

Lemma takes_b_sound e : takes_b e = true -> takes e.
Proof.
  unfold takes_b, takes. destruct (parse_event e) as [|o]; [done|]. intros Hb. exists o. split; [done|].
  intros p ->. rewrite !andb_true_iff, !bool_decide_eq_true in Hb. destruct Hb as [[Hl Hi] Hid].
  split; [|by eexists]. split_and!; [done..|]. cbn. intros id Hp. rewrite Hp in Hid.
  by apply bool_decide_eq_true in Hid.
Qed.

Lemma sample_honest : honest_history sample_history.
Proof.
  split.
  - repeat constructor; unfold by_ledger; cbn; lia.
  - apply (bool_decide_unpack _). by vm_compute.
  - assert (forallb takes_b sample_history = true) as Hb by by vm_compute.
    rewrite forallb_forall in Hb. apply list.Forall_forall. intros e He.
    apply takes_b_sound, Hb. by apply list_elem_of_In.
Qed.

Lemma sample_source_honest : honest_source sample_history "C" (fun _ => sample_tip).
Proof.
  split; unfold sample_tip.
  - done.
  - lia.
  - intros n tip [= <-]. unfold sample_tip. lia.
  - by intros n from limit page [= <-].
  - intros n from limit page Hf Hl [= <-]. cbn. unfold sample_tip. lia.
Qed.

Lemma sample_carries : Forall2 carries sample_history (reverse (Host.events settled_state)).
Proof.
  assert (forall l evs, Forall2 carries (served l evs) evs) as Hs.
  { intros l evs. revert l. induction evs; intros l; cbn; [constructor|]. by constructor. }
  replace sample_history with (served 100 (reverse (Host.events settled_state))) by by vm_compute.
  apply Hs.
Qed.

(** ** Witnesses *)

Definition crashed : World :=
  foldl (attempt "C" 7 100) fresh [[true; true; true; false]; [true; true; true; true; true; true; false]].

Lemma backfill_complete_witness :
  exists n, holds (db crashed) (take n (expected sample_history 100)) /\ alerts crashed = [].
Proof.
  destruct (backfill_complete sample_history "C" 7 100 sample_honest ltac:(lia) ltac:(lia)
    (fun _ => sample_tip) [[true; true; true; false]; [true; true; true; true; true; true; false]]
    sample_source_honest) as [(n & Hh & Ha & _) _].
  - by vm_compute.
  - exists n. by split.
Defined.

(** A process killed in its first pass; the next one finishes it, is told to
    stop while it sleeps, and drains. *)
Definition killed : World := dropped_world "C" 7 100 3 (launch fresh []).

Definition caught_up : World :=
  match pass "C" 7 100 (world (launch killed [])) with Ok _ w => w | _ => fresh end.

Definition drained : Service := mkService caught_up true (Returned (inr tt) false) (Ended true) (Exited (inr tt)).

Lemma killed_lived : lived "C" 7 100 killed.
Proof. eapply Lived_next; [apply Lived_fresh | apply Run_refl]. Qed.

Lemma drained_run : IndexerService.run "C" 7 100 (launch killed []) drained.
Proof.
  assert (exists r, pass "C" 7 100 (world (launch killed [])) = Ok r caught_up) as [r Hr].
  { unfold caught_up.
    assert (match pass "C" 7 100 (world (launch killed [])) with Ok _ _ => true | _ => false end = true) as Hok by by vm_compute.
    destruct (pass _ _ _ _) as [r w| |]; [by exists r | done..]. }
  unfold drained. eapply Run_step; [|by apply (Drained _ _ _ _ _ _ _ (inr tt) false false None None)].
  eapply Run_step; [|by apply Server_ends]. eapply Run_step; [|by apply Ingests, Sleep_stopped].
  eapply Run_step; [|apply Shutdown]. eapply Run_step; [|apply Signalled with (g := false)].
  eapply Run_step; [apply Run_refl|]. apply Ingests; [done|]. by eapply Pass_done.
Qed.

Lemma service_lossless_witness :
  up_to_date (requests killed) caught_up /\ signal drained = true /\
  exists r w', pass "C" 7 100 (world (launch killed [])) = Ok r w'.
Proof.
  destruct (service_lossless "C" 7 100 sample_history sample_honest ltac:(lia) ltac:(lia)
    (fun _ => sample_tip) sample_source_honest killed [] drained killed_lived drained_run) as (_ & Hup & Hexit & _).
  destruct (service_lossless "C" 7 100 sample_history sample_honest ltac:(lia) ltac:(lia)
    (fun _ => sample_tip) sample_source_honest killed [] (launch killed []) killed_lived (Run_refl _ _ _ _))
    as (_ & _ & _ & Hlive).
  split; [by apply Hup|]. split; [by apply (Hexit (inr tt))|]. apply Hlive; [done| | |done].
  - intros n _. split; [intros from; by eexists | by eexists].
  - unfold roomy. apply (bool_decide_unpack _). by vm_compute.
Defined.

Lemma end_to_end_witness :
  exists r w' c, run_to_tip "C" 7 100 (crashed <| faults := [] |>) = Ok r w' /\
    admin_config w' = Ok c w' /\ ac_fee_bps c = Some 300 /\ ac_paused c = Some true.
Proof.
  destruct (end_to_end "C" 7 100 self settled_state sample_history (fun _ => sample_tip)
    [[true; true; true; false]; [true; true; true; true; true; true; false]]
    settled_logged sample_carries sample_honest ltac:(lia) ltac:(lia) sample_source_honest)
    as (r & w' & Hrun & (c & Hc & _ & _ & Hfee & Hpaused & _) & _).
  - by vm_compute.
  - by vm_compute.
  - intros n tip [= <-]. apply (bool_decide_unpack _). by vm_compute.
  - intros n _. split; [intros from; by eexists | by eexists].
  - exists r, w', c. split; [exact Hrun|]. split; [exact Hc|]. rewrite Hfee, Hpaused. split; by vm_compute.
Defined.

(** Two events of one ledger, served in either order. *)
Definition twin (i : Z) : RawEvent := mkRawEvent 100 500 "tx" i ["exp"; "task"]%string [U64 i].

Lemma fingerprint_order_independent_witness :
  fingerprint 100 [twin 2; twin 1] = fingerprint 100 [twin 1; twin 2].
Proof.
  apply (fingerprint_order_independent 100 [twin 2; twin 1] [twin 1; twin 2]).
  - apply perm_swap.
  - apply (bool_decide_unpack _). by vm_compute.
Defined.

(** A store that holds [es], two numbers lost to conflicts between any two of
    them. *)
Fixpoint rows_of (k : Z) (es : list Entry) : list Row :=
  match es with [] => [] | x :: es => row_for k x x.2 :: rows_of (k + 3) es end.

Definition world_of (es : list Entry) : World :=
  mkWorld (mkDb (rows_of 1 es) (3 * Z.of_nat (length es)) None ∅) [] [] [] new_progress 0.

Lemma rows_of_ascending k es :
  StronglySorted Z.lt (r_cursor <$> rows_of k es) /\
  Forall (fun c => k <= c < k + 3 * Z.of_nat (length es)) (r_cursor <$> rows_of k es).
Proof.
  revert k. induction es as [|x es IH]; intros k; [split; constructor|]. destruct (IH (k + 3)) as [Hs Hr].
  cbn. split; constructor; try done; [|lia|]; (eapply list.Forall_impl; [exact Hr|]; cbn; lia).
Qed.

Lemma world_of_holds es : Forall typed_entry es -> holds (db (world_of es)) es.
Proof.
  intros Hes. split; [|split; [|cbn; lia]].
  - unfold cursors. cbn. generalize 1 as k. induction Hes as [|x es Hx Hes IH]; intros k; [done|].
    split; [by eexists|]. by split.
  - destruct (rows_of_ascending 1 es) as [Hs Hr]. split; [exact Hs|].
    eapply list.Forall_impl; [exact Hr|]. cbn. lia.
Qed.

Lemma rows_of_prefix k es es' : es `prefix_of` es' -> rows_of k es `prefix_of` rows_of k es'.
Proof.
  intros [more ->]. revert k. induction es as [|x es IH]; intros k; [apply prefix_nil|]. cbn. apply prefix_cons, IH.
Qed.

Lemma world_of_appended es es' : es `prefix_of` es' -> appended (world_of es, es) (world_of es', es').
Proof. intros Hp. split; [done|]. unfold cursors; cbn. destruct (rows_of_prefix 1 _ _ Hp) as [m ->]. rewrite fmap_app. by eexists. Qed.

Lemma sample_typed : Forall typed_entry (recognised sample_history).
Proof.
  pose proof (history_takes _ sample_honest) as Ht. induction Ht as [|e h (o & He & Ho) Hh IH]; [constructor|].
  unfold recognised; cbn. unfold entry_of at 1. rewrite He. destruct o as [p|]; [|done].
  constructor; [by apply Ho | done].
Qed.

Lemma take_prefix {A} n m (l : list A) : (n <= m)%nat -> take n l `prefix_of` take m l.
Proof.
  intros Hnm. exists (drop n (take m l)). rewrite <- (take_drop n (take m l)) at 1. f_equal.
  rewrite take_take. f_equal. lia.
Qed.

(** Two events, then four more ingested between the requests. *)
Definition feeds : list (list Entry) :=
  (fun n => take n (recognised sample_history)) <$> [2; 2; 6; 6; 6; 6; 6]%nat.

Lemma feeds_grow : StronglySorted appended (zip (world_of <$> feeds) feeds).
Proof.
  unfold feeds. cbn [fmap list_fmap zip zip_with]. repeat constructor; apply world_of_appended, take_prefix; lia.
Qed.

Lemma paging_exact_witness :
  exists w es, (w, es) ∈ zip (world_of <$> feeds) feeds /\
    traverse None 2 None None (world_of <$> feeds) = Some (filter (wanted None None) (contents (db w) es)).
Proof.
  apply (paging_exact (take 6 (recognised sample_history)) 2 None None (world_of <$> feeds) feeds).
  - lia.
  - unfold feeds. rewrite <- list_fmap_compose. apply Forall2_fmap, Forall_Forall2_diag.
    apply list.Forall_forall. intros n Hn. split; [done|]. split.
    + apply world_of_holds, Forall_take, sample_typed.
    + apply take_prefix. set_unfold in Hn. lia.
  - exact feeds_grow.
  - unfold feeds. cbn [fmap list_fmap length]. rewrite length_take. lia.
Defined.
