(* ===== verification/IndexerLeaderboard.v ===== *)
(** * Indexer: the keeper leaderboard

    src/indexer/src/queries/leaderboard.rs.  The statement that reads the
    executions has no ORDER BY: its rows come in the order of [scan], about
    which only is known that it loses and invents no row. *)

From Stdlib Require Import Sorted Permutation.
From S2P Require Import Prelude StableSort Host IndexerEvents IndexerState IndexerAddress IndexerReorg IndexerProgress IndexerStore IndexerStoreSpec.

Inductive RankBy := Executions | Reward | Reputation.

#[export] Instance RankBy_eq_dec : EqDecision RankBy.
Proof. solve_decision. Defined.

(** [RankBy::parse] *)
Definition parse_rank_by (s : string) : option RankBy :=
  if bool_decide (s = "executions"%string) then Some Executions
  else if bool_decide (s = "reward"%string) then Some Reward
  else if bool_decide (s = "reputation"%string) then Some Reputation
  else None.

Record LeaderboardEntry := mkLeaderboardEntry {
  le_rank : Z;
  le_keeper : string;
  le_executions : Z;
  le_total_reward : Z;
  le_reputation : Z;
}.

Record Leaderboard := mkLeaderboard {
  lb_rank_by : RankBy;
  lb_since : option Z;
  lb_entries : list LeaderboardEntry;
}.

Record Totals := mkTotals {
  t_keeper : string;
  t_executions : Z;
  t_total_reward : Z;
  t_reputation : Z;
}.

(** ** Ranking *)

(** The comparison of [sort_by]: [primary.then_with(..).then_with(..)]. *)
Definition then_with (c : comparison) (d : comparison) : comparison :=
  match c with Eq => d | _ => c end.

Definition compare_totals (rank_by : RankBy) (a b : Totals) : comparison :=
  let primary :=
    match rank_by with
    | Executions => t_executions b ?= t_executions a
    | Reward => t_total_reward b ?= t_total_reward a
    | Reputation => t_reputation b ?= t_reputation a
    end in
  let secondary :=
    match rank_by with
    | Executions => t_total_reward b ?= t_total_reward a
    | Reward => t_executions b ?= t_executions a
    | Reputation => t_executions b ?= t_executions a
    end in
  then_with (then_with primary secondary) (String.compare (t_keeper a) (t_keeper b)).

Definition totals_le (rank_by : RankBy) (a b : Totals) : bool :=
  match compare_totals rank_by a b with Gt => false | _ => true end.

(** [.enumerate().map(..)]; [i as u32 + 1] *)
Fixpoint number (i : Z) (l : list Totals) : list LeaderboardEntry :=
  match l with
  | [] => []
  | t :: l =>
      mkLeaderboardEntry (as_u32 i + 1) (t_keeper t) (t_executions t) (t_total_reward t) (t_reputation t)
        :: number (i + 1) l
  end.

Definition rank (totals : list Totals) (rank_by : RankBy) (limit : Z) : list LeaderboardEntry :=
  number 0 (take (Z.to_nat limit) (sort_by (totals_le rank_by) totals)).

(** ** Aggregating *)

Class Scan `{JsonCodec} := {
  scan : list Row -> list Row;
  scan_perm rows : Permutation (scan rows) rows;
}.

Section Leaderboard.
Context `{HJ : JsonCodec} `{Strkey} {HS : Scan}.
Implicit Types (w : World) (es : list Entry).
Abbreviation IM := (M World Failure).

(** One execution added to the totals of its keeper; sums trap on overflow. *)
Fixpoint add_execution (keeper : string) (net_reward : Z) (totals : list Totals) : option (list Totals) :=
  match totals with
  | [] => Some [mkTotals keeper 1 net_reward 0]
  | t :: totals =>
      if bool_decide (t_keeper t = keeper) then
        executions ← checked_add u32 (t_executions t) 1;
        total_reward ← checked_add i128 (t_total_reward t) net_reward;
        Some (mkTotals (t_keeper t) executions total_reward (t_reputation t) :: totals)
      else cons t <$> add_execution keeper net_reward totals
  end.

Definition is_execution (since : option Z) (row : Row) : bool :=
  bool_decide (r_event_type row = "task_executed"%string) &&
  match r_keeper_address row with Some _ => true | None => false end &&
  match since with None => true | Some s => bool_decide (r_ledger_close_time row >= s) end.

(** One row of the aggregation. *)
Definition aggregate (totals : list Totals) (row : Row) : IM (list Totals) :=
  keeper ← expect (r_keeper_address row);
  payload ← ok_or (from_json (r_payload row)) DecodingPayload;
  match payload with
  | EventPayload.TaskExecuted _ _ net_reward _ => expect (add_execution keeper net_reward totals)
  | other => fail (Mismatched other)
  end.

Definition is_reputation (row : Row) : bool :=
  bool_decide (r_event_type row = "reputation_updated"%string) &&
  match r_keeper_address row with Some _ => true | None => false end.

(** ORDER BY ledger ASC, cursor ASC *)
Definition ledger_cursor_le (a b : Row) : bool :=
  if bool_decide (r_ledger a = r_ledger b) then bool_decide (r_cursor a <= r_cursor b)
  else bool_decide (r_ledger a < r_ledger b).

Definition note_reputation (m : gmap string Z) (row : Row) : gmap string Z :=
  match r_keeper_address row, from_json (r_payload row) with
  | Some keeper, Some (EventPayload.ReputationUpdated _ _ score) => <[keeper := score]> m
  | _, _ => m
  end.

Definition set_reputation (reputations : gmap string Z) (t : Totals) : Totals :=
  match reputations !! t_keeper t with
  | Some rep => mkTotals (t_keeper t) (t_executions t) (t_total_reward t) rep
  | None => t
  end.

Definition leaderboard (rank_by : RankBy) (since : option Z) (limit : Z) : IM Leaderboard :=
  rows ← query "reading executions for the leaderboard" (fun d => scan (filter (is_execution since) (d_events d)));
  totals ← for_fold rows [] aggregate;
  rep_rows ← query "reading reputation for the leaderboard" (fun d =>
    sort_by ledger_cursor_le (filter is_reputation (d_events d)));
  let reputations := foldl note_reputation ∅ rep_rows in
  let totals := set_reputation reputations <$> totals in
  mret (mkLeaderboard rank_by since (rank totals rank_by limit)).
End Leaderboard.
