(* ===== verification/IndexerLeaderboardSpec.v ===== *)
(** * Indexer: what the leaderboard says

    The aggregation against the executions in the store, in whichever order
    their rows come, and the ranking against the order it promises. *)

From Stdlib Require Import Sorted Permutation.
From S2P Require Import Prelude StableSort Host IndexerEvents IndexerState IndexerAddress IndexerReorg IndexerProgress IndexerStore IndexerStoreSpec IndexerLeaderboard.

(** ** The standing of a keeper *)

Abbreviation execs := (list (string * Z)).
Implicit Types (xs : execs) (k : string).

Definition by_keeper k xs : execs := filter (fun p => p.1 = k) xs.
Definition count k xs : Z := Z.of_nat (length (by_keeper k xs)).
Definition earned k xs : Z := list_sum snd (by_keeper k xs).
Definition standing xs k : Totals := mkTotals k (count k xs) (earned k xs) 0.
Definition keepers xs : list string := remove_dups (fst <$> xs).

(** Sums that fit: rewards are not negative. *)
Definition bounded xs : Prop :=
  Forall (fun p => 0 <= p.2) xs /\ list_sum snd xs <= int_max i128 /\ Z.of_nat (length xs) <= int_max u32.

Lemma by_keeper_snoc k xs k' n :
  by_keeper k (xs ++ [(k', n)]) = by_keeper k xs ++ (if decide (k' = k) then [(k', n)] else []).
Proof. unfold by_keeper. by rewrite list.filter_app, filter_cons. Qed.

Lemma count_snoc k xs k' n : count k (xs ++ [(k', n)]) = count k xs + (if decide (k' = k) then 1 else 0).
Proof. unfold count. rewrite by_keeper_snoc, length_app. case_decide; cbn; lia. Qed.

Lemma earned_snoc k xs k' n : earned k (xs ++ [(k', n)]) = earned k xs + (if decide (k' = k) then n else 0).
Proof. unfold earned. rewrite by_keeper_snoc, list_sum_app. case_decide; cbn; lia. Qed.

Lemma list_sum_filter_le {A} (f : A -> Z) (P : A -> Prop) `{!forall x, Decision (P x)} l :
  Forall (fun x => 0 <= f x) l -> 0 <= list_sum f (filter P l) <= list_sum f l.
Proof.
  intros Hl. split; [by apply list_sum_nonneg, Forall_filter|].
  rewrite <- (list_sum_filter_split f P l).
  pose proof (list_sum_nonneg f (filter (fun x => ~ P x) l) (Forall_filter _ _ _ Hl)). lia.
Qed.

Lemma bounded_standing xs k :
  bounded xs -> 0 <= count k xs <= int_max u32 /\ 0 <= earned k xs <= int_max i128.
Proof.
  intros (Hp & Hs & Hl). pose proof (list_sum_filter_le snd (fun p => p.1 = k) xs Hp).
  pose proof (length_filter (fun p : string * Z => p.1 = k) xs).
  unfold count, earned, by_keeper. lia.
Qed.

Lemma bounded_prefix xs ys : bounded (xs ++ ys) -> bounded xs.
Proof.
  intros (Hp & Hs & Hl). apply Forall_app in Hp as [Hx Hy]. rewrite list_sum_app in Hs.
  pose proof (list_sum_nonneg snd ys Hy). rewrite length_app in Hl. split_and!; [done | lia..].
Qed.

(** ** One execution *)

Definition bump k (n : Z) (t : Totals) : Totals :=
  if bool_decide (t_keeper t = k)
  then mkTotals (t_keeper t) (t_executions t + 1) (t_total_reward t + n) (t_reputation t) else t.

Lemma add_execution_ok k n totals :
  NoDup (t_keeper <$> totals) ->
  (forall t, t ∈ totals -> t_keeper t = k ->
     in_range u32 (t_executions t + 1) /\ in_range i128 (t_total_reward t + n)) ->
  add_execution k n totals =
  Some (if decide (k ∈ t_keeper <$> totals) then bump k n <$> totals else totals ++ [mkTotals k 1 n 0]).
Proof.
  induction totals as [|t totals IH]; intros Hnd Hr; [done|]. rewrite fmap_cons in *.
  apply list.NoDup_cons in Hnd as [Hnt Hnd]. cbn [add_execution]. case_bool_decide as Ht.
  - destruct (Hr t) as [He Htr]; [set_solver | done|].
    rewrite (proj2 (checked_add_Some u32 _ _ _) (conj eq_refl He)); cbn.
    rewrite (proj2 (checked_add_Some i128 _ _ _) (conj eq_refl Htr)); cbn.
    rewrite decide_True by set_solver. cbn. f_equal. f_equal.
    + unfold bump. by rewrite bool_decide_true.
    + symmetry. rewrite <- (list_fmap_id totals) at 2. apply list_fmap_ext. intros i t' Hi.
      unfold bump. rewrite bool_decide_false; [done|]. intros Ht'. apply Hnt. rewrite Ht, <- Ht'.
      apply list_elem_of_fmap_2. by eapply list_elem_of_lookup_2.
  - rewrite IH; [|done | intros t' Ht'; apply Hr; by right]. clear IH Hr. cbn. f_equal.
    destruct (decide (k ∈ t_keeper <$> totals)).
    + rewrite decide_True by set_solver. cbn. f_equal. unfold bump. by rewrite bool_decide_false.
    + by rewrite decide_False by set_solver.
Qed.

(** [totals] are the standings of everyone in [xs]. *)
Definition tallied totals xs : Prop :=
  NoDup (t_keeper <$> totals) /\ Forall (fun t => t = standing xs (t_keeper t)) totals /\
  forall k, k ∈ t_keeper <$> totals <-> k ∈ fst <$> xs.

Lemma tallied_nil : tallied [] [].
Proof. split_and!; [constructor | constructor | done]. Qed.

Lemma absent_standing k xs : k ∉ fst <$> xs -> count k xs = 0 /\ earned k xs = 0.
Proof.
  intros Hk. unfold count, earned.
  assert (by_keeper k xs = []) as ->; [|done].
  unfold by_keeper. induction xs as [|p xs IH]; [done|]. rewrite filter_cons, decide_False; [|set_solver].
  apply IH. set_solver.
Qed.

Lemma bump_standing k n t xs :
  t = standing xs (t_keeper t) -> bump k n t = standing (xs ++ [(k, n)]) (t_keeper (bump k n t)).
Proof.
  intros Ht. unfold bump, standing. rewrite count_snoc, earned_snoc.
  destruct t as [k' e tr rep]. injection Ht as -> -> ->. cbn. case_bool_decide as Hk; cbn.
  - by rewrite !decide_True by done.
  - by rewrite !decide_False, !Z.add_0_r by done.
Qed.

Lemma tallied_snoc totals xs k n :
  tallied totals xs -> bounded (xs ++ [(k, n)]) ->
  exists totals', add_execution k n totals = Some totals' /\ tallied totals' (xs ++ [(k, n)]).
Proof.
  intros (Hnd & Hst & Hk) Hb. rewrite add_execution_ok; [|done|].
  2: { intros t Ht Htk. rewrite list.Forall_forall in Hst. specialize (Hst t Ht). rewrite Hst; cbn.
    destruct (bounded_standing _ k Hb) as [Hc He]. rewrite count_snoc, decide_True in Hc by done. rewrite earned_snoc, decide_True in He by done.
    pose proof (bounded_standing _ k (bounded_prefix _ _ Hb)). rewrite Htk.
    unfold in_range; cbn in *. lia. }
  eexists. split; [done|]. destruct (decide (k ∈ t_keeper <$> totals)) as [Hin|Hnin].
  - assert (t_keeper <$> (bump k n <$> totals) = t_keeper <$> totals) as Hkeys.
    { rewrite <- list_fmap_compose. apply list_fmap_ext. intros i t _. cbn. unfold bump. by case_bool_decide. }
    split_and!.
    + by rewrite Hkeys.
    + apply Forall_fmap. eapply list.Forall_impl; [exact Hst|]. intros t Ht. by apply bump_standing.
    + intros k'. rewrite Hkeys, Hk, fmap_app. apply Hk in Hin. set_solver.
  - assert (k ∉ fst <$> xs) as Hnx by (by rewrite <- Hk).
    destruct (absent_standing k xs Hnx) as [Hc He].
    split_and!.
    + rewrite fmap_app. apply list.NoDup_app. split_and!; [done | set_solver | apply NoDup_singleton].
    + apply Forall_app. split.
      * apply list.Forall_forall. intros t Hin. rewrite list.Forall_forall in Hst.
        assert (k <> t_keeper t) as Hne by (intros ->; by apply Hnin, list_elem_of_fmap_2).
        rewrite (Hst t Hin) at 1. unfold standing. by rewrite count_snoc, earned_snoc, !decide_False, !Z.add_0_r.
      * repeat constructor. cbn. unfold standing. rewrite count_snoc, earned_snoc, !decide_True by done.
        by rewrite Hc, He.
    + intros k'. rewrite !fmap_app, !elem_of_app, Hk. done.
Qed.

(** ** Any order of the rows *)

Lemma by_keeper_perm xs ys k : Permutation xs ys -> Permutation (by_keeper k xs) (by_keeper k ys).
Proof. intros Hp. unfold by_keeper. by rewrite Hp. Qed.

Lemma list_sum_perm {A} (f : A -> Z) l1 l2 : Permutation l1 l2 -> list_sum f l1 = list_sum f l2.
Proof. unfold list_sum. induction 1; cbn in *; lia. Qed.

Lemma standing_perm xs ys k : Permutation xs ys -> standing xs k = standing ys k.
Proof.
  intros Hp. unfold standing, count, earned. pose proof (by_keeper_perm _ _ k Hp) as Hk.
  by rewrite (list_sum_perm _ _ _ Hk), Hk.
Qed.

Lemma bounded_perm xs ys : Permutation xs ys -> bounded xs -> bounded ys.
Proof. intros Hp (Hf & Hs & Hl). split_and!; [by rewrite <- Hp | by rewrite <- (list_sum_perm _ _ _ Hp) | by rewrite <- Hp]. Qed.

Lemma tallied_perm xs ys totals : Permutation xs ys -> tallied totals xs -> tallied totals ys.
Proof.
  intros Hp (Hnd & Hst & Hk). split_and!; [done | |].
  - eapply list.Forall_impl; [exact Hst|]. intros t ->. cbn. by apply standing_perm.
  - intros k. by rewrite Hk, Hp.
Qed.

Lemma tallied_standings totals xs : tallied totals xs -> Permutation totals (standing xs <$> keepers xs).
Proof.
  intros (Hnd & Hst & Hk). apply NoDup_Permutation.
  - by eapply NoDup_fmap_1.
  - apply NoDup_fmap_2; [intros k k' [=]; done | apply NoDup_remove_dups].
  - intros t. rewrite list_elem_of_fmap. unfold keepers. setoid_rewrite elem_of_remove_dups. split.
    + intros Ht. exists (t_keeper t). rewrite list.Forall_forall in Hst. split; [by apply Hst|].
      apply Hk. by apply list_elem_of_fmap_2.
    + intros (k & -> & Hin). apply Hk in Hin. apply list_elem_of_fmap in Hin as (t & -> & Ht).
      rewrite list.Forall_forall in Hst. by rewrite <- (Hst t Ht).
Qed.

(** ** The order *)

Definition primary (rank_by : RankBy) (t : Totals) : Z :=
  match rank_by with Executions => t_executions t | Reward => t_total_reward t | Reputation => t_reputation t end.
Definition secondary (rank_by : RankBy) (t : Totals) : Z :=
  match rank_by with Executions => t_total_reward t | Reward | Reputation => t_executions t end.

(** [a] ranks no lower than [b]. *)
Definition ranks (rank_by : RankBy) (a b : Totals) : Prop :=
  primary rank_by b < primary rank_by a \/
  primary rank_by a = primary rank_by b /\
  (secondary rank_by b < secondary rank_by a \/
   secondary rank_by a = secondary rank_by b /\ String.compare (t_keeper a) (t_keeper b) <> Gt).

Lemma totals_le_ranks rank_by a b : order (totals_le rank_by) a b <-> ranks rank_by a b.
Proof.
  unfold order, totals_le, ranks.
  assert (compare_totals rank_by a b =
    then_with (then_with (primary rank_by b ?= primary rank_by a) (secondary rank_by b ?= secondary rank_by a))
      (String.compare (t_keeper a) (t_keeper b))) as -> by by destruct rank_by.
  destruct (Z.compare_spec (primary rank_by b) (primary rank_by a)) as [Hp|Hp|Hp];
    destruct (Z.compare_spec (secondary rank_by b) (secondary rank_by a)) as [Hs|Hs|Hs]; cbn;
    try (split; [intros _ | done]; lia || naive_solver lia); try (split; [done | naive_solver lia]).
  destruct (String.compare (t_keeper a) (t_keeper b)); split; try done; naive_solver lia.
Qed.

Lemma string_compare_le_trans a b c :
  String.compare a b <> Gt -> String.compare b c <> Gt -> String.compare a c <> Gt.
Proof.
  destruct (String.compare a b) eqn:Hab; [apply String.compare_eq_iff in Hab as -> | | done]; intros _ Hbc; [done|].
  destruct (String.compare b c) eqn:Hbc'; [apply String.compare_eq_iff in Hbc' as <- | | done].
  - by rewrite Hab.
  - by rewrite (string_compare_trans_lt _ _ _ Hab Hbc').
Qed.

Lemma totals_le_trans rank_by a b c :
  order (totals_le rank_by) a b -> order (totals_le rank_by) b c -> order (totals_le rank_by) a c.
Proof.
  rewrite !totals_le_ranks. unfold ranks. pose proof (string_compare_le_trans (t_keeper a) (t_keeper b) (t_keeper c)).
  intros [?|[? [?|[? ?]]]] [?|[? [?|[? ?]]]]; try (left; lia); right; (split; [lia|]); try (left; lia);
    right; split; [lia | auto].
Qed.

Lemma totals_le_total rank_by a b : totals_le rank_by a b = false -> order (totals_le rank_by) b a.
Proof.
  rewrite totals_le_ranks. intros Hab. assert (~ ranks rank_by a b) as Hn.
  { rewrite <- totals_le_ranks. unfold order. by rewrite Hab. }
  unfold ranks in *. rewrite (String.compare_antisym (t_keeper b)).
  destruct (Z.lt_trichotomy (primary rank_by a) (primary rank_by b)) as [?|[?|?]]; [left; lia | | tauto].
  right. split; [lia|].
  destruct (Z.lt_trichotomy (secondary rank_by a) (secondary rank_by b)) as [?|[?|?]]; [left; lia | | tauto].
  right. split; [lia|]. destruct (String.compare (t_keeper a) (t_keeper b)); naive_solver.
Qed.

Lemma totals_le_antisym rank_by a b :
  order (totals_le rank_by) a b -> order (totals_le rank_by) b a -> t_keeper a = t_keeper b.
Proof.
  rewrite !totals_le_ranks. unfold ranks. rewrite (String.compare_antisym (t_keeper b)).
  destruct (String.compare (t_keeper a) (t_keeper b)) eqn:E; cbn; [by apply String.compare_eq_iff in E | naive_solver lia..].
Qed.

Lemma rank_perm rank_by limit l1 l2 :
  Permutation l1 l2 -> NoDup (t_keeper <$> l1) -> rank l1 rank_by limit = rank l2 rank_by limit.
Proof.
  intros Hp Hk. unfold rank. do 2 f_equal.
  eapply (sort_by_unique _ (totals_le_trans rank_by) (totals_le_total rank_by) t_keeper); try done.
  apply totals_le_antisym.
Qed.

(** ** The rows of the executions *)

Section Rows.
Context `{HJ : JsonCodec} `{Strkey} {HS : Scan}.
Implicit Types (w : World) (es : list Entry).

(** The execution an event is, within the window. *)
Definition execution (since : option Z) (x : Entry) : option (string * Z) :=
  match x.2 with
  | EventPayload.TaskExecuted _ k net_reward _ =>
      if from_option (fun s => bool_decide (re_ledger_close_time x.1 >= s)) true since
      then Some (k, net_reward) else None
  | _ => None
  end.

Definition executions since es : execs := omap (execution since) es.

Definition exec_row (row : Row) : option (string * Z) :=
  match r_keeper_address row, from_json (r_payload row) with
  | Some k, Some (EventPayload.TaskExecuted _ _ net_reward _) => Some (k, net_reward)
  | _, _ => None
  end.

Lemma is_execution_spec since c x j :
  to_json x.2 = Some j ->
  is_execution since (row_for c x j) = bool_decide (is_Some (execution since x)) /\
  (is_Some (execution since x) -> exec_row (row_for c x j) = execution since x).
Proof.
  intros Hj. unfold is_execution, exec_row, execution. cbn. rewrite (from_to_json _ _ Hj).
  destruct (x.2); cbn; try (split; [done | by intros []]).
  destruct since as [s|]; cbn; [|by split].
  destruct (bool_decide (re_ledger_close_time x.1 >= s)); cbn; split; try done; by intros [].
Qed.

Lemma execution_rows since cs rows es :
  rows_at cs rows es ->
  omap exec_row (filter (is_execution since) rows) = executions since es /\
  Forall (fun row => is_Some (exec_row row)) (filter (is_execution since) rows).
Proof.
  revert cs es. induction rows as [|row rows IH]; intros [|c cs] [|x es] Hr; try done.
  destruct Hr as ((j & Hj & ->) & Hx & Hr). destruct (is_execution_spec since c x j Hj) as [He Hrow].
  destruct (IH _ _ Hr) as [Ho Hall]. unfold executions in *. cbn [omap list_omap]. rewrite filter_cons, He.
  destruct (execution since x) as [p|] eqn:Hp.
  - specialize (Hrow (mk_is_Some _ _ eq_refl)). rewrite decide_True by by rewrite bool_decide_true.
    cbn [omap list_omap]. rewrite Hrow, Ho. split; [done|]. constructor; [by rewrite Hrow | done].
  - rewrite decide_False; [by split|]. rewrite bool_decide_false; [by intros []|]. by intros [].
Qed.

Lemma no_reputation cs rows es : rows_at cs rows es -> filter is_reputation rows = [].
Proof.
  revert cs es. induction rows as [|row rows IH]; intros [|c cs] [|x es] Hr; try done.
  destruct Hr as ((j & Hj & ->) & Hx & Hr). rewrite filter_cons, decide_False; [by eapply IH|].
  unfold is_reputation. cbn. destruct (x.2); cbn; by intros [].
Qed.

(** The aggregation over rows that decode to [ys]. *)
Lemma aggregate_rows rows xs totals w :
  Forall (fun row => is_Some (exec_row row)) rows -> tallied totals xs -> bounded (xs ++ omap exec_row rows) ->
  exists totals', for_fold rows totals aggregate w = Ok totals' w /\ tallied totals' (xs ++ omap exec_row rows).
Proof.
  intros Hall. revert xs totals. induction Hall as [|row rows [[k n] Hp] Hall IH]; intros xs totals Ht Hb.
  - exists totals. by rewrite app_nil_r.
  - cbn [omap list_omap] in Hb |- *. rewrite Hp in Hb |- *.
    rewrite cons_middle, app_assoc in Hb |- *.
    destruct (tallied_snoc _ _ k n Ht (bounded_prefix _ _ Hb)) as (totals1 & Hadd & Ht1).
    destruct (IH _ _ Ht1 Hb) as (totals' & Hrun & Ht'). exists totals'. split; [|done].
    cbn [for_fold]. unfold mbind, M_bind.
    assert (aggregate totals row w = Ok totals1 w) as ->; [|done].
    unfold exec_row in Hp. unfold aggregate, mbind, M_bind.
    destruct (r_keeper_address row) as [k'|]; [|done]. cbn.
    destruct (from_json (r_payload row)) as [[]|]; try done. cbn. simplify_eq. by rewrite Hadd.
Qed.

(** C37: the leaderboard is exact and deterministic.  In whatever order the
    database hands out the rows, the answer is the same: every keeper that
    executed a task within the window, with the number of its executions and
    the sum of its rewards, in the documented order - metric, then the other
    metric, then address -, cut to the first [limit] and numbered from 1.  The
    reputation is 0 for everyone: no event the indexer stores carries one. *)
Theorem leaderboard_exact rank_by since limit w es :
  faults w = [] -> holds (db w) es -> bounded (executions since es) ->
  leaderboard rank_by since limit w =
    Ok (mkLeaderboard rank_by since
          (rank (standing (executions since es) <$> keepers (executions since es)) rank_by limit)) w /\
  exists ranked, Permutation ranked (standing (executions since es) <$> keepers (executions since es)) /\
    StronglySorted (ranks rank_by) ranked /\
    rank (standing (executions since es) <$> keepers (executions since es)) rank_by limit =
    number 0 (take (Z.to_nat limit) ranked).
Proof.
  intros Hf [Hr _] Hb. set (xs := executions since es) in *. split.
  - unfold leaderboard. unfold mbind at 1, M_bind. rewrite query_ok by done.
    set (rows := scan (filter (is_execution since) (d_events (db w)))).
    destruct (execution_rows since _ _ _ Hr) as [Hxs Hall]. fold xs in Hxs.
    assert (Permutation (omap exec_row rows) xs) as Hp by (unfold rows; by rewrite scan_perm, Hxs).
    destruct (aggregate_rows rows [] [] w) as (totals & Hrun & Ht).
    { unfold rows. by rewrite scan_perm. }
    { apply tallied_nil. }
    { by eapply bounded_perm; [symmetry|]. }
    unfold mbind at 1, M_bind. rewrite Hrun. unfold mbind, M_bind. rewrite query_ok by done.
    rewrite (no_reputation _ _ _ Hr). cbn. unfold mret, M_ret. do 2 f_equal.
    apply (tallied_perm _ xs) in Ht; [|done].
    assert (set_reputation ∅ <$> totals = totals) as ->.
    { rewrite <- (list_fmap_id totals) at 2. apply list_fmap_ext. intros. unfold set_reputation. by rewrite lookup_empty. }
    apply rank_perm; [by apply tallied_standings | by destruct Ht].
  - exists (sort_by (totals_le rank_by) (standing xs <$> keepers xs)). split_and!; [apply sort_by_perm | | done].
    pose proof (sort_by_sorted _ (totals_le_trans rank_by) (totals_le_total rank_by) (standing xs <$> keepers xs)) as Hs.
    induction Hs as [|t l Hs IH Ht]; constructor; [done|]. eapply list.Forall_impl; [exact Ht|].
    intros t'. by rewrite totals_le_ranks.
Qed.
End Rows.
