(* ===== verification/IndexerFeeds.v ===== *)
(** * Indexer: open tasks by oracle feed

    [open_tasks_by_feed] of src/indexer/src/store.rs: the conditions, the tasks
    that were ever registered or claimed, the state of each, grouped under
    "oracle:asset".  Rows of a statement without ORDER BY come in the order of
    [scan], the groups in the order the map gives them out. *)

From Stdlib Require Import Sorted Permutation Ascii.
From stdpp Require Import gmap.
From S2P Require Import Prelude RustText StableSort Host IndexerEvents IndexerState IndexerAddress IndexerReorg IndexerProgress IndexerStore IndexerStoreSpec IndexerPaging IndexerTasks IndexerLeaderboard IndexerLeaderboardSpec.

(** (oracle, asset, threshold) and (task id, owner, reward). *)
Definition Condition : Type := string * string * Z.
Definition FeedTask : Type := Z * string * Z.

Record Feed := mkFeed { fd_oracle : string; fd_asset : string; fd_threshold : Z; fd_tasks : list FeedTask }.

(** [into_iter] of the map of groups. *)
Class FeedIter := {
  feed_iter : gmap string Feed -> list Feed;
  feed_iter_perm m : Permutation (feed_iter m) (map_to_list m).*2;
}.

Definition feed_key (oracle asset : string) : string := oracle +:+ ":" +:+ asset.

(** The comparisons of the two [sort_by]. *)
Definition newest_first (a b : FeedTask) : bool := bool_decide (b.1.1 <= a.1.1).
Definition feed_le (a b : Feed) : bool :=
  match then_with (String.compare (fd_oracle a) (fd_oracle b)) (String.compare (fd_asset a) (fd_asset b)) with
  | Gt => false
  | _ => true
  end.

Definition sort_tasks (f : Feed) : Feed :=
  mkFeed (fd_oracle f) (fd_asset f) (fd_threshold f) (sort_by newest_first (fd_tasks f)).

Section Feeds.
Context `{HJ : JsonCodec} `{Strkey} {HS : Scan} `{FeedIter}.
Implicit Types (w : World) (es : list Entry).
Abbreviation IM := (M World Failure).

Definition is_condition (row : Row) : bool := bool_decide (r_event_type row = "oracle_price_condition_set"%string).

Definition note_condition (m : gmap Z Condition) (event : IndexedEvent) : gmap Z Condition :=
  match payload event with
  | EventPayload.OraclePriceConditionSet task_id oracle asset threshold => <[task_id := (oracle, asset, threshold)]> m
  | _ => m
  end.

(** SELECT DISTINCT task_id .. *)
Definition registered_or_claimed (row : Row) : bool :=
  (bool_decide (r_event_type row = "task_registered"%string) || bool_decide (r_event_type row = "task_claimed"%string)) &&
  match r_task_id row with Some _ => true | None => false end.

Definition distinct_ids (d : Db) : list Z :=
  remove_dups (omap r_task_id (scan (filter registered_or_claimed (d_events d)))).

Definition is_open (s : TaskStatus.t) : bool :=
  bool_decide (s = TaskStatus.Pending) || bool_decide (s = TaskStatus.Claimed).

(** [entry(feed_key).or_insert_with(..).3.push(task)] *)
Definition push_task (result : gmap string Feed) (c : Condition) (t : FeedTask) : gmap string Feed :=
  let key := feed_key c.1.1 c.1.2 in
  let entry := default (mkFeed c.1.1 c.1.2 c.2 []) (result !! key) in
  <[key := mkFeed (fd_oracle entry) (fd_asset entry) (fd_threshold entry) (fd_tasks entry ++ [t])]> result.

(** One row of the loop. *)
Definition add_task (task_feeds : gmap Z Condition) (result : gmap string Feed) (row : Z) : IM (gmap string Feed) :=
  let task_id := as_u64 row in
  match task_feeds !! task_id with
  | None => mret result
  | Some c =>
      state ← task_state task_id;
      mret match state with
        | Some state =>
            if is_open (ts_status state) then push_task result c (task_id, ts_owner state, ts_reward state) else result
        | None => result
        end
  end.

Definition open_tasks_by_feed : IM (list Feed) :=
  events ← select "reading oracle condition events" is_condition;
  let task_feeds := foldl note_condition ∅ events in
  open_tasks ← query "reading open tasks" distinct_ids;
  result ← for_fold open_tasks ∅ (add_task task_feeds);
  mret (sort_by feed_le (sort_tasks <$> feed_iter result)).

(** ** What is listed *)

(** The condition last set for a task. *)
Definition condition_in es (id : Z) : option Condition :=
  list.last (omap (fun e => match e.2 with
    | EventPayload.OraclePriceConditionSet i oracle asset threshold =>
        if decide (i = id) then Some (oracle, asset, threshold) else None
    | _ => None end) es).

(** The open task [id] with the condition it hangs on. *)
Definition listing es (id : Z) : option (Condition * FeedTask) :=
  c ← condition_in es id;
  state ← state_in es id;
  if is_open (ts_status state) then Some (c, (id, ts_owner state, ts_reward state)) else None.

Definition sets_condition (e : IndexedEvent) : bool :=
  bool_decide (EventPayload.event_type (payload e) = EventType.OraclePriceConditionSet).

Lemma conditions_noted es id cs :
  length cs = length es ->
  foldl note_condition ∅ (filter sets_condition (events_at cs es)) !! id = condition_in es id.
Proof.
  revert cs. induction es as [|e es IH] using rev_ind; intros cs Hl.
  { destruct cs; apply lookup_empty. }
  destruct cs as [|c cs _] using rev_ind; rewrite !length_app in Hl; cbn in Hl; [lia|].
  specialize (IH cs ltac:(lia)). rewrite events_at_app, list.filter_app, foldl_app by lia.
  set (m := foldl note_condition ∅ _) in *. clearbody m. unfold condition_in in *. rewrite omap_app.
  cbn [events_at]. rewrite filter_cons. cbn [payload event_for].
  destruct (e.2) eqn:He; try (rewrite decide_False by (unfold sets_condition; cbn; rewrite He; by intros []); cbn; by rewrite He, app_nil_r).
  rewrite decide_True by by unfold sets_condition; cbn; rewrite He. cbn. rewrite He. unfold note_condition. cbn [payload event_for]. rewrite He.
  destruct (decide (task_id = id)) as [->|Hne]; cbn; rewrite ?app_nil_r, ?list.last_snoc.
  - by rewrite fin_maps.lookup_insert_eq.
  - by rewrite lookup_insert_ne.
Qed.

Lemma is_condition_spec c x j :
  typed_entry x ->
  is_condition (row_for c x j) = sets_condition (event_for c x).
Proof. intros _. unfold is_condition, sets_condition. cbn. by destruct (x.2). Qed.

(** The groups, from what was pushed under each key. *)
Definition group (l : list (Condition * FeedTask)) : option Feed :=
  match l with
  | [] => None
  | (c, _) :: _ => Some (mkFeed c.1.1 c.1.2 c.2 (snd <$> l))
  end.

Definition key_of (x : Condition * FeedTask) : string := feed_key x.1.1.1 x.1.1.2.

Definition grouped es (ids : list Z) (key : string) : list (Condition * FeedTask) :=
  filter (fun x => key_of x = key) (omap (listing es) ids).

Lemma push_task_group result c t (l : string -> list (Condition * FeedTask)) :
  (forall key, result !! key = group (l key)) ->
  forall key, push_task result c t !! key = group (l key ++ (if decide (key_of (c, t) = key) then [(c, t)] else [])).
Proof.
  intros Hl key. unfold push_task, key_of. cbn [fst snd]. rewrite fin_maps.lookup_insert. case_decide as Hk; subst.
  - rewrite Hl. destruct (l _) as [|[c0 t0] l0]; cbn; [by destruct c as [[]]|]. by rewrite list.fmap_app.
  - by rewrite app_nil_r.
Qed.

Lemma listing_pushed es w ids result :
  faults w = [] -> holds (db w) es -> Forall (in_range u64) (as_u64 <$> ids) ->
  forall seen, (forall key, result !! key = group (grouped es seen key)) ->
  exists result', for_fold ids result (add_task (foldl note_condition ∅ (filter
      sets_condition
      (contents (db w) es)))) w = Ok result' w /\
    forall key, result' !! key = group (grouped es (seen ++ (as_u64 <$> ids)) key).
Proof.
  intros Hf Hh. revert result. induction ids as [|id ids IH]; intros result Hids seen Hr; cbn [fmap list_fmap] in Hids.
  { exists result. by rewrite app_nil_r. }
  apply list.Forall_cons in Hids as [Hid Hids]. cbn [for_fold fmap list_fmap].
  change (as_u64 id :: (as_u64 <$> ids)) with ([as_u64 id] ++ (as_u64 <$> ids)). rewrite app_assoc.
  assert (exists r1, add_task (foldl note_condition ∅ (filter
      sets_condition
      (contents (db w) es))) result id w = Ok r1 w /\
    forall key, r1 !! key = group (grouped es (seen ++ [as_u64 id]) key)) as (r1 & Hadd & Hr1).
  2: { unfold mbind, M_bind. rewrite Hadd. by apply IH. }
  unfold add_task. cbn zeta. unfold contents. rewrite conditions_noted by by apply holds_length.
  assert (forall key, grouped es (seen ++ [as_u64 id]) key =
    grouped es seen key ++ match listing es (as_u64 id) with
      | Some x => if decide (key_of x = key) then [x] else [] | None => [] end) as Hg.
  { intros key. unfold grouped. rewrite omap_app, list.filter_app. f_equal. cbn.
    destruct (listing es (as_u64 id)); [|done]. rewrite filter_cons. by case_decide. }
  setoid_rewrite Hg. unfold listing. destruct (condition_in es (as_u64 id)) as [c|]; cbn.
  2: { exists result. split; [done|]. intros key. by rewrite app_nil_r. }
  unfold task_state, mbind, M_bind. rewrite (task_history_ok _ w es Hf Hh Hid).
  fold (events_of (as_u64 id) (contents (db w) es)). unfold contents.
  rewrite fold_uncursored by by apply holds_length. cbn. destruct (state_in es (as_u64 id)) as [st|]; cbn; [destruct (is_open (ts_status st))|].
  - eexists. split; [done|]. intros key. by apply (push_task_group result c (as_u64 id, ts_owner st, ts_reward st) (grouped es seen)).
  - exists result. split; [done|]. intros key. by rewrite app_nil_r.
  - exists result. split; [done|]. intros key. by rewrite app_nil_r.
Qed.
(** ** Keys and orders *)

Definition no_colon (s : string) : Prop := ":"%char ∉ chars s.

Lemma feed_key_inj o1 a1 o2 a2 :
  no_colon o1 -> no_colon o2 -> feed_key o1 a1 = feed_key o2 a2 -> o1 = o2 /\ a1 = a2.
Proof.
  unfold feed_key, no_colon. revert o2. induction o1 as [|c o1 IH]; intros [|d o2] H1 H2;
    rewrite ?append_cons, ?append_nil_l; cbn [chars] in *; intros [= Heq].
  - done.
  - subst d. set_solver.
  - subst c. set_solver.
  - destruct (IH o2) as [-> ->]; [set_solver..| |by subst]. done.
Qed.

Definition feed_before (a b : Feed) : Prop :=
  String.compare (fd_oracle a) (fd_oracle b) = Lt \/
  (fd_oracle a = fd_oracle b /\ String.compare (fd_asset a) (fd_asset b) = Lt).

Lemma feed_le_spec a b :
  order feed_le a b <-> feed_before a b \/ (fd_oracle a = fd_oracle b /\ fd_asset a = fd_asset b).
Proof.
  unfold order, feed_le, feed_before, then_with.
  destruct (String.compare (fd_oracle a) (fd_oracle b)) eqn:Ho.
  - apply String.compare_eq_iff in Ho. destruct (String.compare (fd_asset a) (fd_asset b)) eqn:Ha.
    + apply String.compare_eq_iff in Ha. tauto.
    + tauto.
    + split; [done|]. intros [[?|[_ ?]]|[_ Heq]]; try done. by rewrite Heq, string_compare_refl in Ha.
  - tauto.
  - assert (fd_oracle a <> fd_oracle b) by (intros Heq; by rewrite Heq, string_compare_refl in Ho).
    split; [done|]. intros [[?|[? _]]|[? _]]; done.
Qed.

Lemma feed_le_trans a b c : order feed_le a b -> order feed_le b c -> order feed_le a c.
Proof.
  rewrite !feed_le_spec. unfold feed_before.
  intros [[Hab|[-> Hab]]|[-> ->]] [[Hbc|[<- Hbc]]|[<- <-]]; auto;
    left; eauto using string_compare_trans_lt.
Qed.

Lemma feed_le_total a b : feed_le a b = false -> order feed_le b a.
Proof.
  unfold order, feed_le, then_with. rewrite (String.compare_antisym (fd_oracle b)), (String.compare_antisym (fd_asset b)).
  destruct (String.compare (fd_oracle a) (fd_oracle b)), (String.compare (fd_asset a) (fd_asset b)); done.
Qed.

Lemma newest_first_trans a b c : order newest_first a b -> order newest_first b c -> order newest_first a c.
Proof. unfold order, newest_first. rewrite !bool_decide_eq_true. lia. Qed.

Lemma newest_first_total a b : newest_first a b = false -> order newest_first b a.
Proof. unfold order, newest_first. rewrite bool_decide_eq_false, bool_decide_eq_true. lia. Qed.

(** A sort by a key without duplicates is strict. *)
Lemma sorted_strict {A K} (R R' : A -> A -> Prop) (key : A -> K) l :
  StronglySorted R l -> NoDup (key <$> l) -> (forall a b, R a b -> key a <> key b -> R' a b) -> StronglySorted R' l.
Proof.
  intros Hs Hk HR. induction Hs as [|x l Hs IH Hx]; [constructor|].
  cbn in Hk. apply list.NoDup_cons in Hk as [Hnx Hk]. constructor; [by apply IH|].
  rewrite list.Forall_forall in Hx |- *. intros y Hy. apply HR; [by apply Hx|].
  intros Heq. apply Hnx. rewrite Heq. by apply list_elem_of_fmap_2.
Qed.

(** ** What is read *)

Lemma registered_or_claimed_spec c x j :
  typed_entry x ->
  registered_or_claimed (row_for c x j) =
  match x.2 with EventPayload.TaskRegistered _ _ _ _ _ | EventPayload.TaskClaimed _ _ _ => true | _ => false end.
Proof. intros _. unfold registered_or_claimed. cbn. by destruct (x.2). Qed.

Lemma elem_of_distinct_ids d es i :
  holds d es -> i ∈ distinct_ids d <->
  exists x id, x ∈ es /\ EventPayload.task_id x.2 = Some id /\ i = as_i64 id /\
    match x.2 with EventPayload.TaskRegistered _ _ _ _ _ | EventPayload.TaskClaimed _ _ _ => True | _ => False end.
Proof.
  intros [Hr _]. unfold distinct_ids. rewrite elem_of_remove_dups, list_elem_of_omap.
  setoid_rewrite scan_perm. revert Hr. generalize (cursors d) as cs. generalize (d_events d) as rows. intros rows. revert es.
  induction rows as [|row rows IH]; intros [|x es] [|k cs] Hr; try done.
  { cbn. setoid_rewrite elem_of_nil. naive_solver. }
  destruct Hr as ((j & Hj & ->) & Hx & Hr). specialize (IH _ _ Hr). rewrite filter_cons, registered_or_claimed_spec by done.
  setoid_rewrite list.elem_of_cons. split.
  - case_decide as Hp.
    + intros (row & [->|Hrow]%list.elem_of_cons & Hi).
      * cbn in Hi. destruct (EventPayload.task_id x.2) as [id|] eqn:Hid; [|done]. cbn in Hi. exists x, id.
        destruct (x.2); naive_solver.
      * destruct (proj1 IH) as (y & id & Hy); [by exists row|]. exists y, id. naive_solver.
    + intros Hrow. destruct (proj1 IH Hrow) as (y & id & Hy). exists y, id. naive_solver.
  - intros (y & id & [->|Hy] & Hid & -> & Hp).
    + rewrite decide_True by by destruct (x.2). exists (row_for k x j). split; [apply list_elem_of_here|].
      cbn. by rewrite Hid.
    + destruct (proj2 IH) as (row & Hrow & Hi); [by exists y, id|]. exists row. split; [|done].
      case_decide; [by apply list_elem_of_further | done].
Qed.
Lemma distinct_ids_NoDup d es : holds d es -> NoDup (as_u64 <$> distinct_ids d).
Proof.
  intros Hh. apply NoDup_fmap_2_strong; [|apply NoDup_remove_dups].
  intros x y (x1 & a & _ & _ & -> & _)%(elem_of_distinct_ids _ _ _ Hh) (x2 & b & _ & _ & -> & _)%(elem_of_distinct_ids _ _ _ Hh) Heq.
  rewrite <- (as_i64_as_u64 (as_i64 a)), <- (as_i64_as_u64 (as_i64 b)) by apply as_i64_range. by rewrite Heq.
Qed.

Lemma fold_registers id l st :
  TaskFold.fold id l = Some st ->
  exists e, e ∈ l /\ match payload e with EventPayload.TaskRegistered _ _ _ _ _ => True | _ => False end.
Proof.
  unfold TaskFold.fold. assert (forall o, foldl (TaskFold.step id) o l = Some st -> is_Some o \/
    exists e, e ∈ l /\ match payload e with EventPayload.TaskRegistered _ _ _ _ _ => True | _ => False end) as Hg.
  { induction l as [|e l IH]; intros o Ho; [left; by eexists|]. cbn [foldl] in Ho.
    destruct (IH _ Ho) as [[st' Hst]|(e' & Hin & He')]; [|right; exists e'; split; [by apply list_elem_of_further | done]].
    destruct o; [left; by eexists|]. right. exists e. split; [apply list_elem_of_here|].
    unfold TaskFold.step in Hst. by destruct (payload e). }
  intros Hf. destruct (Hg None Hf) as [[]|]; done.
Qed.

Lemma listing_id es id c t : listing es id = Some (c, t) -> t.1.1 = id /\ condition_in es id = Some c.
Proof.
  unfold listing. destruct (condition_in es id) as [c'|]; cbn; [|done].
  destruct (state_in es id); cbn; [|done]. destruct (is_open _); intros [= <- <-]. done.
Qed.

(** Whatever is listed is read. *)
Lemma listing_read d es id x : holds d es -> Forall typed_entry es -> listing es id = Some x -> id ∈ as_u64 <$> distinct_ids d.
Proof.
  intros Hh Hty Hl. assert (exists st, state_in es id = Some st) as [st Hst].
  { unfold listing in Hl. destruct (condition_in es id); cbn in Hl; [|done]. destruct (state_in es id); [by eexists | done]. }
  apply fold_registers in Hst as (e & [Hid (y & -> & Hy)%list_elem_of_fmap]%list_elem_of_filter & Hreg).
  cbn [payload event_for] in Hid, Hreg.
  apply list_elem_of_fmap. exists (as_i64 id). rewrite list.Forall_forall in Hty. destruct (Hty y Hy) as (_ & _ & Hu64).
  split; [by rewrite as_u64_as_i64 by by apply Hu64|].
  apply (elem_of_distinct_ids _ _ _ Hh). exists y, id. split_and!; try done. by destruct (y.2).
Qed.

Definition well_named es : Prop :=
  Forall (fun x => match x.2 with EventPayload.OraclePriceConditionSet _ oracle _ _ => no_colon oracle | _ => True end) es.

Lemma condition_named es id c : well_named es -> condition_in es id = Some c -> no_colon c.1.1.
Proof.
  intros Hn Hc. unfold condition_in in Hc. apply list.last_Some_elem_of, list_elem_of_omap in Hc as (x & Hx & Hc).
  unfold well_named in Hn. rewrite list.Forall_forall in Hn. specialize (Hn x Hx). cbn in Hc.
  destruct (x.2); try done. case_decide; by simplify_eq.
Qed.

(** What a group holds. *)
Lemma group_spec es ids key f :
  well_named es -> NoDup ids -> group (grouped es ids key) = Some f ->
  key = feed_key (fd_oracle f) (fd_asset f) /\ no_colon (fd_oracle f) /\
  NoDup ((fun t => t.1.1) <$> fd_tasks f) /\
  (exists t, t ∈ fd_tasks f /\ condition_in es t.1.1 = Some (fd_oracle f, fd_asset f, fd_threshold f)) /\
  (forall t, t ∈ fd_tasks f <-> t.1.1 ∈ ids /\ exists thr, listing es t.1.1 = Some ((fd_oracle f, fd_asset f, thr), t)).
Proof.
  intros Hn Hids Hg.
  assert (forall c t, (c, t) ∈ grouped es ids key <-> feed_key c.1.1 c.1.2 = key /\ t.1.1 ∈ ids /\ listing es t.1.1 = Some (c, t)) as Hin.
  { intros c t. unfold grouped. rewrite list_elem_of_filter, list_elem_of_omap. split.
    - intros (Hk & id & Hid & Hl). pose proof (listing_id _ _ _ _ Hl) as [<- _]. done.
    - intros (Hk & Hid & Hl). split; [done|]. by exists t.1.1. }
  assert (NoDup ((fun x : Condition * FeedTask => x.2.1.1) <$> grouped es ids key)) as Hnd.
  { unfold grouped. clear Hin Hg. induction Hids as [|id ids Hnid Hids IH]; [constructor|]. cbn [omap list_omap].
    destruct (listing es id) as [[c t]|] eqn:Hl; [|done]. rewrite filter_cons. case_decide; [|done].
    rewrite fmap_cons. constructor; [|done]. pose proof (listing_id _ _ _ _ Hl) as [<- _].
    intros ([c' t'] & Heq & Hin)%list_elem_of_fmap. cbn in Heq.
    apply list_elem_of_filter in Hin as [_ (id' & Hid' & Hl')%list_elem_of_omap].
    pose proof (listing_id _ _ _ _ Hl') as [<- _]. by rewrite Heq in Hnid. }
  unfold group in Hg. destruct (grouped es ids key) as [|[c t] l] eqn:Hl; [done|].
  assert (f = mkFeed c.1.1 c.1.2 c.2 (snd <$> (c, t) :: l)) as -> by by injection Hg as <-.
  cbn [fd_oracle fd_asset fd_threshold fd_tasks].
  destruct (proj1 (Hin c t)) as (Hk & Ht & Hlt); [apply list_elem_of_here|].
  pose proof (listing_id _ _ _ _ Hlt) as [_ Hc].
  split; [done|]. split; [by eapply condition_named|]. split; [by rewrite <- list_fmap_compose|]. split.
  - exists t. split; [apply list_elem_of_here|]. rewrite Hc. by destruct c as [[]].
  - intros u. rewrite list_elem_of_fmap. split.
    + intros ([c' u'] & -> & Hu). cbn [snd]. destruct (proj1 (Hin c' u') Hu) as (Hk' & Hu' & Hlu).
      split; [done|]. pose proof (listing_id _ _ _ _ Hlu) as [_ Hc'].
      destruct (feed_key_inj c'.1.1 c'.1.2 c.1.1 c.1.2) as [<- <-];
        [by eapply condition_named | by eapply condition_named | by rewrite Hk' |].
      exists c'.2. rewrite Hlu. by destruct c' as [[]].
    + intros (Hu & thr & Hlu). exists (c.1.1, c.1.2, thr, u). split; [done|]. by apply Hin.
Qed.
(** The map the loop leaves behind. *)
Lemma groups_of w es :
  faults w = [] -> holds (db w) es ->
  exists result, open_tasks_by_feed w = Ok (sort_by feed_le (sort_tasks <$> feed_iter result)) w /\
    forall key, result !! key = group (grouped es (as_u64 <$> distinct_ids (db w)) key).
Proof.
  intros Hf Hh. unfold open_tasks_by_feed, mbind, M_bind.
  rewrite (select_ok _ _ sets_condition w es Hf Hh is_condition_spec), query_ok by done.
  destruct (listing_pushed es w (distinct_ids (db w)) ∅ Hf Hh) with (seen := @nil Z) as (result & -> & Hr).
  - apply list.Forall_forall. intros z (x & -> & _)%list_elem_of_fmap. unfold as_u64, in_range; cbn.
    pose proof (Z.mod_pos_bound x (2 ^ 64)). lia.
  - intros key. by rewrite lookup_empty.
  - by exists result.
Qed.

(** The open tasks of the oracle feeds.  Without faults the answer is there;
    its feeds come in strict order of oracle and asset, so each once; each names
    at least one task, newest first, each once, and the threshold of one of
    them; and a task is named under a feed exactly when that is the condition
    last set for it and its history folds to a pending or claimed task, with its
    owner and current reward - in whatever order the rows and groups come. *)
Theorem open_feeds_exact w es :
  faults w = [] -> holds (db w) es -> well_named es ->
  exists feeds, open_tasks_by_feed w = Ok feeds w /\ StronglySorted feed_before feeds /\
    Forall (fun f => StronglySorted (fun a b : FeedTask => b.1.1 < a.1.1) (fd_tasks f) /\
      exists t, t ∈ fd_tasks f /\ condition_in es t.1.1 = Some (fd_oracle f, fd_asset f, fd_threshold f)) feeds /\
    forall oracle asset t,
      (exists f, f ∈ feeds /\ fd_oracle f = oracle /\ fd_asset f = asset /\ t ∈ fd_tasks f) <->
      exists threshold, listing es t.1.1 = Some ((oracle, asset, threshold), t).
Proof.
  intros Hf Hh Hn. destruct (groups_of w es Hf Hh) as (result & -> & Hr).
  pose proof (distinct_ids_NoDup _ _ Hh) as Hids.
  assert (forall key f, result !! key = Some f -> _) as Hspec by
    (intros key f Hk; rewrite Hr in Hk; exact (group_spec es _ key f Hn Hids Hk)).
  assert (forall f, f ∈ sort_by feed_le (sort_tasks <$> feed_iter result) <->
    exists key f0, result !! key = Some f0 /\ f = sort_tasks f0) as Hin.
  { intros f. rewrite sort_by_perm, list_elem_of_fmap. setoid_rewrite feed_iter_perm. setoid_rewrite list_elem_of_fmap. split.
    - intros (f0 & -> & ([key f1] & -> & Hk%elem_of_map_to_list)). by exists key, f1.
    - intros (key & f0 & Hk & ->). exists f0. split; [done|]. exists (key, f0). by rewrite elem_of_map_to_list. }
  eexists. split; [done|]. split; [|split].
  - eapply (sorted_strict (order feed_le) _ (fun f => feed_key (fd_oracle f) (fd_asset f))).
    + apply sort_by_sorted; [apply feed_le_trans | apply feed_le_total].
    + rewrite sort_by_perm, <- list_fmap_compose, feed_iter_perm, <- list_fmap_compose.
      rewrite (list_fmap_ext _ fst); [apply NoDup_fst_map_to_list|].
      intros i [key f] Hi%list_elem_of_lookup_2%elem_of_map_to_list. cbn. by destruct (Hspec _ _ Hi) as [-> _].
    + intros a b [|[Ho Ha]]%feed_le_spec Hne; [done|]. by rewrite Ho, Ha in Hne.
  - apply list.Forall_forall. intros f (key & f0 & Hk & ->)%Hin. destruct (Hspec _ _ Hk) as (_ & _ & Hnd & (t & Ht & Hc) & _).
    cbn [sort_tasks fd_oracle fd_asset fd_threshold fd_tasks]. split.
    + eapply (sorted_strict (order newest_first) _ (fun t => t.1.1)).
      * apply sort_by_sorted; [apply newest_first_trans | apply newest_first_total].
      * by rewrite sort_by_perm.
      * unfold order, newest_first. intros a b Hab Hne. apply bool_decide_eq_true in Hab. lia.
    + exists t. by rewrite sort_by_perm.
  - intros oracle asset t. split.
    + intros (f & (key & f0 & Hk & ->)%Hin & <- & <- & Ht). destruct (Hspec _ _ Hk) as (_ & _ & _ & _ & Hmem).
      cbn [sort_tasks fd_oracle fd_asset fd_tasks] in *. rewrite sort_by_perm in Ht. by apply Hmem in Ht as [_ ?].
    + intros (thr & Hl). pose proof (listing_read _ _ _ _ Hh (holds_typed _ _ Hh) Hl) as Hid.
      assert (exists f, result !! feed_key oracle asset = Some f) as [f Hk].
      { rewrite Hr. unfold group. destruct (grouped _ _ _) as [|[c u] l] eqn:Hg; [|by eexists].
        assert ((oracle, asset, thr, t) ∈ grouped es (as_u64 <$> distinct_ids (db w)) (feed_key oracle asset)) as Hx.
        { apply list_elem_of_filter. split; [done|]. apply list_elem_of_omap. by exists t.1.1. }
        rewrite Hg in Hx. by apply elem_of_nil in Hx. }
      destruct (Hspec _ _ Hk) as (Hkey & Hno & _ & _ & Hmem). pose proof (listing_id _ _ _ _ Hl) as [_ Hc].
      destruct (feed_key_inj oracle asset (fd_oracle f) (fd_asset f)) as [-> ->];
        [by apply (condition_named es _ _ Hn Hc) | done | done|].
      exists (sort_tasks f). split; [apply Hin; by exists (feed_key (fd_oracle f) (fd_asset f)), f|].
      cbn. rewrite sort_by_perm. split_and!; [done..|]. apply Hmem. split; [done|]. by exists thr.
Qed.
End Feeds.
