(* ===== verification/IndexerQueries.v ===== *)
(** * Indexer: statistics and activity

    src/indexer/src/queries/stats.rs and activity.rs.  Both read one page of at
    most 10,000 events from the start of the feed and fold it; the sums trap on
    overflow. *)

From stdpp Require Import pretty.
From S2P Require Import Prelude Host IndexerEvents IndexerState IndexerAddress IndexerReorg IndexerProgress IndexerStore IndexerStoreSpec IndexerPaging.

Definition PAGE : Z := 10000.

(** ** Statistics *)

Record ProtocolStats := mkProtocolStats {
  total_tasks_registered : Z;
  total_value_escrowed : string;
  current_open_escrow : string;
  total_fees_swept : string;
  current_fee_bps : Z;
  is_paused : bool;
}.

(** The variables of the loop. *)
Record Tally := mkTally {
  total_tasks : Z;
  total_escrowed : Z;
  open_escrow : Z;
  fees_swept : Z;
  fee_bps : Z;
  paused : bool;
}.

Definition no_events : Tally := mkTally 0 0 0 0 300 false.

Definition count_event (t : Tally) (event : IndexedEvent) : option Tally :=
  match payload event with
  | EventPayload.TaskRegistered _ _ reward _ _ =>
      tasks ← checked_add u64 (total_tasks t) 1;
      escrowed ← checked_add i128 (total_escrowed t) reward;
      open ← checked_add i128 (open_escrow t) reward;
      Some (mkTally tasks escrowed open (fees_swept t) (fee_bps t) (paused t))
  | EventPayload.TaskExecuted _ _ net_reward _ =>
      open ← (if bool_decide (open_escrow t >= net_reward) then checked_sub i128 (open_escrow t) net_reward else Some 0);
      Some (mkTally (total_tasks t) (total_escrowed t) open (fees_swept t) (fee_bps t) (paused t))
  | EventPayload.FeesSwept _ amount _ =>
      swept ← checked_add i128 (fees_swept t) amount;
      Some (mkTally (total_tasks t) (total_escrowed t) (open_escrow t) swept (fee_bps t) (paused t))
  | EventPayload.FeeUpdated _ new_bps =>
      Some (mkTally (total_tasks t) (total_escrowed t) (open_escrow t) (fees_swept t) new_bps (paused t))
  | EventPayload.Paused p =>
      Some (mkTally (total_tasks t) (total_escrowed t) (open_escrow t) (fees_swept t) (fee_bps t) p)
  | _ => Some t
  end.

(** ** Activity *)

Inductive ActivityRole := Owner | Keeper.

Record ActivityItem := mkActivityItem {
  ai_cursor : Z;
  ai_ledger : Z;
  ai_ledger_close_time : Z;
  ai_role : ActivityRole;
  ai_event_type : string;
  ai_task_id : option Z;
  ai_amount : option string;
}.

Record AddressActivityFeed := mkAddressActivityFeed { af_address : string; af_items : list ActivityItem; af_total_count : Z }.

Definition item_of (ev : IndexedEvent) (role : ActivityRole) (event_type : string) (task_id : option Z)
    (amount : option string) : ActivityItem :=
  mkActivityItem (cursor ev) (ie_ledger ev) (ie_ledger_close_time ev) role event_type task_id amount.

(** The item an event gives, if it is [address]'s own doing. *)
Definition activity_item (address : string) (ev : IndexedEvent) : option ActivityItem :=
  match payload ev with
  | EventPayload.TaskRegistered task_id owner reward _ _ =>
      if bool_decide (owner = address) then Some (item_of ev Owner "task_registered" (Some task_id) (Some (pretty reward)))
      else None
  | EventPayload.TaskClaimed task_id keeper _ =>
      if bool_decide (keeper = address) then Some (item_of ev Keeper "task_claimed" (Some task_id) None) else None
  | EventPayload.TaskExecuted task_id keeper net_reward _ =>
      if bool_decide (keeper = address)
      then Some (item_of ev Keeper "task_executed" (Some task_id) (Some (pretty net_reward))) else None
  | EventPayload.TaskCancelled task_id owner =>
      if bool_decide (owner = address) then Some (item_of ev Owner "task_cancelled" (Some task_id) None) else None
  | EventPayload.RewardsWithdrawn keeper amount =>
      if bool_decide (keeper = address) then Some (item_of ev Keeper "rewards_withdrawn" None (Some (pretty amount)))
      else None
  | _ => None
  end.

Section Queries.
Context `{JsonCodec} `{Strkey}.
Implicit Types (w : World) (es : list Entry).
Abbreviation IM := (M World Failure).

Definition get_protocol_stats : IM ProtocolStats :=
  page ← events_after None PAGE None None;
  t ← for_fold (p_events page) no_events (fun t event => expect (count_event t event));
  mret (mkProtocolStats (total_tasks t) (pretty (total_escrowed t)) (pretty (open_escrow t)) (pretty (fees_swept t))
          (fee_bps t) (paused t)).

Definition get_address_activity (address : string) (limit offset : Z) : IM AddressActivityFeed :=
  page ← events_after None PAGE None (Some address);
  let feed_items := omap (activity_item address) (p_events page) in
  mret (mkAddressActivityFeed address (take (Z.to_nat limit) (drop (Z.to_nat offset) feed_items))
          (Z.of_nat (length feed_items))).

(** ** What they count *)

Definition registration (e : IndexedEvent) : Z := match payload e with EventPayload.TaskRegistered _ _ _ _ _ => 1 | _ => 0 end.
Definition registered_reward (e : IndexedEvent) : Z :=
  match payload e with EventPayload.TaskRegistered _ _ reward _ _ => reward | _ => 0 end.
Definition executed_net (e : IndexedEvent) : Z := match payload e with EventPayload.TaskExecuted _ _ net _ => net | _ => 0 end.
Definition swept_amount (e : IndexedEvent) : Z := match payload e with EventPayload.FeesSwept _ amount _ => amount | _ => 0 end.
Definition new_fee (e : IndexedEvent) : option Z := match payload e with EventPayload.FeeUpdated _ bps => Some bps | _ => None end.
Definition pause_flag (e : IndexedEvent) : option bool := match payload e with EventPayload.Paused p => Some p | _ => None end.

(** The amounts are not negative and their sums fit. *)
Definition summable (l : list IndexedEvent) : Prop :=
  Forall (fun e => 0 <= registered_reward e /\ 0 <= executed_net e /\ 0 <= swept_amount e) l /\
  list_sum registered_reward l <= int_max i128 /\ list_sum swept_amount l <= int_max i128.

Record counted (l : list IndexedEvent) (t : Tally) : Prop := {
  counted_tasks : total_tasks t = list_sum registration l;
  counted_escrowed : total_escrowed t = list_sum registered_reward l;
  counted_open : 0 <= open_escrow t <= total_escrowed t;
  counted_open_least : total_escrowed t - list_sum executed_net l <= open_escrow t;
  counted_swept : fees_swept t = list_sum swept_amount l;
  counted_fee : fee_bps t = default 300 (list.last (omap new_fee l));
  counted_paused : paused t = default false (list.last (omap pause_flag l));
}.

Lemma summable_app l k : summable (l ++ k) -> summable l.
Proof.
  intros (Hf & Hr & Hs). rewrite !list_sum_app in *. apply Forall_app in Hf as [Hl Hk].
  assert (0 <= list_sum registered_reward k /\ 0 <= list_sum swept_amount k) as [].
  { split; apply list_sum_nonneg; eapply list.Forall_impl; try exact Hk; cbn; tauto. }
  split; [done|]. lia.
Qed.

Lemma last_snoc_omap {A B} (f : A -> option B) (d : B) l x :
  default d (list.last (omap f (l ++ [x]))) = default (default d (list.last (omap f l))) (f x).
Proof.
  rewrite omap_app. cbn. destruct (f x); cbn; [by rewrite list.last_snoc | by rewrite app_nil_r].
Qed.

Lemma registration_bound l : 0 <= list_sum registration l <= Z.of_nat (length l).
Proof.
  induction l as [|e l IH]; [done|]. rewrite list_sum_cons. cbn [length].
  assert (0 <= registration e <= 1) by (unfold registration; destruct (payload e); lia). lia.
Qed.

Lemma count_event_ok l e t :
  summable (l ++ [e]) -> Z.of_nat (length l) < int_max u64 -> counted l t ->
  exists t', count_event t e = Some t' /\ counted (l ++ [e]) t'.
Proof.
  intros (Hf & Mr & Ms) Hlen [Ht He Ho Hl Hsw Hfee Hp].
  assert (forall t', total_tasks t' = total_tasks t + registration e ->
    total_escrowed t' = total_escrowed t + registered_reward e ->
    0 <= open_escrow t' <= total_escrowed t' ->
    open_escrow t + registered_reward e - executed_net e <= open_escrow t' ->
    fees_swept t' = fees_swept t + swept_amount e ->
    fee_bps t' = default (fee_bps t) (new_fee e) -> paused t' = default (paused t) (pause_flag e) ->
    counted (l ++ [e]) t') as Hgo.
  { intros t' H1 H2 H3 H4 H5 H6 H7. split; rewrite ?list_sum_app, ?last_snoc_omap; cbn; try lia.
    - by rewrite H6, Hfee.
    - by rewrite H7, Hp. }
  pose proof (registration_bound l) as Hreg. apply Forall_app in Hf as [Hf (He1 & He2 & He3)%Forall_inv].
  assert (0 <= list_sum swept_amount l) as Hs0.
  { apply list_sum_nonneg. eapply list.Forall_impl; [exact Hf|]. cbn. tauto. }
  rewrite list_sum_app in Mr, Ms. cbn in Mr, Ms.
  unfold count_event, registration, registered_reward, executed_net, swept_amount, new_fee, pause_flag in *.
  destruct (payload e); try (eexists; split; [done|]; apply Hgo; cbn in *; lia || done).
  all: unfold checked_add, checked_sub; cbn [int_max u64] in Hlen.
  - rewrite !checked_in_range by (unfold in_range; cbn in *; lia). eexists. split; [done|]. apply Hgo; cbn; lia || done.
  - case_bool_decide.
    + rewrite checked_in_range by (unfold in_range; cbn; lia). eexists. split; [done|]. apply Hgo; cbn; lia || done.
    + eexists. split; [done|]. apply Hgo; cbn; lia || done.
  - rewrite checked_in_range by (unfold in_range; cbn; lia). eexists. split; [done|]. apply Hgo; cbn; lia || done.
Qed.

Lemma count_events l k t w :
  summable (l ++ k) -> Z.of_nat (length (l ++ k)) <= int_max u64 -> counted l t ->
  exists t', for_fold k t (fun t event => expect (count_event t event)) w = Ok (E := Failure) t' w /\
    counted (l ++ k) t'.
Proof.
  revert l t. induction k as [|e k IH]; intros l t Hs Hlen Ht.
  { exists t. by rewrite app_nil_r. }
  change (e :: k) with ([e] ++ k) in Hs, Hlen |- *. rewrite app_assoc in Hs, Hlen |- *.
  destruct (count_event_ok l e t) as (t1 & H1 & Ht1); [by eapply summable_app | | done|].
  { rewrite !length_app in Hlen. cbn in Hlen |- *. lia. }
  destruct (IH _ t1 Hs Hlen Ht1) as (t2 & Hf & Ht2). exists t2. split; [|done].
  cbn [app for_fold]. unfold mbind, M_bind, expect. by rewrite H1.
Qed.

(** ** What they answer *)

Lemma read_page a w es :
  faults w = [] -> holds (db w) es ->
  exists next, events_after None PAGE None a w =
    Ok (mkEventPage (take (Z.to_nat PAGE) (filter (wanted None a) (contents (db w) es))) next) w.
Proof.
  intros Hf Hh. assert (0 <= PAGE) as Hp by done. rewrite (events_after_ok None PAGE None a w es Hf Hh Hp).
  assert (filter (wanted_after (from_option id 0 None) None a) (contents (db w) es) = filter (wanted None a) (contents (db w) es)) as ->.
  { apply filter_ext_in. eapply list.Forall_impl; [by apply contents_cursor|]. cbn. intros e He.
    unfold wanted_after. by rewrite bool_decide_eq_true_2 by lia. }
  case_bool_decide as Hlen; [by eexists|]. eexists. rewrite take_ge; [done|]. lia.
Qed.

(** Statistics count the first 10,000 events and no more: tasks, escrowed and
    swept amounts exactly, the fee as last updated (300 unless it was), the
    pause flag as last set.  The open escrow is only bounded: executions lower
    it by their net reward, cancellations and expiries not at all. *)
Theorem protocol_stats_exact w es :
  let seen := take (Z.to_nat PAGE) (contents (db w) es) in
  faults w = [] -> holds (db w) es -> summable seen ->
  exists open, get_protocol_stats w =
    Ok (mkProtocolStats (list_sum registration seen) (pretty (list_sum registered_reward seen)) (pretty open)
          (pretty (list_sum swept_amount seen)) (default 300 (list.last (omap new_fee seen)))
          (default false (list.last (omap pause_flag seen)))) w /\
    Z.max 0 (list_sum registered_reward seen - list_sum executed_net seen) <= open <= list_sum registered_reward seen.
Proof.
  intros seen Hf Hh Hs. unfold get_protocol_stats, mbind, M_bind.
  destruct (read_page None w es Hf Hh) as [next ->]. cbn [p_events].
  rewrite filter_all by (apply list.Forall_forall; intros; exact I). fold seen.
  destruct (count_events [] seen no_events w) as (t & -> & [Ht He Ho Hl Hsw Hfee Hp]).
  - done.
  - cbn [app]. unfold seen. rewrite length_take. change (int_max u64) with (2 ^ 64 - 1). unfold PAGE. lia.
  - by split.
  - cbn [app] in *. exists (open_escrow t). rewrite Ht, He, Hsw, Hfee, Hp. split; [done|]. lia.
Qed.

Lemma item_wanted a e i :
  normalized_or_as_given a = a -> activity_item a e = Some i -> wanted None (Some a) e = true.
Proof.
  intros Ha Hi. unfold wanted, clause_type, clause_address. cbn. rewrite Ha. unfold activity_item in Hi.
  destruct (payload e); try done; case_bool_decide; try done; subst; cbn;
    repeat case_bool_decide; naive_solver.
Qed.

(** The pages of an address's activity feed, for an address in its canonical
    form with at most 10,000 events: its own doings, all of them, oldest first. *)
Theorem activity_exact a limit offset w es :
  faults w = [] -> holds (db w) es -> normalized_or_as_given a = a ->
  Z.of_nat (length (filter (wanted None (Some a)) (contents (db w) es))) <= PAGE ->
  let items := omap (activity_item a) (contents (db w) es) in
  get_address_activity a limit offset w =
    Ok (mkAddressActivityFeed a (take (Z.to_nat limit) (drop (Z.to_nat offset) items)) (Z.of_nat (length items))) w.
Proof.
  intros Hf Hh Ha Hlen items. unfold get_address_activity, mbind, M_bind.
  destruct (read_page (Some a) w es Hf Hh) as [next ->]. cbn [p_events].
  rewrite (take_ge (filter (wanted None (Some a)) (contents (db w) es))) by lia.
  assert (omap (activity_item a) (filter (wanted None (Some a)) (contents (db w) es)) = items) as ->; [|done].
  unfold items. generalize (contents (db w) es) as l. intros l. induction l as [|e l IH]; [done|].
  rewrite filter_cons. case_decide as Hw; cbn [omap list_omap]; rewrite IH; [done|].
  destruct (activity_item a e) eqn:Hi; [|done]. apply (item_wanted _ _ _ Ha) in Hi. by rewrite Hi in Hw.
Qed.
End Queries.
