(* ===== verification/IndexerCache.v ===== *)
(** * Indexer: the aggregate cache

    src/indexer/src/cache.rs.  [lookup] and [store] are the two critical
    sections of [TtlCache]; [get_or_insert_with] runs them around a computation
    outside the lock, so requests interleave: [step] is one atomic action of the
    process.  Times are readings of a monotone clock.  The counters trap on
    overflow ([None]). *)

From stdpp Require Import gmap.
From S2P Require Import Prelude.

(** ** The cache *)

Record CacheStats := mkCacheStats { hits : Z; misses : Z; expirations : Z; evictions : Z }.

Record CacheEntry (V : Type) := mkCacheEntry { value : V; stored_at : Z }.
Arguments mkCacheEntry {V}.
Arguments value {V}.
Arguments stored_at {V}.

(** A HashMap hands out its entries in some order. *)
Class MapIter (K V : Type) `{Countable K} := {
  iter : gmap K (CacheEntry V) -> list (K * CacheEntry V);
  iter_perm m : iter m ≡ₚ map_to_list m;
}.

Section Cache.
Context {K V : Type} `{Countable K, !MapIter K V}.

Record Cache := mkCache { entries : gmap K (CacheEntry V); stats : CacheStats }.

(** [TtlCache]: the parts that never change. *)
Context (ttl max_entries : Z).

Definition new_cache : Cache := mkCache ∅ (mkCacheStats 0 0 0 0).

(** [with_capacity] keeps a positive bound. *)
Definition with_capacity (max_entries : Z) : Z := Z.max max_entries 1.

Definition is_disabled : bool := bool_decide (ttl = 0).

Definition hit (s : CacheStats) : option CacheStats :=
  n ← checked_add u64 (hits s) 1; Some (mkCacheStats n (misses s) (expirations s) (evictions s)).
Definition miss (s : CacheStats) : option CacheStats :=
  n ← checked_add u64 (misses s) 1; Some (mkCacheStats (hits s) n (expirations s) (evictions s)).
Definition expire (s : CacheStats) : option CacheStats :=
  n ← checked_add u64 (expirations s) 1; Some (mkCacheStats (hits s) (misses s) n (evictions s)).
Definition evict (k : Z) (s : CacheStats) : option CacheStats :=
  n ← checked_add u64 (evictions s) k; Some (mkCacheStats (hits s) (misses s) (expirations s) n).

(** [entry.stored_at.elapsed() < self.ttl], the clock read at [now]. *)
Definition fresh_at (now : Z) (e : CacheEntry V) : bool := bool_decide (Z.max 0 (now - stored_at e) < ttl).

Definition lookup (key : K) (now : Z) (c : Cache) : option (option V * Cache) :=
  match entries c !! key with
  | Some entry =>
      if fresh_at now entry then
        s ← hit (stats c); Some (Some (value entry), mkCache (entries c) s)
      else
        s ← expire (stats c); s ← miss s; Some (None, mkCache (delete key (entries c)) s)
  | None => s ← miss (stats c); Some (None, mkCache (entries c) s)
  end.

(** [min_by_key]: the first of the least. *)
Fixpoint oldest (l : list (K * CacheEntry V)) : option (K * CacheEntry V) :=
  match l with
  | [] => None
  | x :: l =>
      match oldest l with
      | Some y => if bool_decide (stored_at x.2 <= stored_at y.2) then Some x else Some y
      | None => Some x
      end
  end.

(** [retain]; [reads] is the clock when an entry is looked at. *)
Definition retain (reads : K -> Z) (m : gmap K (CacheEntry V)) : gmap K (CacheEntry V) :=
  filter (fun ke => fresh_at (reads ke.1) ke.2 : bool) m.

(** The branch of [store] that makes room. *)
Definition make_room (reads : K -> Z) (c : Cache) : option Cache :=
  let kept := retain reads (entries c) in
  s ← evict (Z.of_nat (size (entries c)) - Z.of_nat (size kept)) (stats c);
  if bool_decide (Z.of_nat (size kept) >= max_entries) then
    match oldest (iter kept) with
    | Some (k, _) => s ← evict 1 s; Some (mkCache (delete k kept) s)
    | None => Some (mkCache kept s)
    end
  else Some (mkCache kept s).

Definition store (key : K) (v : V) (reads : K -> Z) (now : Z) (c : Cache) : option Cache :=
  c' ← (if bool_decide (Z.of_nat (size (entries c)) >= max_entries) &&
           match entries c !! key with Some _ => false | None => true end
        then make_room reads c else Some c);
  Some (mkCache (<[key := mkCacheEntry v now]> (entries c')) (stats c')).

Definition clear (c : Cache) : Cache := mkCache ∅ (stats c).

(** ** Concurrent requests *)

(** What a request to the aggregate would answer at each time. *)
Context (answer : Z -> K -> V).

(** A computation under way, [found] once it has its result. *)
Record Computation := mkComputation { for_key : K; begun : Z; found : option V }.

(** A served response: when it was asked for and served, and whether it came from
    the cache. *)
Record Response := mkResponse { r_key : K; r_value : V; r_begun : Z; r_at : Z; r_cached : bool }.

(** What a request put into the cache: when it was asked for, and when the
    critical section stored it. *)
Record Stored := mkStored { s_key : K; s_value : V; s_begun : Z; s_at : Z }.

Record Process := mkProcess {
  clock : Z;
  cache : Cache;
  running : list Computation;
  (* the history, newest first *)
  served : list Response;
  stores : list Stored;
}.

Inductive step : Process -> Process -> Prop :=
  | Time p t : clock p <= t -> step p (mkProcess t (cache p) (running p) (served p) (stores p))
  | Clear p : step p (mkProcess (clock p) (clear (cache p)) (running p) (served p) (stores p))
  (** [lookup] finds an answer. *)
  | Hit p k v c :
      is_disabled = false -> lookup k (clock p) (cache p) = Some (Some v, c) ->
      step p (mkProcess (clock p) c (running p) (mkResponse k v (clock p) (clock p) true :: served p) (stores p))
  (** [lookup] finds none: [compute()] starts. *)
  | Miss p k c :
      is_disabled = false -> lookup k (clock p) (cache p) = Some (None, c) ->
      step p (mkProcess (clock p) c (mkComputation k (clock p) None :: running p) (served p) (stores p))
  (** A disabled cache computes every time, and serves without storing. *)
  | Bypass p k :
      is_disabled = true ->
      step p (mkProcess (clock p) (cache p) (mkComputation k (clock p) None :: running p) (served p) (stores p))
  | Serve p k t0 v l1 l2 :
      is_disabled = true -> running p = l1 ++ mkComputation k t0 (Some v) :: l2 ->
      step p (mkProcess (clock p) (cache p) (l1 ++ l2) (mkResponse k v t0 (clock p) false :: served p) (stores p))
  (** A computation has read the database. *)
  | Compute p k t0 l1 l2 :
      running p = l1 ++ mkComputation k t0 None :: l2 ->
      step p (mkProcess (clock p) (cache p) (l1 ++ mkComputation k t0 (Some (answer (clock p) k)) :: l2) (served p) (stores p))
  (** [compute()] fails: the request ends with its error. *)
  | Failed p k t0 l1 l2 :
      running p = l1 ++ mkComputation k t0 None :: l2 ->
      step p (mkProcess (clock p) (cache p) (l1 ++ l2) (served p) (stores p))
  (** The result is stored and served; the critical section ends at [now]. *)
  | Store p k t0 v l1 l2 reads now c :
      is_disabled = false -> running p = l1 ++ mkComputation k t0 (Some v) :: l2 ->
      clock p <= now -> store k v reads now (cache p) = Some c ->
      step p (mkProcess now c (l1 ++ l2) (mkResponse k v t0 now false :: served p)
        (mkStored k v t0 now :: stores p)).

Definition start (t : Z) : Process := mkProcess t new_cache [] [] [].

Inductive run : Process -> Process -> Prop :=
  | Run_refl p : run p p
  | Run_step p q r : run p q -> step q r -> run p r.

(** ** The critical sections *)

Lemma oldest_elem l x : oldest l = Some x -> x ∈ l.
Proof.
  revert x. induction l as [|y l IH]; intros x; [done|]. cbn. destruct (oldest l) as [z|].
  - specialize (IH z eq_refl). case_bool_decide; intros [= <-]; set_solver.
  - intros [= <-]. set_solver.
Qed.

Lemma oldest_None l : oldest l = None -> l = [].
Proof. destruct l as [|y l]; [done|]. cbn. destruct (oldest l); [by case_bool_decide | done]. Qed.

Lemma lookup_entries k now c v c' :
  lookup k now c = Some (v, c') ->
  entries c' ⊆ entries c /\
  match v with
  | Some v => exists e, entries c !! k = Some e /\ value e = v /\ Z.max 0 (now - stored_at e) < ttl
  | None => True
  end.
Proof.
  unfold lookup. destruct (entries c !! k) as [e|] eqn:Hk.
  - destruct (fresh_at now e) eqn:Hf.
    + destruct (hit _); [|done]. cbn. intros [= <- <-]. split; [done|]. exists e. split_and!; [done..|].
      unfold fresh_at in Hf. by apply bool_decide_eq_true in Hf.
    + destruct (expire _) as [s|]; [|done]. cbn. destruct (miss s); [|done]. cbn. intros [= <- <-].
      split; [|done]. apply delete_subseteq.
  - destruct (miss _); [|done]. cbn. by intros [= <- <-].
Qed.

Lemma retain_sub reads m : retain reads m ⊆ m.
Proof. apply map_filter_subseteq. Qed.

Lemma make_room_spec reads c c' :
  make_room reads c = Some c' -> 1 <= max_entries -> Z.of_nat (size (entries c)) <= max_entries ->
  entries c' ⊆ entries c /\ Z.of_nat (size (entries c')) < max_entries.
Proof.
  unfold make_room. intros Hr Hmax Hc. pose proof (retain_sub reads (entries c)) as Hsub.
  pose proof (map_subseteq_size _ _ Hsub) as Hsize.
  destruct (evict _ (stats c)) as [s|]; [|done]. cbn in Hr. case_bool_decide as Hfull.
  - destruct (oldest _) as [[k e]|] eqn:Ho.
    + destruct (evict 1 s); [|done]. cbn in Hr. simplify_eq. cbn. split.
      * etransitivity; [apply delete_subseteq | done].
      * assert (retain reads (entries c) !! k = Some e) as Hk.
        { apply elem_of_map_to_list. rewrite <- iter_perm. by apply oldest_elem. }
        rewrite map_size_delete_Some by done.
        assert (size (retain reads (entries c)) <> 0%nat) as Hne.
        { intros He%map_size_empty_iff. by rewrite He, lookup_empty in Hk. }
        lia.
    + apply oldest_None in Ho. pose proof (iter_perm (retain reads (entries c))) as Hp. rewrite Ho in Hp.
      apply Permutation.Permutation_nil in Hp. apply map_to_list_empty_iff in Hp. rewrite Hp in Hfull.
      rewrite map_size_empty in Hfull. lia.
  - simplify_eq. cbn. split; [done | lia].
Qed.

Lemma store_spec k v reads now c c' :
  store k v reads now c = Some c' -> 1 <= max_entries -> Z.of_nat (size (entries c)) <= max_entries ->
  entries c' ⊆ <[k := mkCacheEntry v now]> (entries c) /\
  entries c' !! k = Some (mkCacheEntry v now) /\ Z.of_nat (size (entries c')) <= max_entries.
Proof.
  unfold store. intros Hs Hmax Hc.
  destruct (bool_decide (Z.of_nat (size (entries c)) >= max_entries)) eqn:Hfull;
    destruct (entries c !! k) as [e|] eqn:Hk; cbn in Hs.
  all: try (simplify_eq; cbn; split_and!; [done | by rewrite lookup_insert_eq|]).
  - rewrite map_size_insert_Some; [done | by rewrite Hk].
  - destruct (make_room reads c) as [c1|] eqn:Hr; [|done]. cbn in Hs. simplify_eq. cbn.
    destruct (make_room_spec _ _ _ Hr Hmax Hc) as [Hsub Hsize]. split_and!.
    + by apply insert_mono.
    + by rewrite lookup_insert_eq.
    + rewrite fin_maps.map_size_insert. case_match; unfold id; lia.
  - rewrite map_size_insert_Some; [done | by rewrite Hk].
  - apply bool_decide_eq_false in Hfull. rewrite map_size_insert_None by done. lia.
Qed.

Lemma lookup_stored k v reads now now' c c' :
  store k v reads now c = Some c' -> now <= now' -> now' - now < ttl -> 0 < ttl ->
  in_range u64 (hits (stats c') + 1) -> exists c'', lookup k now' c' = Some (Some v, c'').
Proof.
  intros Hs Hle Hlt Httl Hh.
  assert (entries c' !! k = Some (mkCacheEntry v now)) as Hk.
  { unfold store in Hs. destruct (bool_decide (_ >= _) && _); [destruct (make_room reads c); [|done]|];
      cbn in Hs; simplify_eq; cbn; by rewrite lookup_insert_eq. }
  unfold lookup. rewrite Hk. unfold fresh_at. rewrite bool_decide_true by (cbn; lia). unfold hit.
  rewrite (proj2 (checked_add_Some _ _ _ _) (conj eq_refl Hh)). cbn. by eexists.
Qed.

(** ** The invariant *)

(** [v] is what the aggregate answered for [k] at some time from [t0] to [t]. *)
Definition answered (k : K) (v : V) (t0 t : Z) : Prop := exists s, t0 <= s <= t /\ v = answer s k.

(** What was stored is the answer to a reading made for it. *)
Definition well_stored (x : Stored) : Prop := answered (s_key x) (s_value x) (s_begun x) (s_at x).

(** [x] is the last thing stored for its key before [t]. *)
Definition last_stored (log : list Stored) (x : Stored) (t : Z) : Prop :=
  s_at x <= t /\ exists newer older, log = newer ++ x :: older /\
    Forall (fun y => s_key y = s_key x -> t <= s_at y) newer.

Definition well_served (log : list Stored) (r : Response) : Prop :=
  if r_cached r then
    exists x, last_stored log x (r_at r) /\ s_key x = r_key r /\ s_value x = r_value r /\ r_at r - s_at x < ttl
  else answered (r_key r) (r_value r) (r_begun r) (r_at r).

(** An entry is what was stored last under its key. *)
Definition entry_of (log : list Stored) (t : Z) (k : K) (e : CacheEntry V) : Prop :=
  exists x newer older, log = newer ++ x :: older /\ s_key x = k /\ s_value x = value e /\ s_at x = stored_at e /\
    s_at x <= t /\ Forall (fun y => s_key y <> k) newer.

Definition computing (t : Z) (x : Computation) : Prop :=
  begun x <= t /\ forall v, found x = Some v -> answered (for_key x) v (begun x) t.

Definition sound (p : Process) : Prop :=
  Z.of_nat (size (entries (cache p))) <= max_entries /\
  (forall k e, entries (cache p) !! k = Some e -> entry_of (stores p) (clock p) k e) /\
  Forall (computing (clock p)) (running p) /\
  Forall (fun r => r_at r <= clock p) (served p) /\
  Forall (well_served (stores p)) (served p) /\ Forall well_stored (stores p).

Lemma answered_mono k v t0 s t : answered k v t0 s -> s <= t -> answered k v t0 t.
Proof. intros (u & ? & ?) Ht. exists u. split; [lia | done]. Qed.

Lemma computing_mono l s t : Forall (computing s) l -> s <= t -> Forall (computing t) l.
Proof.
  intros Hl Ht. eapply list.Forall_impl; [exact Hl|]. intros x [Hb Hx]. split; [lia|].
  intros v Hv. eapply answered_mono; eauto.
Qed.

Lemma entry_of_mono log s t k e : entry_of log s k e -> s <= t -> entry_of log t k e.
Proof. intros (x & newer & older & ? & ? & ? & ? & ? & ?) Ht. exists x, newer, older. split_and!; (done || lia). Qed.

(** A later store for another key. *)
Lemma entry_of_cons log t k e y : entry_of log t k e -> s_key y <> k -> entry_of (y :: log) t k e.
Proof.
  intros (x & newer & older & -> & ? & ? & ? & ? & ?) Hy. exists x, (y :: newer), older. split_and!; try done. by constructor.
Qed.

Lemma served_cons log l y t :
  Forall (well_served log) l -> Forall (fun r => r_at r <= t) l -> t <= s_at y -> Forall (well_served (y :: log)) l.
Proof.
  intros Hl Ht Hy. rewrite list.Forall_forall in Hl, Ht |- *. intros r Hr. specialize (Hl r Hr). specialize (Ht r Hr).
  unfold well_served in *. destruct (r_cached r); [|done].
  destruct Hl as (x & (Hx & newer & older & -> & Hn) & Hrest). exists x. split; [|done]. split; [done|].
  exists (y :: newer), older. split; [done|]. constructor; [|done]. cbn in Ht. lia.
Qed.

Lemma Forall_middle {A} (P : A -> Prop) l1 x l2 :
  Forall P (l1 ++ x :: l2) <-> Forall P l1 /\ P x /\ Forall P l2.
Proof. rewrite Forall_app, list.Forall_cons. tauto. Qed.

Lemma cache_step_sound p q : 1 <= max_entries -> sound p -> step p q -> sound q.
Proof.
  intros Hmax (Hsize & He & Hrun & Hat & Hserved & Hlog) Hstep.
  destruct Hstep as [p u Hu|p|p k v c Hd Hl|p k c Hd Hl|p k Hd|p k t0 v l1 l2 Hd Hr|p k t0 l1 l2 Hr
    |p k t0 l1 l2 Hr|p k t0 v l1 l2 reads now c Hd Hr Hnow Hst]; unfold sound; cbn.
  - split_and!; [done | | by eapply computing_mono | | done | done].
    + intros k e Hk. by eapply entry_of_mono; [apply He|].
    + eapply list.Forall_impl; [exact Hat|]. cbn. lia.
  - split_and!; [rewrite map_size_empty; lia | intros k e Hk; by rewrite lookup_empty in Hk | done..].
  - apply lookup_entries in Hl as [Hsub (e & Hk & <- & Hf)]. split_and!; [| |done| | |done].
    + pose proof (map_subseteq_size _ _ Hsub). lia.
    + intros k' e' Hk'. apply He. by eapply lookup_weaken.
    + constructor; [cbn; lia | done].
    + constructor; [|done]. destruct (He k e Hk) as (x & newer & older & Hlg & <- & Hv & Hs & Hle & Hn).
      exists x. cbn. split_and!; [|done|done|lia]. split; [done|]. exists newer, older. split; [done|].
      eapply list.Forall_impl; [exact Hn|]. by intros y Hy ?.
  - apply lookup_entries in Hl as [Hsub _]. split_and!; [| | |done..].
    + pose proof (map_subseteq_size _ _ Hsub). lia.
    + intros k' e' Hk'. apply He. by eapply lookup_weaken.
    + constructor; [by split | done].
  - split_and!; [done | done | constructor; [by split | done] | done | done | done].
  - rewrite Hr in Hrun. apply Forall_middle in Hrun as (Hl1 & Hx & Hl2).
    split_and!; [done | done | by apply Forall_app | constructor; [cbn; lia | done] | | done].
    constructor; [|done]. by apply Hx.
  - rewrite Hr in Hrun. apply Forall_middle in Hrun as (Hl1 & Hx & Hl2). split_and!; [done | done | | done | done | done].
    apply Forall_middle. split_and!; [done | | done]. destruct Hx as [Hb _]. split; [done|]. cbn.
    intros v [= <-]. exists (clock p). split; [cbn in Hb; lia | done].
  - rewrite Hr in Hrun. apply Forall_middle in Hrun as (Hl1 & Hx & Hl2). split_and!; [done | done | by apply Forall_app | done | done | done].
  - rewrite Hr in Hrun. apply Forall_middle in Hrun as (Hl1 & Hx & Hl2).
    destruct (store_spec _ _ _ _ _ _ Hst Hmax Hsize) as (Hsub & Hk & Hsz).
    assert (answered k v t0 now) as Ha by (eapply answered_mono; [by apply Hx | done]). split_and!.
    + done.
    + intros k' e' Hk'. eapply lookup_weaken in Hk'; [|exact Hsub].
      rewrite fin_maps.lookup_insert in Hk'. case_decide as Heq; simplify_eq; cbn.
      * exists (mkStored k' v t0 now), [], (stores p). by split_and!.
      * apply entry_of_cons; [|done]. eapply entry_of_mono; [by apply He | done].
    + eapply computing_mono; [by apply Forall_app | done].
    + constructor; [cbn; lia|]. eapply list.Forall_impl; [exact Hat|]. cbn. lia.
    + constructor; [done|]. by eapply served_cons.
    + by constructor.
Qed.

(** C36: bounded staleness and bounded memory.  Whatever requests run
    concurrently, whenever they look up, compute, fail, store and clear: the cache
    never holds more than [max_entries] answers; whatever is stored under a key
    is what the aggregate answered for that very key after the request for it
    came in; a response that comes from the cache is the last thing stored for
    its key, and was stored less than the TTL before; and any other response is
    what the aggregate answered between the request and the response.  And an
    answer, once stored, is served without another computation for as long as
    the TTL lasts and nothing else is stored. *)
Theorem cache_bounded_staleness t p :
  1 <= max_entries -> run (start t) p ->
  Z.of_nat (size (entries (cache p))) <= max_entries /\
  Forall well_stored (stores p) /\ Forall (well_served (stores p)) (served p) /\
  forall k v reads now now' c, store k v reads now (cache p) = Some c ->
    now <= now' -> now' - now < ttl -> in_range u64 (hits (stats c) + 1) ->
    exists c', lookup k now' c = Some (Some v, c').
Proof.
  intros Hmax Hrun.
  assert (sound p) as (Hsize & _ & _ & _ & Hserved & Hlog).
  { remember (start t) as p0 eqn:Hp0. induction Hrun as [|p q r Hrun IH Hstep]; subst.
    - unfold sound; cbn. rewrite map_size_empty. split_and!; [lia | intros k e Hk; by rewrite lookup_empty in Hk | constructor..].
    - eapply cache_step_sound; eauto. }
  split_and!; [done..|]. intros k v reads now now' c Hs Hle Hlt Hh. eapply lookup_stored; eauto. lia.
Qed.
End Cache.
