(* ===== verification/IndexerApi.v ===== *)
(** * Indexer: the REST handlers

    src/indexer/src/api/rest.rs.  A handler runs statements of the store and may
    answer from the leaderboard cache; every failure of the store becomes the
    same 500.  Then a client's traversal of the task pages while ingestion goes
    on. *)

From Stdlib Require Import Sorted.
From stdpp Require Import gmap pretty.
From S2P Require Import Prelude StableSort Host IndexerEvents IndexerState IndexerAddress IndexerReorg IndexerProgress IndexerStore IndexerStoreSpec IndexerPaging IndexerTasks IndexerLeaderboard IndexerFeeds IndexerCache.

(** ** Requests and responses (api/types.rs) *)

Record ApiError := mkApiError { ae_error : string; ae_message : string }.

(** [Failure]: an error and its status. *)
Record ApiFailure := mkApiFailure { af_status : Z; af_error : ApiError }.

Definition internal : ApiFailure :=
  mkApiFailure 500 (mkApiError "internal_error" "the request could not be completed").
Definition not_found (what : string) : ApiFailure := mkApiFailure 404 (mkApiError "not_found" what).

Record HealthResponse := mkHealthResponse {
  h_status : string;
  h_last_ingested_ledger : option Z;
  h_backfill_complete : bool;
  h_latest_known_ledger : option Z;
  h_ingestion_lag_ledgers : option Z;
  h_max_healthy_lag_ledgers : Z;
  h_healthy : bool;
}.

Record TaskDetail := mkTaskDetail { td_task : TaskState; td_history : list IndexedEvent }.

Record TaskListResponse := mkTaskListResponse {
  tl_address : string;
  tl_tasks : list TaskState;
  tl_next_cursor : option Z;
}.

(** [tf_status] is always "open". *)
Record TaskByFeed := mkTaskByFeed { tf_task_id : Z; tf_owner : string; tf_status : string; tf_reward : Z }.

Record FeedTasksResponse := mkFeedTasksResponse { ft_feed : string; ft_threshold : Z; ft_tasks : list TaskByFeed }.

Record EventFeedResponse := mkEventFeedResponse { ef_events : list IndexedEvent; ef_next_cursor : option Z }.

Record TaskListQuery := mkTaskListQuery { tq_after : option Z; tq_limit : option Z }.
Record LeaderboardQuery := mkLeaderboardQuery {
  lq_rank_by : option string;
  lq_since : option Z;
  lq_limit : option Z;
}.
Record FeedQuery := mkFeedQuery {
  fq_after : option Z;
  fq_limit : option Z;
  fq_event_type : option string;
  fq_address : option string;
}.

Definition DEFAULT_PAGE_SIZE : Z := 50.
Definition MAX_PAGE_SIZE : Z := 500.
Definition DEFAULT_TASK_PAGE_SIZE : Z := 50.
Definition MAX_TASK_PAGE_SIZE : Z := 200.
Definition DEFAULT_TASK_HISTORY_LIMIT : Z := 50.
Definition MAX_TASK_HISTORY_LIMIT : Z := 200.
Definition LEADERBOARD_WINDOW_ALIGNMENT_SECS : Z := 60.
Definition DEFAULT_LEADERBOARD_SIZE : Z := 25.
Definition MAX_LEADERBOARD_SIZE : Z := 200.

(** [limit.unwrap_or(default).clamp(1, max)] *)
Definition page_limit (limit : option Z) (default max : Z) : Z := Z.min max (Z.max 1 (from_option id default limit)).

(** The key of the leaderboard cache (cache.rs). *)
Record LeaderboardKey := mkLeaderboardKey { lk_rank_by : RankBy; lk_since : option Z; lk_limit : Z }.

#[export] Instance LeaderboardKey_eq_dec : EqDecision LeaderboardKey.
Proof. solve_decision. Defined.

#[export] Instance RankBy_countable : Countable RankBy.
Proof.
  refine (inj_countable (fun r => match r with Executions => 0%nat | Reward => 1%nat | Reputation => 2%nat end)
    (fun n => match n with O => Some Executions | 1%nat => Some Reward | 2%nat => Some Reputation | _ => None end) _).
  by intros [].
Defined.

#[export] Instance LeaderboardKey_countable : Countable LeaderboardKey.
Proof.
  refine (inj_countable' (fun k => (lk_rank_by k, lk_since k, lk_limit k)) (fun '(r, s, l) => mkLeaderboardKey r s l) _).
  by intros [].
Defined.

Section Api.
Context `{HJ : JsonCodec} `{HSt : Strkey} {HS : Scan} `{HI : !MapIter LeaderboardKey Leaderboard} `{FeedIter}.
Implicit Types (w : World).

(** The state of the process the handlers share. *)
Record Api := mkApi { api_world : World; api_boards : Cache (K := LeaderboardKey) (V := Leaderboard) }.

Abbreviation AM := (M Api ApiFailure).

(** [.await.map_err(internal)?] on a call of the store. *)
Definition on_store {A} (m : M World Failure A) : AM A := fun s =>
  match m (api_world s) with
  | Ok a w => Ok a (mkApi w (api_boards s))
  | Err _ w => Err internal (mkApi w (api_boards s))
  | Panic => Panic
  end.

(** A critical section of the cache. *)
Definition on_boards {A} (f : Cache -> option (A * Cache)) : AM A := fun s =>
  match f (api_boards s) with Some (a, c) => Ok a (mkApi (api_world s) c) | None => Panic end.

(** ** Handlers *)

Definition health (max_healthy_lag_ledgers : Z) : AM HealthResponse :=
  cp ← on_store checkpoint;
  p ← gets (fun s => snapshot (progress (api_world s)));
  let lag := lag_ledgers p in
  let healthy := match lag with None => true | Some l => bool_decide (l <= max_healthy_lag_ledgers) end in
  mret (mkHealthResponse (if healthy then "ok" else "lagging") (last_ledger <$> cp)
    (match cp with Some c => backfill_complete c | None => false end)
    (ps_latest_known_ledger p) lag max_healthy_lag_ledgers healthy).

Definition get_task (task_id : Z) (limit : option Z) : AM TaskDetail :=
  state ← on_store (task_state task_id);
  task ← ok_or state (not_found "no task with that id has been indexed");
  history ← on_store (task_history_bounded task_id
    (page_limit limit DEFAULT_TASK_HISTORY_LIMIT MAX_TASK_HISTORY_LIMIT));
  mret (mkTaskDetail task history).

Definition tasks_by_owner (owner : string) (q : TaskListQuery) : AM TaskListResponse :=
  let owner := normalized_or_as_given owner in
  let limit := page_limit (tq_limit q) DEFAULT_TASK_PAGE_SIZE MAX_TASK_PAGE_SIZE in
  '(ids, next_cursor) ← on_store (task_ids_by_owner_paged owner (tq_after q) limit);
  tasks ← on_store (task_states ids);
  mret (mkTaskListResponse owner tasks next_cursor).

Definition tasks_by_keeper (keeper : string) (q : TaskListQuery) : AM TaskListResponse :=
  let keeper := normalized_or_as_given keeper in
  let limit := page_limit (tq_limit q) DEFAULT_TASK_PAGE_SIZE MAX_TASK_PAGE_SIZE in
  '(ids, next_cursor) ← on_store (task_ids_by_keeper_paged keeper (tq_after q) limit);
  tasks ← on_store (task_states ids);
  mret (mkTaskListResponse keeper tasks next_cursor).

Definition admin_config : AM AdminConfig := on_store IndexerStore.admin_config.

Definition feed_response (f : Feed) : FeedTasksResponse :=
  mkFeedTasksResponse (feed_key (fd_oracle f) (fd_asset f)) (fd_threshold f)
    ((fun '(task_id, owner, reward) => mkTaskByFeed task_id owner "open" reward) <$> fd_tasks f).

Definition open_tasks_by_feed : AM (list FeedTasksResponse) :=
  feed_data ← on_store IndexerFeeds.open_tasks_by_feed;
  mret (feed_response <$> feed_data).

(** [get_or_insert_with]: the cache looked into when the clock reads [looked],
    an answer stored when it reads [stored_at]. *)
Definition get_or_insert_with (ttl max_entries : Z) (key : LeaderboardKey) (compute : M World Failure Leaderboard)
    (looked : Z) (reads : LeaderboardKey -> Z) (stored_at : Z) : AM Leaderboard :=
  if is_disabled ttl then on_store compute
  else
    found ← on_boards (lookup ttl key looked);
    match found with
    | Some board => mret board
    | None =>
        board ← on_store compute;
        on_boards (fun c => c ← store ttl max_entries key board reads stored_at c; Some (tt, c));;
        mret board
    end.

Definition unknown_rank_by (name : string) : ApiFailure :=
  mkApiFailure 400 (mkApiError "unknown_rank_by"
    ("no such ranking metric: " +:+ name +:+ "; expected executions or reward")).

(** The key of a request: the window aligned, the size clamped. *)
Definition leaderboard_key (q : LeaderboardQuery) : ApiFailure + LeaderboardKey :=
  rank_by ← match lq_rank_by q with
            | None => inr Executions
            | Some name => match parse_rank_by name with Some r => inr r | None => inl (unknown_rank_by name) end
            end;
  let limit := page_limit (lq_limit q) DEFAULT_LEADERBOARD_SIZE MAX_LEADERBOARD_SIZE in
  let since := (fun s =>
    if bool_decide (s <= 0) then 0
    else Z.quot s LEADERBOARD_WINDOW_ALIGNMENT_SECS * LEADERBOARD_WINDOW_ALIGNMENT_SECS) <$> lq_since q in
  mret (mkLeaderboardKey rank_by since limit).

Definition keeper_leaderboard (ttl max_entries : Z) (q : LeaderboardQuery) (looked : Z)
    (reads : LeaderboardKey -> Z) (stored_at : Z) : AM Leaderboard :=
  key ← lift (leaderboard_key q);
  get_or_insert_with ttl max_entries key (leaderboard (lk_rank_by key) (lk_since key) (lk_limit key))
    looked reads stored_at.

Definition unknown_event_type (name : string) : ApiFailure :=
  mkApiFailure 400 (mkApiError "unknown_event_type" ("no such event type: " +:+ name)).

Definition event_feed (q : FeedQuery) : AM EventFeedResponse :=
  event_type ← match fq_event_type q with
               | None => mret None
               | Some name => ty ← ok_or (EventType.parse name) (unknown_event_type name); mret (Some ty)
               end;
  page ← on_store (events_after (fq_after q) (page_limit (fq_limit q) DEFAULT_PAGE_SIZE MAX_PAGE_SIZE)
    event_type (fq_address q));
  mret (mkEventFeedResponse (p_events page) (p_next_cursor page)).
End Api.

(** ** The task lists of an address, over HTTP

    A client follows [next_cursor] through /owners/{owner}/tasks or
    /keepers/{keeper}/tasks while ingestion goes on. *)

(** ** Folding a registered task *)

Definition is_registration (id : Z) (p : EventPayload.t) : Prop :=
  match p with EventPayload.TaskRegistered id' _ _ _ _ => id' = id | _ => False end.

Lemma step_keeps id st e : exists st', TaskFold.step id (Some st) e = Some st'.
Proof.
  unfold TaskFold.step. destruct (payload e); try by eexists.
  all: match goal with |- context [TaskFold.apply ?p ?s] => destruct (TaskFold.apply p s); by eexists end.
Qed.

Lemma fold_keeps id h st : is_Some (foldl (TaskFold.step id) (Some st) h).
Proof.
  revert st. induction h as [|e h IH]; intros st; [by eexists|]. cbn [foldl].
  destruct (step_keeps id st e) as [st' ->]. apply IH.
Qed.

Lemma fold_registered id e h :
  e ∈ h -> is_registration id (payload e) -> is_Some (TaskFold.fold id h).
Proof.
  intros (h1 & h2 & ->)%list_elem_of_split Hreg. unfold TaskFold.fold. rewrite foldl_app. cbn [foldl].
  assert (exists st, TaskFold.step id (foldl (TaskFold.step id) None h1) e = Some st) as [st ->]; [|apply fold_keeps].
  unfold TaskFold.step at 1. destruct (payload e); try done. by eexists.
Qed.

Lemma fold_id id h st : TaskFold.fold id h = Some st -> ts_task_id st = id.
Proof.
  unfold TaskFold.fold. assert (forall o, (forall s, o = Some s -> ts_task_id s = id) ->
    forall s, foldl (TaskFold.step id) o h = Some s -> ts_task_id s = id) as Hf; [|by apply Hf].
  induction h as [|e h IH]; intros o Ho s; [apply Ho|]. cbn [foldl]. apply IH. clear s. intros s.
  unfold TaskFold.step. destruct (payload e); destruct o as [s0|]; cbn; intros [= <-]; cbn; auto; by apply Ho.
Qed.

Section TaskLists.
Context `{HJ : JsonCodec} `{HSt : Strkey} {HS : Scan} `{HI : !MapIter LeaderboardKey Leaderboard}.
Implicit Types (w : World) (es : list Entry) (s : Api).

(** A task list, as its two routes have it. *)
Definition Route : Type := string -> TaskListQuery -> M Api ApiFailure TaskListResponse.

Inductive ServedBy := Owner | Keeper.

Definition route (by_ : ServedBy) : Route := match by_ with Owner => tasks_by_owner | Keeper => tasks_by_keeper end.

(** The events that put a task on the list. *)
Definition lists (by_ : ServedBy) (address : string) (p : EventPayload.t) : bool :=
  bool_decide (match by_ with Owner => EventPayload.owner p | Keeper => EventPayload.keeper p end =
               Some (normalized_or_as_given address)).

(** A client's traversal, each page read from the process of its moment. *)
Fixpoint traverse_tasks (by_ : ServedBy) (address : string) (limit : option Z) (after : option Z) (ss : list Api) :
    option (list TaskState) :=
  match ss with
  | [] => None
  | s :: ss =>
      match route by_ address (mkTaskListQuery after limit) s with
      | Ok page _ =>
          match tl_next_cursor page with
          | None => Some (tl_tasks page)
          | Some c => rest ← traverse_tasks by_ address limit (Some c) ss; Some (tl_tasks page ++ rest)
          end
      | _ => None
      end
  end.

(** Every event of a task comes after its registration, as it does on chain
    from the deployment on. *)
Definition registered_first es : Prop := forall i x id,
  es !! i = Some x -> EventPayload.task_id x.2 = Some id ->
  exists j y, (j <= i)%nat /\ es !! j = Some y /\ is_registration id y.2.

Lemma registered_prefix es all : es `prefix_of` all -> registered_first all -> registered_first es.
Proof.
  intros [more ->] Hr i x id Hi Hx. pose proof (lookup_lt_Some _ _ _ Hi) as Hlt.
  destruct (Hr i x id) as (j & y & Hj & Hy & Hreg); [by rewrite lookup_app_l | done|].
  exists j, y. rewrite lookup_app_l in Hy by lia. by split_and!.
Qed.

Lemma registration_task_id id p : is_registration id p -> EventPayload.task_id p = Some id.
Proof. destruct p; try done. cbn. by intros ->. Qed.

(** Task [id] is on the list of [address]. *)
Definition on_list (by_ : ServedBy) (address : string) (es : list Entry) (id : Z) : Prop :=
  exists x, x ∈ es /\ lists by_ address x.2 = true /\ EventPayload.task_id x.2 = Some id.

Lemma listed_state by_ address es id :
  registered_first es -> on_list by_ address es id -> is_Some (state_in es id).
Proof.
  intros Hr (x & [i Hi]%list_elem_of_lookup & _ & Hid). destruct (Hr i x id Hi Hid) as (j & y & _ & Hy & Hreg).
  apply list_elem_of_lookup_2 in Hy.
  apply (fold_registered id (event_for 0 y)); [|done]. apply list_elem_of_filter. split; [|by apply list_elem_of_fmap_2].
  by apply registration_task_id.
Qed.

(** ** Pages *)

Lemma selects_listed by_ address c x j :
  typed_entry x ->
  (match by_ with Owner => of_owner | Keeper => of_keeper end) (normalized_or_as_given address) (row_for c x j) =
  lists by_ address x.2.
Proof. intros _. by destruct by_. Qed.

(** The query behind a route, which normalizes the address once more. *)
Definition ids_page (by_ : ServedBy) (address : string) (after : option Z) (limit : Z) : M World Failure (list Z * option Z) :=
  match by_ with
  | Owner => task_ids_paged "reading task ids by owner" (of_owner (normalized_or_as_given address)) after limit
  | Keeper => task_ids_paged "reading task ids by keeper" (of_keeper (normalized_or_as_given address)) after limit
  end.

Lemma page_limit_pos limit default max : 1 <= max -> 1 <= page_limit limit default max <= max.
Proof. unfold page_limit. lia. Qed.

Context `{HL : !LawfulStrkey}.

Lemma task_list_page by_ address limit after s es :
  faults (api_world s) = [] -> holds (db (api_world s)) es ->
  registered_first es ->
  exists ids next ts,
    ids_page by_ address after (page_limit limit DEFAULT_TASK_PAGE_SIZE MAX_TASK_PAGE_SIZE) (api_world s) = Ok (ids, next) (api_world s) /\
    route by_ address (mkTaskListQuery after limit) s = Ok (mkTaskListResponse (normalized_or_as_given address) ts next) s /\
    Forall2 (fun id t => on_list by_ address es id /\ state_in es id = Some t) ids ts.
Proof.
  intros Hf Hh Hreg. set (lim := page_limit _ _ _).
  assert (1 <= lim) as Hlim by (apply page_limit_pos; done).
  assert (ids_page by_ address after lim (api_world s) =
    Ok (as_u64 <$> take (Z.to_nat lim) (filter (below after) (ids_of (lists by_ address) es)),
        if bool_decide (Z.of_nat (length (filter (below after) (ids_of (lists by_ address) es))) > lim)
        then as_u64 <$> list.last (take (Z.to_nat lim) (filter (below after) (ids_of (lists by_ address) es))) else None)
       (api_world s)) as Hids.
  { pose proof (selects_listed by_ address) as Hsel. unfold ids_page.
    destruct by_; (apply task_ids_paged_ok; [exact Hsel | done | done | lia]). }
  rewrite Hids. set (ids := as_u64 <$> _) in *.
  set (next := if bool_decide _ then _ else _) in *.
  assert (Forall (fun id => in_range u64 id /\ on_list by_ address es id) ids) as Hall.
  { apply list.Forall_forall. unfold ids. intros id (z & -> & Hz)%list_elem_of_fmap.
    apply elem_of_take in Hz as (i & Hz%list_elem_of_lookup_2 & _). apply list_elem_of_filter in Hz as [_ Hz].
    apply ids_of_spec in Hz as (x & id' & Hx & Hq & Hid & ->).
    assert (in_range u64 id') as Hr.
    { pose proof (holds_typed _ _ Hh) as Ht. rewrite list.Forall_forall in Ht. by apply (Ht _ Hx). }
    rewrite as_u64_as_i64 by done. split; [done|]. by exists x. }
  exists ids, next, (omap (state_in es) ids). split; [done|]. split.
  - assert (route by_ address (mkTaskListQuery after limit) s =
      (tasks ← on_store (task_states ids); mret (mkTaskListResponse (normalized_or_as_given address) tasks next)) s) as ->.
    { destruct by_; cbn [route]; unfold tasks_by_owner, tasks_by_keeper, task_ids_by_owner_paged, task_ids_by_keeper_paged,
        ids_page in *; cbn [tq_after tq_limit]; fold lim; rewrite normalized_twice;
        unfold mbind at 1, M_bind, on_store at 1; rewrite Hids; destruct s; done. }
    unfold mbind, M_bind, on_store. rewrite (task_states_ok ids _ es); [| done | done|].
    { by destruct s. }
    eapply list.Forall_impl; [exact Hall|]. by intros id [? _].
  - clear Hids. clearbody ids. induction Hall as [|id ids' [_ Hid] Hall IH]; [constructor|]. cbn.
    destruct (listed_state _ _ es id Hreg Hid) as [t Ht]. rewrite Ht. by constructor.
Qed.

(** ** The traversal *)

(** The ids a traversal comes across. *)
Definition listed_ids (by_ : ServedBy) (address : string) (limit : option Z) (after : option Z) (ws : list World) : option (list Z) :=
  let lim := page_limit limit DEFAULT_TASK_PAGE_SIZE MAX_TASK_PAGE_SIZE in
  match by_ with
  | Owner => traverse_ids "reading task ids by owner" (of_owner (normalized_or_as_given address)) after lim ws
  | Keeper => traverse_ids "reading task ids by keeper" (of_keeper (normalized_or_as_given address)) after lim ws
  end.

Lemma listed_ids_cons by_ address limit after w ws page next :
  ids_page by_ address after (page_limit limit DEFAULT_TASK_PAGE_SIZE MAX_TASK_PAGE_SIZE) w = Ok (page, next) w ->
  listed_ids by_ address limit after (w :: ws) =
  match next with
  | None => Some page
  | Some c => rest ← listed_ids by_ address limit (Some c) ws; Some (page ++ rest)
  end.
Proof. unfold ids_page, listed_ids. destruct by_; cbn [traverse_ids]; intros ->; by destruct next. Qed.

(** [t] is what a store that lists task [id] shows of it. *)
Definition seen_in (by_ : ServedBy) (address : string) (ess : list (list Entry)) (id : Z) (t : TaskState) : Prop :=
  exists es, es ∈ ess /\ on_list by_ address es id /\ state_in es id = Some t.

Lemma traverse_tasks_ids by_ address limit ws ess ss all after ids :
  api_world <$> ss = ws -> Forall2 (serves all) ws ess -> registered_first all ->
  listed_ids by_ address limit after ws = Some ids ->
  exists ts, traverse_tasks by_ address limit after ss = Some ts /\ Forall2 (seen_in by_ address ess) ids ts.
Proof.
  intros Hws Hs Hreg. revert ss after ids Hws.
  induction Hs as [|w es ws ess (Hf & Hh & Hp) Hs IH]; intros [|s ss] after ids Hws Hids; try done; [by destruct by_|].
  injection Hws as Hw Hws. subst w.
  destruct (task_list_page by_ address limit after s es Hf Hh (registered_prefix _ _ Hp Hreg))
    as (page & next & ts & Hpage & Hroute & Hts).
  rewrite (listed_ids_cons _ _ _ _ _ _ _ _ Hpage) in Hids.
  cbn [traverse_tasks]. rewrite Hroute. cbn [tl_next_cursor tl_tasks].
  assert (Forall2 (seen_in by_ address (es :: ess)) page ts) as Hts'.
  { eapply Forall2_impl; [|exact Hts]. intros id t Ht. exists es. by split; [left|]. }
  destruct next as [c|]; [|simplify_eq; by exists ts].
  destruct (listed_ids by_ address limit (Some c) ws) as [rest|] eqn:Hrest; [|done]. cbn in Hids. simplify_eq.
  destruct (IH ss (Some c) rest eq_refl Hrest) as (ts' & -> & Hall). exists (ts ++ ts'). split; [done|].
  apply Forall2_app; [done|]. eapply Forall2_impl; [|exact Hall]. intros id t (es' & Hes' & ?). exists es'. by split; [right|].
Qed.

(** Newest first: by descending id, as the column's signed type has it. *)
Definition newer (a b : TaskState) : Prop := as_i64 (ts_task_id b) < as_i64 (ts_task_id a).

Lemma seen_ids by_ address ess k ts : Forall2 (seen_in by_ address ess) (as_u64 <$> k) ts -> ts_task_id <$> ts = as_u64 <$> k.
Proof.
  intros Hts. generalize dependent (as_u64 <$> k). intros ids Hts.
  induction Hts as [|id t ids ts (es & _ & _ & Ht) _ IH]; [done|]. cbn. f_equal; [by eapply fold_id | done].
Qed.

Lemma sorted_fmap_inv ts :
  StronglySorted (fun a b => b < a) ((fun t => as_i64 (ts_task_id t)) <$> ts) -> StronglySorted newer ts.
Proof.
  induction ts as [|t ts IH]; intros Hs; [constructor|]. cbn in Hs. apply StronglySorted_inv in Hs as [Hs Ht].
  constructor; [by apply IH|]. by apply Forall_fmap in Ht.
Qed.

Lemma ids_of_length q es : (length (ids_of q es) <= length es)%nat.
Proof.
  assert (length (ids_of q es) <= length (omap (fun e => if q e.2 then as_i64 <$> EventPayload.task_id e.2 else None) es))%nat as Hd.
  { apply submseteq_length, NoDup_submseteq; [apply distinct_desc_NoDup|]. intros x. apply distinct_desc_spec. }
  etransitivity; [exact Hd|]. clear. induction es as [|e es IH]; cbn; [lia|]. destruct (q e.2); cbn; [destruct (EventPayload.task_id e.2); cbn|]; lia.
Qed.

(** C32: the task list of an address, page by page.  Following [next_cursor]
    through the tasks of an owner or a keeper, any page size asked for, while
    events are ingested between the requests: the traversal ends; no task
    appears twice and the newest come first; every task on the list when the
    traversal began is there; and each state shown is the fold of all events of
    that task the store held at one of the requests. *)
Theorem task_pages_exact by_ address limit ss ess all :
  Forall2 (serves all) (api_world <$> ss) ess -> StronglySorted prefix ess -> registered_first all ->
  (length all < length ss)%nat ->
  exists ts, traverse_tasks by_ address limit None ss = Some ts /\
    StronglySorted newer ts /\
    (forall id es, head ess = Some es -> on_list by_ address es id -> id ∈ ts_task_id <$> ts) /\
    Forall (fun t => seen_in by_ address ess (ts_task_id t) t) ts.
Proof.
  intros Hs Hsorted Hreg Hlen. set (ws := api_world <$> ss) in *.
  pose proof (page_limit_pos limit DEFAULT_TASK_PAGE_SIZE MAX_TASK_PAGE_SIZE ltac:(done)) as Hlim.
  assert (length (filter (below None) (ids_of (lists by_ address) all)) < length ws)%nat as Hn.
  { pose proof (ids_of_length (lists by_ address) all). unfold ws. rewrite length_fmap.
    pose proof (length_filter (fun x => below None x) (ids_of (lists by_ address) all)). lia. }
  assert (exists k, listed_ids by_ address limit None ws = Some (as_u64 <$> k) /\ StronglySorted (fun a b => b < a) k /\
    (forall x, x ∈ k -> below None x = true /\ x ∈ ids_of (lists by_ address) all) /\
    (forall es x, head ess = Some es -> x ∈ ids_of (lists by_ address) es -> below None x = true -> x ∈ k))
    as (k & Hk & Hks & Hkin & Hkall).
  { pose proof (selects_listed by_ address) as Hsel. unfold listed_ids.
    destruct by_; (eapply traverse_ids_from; [exact Hsel | lia | exact Hs | done | done]). }
  destruct (traverse_tasks_ids by_ address limit ws ess ss all None _ eq_refl Hs Hreg Hk) as (ts & Ht & Hts).
  assert (ts_task_id <$> ts = as_u64 <$> k) as Hids by by eapply seen_ids.
  assert ((fun t => as_i64 (ts_task_id t)) <$> ts = k) as Hki.
  { rewrite (list_fmap_compose ts_task_id as_i64), Hids, <- list_fmap_compose.
    rewrite <- (list_fmap_id k) at 2. apply list_fmap_ext. intros i x Hx%list_elem_of_lookup_2.
    apply Hkin in Hx as [_ Hx]. by eapply ids_of_range. }
  exists ts. split_and!; [done | | |].
  - apply sorted_fmap_inv. by rewrite Hki.
  - intros id es Hes (x & Hx & Hq & Hid). rewrite Hids. destruct ess as [|es0 ess0]; [done|]. injection Hes as ->.
    assert (in_range u64 id) as Hr.
    { inversion Hs as [|w0 ? ? ? (_ & Hh & _)]; subst. pose proof (holds_typed _ _ Hh) as Hty.
      rewrite list.Forall_forall in Hty. by apply (Hty _ Hx). }
    rewrite <- (as_u64_as_i64 id) by done. apply list_elem_of_fmap_2. apply (Hkall es); [done | | done].
    apply ids_of_spec. by exists x, id.
  - clear -Hts. generalize dependent (as_u64 <$> k). intros ids Hts. induction Hts as [|id t ids ts Ht _ IH]; [constructor|].
    constructor; [|done]. pose proof Ht as (es & _ & _ & Hst). by rewrite (fold_id _ _ _ Hst).
Qed.
End TaskLists.
