(* ===== verification/IndexerWebsocket.v ===== *)
(** * Indexer: live subscriptions

    src/indexer/src/api/websocket.rs next to the ingestion of ingest/mod.rs:
    one subscriber of the broadcast channel, interleaved with the insertion and
    the broadcast of events, each an atomic step.  An event is stored before it
    is broadcast, and the ingestor handles one event at a time. *)

From stdpp Require Import pretty.
From S2P Require Import Prelude Host IndexerEvents IndexerState IndexerAddress IndexerReorg IndexerProgress IndexerStore IndexerStoreSpec IndexerPaging.

Definition REPLAY_PAGE_SIZE : Z := 200.
Definition BROADCAST_CAPACITY : Z := 1024.

Record SubscribeQuery := mkSubscribeQuery {
  sq_event_type : option string;
  sq_address : option string;
  sq_after : option Z;
}.

Inductive ServerMessage :=
  | Subscribed (event_type address : option string) (replayed_through : option Z)
  | EventMsg (event : IndexedEvent)
  | Closed (reason : string).

Record Filter := mkFilter { fl_event_type : option EventType.t; fl_address : option string }.

(** [Filter::matches]; the event's own type is compared, and its payload's
    addresses. *)
Definition matches (f : Filter) (event : IndexedEvent) : bool :=
  match fl_event_type f with Some wanted => bool_decide (ie_event_type event = wanted) | None => true end &&
  match fl_address f with
  | Some a => bool_decide (EventPayload.owner (payload event) = Some a) || bool_decide (EventPayload.keeper (payload event) = Some a)
  | None => true
  end.

Section Websocket.
Context `{HJ : JsonCodec} `{HSt : Strkey}.
Implicit Types (w : World) (es : list Entry).

(** Where [handle_socket] stands. *)
Inductive Phase :=
  | Replaying (cursor : Z) (replayed_through : option Z)
  | Announcing (replayed_through : option Z)
  | Live (replayed_through : option Z)
  | Ended.

(** [queue]: broadcast and not yet received.  [out]: sent to the client.
    [page_failed]: the store failed during the replay. *)
Record Session := mkSession {
  filters : Filter;
  phase : Phase;
  queue : list IndexedEvent;
  out : list ServerMessage;
  page_failed : bool;
}.

Definition connect (q : SubscribeQuery) : Session :=
  let address := normalized_or_as_given <$> sq_address q in
  match sq_event_type q with
  | Some name =>
      match EventType.parse name with
      | Some ty =>
          mkSession (mkFilter (Some ty) address)
            match sq_after q with Some after => Replaying after None | None => Announcing None end [] [] false
      | None => mkSession (mkFilter None address) Ended [] [Closed ("unknown event type: " +:+ name)] false
      end
  | None =>
      mkSession (mkFilter None address)
        match sq_after q with Some after => Replaying after None | None => Announcing None end [] [] false
  end.

(** One page of the replay: what is sent, and where it leaves off. *)
Definition replay_page (page : EventPage) (through : option Z) : list ServerMessage * Phase :=
  match list.last (p_events page) with
  | None => ([], Announcing through)
  | Some e =>
      (EventMsg <$> p_events page,
       match p_next_cursor page with None => Announcing (Some (cursor e)) | Some _ => Replaying (cursor e) (Some (cursor e)) end)
  end.

(** One event off the channel. *)
Definition receive (f : Filter) (through : option Z) (event : IndexedEvent) : list ServerMessage :=
  if match through with Some t => bool_decide (cursor event <= t) | None => false end then []
  else if matches f event then [EventMsg event] else [].

Definition lagged (missed : Z) : ServerMessage :=
  Closed ("subscriber fell " +:+ pretty missed +:+ " events behind; reconnect with ?after=<last cursor>").

(** ** The system *)

(** [unsent]: the event stored last, while it is still to be broadcast. *)
Record System := mkSystem { sys_world : World; unsent : option IndexedEvent; session : Session }.

Definition move (p : Phase) (ms : list ServerMessage) (s : Session) : Session :=
  mkSession (filters s) p (queue s) (out s ++ ms) (page_failed s).

(** The handler's own steps. *)
Inductive handle (q : SubscribeQuery) (w : World) (s : Session) : World -> Session -> Prop :=
  | ReplayPage c through page w' :
      phase s = Replaying c through ->
      events_after (Some c) REPLAY_PAGE_SIZE (fl_event_type (filters s)) (fl_address (filters s)) w = Ok page w' ->
      handle q w s w' (move (replay_page page through).2 (replay_page page through).1 s)
  | ReplayFailed c through e w' :
      phase s = Replaying c through ->
      events_after (Some c) REPLAY_PAGE_SIZE (fl_event_type (filters s)) (fl_address (filters s)) w = Err e w' ->
      handle q w s w' (mkSession (filters s) (Announcing through) (queue s) (out s) true)
  | Announce through :
      phase s = Announcing through ->
      handle q w s w (move (Live through) [Subscribed (sq_event_type q) (fl_address (filters s)) through] s)
  | Receive through event rest :
      phase s = Live through -> queue s = event :: rest -> Z.of_nat (length (queue s)) <= BROADCAST_CAPACITY ->
      handle q w s w (mkSession (filters s) (Live through) rest (out s ++ receive (filters s) through event) (page_failed s))
  | Lagged through :
      phase s = Live through -> Z.of_nat (length (queue s)) > BROADCAST_CAPACITY ->
      handle q w s w (move Ended [lagged (Z.of_nat (length (queue s)) - BROADCAST_CAPACITY)] s)
  (** The client is gone; the page being sent may have got through in part. *)
  | Disconnect c through page w' n :
      phase s = Replaying c through ->
      events_after (Some c) REPLAY_PAGE_SIZE (fl_event_type (filters s)) (fl_address (filters s)) w = Ok page w' ->
      handle q w s w' (move Ended (take n (replay_page page through).1) s)
  | Hangup : handle q w s w (move Ended [] s).

Inductive step (q : SubscribeQuery) : System -> System -> Prop :=
  (** A new event, or one stored before: [r] is what is to be broadcast. *)
  | Insert s x r w' :
      unsent s = None -> typed_entry x ->
      insert_event (re_ledger x.1) (re_ledger_close_time x.1) (re_tx_hash x.1) (re_event_index x.1) x.2 (sys_world s)
        = Ok r w' ->
      step q s (mkSystem w' r (session s))
  | InsertFailed s x e w' :
      unsent s = None ->
      insert_event (re_ledger x.1) (re_ledger_close_time x.1) (re_tx_hash x.1) (re_event_index x.1) x.2 (sys_world s)
        = Err e w' ->
      step q s (mkSystem w' None (session s))
  | Broadcast s ev :
      unsent s = Some ev ->
      step q s (mkSystem ((sys_world s) <| sent ::= cons ev |>) None
        (mkSession (filters (session s)) (phase (session s)) (queue (session s) ++ [ev]) (out (session s)) (page_failed (session s))))
  | Handle s w' session' :
      handle q (sys_world s) (session s) w' session' -> step q s (mkSystem w' (unsent s) session').

Inductive run (q : SubscribeQuery) : System -> System -> Prop :=
  | Run_refl s : run q s s
  | Run_step s t u : run q s t -> step q t u -> run q s u.

(** ** Insertions and reads under faults *)

Lemma io_Ok ctx w r w' : io ctx w = Ok r w' -> exists fs, w' = w <| faults := fs |>.
Proof.
  unfold io. destruct w as [d [|[] fs] se al pr rq]; cbn; intros Hio; simplify_eq; [by exists [] | by exists fs].
Qed.

(** A number is drawn; a new event takes it. *)
Lemma insert_event_Ok x w es r w' :
  holds (db w) es -> typed_entry x ->
  insert_event (re_ledger x.1) (re_ledger_close_time x.1) (re_tx_hash x.1) (re_event_index x.1) x.2 w = Ok r w' ->
  d_sequence (db w') = d_sequence (db w) + 1 /\
  match r with
  | None => holds (db w') es /\ cursors (db w') = cursors (db w)
  | Some ev => ev = event_for (d_sequence (db w) + 1) x /\ holds (db w') (es ++ [x]) /\
      cursors (db w') = cursors (db w) ++ [d_sequence (db w) + 1]
  end.
Proof.
  intros Hh Hx. unfold insert_event, mbind, M_bind.
  destruct (to_json x.2) as [j|] eqn:Hj; cbn -[io]; [|done].
  unfold query, mbind, M_bind. destruct (io _ w) as [[] w1|e w1|] eqn:Hio; [|done..].
  apply io_Ok in Hio as [fs ->]. cbn. unfold id.
  destruct (checked_add i64 (d_sequence (db w)) 1) as [c|] eqn:Hc; [|done].
  apply checked_add_Some in Hc as [-> _]. cbn. destruct (existsb _ _); intros [= <- <-]; cbn; split; try done.
  - split; [by apply holds_skip | done].
  - split; [done|]. split; [by apply holds_insert|]. unfold cursors. cbn. by rewrite fmap_app.
Qed.

Lemma insert_event_Err x w e w' :
  insert_event (re_ledger x.1) (re_ledger_close_time x.1) (re_tx_hash x.1) (re_event_index x.1) x.2 w = Err e w' ->
  db w' = db w.
Proof.
  unfold insert_event, mbind, M_bind. destruct (to_json x.2) as [j|]; cbn -[io]; [|by intros [= _ <-]].
  unfold query, mbind, M_bind. destruct (io _ w) as [[] w1|e1 w1|] eqn:Hio; [| |done].
  - apply io_Ok in Hio as [fs ->]. cbn. destruct (checked_add _ _ _); cbn; [|by intros [= _ <-]].
    by destruct (existsb _ _).
  - intros [= _ <-]. unfold io in Hio. destruct (faults w) as [|[] ?]; by simplify_eq.
Qed.

Lemma events_after_Ok after limit ty a w es page w' :
  holds (db w) es -> 0 <= limit -> events_after after limit ty a w = Ok page w' ->
  db w' = db w /\
  let found := filter (wanted_after (from_option id 0 after) ty a) (contents (db w) es) in
  page = if bool_decide (Z.of_nat (length found) > limit)
         then mkEventPage (take (Z.to_nat limit) found) (cursor <$> list.last (take (Z.to_nat limit) found))
         else mkEventPage found None.
Proof.
  intros Hh Hl Hrun. pose proof (events_after_ok after limit ty a (w <| faults := [] |>) es eq_refl Hh Hl) as Hok.
  unfold events_after, query, mbind, M_bind in *. cbn [io faults] in Hok.
  destruct (io _ w) as [[] w1|e w1|] eqn:Hio; [|done..]. apply io_Ok in Hio as [fs ->].
  cbn in Hok, Hrun. unfold ok_or, mret, M_ret in *.
  destruct (mapM row_to_event _); [|done]. by injection Hrun as <- <-; injection Hok as ->.
Qed.
End Websocket.
