(* ===== verification/IndexerWebsocketSpec.v ===== *)
(** * Indexer: what a live subscription delivers

    The replay and the live feed put together: every wanted event once and in
    order, whatever is stored and broadcast meanwhile. *)

From Stdlib Require Import Sorted.
From stdpp Require sorting.
From S2P Require Import Prelude Host IndexerEvents IndexerState IndexerAddress IndexerReorg IndexerProgress IndexerStore IndexerStoreSpec IndexerPaging IndexerWebsocket.

(** ** Filtered segments of a list *)

Section Segments.
Context {A : Type} (W : A -> bool).

(** The wanted elements of [l] from position [a] up to [b]. *)
Definition segment (a b : nat) (l : list A) : list A := base.filter (fun x => W x : Prop) (drop a (take b l)).

Lemma segment_snoc a b l x : (b <= length l)%nat -> segment a b (l ++ [x]) = segment a b l.
Proof. intros Hb. unfold segment. by rewrite take_app_le. Qed.

Lemma segment_split a b c l : (a <= b <= c)%nat -> segment a b l ++ segment b c l = segment a c l.
Proof.
  intros Hab. unfold segment. rewrite <- list.filter_app. f_equal.
  replace (take b l) with (take b (take c l)) by (rewrite take_take; f_equal; lia).
  destruct (decide (a <= length (take c l))%nat).
  - rewrite <- (take_drop b (take c l)) at 3. rewrite drop_app.
    destruct (decide (b <= length (take c l))%nat).
    + rewrite (length_take_le (take c l)) by lia. replace (a - b)%nat with 0%nat by lia. done.
    + rewrite (drop_ge (take c l) b) by lia. by rewrite drop_nil.
  - rewrite !(drop_ge (take c l)) by lia. rewrite drop_ge; [done|]. rewrite length_take. lia.
Qed.

Lemma segment_one b l x : l !! b = Some x -> segment b (S b) l = if W x then [x] else [].
Proof.
  intros Hx. unfold segment. rewrite (take_S_r _ _ _ Hx). rewrite drop_app_length'.
  - rewrite filter_cons. by destruct (W x).
  - rewrite length_take_le; [done|]. apply lookup_lt_Some in Hx. lia.
Qed.

Lemma segment_empty a l : segment a a l = [].
Proof. unfold segment. rewrite drop_ge; [done|]. rewrite length_take. lia. Qed.

Lemma segment_all a l : segment a (length l) l = base.filter (fun x => W x : Prop) (drop a l).
Proof. unfold segment. by rewrite take_ge. Qed.

(** Cutting a filtered list is cutting the list. *)
Lemma take_filter_last n l e :
  list.last (take n (base.filter (fun x => W x : Prop) l)) = Some e ->
  exists i, l !! i = Some e /\ take n (base.filter (fun x => W x : Prop) l) = base.filter (fun x => W x : Prop) (take (S i) l).
Proof.
  revert n. induction l as [|x l IH]; intros n He; [by destruct n|]. rewrite filter_cons in He |- *.
  case_decide as Hx.
  - destruct n as [|n]; [done|]. cbn [take] in *. rewrite list.last_cons in He.
    destruct (list.last (take n _)) as [e'|] eqn:Hl; simplify_eq.
    + destruct (IH n Hl) as (i & Hi & Ht). exists (S i). split; [done|]. by rewrite filter_cons_True, Ht.
    + apply list.last_None in Hl. exists 0%nat. split; [done|]. by rewrite filter_cons_True, Hl by done.
  - destruct (IH n He) as (i & Hi & Ht). exists (S i). split; [done|]. cbn [take]. by rewrite filter_cons_False.
Qed.
End Segments.

Section Spec.
Context `{HJ : JsonCodec} `{HSt : Strkey} {HL : LawfulStrkey}.
Implicit Types (w : World) (es : list Entry) (l : list IndexedEvent).

(** The events a client has received. *)
Definition delivered (ms : list ServerMessage) : list IndexedEvent :=
  omap (fun m => match m with EventMsg e => Some e | _ => None end) ms.

Lemma delivered_events l : delivered (EventMsg <$> l) = l.
Proof. unfold delivered. induction l as [|e l IH]; [done|]. cbn. by rewrite IH. Qed.

Lemma delivered_app a b : delivered (a ++ b) = delivered a ++ delivered b.
Proof. apply omap_app. Qed.

(** ** Cursors and positions

    Cursors ascend with gaps; [upto c l] of the events have one up to [c]. *)

Abbreviation in_order := (StronglySorted (fun a b : IndexedEvent => cursor a < cursor b)).

Definition upto (c : Z) l : nat := length (base.filter (fun e => cursor e <= c) l).

Lemma upto_length c l : (upto c l <= length l)%nat.
Proof. apply length_filter. Qed.

Lemma upto_cons c e l : upto c (e :: l) = if decide (cursor e <= c) then S (upto c l) else upto c l.
Proof. unfold upto. rewrite filter_cons. by case_decide. Qed.

Lemma upto_app c l l' : upto c (l ++ l') = (upto c l + upto c l')%nat.
Proof. unfold upto. by rewrite list.filter_app, length_app. Qed.

Lemma upto_mono c c' l : c <= c' -> (upto c l <= upto c' l)%nat.
Proof.
  intros Hc. induction l as [|e l IH]; [done|]. rewrite !upto_cons. repeat case_decide; lia.
Qed.

Lemma upto_none c l : Forall (fun e => c < cursor e) l -> upto c l = 0%nat.
Proof. induction 1 as [|e l He Hl IH]; [done|]. by rewrite upto_cons, decide_False by lia. Qed.

Lemma upto_all c l : Forall (fun e => cursor e <= c) l -> upto c l = length l.
Proof. intros Hl. unfold upto. by rewrite filter_all. Qed.

Lemma upto_snoc c l e : c < cursor e -> upto c (l ++ [e]) = upto c l.
Proof. intros He. rewrite upto_app, (upto_none c [e]) by by repeat constructor. lia. Qed.

(** An event is at or before [c] exactly when its position says so. *)
Lemma upto_lookup l i e c : in_order l -> l !! i = Some e -> cursor e <= c <-> (i < upto c l)%nat.
Proof.
  intros Hs. revert i. induction Hs as [|x l Hs IH Hx]; intros [|i] Hi; try done; cbn in Hi; rewrite upto_cons.
  - simplify_eq. case_decide as Hc; [split; [lia | done]|]. split; [done|].
    rewrite (upto_none c l) by (eapply list.Forall_impl; [exact Hx|]; cbn; lia). lia.
  - rewrite (IH _ Hi). case_decide as Hc; [lia|].
    rewrite (upto_none c l) by (eapply list.Forall_impl; [exact Hx|]; cbn; lia). lia.
Qed.

Lemma upto_position l i e : in_order l -> l !! i = Some e -> upto (cursor e) l = S i.
Proof.
  intros Hs. revert i. induction Hs as [|x l Hs IH Hx]; intros [|i] Hi; try done; cbn in Hi; rewrite upto_cons.
  - simplify_eq. rewrite decide_True by lia. by rewrite upto_none.
  - rewrite decide_True; [f_equal; by apply IH|]. rewrite list.Forall_forall in Hx.
    apply list_elem_of_lookup_2, Hx in Hi. lia.
Qed.

Lemma after_drop c ty a l :
  in_order l ->
  base.filter (fun e => wanted_after c ty a e : Prop) l = base.filter (fun e => wanted ty a e : Prop) (drop (upto c l) l).
Proof.
  induction 1 as [|x l Hs IH Hx]; [by rewrite drop_nil|]. rewrite upto_cons, filter_cons.
  destruct (decide (cursor x <= c)) as [Hle|Hgt].
  - cbn [drop]. rewrite decide_False; [done|].
    unfold wanted_after. rewrite bool_decide_false by lia. by intros [].
  - assert (upto c l = 0%nat) as Hz by (apply upto_none; eapply list.Forall_impl; [exact Hx|]; cbn; lia).
    rewrite Hz in IH |- *. cbn [drop] in *. rewrite filter_cons, IH.
    unfold wanted_after. by rewrite bool_decide_true by lia.
Qed.

(** The wanted events from the [i]-th stored on up to the [j]-th. *)
Definition seg (ty : option EventType.t) (a : option string) (i j : nat) l : list IndexedEvent :=
  segment (wanted ty a) i j l.

Lemma after_seg c ty a l :
  in_order l -> base.filter (fun e => wanted_after c ty a e : Prop) l = seg ty a (upto c l) (length l) l.
Proof. intros Hs. unfold seg. by rewrite segment_all, (after_drop c ty a l Hs). Qed.

Lemma seg_snoc ty a i j l e : (j <= length l)%nat -> seg ty a i j (l ++ [e]) = seg ty a i j l.
Proof. intros Hj. by apply segment_snoc. Qed.

Lemma matches_wanted f a e :
  fl_address f = normalized_or_as_given <$> a -> ie_event_type e = EventPayload.event_type (payload e) ->
  matches f e = wanted (fl_event_type f) a e.
Proof. unfold matches, wanted, clause_type, clause_address. intros -> ->. by destruct (fl_event_type f), a. Qed.

Lemma wanted_normalized ty a e : wanted ty (normalized_or_as_given <$> a) e = wanted ty a e.
Proof. unfold wanted. destruct a as [a|]; [|done]. cbn. by rewrite normalized_twice. Qed.

Lemma seg_split ty a i j k l : (i <= j <= k)%nat -> seg ty a i j l ++ seg ty a j k l = seg ty a i k l.
Proof. apply segment_split. Qed.

Lemma seg_inner ty a i i' j' j l :
  (i <= i' <= j')%nat -> (j' <= j)%nat -> seg ty a i j l = [] -> seg ty a i' j' l = [].
Proof.
  intros Hi Hj He. rewrite <- (seg_split ty a i i' j), <- (seg_split ty a i' j' j) in He by lia.
  apply app_nil in He as [_ He]. by apply app_nil in He as [? _].
Qed.

(** ** The invariant *)

Section Invariant.
Context (q : SubscribeQuery) (from : Z) (start : nat).
Implicit Types (s : System).

Abbreviation ty := (fl_event_type (filters (connect q))).
Abbreviation a := (sq_address q).

(** How many of the stored events have been broadcast. *)
Definition broadcast s l : nat := (length l - match unsent s with Some _ => 1 | None => 0 end)%nat.

(** [T] events were stored when the replay ended, [th] the last one it sent;
    [hi] is the last number drawn for a cursor. *)
Definition replayed (hi : Z) l (T : nat) (th : option Z) : Prop :=
  (start <= T <= length l)%nat /\
  match th with
  | None => seg ty a start T l = []
  | Some t => t <= hi /\ (start <= upto t l <= T)%nat /\ seg ty a (upto t l) T l = []
  end.

Definition progress_of s (hi : Z) l (Q : nat) : Prop :=
  let got := delivered (out (session s)) in
  match phase (session s) with
  | Replaying c th => c <= hi /\ (start <= upto c l)%nat /\ got = seg ty a start (upto c l) l /\
      match th with None => upto c l = start | Some t => t = c end
  | Announcing th | Live th => exists T, replayed hi l T th /\ got = seg ty a start (Nat.max T Q) l
  | Ended => got `prefix_of` seg ty a start (length l) l
  end.

Abbreviation stored s es := (contents (db (sys_world s)) es).
Abbreviation drawn s := (d_sequence (db (sys_world s))).

Record inv s es (Q : nat) : Prop := {
  inv_holds : holds (db (sys_world s)) es;
  inv_from : from <= drawn s /\ upto from (stored s es) = start;
  inv_unsent : match unsent s with Some ev => list.last (stored s es) = Some ev | None => True end;
  inv_type : fl_event_type (filters (session s)) = ty;
  inv_address : fl_address (filters (session s)) = normalized_or_as_given <$> a;
  inv_queue : queue (session s) = drop Q (take (broadcast s (stored s es)) (stored s es));
  inv_read : (start <= Q <= broadcast s (stored s es))%nat;
  inv_progress : page_failed (session s) = false -> progress_of s (drawn s) (stored s es) Q;
}.

Lemma broadcast_le s l : (broadcast s l <= length l)%nat.
Proof. unfold broadcast. lia. Qed.

Lemma connect_filters : fl_address (filters (connect q)) = normalized_or_as_given <$> a.
Proof. unfold connect. destruct (sq_event_type q) as [n|]; [destruct (EventType.parse n)|]; done. Qed.

(** What a page adds, and where it leaves the replay. *)
Lemma page_progress c th page w w' es :
  holds (db w) es -> c <= d_sequence (db w) -> (start <= upto c (contents (db w) es))%nat ->
  match th with None => upto c (contents (db w) es) = start | Some t => t = c end ->
  events_after (Some c) REPLAY_PAGE_SIZE ty (normalized_or_as_given <$> a) w = Ok page w' ->
  db w' = db w /\
  exists T', (upto c (contents (db w) es) <= T' <= length (contents (db w) es))%nat /\
    delivered (replay_page page th).1 = seg ty a (upto c (contents (db w) es)) T' (contents (db w) es) /\
    match (replay_page page th).2 with
    | Replaying c' th' => c' <= d_sequence (db w) /\ upto c' (contents (db w) es) = T' /\ th' = Some c'
    | Announcing th' => T' = length (contents (db w) es) /\ replayed (d_sequence (db w)) (contents (db w) es) T' th'
    | _ => False
    end.
Proof.
  intros Hh Hc HTN Hth Hrun. assert (0 <= REPLAY_PAGE_SIZE) as Hsize by done.
  destruct (events_after_Ok _ _ _ _ _ _ _ _ Hh Hsize Hrun) as [Hdb Hpage].
  pose proof (contents_sorted _ _ Hh) as Hs. pose proof (contents_cursor _ _ Hh) as Hcur.
  set (l := contents (db w) es) in *. pose proof (upto_length c l) as HTl. set (T := upto c l) in *.
  split; [done|]. cbn [from_option] in Hpage. unfold id in Hpage.
  set (found := base.filter _ _) in Hpage.
  assert (found = seg ty a T (length l) l) as Hf.
  { unfold found, T. rewrite <- after_seg by done. apply filter_ext_in, list.Forall_forall. intros e _.
    unfold wanted_after. by rewrite wanted_normalized. }
  assert (forall n e, list.last (take n found) = Some e ->
    cursor e <= d_sequence (db w) /\ (T < upto (cursor e) l <= length l)%nat /\
    take n found = seg ty a T (upto (cursor e) l) l) as Hlast.
  { intros n e He. rewrite Hf in He |- *. unfold seg, segment in He.
    apply take_filter_last in He as (i & Hi & Ht).
    rewrite lookup_drop, lookup_take_Some in Hi. destruct Hi as [Hi Hlt].
    rewrite (upto_position _ _ _ Hs Hi). split_and!; [|lia|lia|].
    { rewrite list.Forall_forall in Hcur. apply list_elem_of_lookup_2, Hcur in Hi. lia. }
    unfold seg, segment. rewrite Ht. f_equal.
    rewrite take_drop_commute, take_take. do 2 f_equal. lia. }
  unfold replay_page. case_bool_decide as Hmore; subst page; cbn [p_events p_next_cursor].
  - destruct (list.last (take _ found)) as [e|] eqn:He.
    + destruct (Hlast _ _ He) as (Hc' & Ht' & Htk). exists (upto (cursor e) l). cbn. rewrite delivered_events.
      split_and!; (done || lia).
    + apply list.last_None in He. apply (f_equal length) in He. rewrite length_take in He. cbn [length] in He. unfold REPLAY_PAGE_SIZE in *. lia.
  - destruct (list.last found) as [e|] eqn:He.
    + rewrite <- (take_ge found (length found)) in He by lia. destruct (Hlast _ _ He) as (Hc' & Ht' & Htk).
      rewrite take_ge in Htk by lia. exists (length l). cbn. rewrite delivered_events. split_and!; try done.
      split; [lia|]. split_and!; [done | lia | lia |].
      rewrite Hf, <- (seg_split ty a T (upto (cursor e) l) (length l)) in Htk by lia.
      apply (f_equal length) in Htk. rewrite length_app in Htk. apply nil_length_inv. lia.
    + apply list.last_None in He. rewrite He in Hf. exists (length l). cbn. split_and!; try done.
      split; [lia|]. destruct th as [t|]; [|by rewrite <- Hth]. subst t. by split_and!.
Qed.

(** Growth of the store moves nothing that was delivered. *)
Lemma progress_snoc s s' hi l e Q :
  (start <= Q <= length l)%nat -> phase (session s') = phase (session s) -> out (session s') = out (session s) ->
  hi < cursor e -> progress_of s hi l Q -> progress_of s' (cursor e) (l ++ [e]) Q.
Proof.
  intros HQ Hp Ho He. unfold progress_of. rewrite Hp, Ho.
  assert (forall T th, replayed hi l T th -> replayed (cursor e) (l ++ [e]) T th) as Hrep.
  { intros T th [HT Hth]. split; [rewrite length_app; lia|]. destruct th as [t|].
    - destruct Hth as (? & ? & Hs). rewrite upto_snoc by lia. rewrite seg_snoc by lia. split_and!; (done || lia).
    - by rewrite seg_snoc by lia. }
  destruct (phase (session s)) as [c th|th|th|].
  - intros (Hc & HT & Hg & Hth). pose proof (upto_length c l). rewrite upto_snoc, seg_snoc by lia.
    split_and!; (done || lia).
  - intros (T & HT & Hg). exists T. split; [by apply Hrep|]. destruct HT as [HT _]. by rewrite seg_snoc by lia.
  - intros (T & HT & Hg). exists T. split; [by apply Hrep|]. destruct HT as [HT _]. by rewrite seg_snoc by lia.
  - intros Hg. etransitivity; [exact Hg|]. rewrite length_app. cbn.
    rewrite <- (seg_split ty a start (length l) (length l + 1)) by lia. rewrite seg_snoc by lia. by eexists.
Qed.

(** Numbers drawn in vain change nothing. *)
Lemma progress_skip s s' hi hi' l Q :
  phase (session s') = phase (session s) -> out (session s') = out (session s) ->
  hi <= hi' -> progress_of s hi l Q -> progress_of s' hi' l Q.
Proof.
  intros Hp Ho Hhi. unfold progress_of. rewrite Hp, Ho.
  assert (forall T th, replayed hi l T th -> replayed hi' l T th) as Hrep.
  { intros T th [HT Hth]. split; [done|]. destruct th as [t|]; [|done]. destruct Hth as (? & ? & ?). split_and!; (done || lia). }
  destruct (phase (session s)) as [c th|th|th|].
  - intros (Hc & HT & Hg & Hth). split_and!; (done || lia).
  - intros (T & HT & Hg). exists T. auto.
  - intros (T & HT & Hg). exists T. auto.
  - done.
Qed.

(** One event off the channel. *)
Lemma receive_progress f hi l T th Q ev :
  fl_event_type f = ty -> fl_address f = normalized_or_as_given <$> a -> in_order l ->
  Forall (fun e => ie_event_type e = EventPayload.event_type (payload e)) l ->
  replayed hi l T th -> (start <= Q)%nat -> l !! Q = Some ev ->
  seg ty a start (Nat.max T Q) l ++ delivered (receive f th ev) = seg ty a start (Nat.max T (S Q)) l.
Proof.
  intros Hty Ha Hs Htypes [HT Hth] HQ Hev.
  assert (ie_event_type ev = EventPayload.event_type (payload ev)) as Htype.
  { rewrite list.Forall_forall in Htypes. by apply Htypes, (list_elem_of_lookup_2 _ Q). }
  pose proof (matches_wanted f a ev Ha Htype) as Hm. rewrite Hty in Hm.
  pose proof (segment_one (wanted ty a) Q l ev Hev) as Hone. fold (seg ty a Q (S Q) l) in Hone.
  unfold receive. rewrite Hm. destruct (decide (S Q <= T)%nat) as [Hle|Hgt].
  - replace (Nat.max T Q) with T by lia. replace (Nat.max T (S Q)) with T by lia.
    assert (delivered (if match th with Some t => bool_decide (cursor ev <= t) | None => false end then []
                       else if wanted ty a ev then [EventMsg ev] else []) = []) as ->; [|by rewrite app_nil_r].
    destruct th as [t|].
    + destruct Hth as (_ & Ht' & Hse). case_bool_decide as Hle'; [done|].
      rewrite (upto_lookup _ _ _ _ Hs Hev) in Hle'.
      rewrite (seg_inner ty a (upto t l) Q (S Q) T) in Hone by (done || lia). by destruct (wanted ty a ev).
    + rewrite (seg_inner ty a start Q (S Q) T) in Hone by (done || lia). by destruct (wanted ty a ev).
  - replace (Nat.max T Q) with Q by lia. replace (Nat.max T (S Q)) with (S Q) by lia.
    rewrite <- (seg_split ty a start Q (S Q)) by lia. f_equal. rewrite Hone.
    assert (match th with Some t => bool_decide (cursor ev <= t) | None => false end = false) as ->.
    { destruct th as [t|]; [|done]. destruct Hth as (_ & Ht' & _). apply bool_decide_eq_false.
      rewrite (upto_lookup _ _ _ _ Hs Hev). lia. }
    by destruct (wanted ty a ev).
Qed.

Lemma ended_progress s hi l Q :
  (start <= Q <= length l)%nat -> progress_of s hi l Q ->
  delivered (out (session s)) `prefix_of` seg ty a start (length l) l.
Proof.
  intros HQ. unfold progress_of.
  assert (forall K, (start <= K <= length l)%nat -> seg ty a start K l `prefix_of` seg ty a start (length l) l) as Hpre.
  { intros K HK. exists (seg ty a K (length l) l). by rewrite seg_split by lia. }
  destruct (phase (session s)) as [c th|th|th|].
  - intros (_ & HT & -> & _). pose proof (upto_length c l). apply Hpre. lia.
  - intros (T & [HT _] & ->). apply Hpre. lia.
  - intros (T & [HT _] & ->). apply Hpre. lia.
  - done.
Qed.

Lemma contents_types cs es : Forall (fun e => ie_event_type e = EventPayload.event_type (payload e)) (events_at cs es).
Proof. revert es. induction cs as [|c cs IH]; intros [|x es]; constructor; [done | apply IH]. Qed.

(** The handler only reads the store. *)
Lemma handle_keeps w (s : Session) w' (s' : Session) : handle q w s w' s' -> db w' = db w.
Proof.
  assert (forall c lim ty' a', match events_after c lim ty' a' w with Ok _ w1 | Err _ w1 => db w1 = db w | Panic => True end) as Hread.
  { intros c lim ty' a'. unfold events_after, query, mbind, M_bind. destruct (io _ _) as [[] w1|e1 w1|] eqn:Hio; [| |done].
    - apply io_Ok in Hio as [fs ->]. cbn. unfold ok_or. by destruct (mapM _ _).
    - unfold io in Hio. destruct (faults w) as [|[] ?]; by simplify_eq. }
  destruct 1 as [c th page w' Hph Hrun|c th e w' Hph Hrun| | | |c th page w' n Hph Hrun|]; try done;
    specialize (Hread (Some c) REPLAY_PAGE_SIZE (fl_event_type (filters s)) (fl_address (filters s))); by rewrite Hrun in Hread.
Qed.

Lemma handle_inv s es Q w' session' :
  inv s es Q -> handle q (sys_world s) (session s) w' session' ->
  exists Q', inv (mkSystem w' (unsent s) session') es Q'.
Proof.
  intros [Hh Hfr Hu Hty Ha Hq HQ Hp] Hstep. pose proof (contents_sorted _ _ Hh) as Hs.
  set (l := contents (db (sys_world s)) es) in *. pose proof (broadcast_le s l) as HB.
  assert (broadcast (mkSystem w' (unsent s) session') l = broadcast s l) as Hbc by done.
  assert (forall p ms, page_failed (session s) = false -> delivered ms = [] ->
    delivered (out (move p ms (session s))) = delivered (out (session s))) as Hmove.
  { intros p ms _ Hms. cbn. by rewrite delivered_app, Hms, app_nil_r. }
  destruct Hstep as [c th page w' Hph Hrun|c th e w' Hph Hrun|th Hph|th ev rest Hph Hqu Hcap|th Hph Hcap|c th page w' n Hph Hrun|].
  - rewrite Hty, Ha in Hrun. assert (db w' = db (sys_world s)) as Hdb.
    { by destruct (events_after_Ok _ _ _ _ _ _ _ _ Hh (ltac:(done) : 0 <= REPLAY_PAGE_SIZE) Hrun). }
    exists Q. split; cbn; rewrite ?Hdb; try done. intros Hpf. specialize (Hp Hpf). unfold progress_of in *. rewrite Hph in Hp.
    destruct Hp as (Hc & HTN & Hg & Hth).
    destruct (page_progress _ _ _ _ _ _ Hh Hc HTN Hth Hrun) as (_ & T' & HT' & Hd & Hnext). fold l in HT', Hd, Hnext. cbn.
    fold l. rewrite delivered_app, Hg, Hd, seg_split by lia.
    destruct (replay_page page th).2 as [c' th'|th'|th'|]; [| |done..].
    + destruct Hnext as (Hc' & <- & ->). split_and!; try done; lia.
    + destruct Hnext as [-> Hrep]. exists (length l). split; [done|]. f_equal. lia.
  - pose proof (handle_keeps _ _ _ _ (ReplayFailed q _ _ _ _ _ _ Hph Hrun)) as Hdb.
    exists Q. by split; cbn; rewrite ?Hdb.
  - exists Q. split; try done. intros Hpf. specialize (Hp Hpf). unfold progress_of in *. rewrite Hph in Hp. cbn.
    by rewrite delivered_app, app_nil_r.
  - rewrite Hq in Hqu.
    assert (l !! Q = Some ev /\ (Q < broadcast s l)%nat) as [Hev Hlt].
    { assert (drop Q (take (broadcast s l) l) !! 0%nat = Some ev) as H0 by by rewrite Hqu.
      rewrite lookup_drop, Nat.add_0_r, lookup_take_Some in H0. by destruct H0. }
    exists (S Q). split; try done; cbn; fold l.
    + rewrite Hbc. rewrite (drop_S _ ev) in Hqu by (by rewrite lookup_take_lt). by injection Hqu.
    + rewrite Hbc. lia.
    + intros Hpf. specialize (Hp Hpf). unfold progress_of in *. rewrite Hph in Hp. cbn. destruct Hp as (T & HT & Hg).
      exists T. split; [done|]. rewrite delivered_app, Hg. apply (receive_progress _ (d_sequence (db (sys_world s)))); try done; [apply contents_types | lia].
  - exists Q. split; try done. intros Hpf. specialize (Hp Hpf). unfold progress_of at 1. cbn.
    rewrite delivered_app, app_nil_r. apply (ended_progress s (d_sequence (db (sys_world s))) l Q); [lia | done].
  - rewrite Hty, Ha in Hrun. assert (db w' = db (sys_world s)) as Hdb.
    { by destruct (events_after_Ok _ _ _ _ _ _ _ _ Hh (ltac:(done) : 0 <= REPLAY_PAGE_SIZE) Hrun). }
    exists Q. split; cbn; rewrite ?Hdb; try done. intros Hpf. specialize (Hp Hpf). unfold progress_of in *. rewrite Hph in Hp.
    destruct Hp as (Hc & HTN & Hg & Hth).
    destruct (page_progress _ _ _ _ _ _ Hh Hc HTN Hth Hrun) as (_ & T' & HT' & Hd & _). fold l in HT', Hd. cbn. fold l.
    rewrite delivered_app, Hg, <- (seg_split ty a start (upto c l) (length l)), <- (seg_split ty a (upto c l) T' (length l)) by lia.
    apply prefix_app. rewrite <- Hd. set (ms := (replay_page page th).1).
    apply prefix_app_r. exists (delivered (drop n ms)). by rewrite <- delivered_app, take_drop.
  - exists Q. split; try done. intros Hpf. specialize (Hp Hpf). unfold progress_of at 1. cbn.
    rewrite app_nil_r. apply (ended_progress s (d_sequence (db (sys_world s))) l Q); [lia | done].
Qed.

(** Whatever the step, what was stored keeps its place and its cursor. *)
Lemma step_inv s t es Q : inv s es Q -> step q s t ->
  exists es' Q', appended (sys_world s, es) (sys_world t, es') /\ inv t es' Q'.
Proof.
  intros Hinv Hstep. destruct Hstep as [s x r w' Hu Hx Hrun|s x e w' Hu Hrun|s ev Hu|s w' session' Hstep].
  - pose proof Hinv as [Hh Hfr _ Hty Ha Hq HQ Hp].
    destruct (insert_event_Ok _ _ _ _ _ Hh Hx Hrun) as [Hseq Hr].
    set (l := contents (db (sys_world s)) es) in *.
    assert (broadcast s l = length l) as HB by (unfold broadcast; rewrite Hu; lia). rewrite HB in Hq, HQ.
    destruct r as [ev|].
    + destruct Hr as (Hev & Hh' & Hcs). assert (cursor ev = d_sequence (db (sys_world s)) + 1) as Hc by by rewrite Hev.
      assert (contents (db w') (es ++ [x]) = l ++ [ev]) as Hl.
      { unfold contents. rewrite Hcs, events_at_app by by apply holds_length. by rewrite Hev. }
      exists (es ++ [x]), Q. split; [split; [by eexists | cbn; rewrite Hcs; by eexists]|].
      split; cbn; rewrite ?Hl, ?Hseq; try done.
      * split; [lia|]. rewrite upto_snoc by lia. apply Hfr.
      * by rewrite list.last_snoc.
      * unfold broadcast. cbn. rewrite length_app. cbn.
        replace (length l + 1 - 1)%nat with (length l) by lia. rewrite Hq. by rewrite take_app_le.
      * unfold broadcast. cbn. rewrite length_app. cbn. lia.
      * intros Hpf. rewrite <- Hc. eapply progress_snoc; [lia | done | done | | by apply Hp]. lia.
    + destruct Hr as [Hh' Hcs]. assert (contents (db w') es = l) as Hl by (unfold contents; by rewrite Hcs).
      exists es, Q. split; [split; [done | cbn; by rewrite Hcs]|].
      split; cbn; rewrite ?Hl, ?Hseq; try done.
      * split; [lia | apply Hfr].
      * unfold broadcast. cbn. by rewrite Nat.sub_0_r.
      * unfold broadcast. cbn. lia.
      * intros Hpf. eapply progress_skip; [done | done | | by apply Hp]. lia.
  - pose proof (insert_event_Err _ _ _ _ Hrun) as Hdb. pose proof Hinv as [Hh Hfr _ Hty Ha Hq HQ Hp].
    exists es, Q. split; [split; [done | cbn; by rewrite Hdb]|]. unfold broadcast in *. rewrite Hu in Hq, HQ.
    split; cbn; rewrite ?Hdb; done.
  - pose proof Hinv as [Hh Hfr Hl Hty Ha Hq HQ Hp]. rewrite Hu in Hl. exists es, Q. split; [by split|].
    set (l := contents (db (sys_world s)) es) in *.
    assert (broadcast s l = length l - 1)%nat as HB by (unfold broadcast; by rewrite Hu).
    split; cbn; try done; fold l.
    + unfold broadcast at 1. cbn. rewrite Nat.sub_0_r, Hq, HB.
      rewrite (take_ge l (length l)) by lia.
      apply list.last_Some in Hl as [l0 Hes]. assert (length l = S (length l0)) as Hlen by (rewrite Hes, length_app; cbn; lia).
      rewrite Hes at 2 3. replace (length l - 1)%nat with (length l0) by lia. rewrite take_app_length.
      rewrite drop_app_le by (rewrite HB in HQ; lia). done.
    + unfold broadcast at 1. cbn. lia.
  - destruct (handle_inv _ _ _ _ _ Hinv Hstep) as [Q' HQ']. exists es, Q'. split; [|done].
    split; [done|]. cbn. pose proof (handle_keeps _ _ _ _ Hstep) as ->. done.
Qed.
End Invariant.

(** The last number drawn for an event that has been broadcast; the next one
    broadcast comes after it. *)
Definition frontier w (u : option IndexedEvent) : Z :=
  match u with Some ev => cursor ev - 1 | None => d_sequence (db w) end.

(** Where the subscription begins: after the given cursor, or with what is
    broadcast from now on. *)
Definition subscribed_from (q : SubscribeQuery) w (u : option IndexedEvent) : Z :=
  match sq_after q with Some c => c | None => frontier w u end.

Lemma frontier_upto w u es :
  holds (db w) es -> match u with Some ev => list.last (contents (db w) es) = Some ev | None => True end ->
  frontier w u <= d_sequence (db w) /\
  upto (frontier w u) (contents (db w) es) = (length (contents (db w) es) - match u with Some _ => 1 | None => 0 end)%nat.
Proof.
  intros Hh Hu. pose proof (contents_cursor _ _ Hh) as Hc. pose proof (contents_sorted _ _ Hh) as Hs.
  destruct u as [ev|]; unfold frontier.
  - apply list.last_Some in Hu as [l Hl]. rewrite Hl in Hc, Hs |- *.
    apply list.Forall_app in Hc as [_ Hc]. rewrite list.Forall_singleton in Hc. split; [lia|].
    rewrite upto_app, length_app, (upto_none _ [ev]) by (repeat constructor; lia). cbn [length].
    rewrite upto_all; [lia|]. apply list.Forall_forall. intros e He.
    pose proof (sorting.StronglySorted_app_1_elem_of _ _ _ e ev Hs He ltac:(set_solver)) as Hlt. cbn in Hlt. lia.
  - split; [done|]. rewrite upto_all; [lia|]. eapply list.Forall_impl; [exact Hc|]. cbn. lia.
Qed.

Lemma connect_inv q w u es :
  holds (db w) es -> match u with Some ev => list.last (contents (db w) es) = Some ev | None => True end ->
  subscribed_from q w u <= frontier w u -> phase (connect q) <> Ended ->
  inv q (subscribed_from q w u) (upto (subscribed_from q w u) (contents (db w) es)) (mkSystem w u (connect q)) es
    (upto (frontier w u) (contents (db w) es)).
Proof.
  intros Hh Hu Hle Hph. destruct (frontier_upto _ _ _ Hh Hu) as [Hfr Hall].
  pose proof (upto_mono _ _ (contents (db w) es) Hle) as Hmono.
  assert (queue (connect q) = [] /\ out (connect q) = [] /\
    phase (connect q) = match sq_after q with Some c => Replaying c None | None => Announcing None end) as (Hq & Ho & Hp).
  { revert Hph. unfold connect. destruct (sq_event_type q) as [n|]; [destruct (EventType.parse n)|]; done. }
  split; try done; cbn [session sys_world].
  - split; [lia | done].
  - apply connect_filters.
  - rewrite Hq. unfold broadcast; cbn [unsent]. rewrite Hall, drop_ge; [done|]. rewrite length_take. lia.
  - unfold broadcast; cbn [unsent]. rewrite <- Hall. lia.
  - intros _. unfold progress_of. cbn [session]. rewrite Ho, Hp. unfold subscribed_from in *. destruct (sq_after q) as [c|].
    + split_and!; try done; [lia|]. unfold seg. by rewrite segment_empty.
    + exists (upto (frontier w u) (contents (db w) es)). unfold replayed, seg. rewrite segment_empty. split_and!; try done.
      * apply upto_length.
      * by rewrite Nat.max_id, segment_empty.
Qed.

(** C7: a live subscription delivers every wanted event exactly once, in order.
    Events are stored and broadcast all along, insertions meet rows that are
    there already or fail, the replay reads page after page, the live feed takes
    over, and the connection may drop at any point: if no page of the replay
    failed, the client has received a prefix of the events that pass its filter
    and come after its cursor - none twice, none skipped at the hand-over -, and
    all of them once the feed is live and the channel is drained.  (The cursor
    must not lie ahead of what has been broadcast.) *)
Theorem subscription_exactly_once q w u es t :
  holds (db w) es -> match u with Some ev => list.last (contents (db w) es) = Some ev | None => True end ->
  subscribed_from q w u <= frontier w u -> phase (connect q) <> Ended ->
  run q (mkSystem w u (connect q)) t -> page_failed (session t) = false ->
  exists es', holds (db (sys_world t)) es' /\ appended (w, es) (sys_world t, es') /\
    let due := base.filter
      (fun e => wanted_after (subscribed_from q w u) (fl_event_type (filters (connect q))) (sq_address q) e : Prop)
      (contents (db (sys_world t)) es') in
    delivered (out (session t)) `prefix_of` due /\
    (forall th, phase (session t) = Live th -> queue (session t) = [] -> unsent t = None ->
     delivered (out (session t)) = due).
Proof.
  intros Hh Hu Hle Hph Hrun Hpf. set (from := subscribed_from q w u). set (start := upto from (contents (db w) es)).
  assert (exists es' Q, appended (w, es) (sys_world t, es') /\ inv q from start t es' Q) as (es' & Q & Hpre & Hinv).
  { remember (mkSystem w u (connect q)) as s0 eqn:Hs0. clear Hpf. induction Hrun as [s|s t t' Hrun IH Hstep]; subst.
    - exists es, (upto (frontier w u) (contents (db w) es)). split; [by split|]. by apply connect_inv.
    - destruct (IH eq_refl) as (es1 & Q1 & Hp1 & Hinv1). destruct (step_inv _ _ _ _ _ _ _ Hinv1 Hstep) as (es2 & Q2 & Hp2 & Hinv2).
      exists es2, Q2. split; [|done]. destruct Hp1, Hp2. split; by etransitivity. }
  pose proof Hinv as [Hh' [_ Hstart] _ _ _ Hq HQ Hp]. specialize (Hp Hpf).
  exists es'. split; [done|]. split; [done|]. cbn zeta. rewrite (after_seg _ _ _ _ (contents_sorted _ _ Hh')).
  fold from. rewrite Hstart. set (l := contents (db (sys_world t)) es') in *. pose proof (broadcast_le t l) as HB. split.
  - apply (ended_progress q start t (d_sequence (db (sys_world t))) l Q); [lia | done].
  - intros th Hlive Hqe Hun. unfold progress_of in Hp. rewrite Hlive in Hp. destruct Hp as (T & [HT _] & ->).
    rewrite Hqe in Hq. assert (broadcast t l = length l) as HBN by (unfold broadcast; rewrite Hun; lia).
    rewrite HBN in Hq, HQ. symmetry in Hq. apply (f_equal length) in Hq.
    rewrite take_ge, length_drop in Hq by lia. cbn in Hq.
    unfold seg. f_equal. lia.
Qed.
End Spec.
