(* ===== verification/Sha256.v ===== *)
(** * SHA-256

    [sha256] of src/indexer/src/api/auth.rs, on bytes and 32-bit words as
    integers. *)

From S2P Require Import Prelude.

(** The constants, row by row as in the source, a row as one number. *)
Definition words (n : nat) (row : Z) : list Z :=
  (fun i => Z.shiftr row (32 * Z.of_nat i) mod 2 ^ 32) <$> reverse (seq 0 n).

Definition K : list Z := Eval vm_compute in
  words 7 0x428a2f98_71374491_b5c0fbcf_e9b5dba5_3956c25b_59f111f1_923f82a4 ++
  words 7 0xab1c5ed5_d807aa98_12835b01_243185be_550c7dc3_72be5d74_80deb1fe ++
  words 7 0x9bdc06a7_c19bf174_e49b69c1_efbe4786_0fc19dc6_240ca1cc_2de92c6f ++
  words 7 0x4a7484aa_5cb0a9dc_76f988da_983e5152_a831c66d_b00327c8_bf597fc7 ++
  words 7 0xc6e00bf3_d5a79147_06ca6351_14292967_27b70a85_2e1b2138_4d2c6dfc ++
  words 7 0x53380d13_650a7354_766a0abb_81c2c92e_92722c85_a2bfe8a1_a81a664b ++
  words 7 0xc24b8b70_c76c51a3_d192e819_d6990624_f40e3585_106aa070_19a4c116 ++
  words 7 0x1e376c08_2748774c_34b0bcb5_391c0cb3_4ed8aa4a_5b9cca4f_682e6ff3 ++
  words 7 0x748f82ee_78a5636f_84c87814_8cc70208_90befffa_a4506ceb_bef9a3f7 ++
  words 1 0xc67178f2.

Definition H0 : list Z := Eval vm_compute in
  words 7 0x6a09e667_bb67ae85_3c6ef372_a54ff53a_510e527f_9b05688c_1f83d9ab ++
  words 1 0x5be0cd19.

(** ** Words *)

Definition wrapping_add (a b : Z) : Z := (a + b) mod 2 ^ 32.
Definition rotate_right (x n : Z) : Z :=
  Z.lor (Z.shiftr x n) (Z.shiftl x (32 - n) mod 2 ^ 32).
Definition not32 (x : Z) : Z := Z.lxor x (2 ^ 32 - 1).

(** [u32::from_be_bytes] and [to_be_bytes]; the latter also for a [u64]. *)
Definition from_be_bytes (bs : list Z) : Z := foldl (fun acc b => acc * 256 + b) 0 bs.
Fixpoint to_be_bytes (n : nat) (x : Z) : list Z :=
  match n with O => [] | S n => to_be_bytes n (x / 256) ++ [x mod 256] end.

(** [chunks_exact] *)
Fixpoint chunks_exact (fuel n : nat) (l : list Z) : list (list Z) :=
  match fuel with
  | O => []
  | S fuel => if bool_decide (n <= length l)%nat then take n l :: chunks_exact fuel n (drop n l) else []
  end.

(** ** Padding *)

(** [while (msg.len() + 8) % 64 != 0 { msg.push(0x00) }]; 64 rounds are
    enough. *)
Fixpoint fill (fuel : nat) (msg : list Z) : list Z :=
  if bool_decide ((Z.of_nat (length msg) + 8) mod 64 = 0) then msg
  else match fuel with O => msg | S fuel => fill fuel (msg ++ [0]) end.

Definition padded (data : list Z) : list Z :=
  fill 64 (data ++ [0x80]) ++ to_be_bytes 8 (Z.of_nat (length data) * 8).

(** ** Compression *)

Definition at_word (w : list Z) (i : nat) : Z := default 0 (w !! i).

(** One more word of the message schedule. *)
Definition extend (w : list Z) : list Z :=
  let i := length w in
  let x := at_word w (i - 15) in
  let y := at_word w (i - 2) in
  let s0 := Z.lxor (Z.lxor (rotate_right x 7) (rotate_right x 18)) (Z.shiftr x 3) in
  let s1 := Z.lxor (Z.lxor (rotate_right y 17) (rotate_right y 19)) (Z.shiftr y 10) in
  w ++ [wrapping_add (wrapping_add (wrapping_add (at_word w (i - 16)) s0) (at_word w (i - 7))) s1].

Definition schedule (chunk : list Z) : list Z :=
  Nat.iter 48 extend (from_be_bytes <$> chunks_exact 16 4 chunk).

Record Regs := mkRegs { va : Z; vb : Z; vc : Z; vd : Z; ve : Z; vf : Z; vg : Z; vh : Z }.

Definition round (r : Regs) (kw : Z * Z) : Regs :=
  let '(k, w) := kw in
  let e := ve r in let a := va r in
  let s1 := Z.lxor (Z.lxor (rotate_right e 6) (rotate_right e 11)) (rotate_right e 25) in
  let ch := Z.lxor (Z.land e (vf r)) (Z.land (not32 e) (vg r)) in
  let temp1 := wrapping_add (wrapping_add (wrapping_add (wrapping_add (vh r) s1) ch) k) w in
  let s0 := Z.lxor (Z.lxor (rotate_right a 2) (rotate_right a 13)) (rotate_right a 22) in
  let maj := Z.lxor (Z.lxor (Z.land a (vb r)) (Z.land a (vc r))) (Z.land (vb r) (vc r)) in
  let temp2 := wrapping_add s0 maj in
  mkRegs (wrapping_add temp1 temp2) a (vb r) (vc r) (wrapping_add (vd r) temp1) e (vf r) (vg r).

Definition regs_of (h : list Z) : Regs :=
  mkRegs (at_word h 0) (at_word h 1) (at_word h 2) (at_word h 3) (at_word h 4) (at_word h 5) (at_word h 6) (at_word h 7).
Definition words_of (r : Regs) : list Z := [va r; vb r; vc r; vd r; ve r; vf r; vg r; vh r].

Definition compress (h : list Z) (chunk : list Z) : list Z :=
  zip_with wrapping_add h (words_of (foldl round (regs_of h) (zip K (schedule chunk)))).

Definition sha256 (data : list Z) : list Z :=
  let msg := padded data in
  mjoin (to_be_bytes 4 <$> foldl compress H0 (chunks_exact (length msg) 64 msg)).

(** ** Padding is unambiguous, digests are 32 bytes *)

Definition is_byte (b : Z) : Prop := 0 <= b < 256.
Definition is_word (w : Z) : Prop := 0 <= w < 2 ^ 32.

Lemma to_be_bytes_length n x : length (to_be_bytes n x) = n.
Proof. revert x. induction n as [|n IH]; intros x; [done|]. cbn. rewrite length_app, IH. cbn. lia. Qed.

Lemma to_be_bytes_byte n x : Forall is_byte (to_be_bytes n x).
Proof.
  revert x. induction n as [|n IH]; intros x; cbn [to_be_bytes]; [constructor|].
  apply Forall_app. split; [apply IH|]. constructor; [|done]. apply Z.mod_pos_bound. lia.
Qed.

Lemma from_to_be_bytes n x : from_be_bytes (to_be_bytes n x) = x mod 256 ^ Z.of_nat n.
Proof.
  unfold from_be_bytes. revert x. induction n as [|n IH]; intros x; [by rewrite Z.mod_1_r|].
  cbn [to_be_bytes]. rewrite foldl_app, IH. cbn.
  replace (256 ^ Z.of_nat (S n)) with (256 * 256 ^ Z.of_nat n) by (rewrite Nat2Z.inj_succ, Z.pow_succ_r; lia).
  rewrite (Z.rem_mul_r x 256) by (try apply Z.pow_pos_nonneg; lia). lia.
Qed.

Lemma fill_spec fuel msg :
  exists k, fill fuel msg = msg ++ replicate k 0 /\ (k <= fuel)%nat /\
    ((64 - (Z.of_nat (length msg) + 8) mod 64) mod 64 <= Z.of_nat fuel ->
     (Z.of_nat (length (fill fuel msg)) + 8) mod 64 = 0).
Proof.
  revert msg. induction fuel as [|fuel IH]; intros msg; cbn [fill]; case_bool_decide as Hm.
  - exists 0%nat. by rewrite app_nil_r.
  - exists 0%nat. rewrite app_nil_r. split_and!; [done | lia |].
    pose proof (Z.mod_pos_bound (Z.of_nat (length msg) + 8) 64 ltac:(lia)).
    set (r := (Z.of_nat (length msg) + 8) mod 64) in *. intros Hf. rewrite Z.mod_small in Hf by lia. lia.
  - exists 0%nat. rewrite app_nil_r. split_and!; [done | lia | done].
  - destruct (IH (msg ++ [0])) as (k & Hk & Hle & Hlen). exists (S k). split_and!; [|lia|].
    + rewrite Hk, <- app_assoc. done.
    + intros Hf. apply Hlen. rewrite length_app. cbn [length].
      pose proof (Z.mod_pos_bound (Z.of_nat (length msg) + 8) 64 ltac:(lia)) as Hb.
      set (r := (Z.of_nat (length msg) + 8) mod 64) in *.
      assert ((Z.of_nat (length msg + 1) + 8) mod 64 = (r + 1) mod 64) as ->.
      { unfold r. rewrite Zplus_mod_idemp_l. f_equal. lia. }
      clearbody r. rewrite (Z.mod_small (64 - r)) in Hf by lia. destruct (decide (r = 63)) as [->|].
      { assert ((64 - (63 + 1) mod 64) mod 64 = 0) as -> by done. lia. }
      rewrite (Z.mod_small (r + 1)) by lia. rewrite Z.mod_small by lia. lia.
Qed.

Lemma padded_shape data :
  exists k, padded data = data ++ 0x80 :: replicate k 0 ++ to_be_bytes 8 (Z.of_nat (length data) * 8).
Proof.
  unfold padded. destruct (fill_spec 64 (data ++ [0x80])) as (k & -> & _). exists k. by rewrite <- !app_assoc.
Qed.

Lemma padded_length data : Z.of_nat (length (padded data)) mod 64 = 0.
Proof.
  unfold padded. destruct (fill_spec 64 (data ++ [0x80])) as (k & _ & _ & Hlen).
  rewrite length_app, to_be_bytes_length, Nat2Z.inj_add. apply Hlen.
  pose proof (Z.mod_pos_bound (64 - (Z.of_nat (length (data ++ [0x80])) + 8) mod 64) 64). lia.
Qed.

Lemma padded_inj d1 d2 :
  Z.of_nat (length d1) < 2 ^ 61 -> Z.of_nat (length d2) < 2 ^ 61 -> padded d1 = padded d2 -> d1 = d2.
Proof.
  intros H1 H2 Heq. destruct (padded_shape d1) as [k1 Hs1], (padded_shape d2) as [k2 Hs2].
  rewrite Hs1, Hs2 in Heq. assert (length d1 = length d2) as Hl.
  { rewrite !app_comm_cons, !app_assoc in Heq.
    apply app_inj_2 in Heq as [_ Heq]; [|by rewrite !to_be_bytes_length].
    apply (f_equal from_be_bytes) in Heq. rewrite !from_to_be_bytes in Heq.
    change (256 ^ Z.of_nat 8) with (2 ^ 64) in Heq. rewrite !Z.mod_small in Heq by lia. lia. }
  by apply app_inj_1 in Heq as [-> _].
Qed.

Lemma compress_words h chunk : length h = 8%nat -> Forall is_word (compress h chunk) /\ length (compress h chunk) = 8%nat.
Proof.
  intros Hh. unfold compress. split.
  - apply list.Forall_forall. intros w Hw. apply elem_of_zip_with in Hw as (a & b & -> & _).
    apply Z.mod_pos_bound. lia.
  - rewrite length_zip_with. cbn. lia.
Qed.

Lemma state_words chunks h :
  Forall is_word h -> length h = 8%nat ->
  Forall is_word (foldl compress h chunks) /\ length (foldl compress h chunks) = 8%nat.
Proof.
  revert h. induction chunks as [|c chunks IH]; intros h Hw Hh; [done|]. cbn [foldl].
  destruct (compress_words h c Hh). by apply IH.
Qed.

Lemma digest_bytes data : length (sha256 data) = 32%nat /\ Forall is_byte (sha256 data).
Proof.
  unfold sha256. set (chunks := chunks_exact _ _ _).
  assert (Forall is_word H0) as HH0 by (repeat constructor; unfold is_word; lia).
  destruct (state_words chunks H0 HH0 eq_refl) as [_ Hl]. set (h := foldl compress H0 chunks) in *. split.
  - destruct h as [|? [|? [|? [|? [|? [|? [|? [|? [|]]]]]]]]]; try done.
  - apply Forall_join, Forall_fmap, list.Forall_forall. intros w _. apply to_be_bytes_byte.
Qed.

(** ASCII, for the vectors. *)
Definition bytes_of (s : string) : list Z :=
  (fun c => Z.of_nat (Ascii.nat_of_ascii c)) <$> String.list_ascii_of_string s.

(** The hash that guards API keys.  Every digest is 32 bytes; the padding
    brings any message to whole 64-byte blocks, so none of it is left out, and
    no two messages pad alike; and the code computes SHA-256 on the vectors of
    FIPS 180-4, of one block and of two. *)
Theorem sha256_sound :
  (forall data, length (sha256 data) = 32%nat /\ Forall is_byte (sha256 data)) /\
  (forall data, Z.of_nat (length (padded data)) mod 64 = 0) /\
  (forall d1 d2, Z.of_nat (length d1) < 2 ^ 61 -> Z.of_nat (length d2) < 2 ^ 61 -> padded d1 = padded d2 -> d1 = d2) /\
  sha256 (bytes_of "abc") = mjoin (to_be_bytes 4 <$>
    [0xba7816bf; 0x8f01cfea; 0x414140de; 0x5dae2223; 0xb00361a3; 0x96177a9c; 0xb410ff61; 0xf20015ad]) /\
  sha256 (bytes_of "abcdbcdecdefdefgefghfghighijhijkijkljklmklmnlmnomnopnopq") = mjoin (to_be_bytes 4 <$>
    [0x248d6a61; 0xd20638b8; 0xe5c02693; 0x0c3e6039; 0xa33ce459; 0x64ff2167; 0xf6ecedd4; 0x19db06c1]).
Proof.
  split_and!; [apply digest_bytes | apply padded_length | apply padded_inj | by vm_compute | by vm_compute].
Qed.
