(* ===== verification/IndexerAuth.v ===== *)
(** * Indexer: API keys

    src/indexer/src/api/auth.rs: issuing, revoking and verifying keys against
    the table api_keys, rows in the order of insertion.  Any statement may fail;
    the random source and the clock are arguments. *)

From Stdlib Require Import Ascii.
From S2P Require Import Prelude RustText Host Sha256.

Definition DEFAULT_RATE_LIMIT_PER_MINUTE : Z := 60.

(** A key as stored, without the secret. *)
Record ApiKeyRecord := mkApiKeyRecord {
  key_id : string;
  label : string;
  rate_limit_per_minute : Z;
  created_at : Z;
  revoked_at : option Z;
}.

Inductive Caller := Anonymous | Authenticated (key : ApiKeyRecord).

(** [Caller::rate_limit_per_minute], [may_access_cost_sensitive], [identity] *)
Definition caller_rate_limit (c : Caller) : Z :=
  match c with Anonymous => DEFAULT_RATE_LIMIT_PER_MINUTE | Authenticated key => rate_limit_per_minute key end.
Definition may_access_cost_sensitive (c : Caller) : bool :=
  match c with Authenticated _ => true | Anonymous => false end.
Definition identity (c : Caller) : string :=
  match c with Anonymous => "anonymous" | Authenticated key => label key end.

Definition is_revoked (r : ApiKeyRecord) : bool := match revoked_at r with Some _ => true | None => false end.

Inductive AuthError := UnknownKey | RevokedKey | KeyRequired.

(** [AuthError::status] and the code of its response. *)
Definition auth_status (e : AuthError) : Z := match e with UnknownKey | RevokedKey => 401 | KeyRequired => 401 end.
Definition auth_code (e : AuthError) : string :=
  match e with
  | UnknownKey => "unknown_api_key"
  | RevokedKey => "revoked_api_key"
  | KeyRequired => "api_key_required"
  end.

Record IssuedApiKey := mkIssuedApiKey { ik_record : ApiKeyRecord; ik_secret : string }.

(** [hex::encode] *)
Class HexEncode := { hex_bytes : list Z -> string }.

(** A header's value and [HeaderValue::to_str]. *)
Class HeaderValues := { HeaderValue : Type; to_str : HeaderValue -> option string }.

(** ** Tokens and hashes *)

Definition hex_digit (d : Z) : ascii := Ascii.ascii_of_nat (Z.to_nat (if bool_decide (d < 10) then d + 48 else d + 87)).

(** [format!("{byte:02x}")], one byte after the other. *)
Fixpoint random_token (buf : list Z) : string :=
  match buf with
  | [] => EmptyString
  | byte :: buf => String (hex_digit (byte / 16)) (String (hex_digit (byte mod 16)) (random_token buf))
  end.

(** [key_id_of]: the id inside a well-formed secret. *)
Definition key_id_of (secret : string) : option string :=
  rest ← strip_prefix "ski_" secret;
  '(id, secret_part) ← split_once "_" rest;
  if negb (bool_decide (id = ""%string)) && negb (bool_decide (secret_part = ""%string)) then Some id else None.

(** [constant_time_eq] *)
Definition constant_time_eq (a b : string) : bool :=
  let a := bytes_of a in let b := bytes_of b in
  if negb (bool_decide (length a = length b)) then false
  else bool_decide (foldl (fun acc xy => Z.lor acc (Z.lxor xy.1 xy.2)) 0 (zip a b) = 0).

Section Auth.
Context `{HexEncode} `{HeaderValues}.

Definition hash_secret (secret : string) : string :=
  "sha256$" +:+ hex_bytes (sha256 (bytes_of "keeper-indexer/api-key/v2:" ++ bytes_of secret)).

(** ** The table *)

Record KeyRow := mkKeyRow { kr_record : ApiKeyRecord; kr_secret_hash : string }.

Record Keys := mkKeys { rows : list KeyRow; key_faults : list bool }.

Abbreviation KM := (M Keys string).

(** One statement. *)
Definition statement (context : string) : KM unit := fun s =>
  match key_faults s with
  | [] => Ok tt s
  | true :: rest => Ok tt (mkKeys (rows s) rest)
  | false :: rest => Err context (mkKeys (rows s) rest)
  end.

Definition with_id (id : string) (r : KeyRow) : bool := bool_decide (key_id (kr_record r) = id).

Definition find_row (id : string) (l : list KeyRow) : option KeyRow := List.find (with_id id) l.
#[local] Arguments find_row : simpl never.

Definition issue (lbl : string) (rate : Z) (id_bytes secret_bytes : list Z) (now : Z) : KM IssuedApiKey :=
  let id := random_token id_bytes in
  let secret := "ski_" +:+ id +:+ "_" +:+ random_token secret_bytes in
  let record := mkApiKeyRecord id lbl rate now None in
  statement "issuing an api key";;
  found ← gets (fun s => find_row id (rows s));
  match found with
  | Some _ => fail "issuing an api key"
  | None =>
      modify (fun s => mkKeys (rows s ++ [mkKeyRow record (hash_secret secret)]) (key_faults s));;
      mret (mkIssuedApiKey record secret)
  end.

(** SET revoked_at = now WHERE key_id = id AND revoked_at IS NULL *)
Definition mark (id : string) (now : Z) (r : KeyRow) : KeyRow :=
  let k := kr_record r in
  if with_id id r && negb (is_revoked k)
  then mkKeyRow (mkApiKeyRecord (key_id k) (label k) (rate_limit_per_minute k) (created_at k) (Some now)) (kr_secret_hash r)
  else r.

Definition revoke (id : string) (now : Z) : KM bool :=
  statement "revoking an api key";;
  hits ← gets (fun s => length (List.filter (fun r => with_id id r && negb (is_revoked (kr_record r))) (rows s)));
  modify (fun s => mkKeys (mark id now <$> rows s) (key_faults s));;
  mret (negb (Nat.eqb hits 0)).

Definition verify (secret : string) : KM (AuthError + ApiKeyRecord) :=
  match key_id_of secret with
  | None => mret (inl UnknownKey)
  | Some id =>
      statement "verifying an api key";;
      row ← gets (fun s => find_row id (rows s));
      mret match row with
           | None => inl UnknownKey
           | Some row =>
               if negb (constant_time_eq (hash_secret secret) (kr_secret_hash row)) then inl UnknownKey
               else if is_revoked (kr_record row) then inl RevokedKey
               else inr (kr_record row)
           end
  end.

(** ** Requests *)

Definition Headers : Type := list (string * HeaderValue).

Definition header (name : string) (hs : Headers) : option HeaderValue :=
  snd <$> List.find (fun nv => bool_decide (nv.1 = name)) hs.

Definition nonempty (s : string) : option string := if bool_decide (s = ""%string) then None else Some s.

Definition presented_secret (hs : Headers) : option string :=
  match (v ← header "x-api-key" hs; s ← to_str v; nonempty (trim s)) with
  | Some s => Some s
  | None =>
      v ← header "authorization" hs;
      authorization ← to_str v;
      rest ← strip_prefix "Bearer " authorization;
      nonempty (trim rest)
  end.

Definition authenticate (hs : Headers) : KM (AuthError + Caller) :=
  match presented_secret hs with
  | None => mret (inr Anonymous)
  | Some secret =>
      r ← verify secret;
      mret match r with inr record => inr (Authenticated record) | inl e => inl e end
  end.

Definition require_key (c : Caller) : AuthError + ApiKeyRecord :=
  match c with Authenticated record => inr record | Anonymous => inl KeyRequired end.

(** [caller_from]: a failure of the store is a refusal. *)
Definition caller_from (hs : Headers) (s : Keys) : AuthError + Caller :=
  match authenticate hs s with Ok r _ => r | Err _ _ => inl UnknownKey | Panic => inl UnknownKey end.
(** ** Comparing digests *)

Lemma lor_zero a b : 0 <= a -> 0 <= b -> Z.lor a b = 0 -> a = 0 /\ b = 0.
Proof. intros Ha Hb Hab. by apply Z.lor_eq_0_iff. Qed.

Lemma fold_zero acc (l : list (Z * Z)) :
  0 <= acc -> Forall (fun xy => 0 <= xy.1 /\ 0 <= xy.2) l ->
  foldl (fun acc xy => Z.lor acc (Z.lxor xy.1 xy.2)) acc l = 0 <-> acc = 0 /\ Forall (fun xy => xy.1 = xy.2) l.
Proof.
  intros Hacc Hl. revert acc Hacc. induction Hl as [|[x y] l [Hx Hy] Hl IH]; intros acc Hacc; cbn in *.
  - split; [by split|]. by intros [? _].
  - rewrite IH by (apply Z.lor_nonneg; split; [done|]; apply Z.lxor_nonneg; tauto).
    rewrite list.Forall_cons. cbn. rewrite Z.lor_eq_0_iff. rewrite Z.lxor_eq_0_iff. tauto.
Qed.

Lemma zip_equal (a b : list Z) : length a = length b -> Forall (fun xy => xy.1 = xy.2) (zip a b) -> a = b.
Proof.
  revert b. induction a as [|x a IH]; intros [|y b] Hl Hf; try done. apply list.Forall_cons in Hf as [Hxy Hf].
  cbn in Hxy. subst. f_equal. apply IH; [by injection Hl | done].
Qed.

Lemma bytes_of_inj s t : bytes_of s = bytes_of t -> s = t.
Proof.
  unfold bytes_of. intros Heq.
  rewrite <- (String.string_of_list_ascii_of_string s), <- (String.string_of_list_ascii_of_string t). f_equal.
  revert Heq. generalize (String.list_ascii_of_string s), (String.list_ascii_of_string t).
  intros l. induction l as [|c l IH]; intros [|d k] Heq; try done. cbn in Heq. injection Heq as Hcd Heq.
  apply Nat2Z.inj in Hcd. apply (f_equal Ascii.ascii_of_nat) in Hcd. rewrite !Ascii.ascii_nat_embedding in Hcd.
  subst. f_equal. by apply IH.
Qed.

Lemma constant_time_eq_spec a b : constant_time_eq a b = bool_decide (a = b).
Proof.
  unfold constant_time_eq. case_bool_decide as Hl; cbn.
  - apply bool_decide_ext. rewrite fold_zero; [|done|].
    + split; [|intros ->; split; [done|]].
      * intros [_ Hf]. apply bytes_of_inj. by apply zip_equal.
      * apply list.Forall_forall. intros [x y] Hxy. cbn. generalize dependent (bytes_of b). intros l _ Hxy.
        induction l as [|z l IH]; [by apply elem_of_nil in Hxy|]. cbn in Hxy. apply elem_of_cons in Hxy as [[= -> ->]|]; auto.
    + apply list.Forall_forall. intros [x y] Hxy. cbn.
      assert (x ∈ bytes_of a /\ y ∈ bytes_of b) as [Hx Hy].
      { apply list_elem_of_lookup in Hxy as [i Hi]. rewrite lookup_zip_Some in Hi. destruct Hi.
        split; by eapply list_elem_of_lookup_2. }
      unfold bytes_of in Hx, Hy. apply list_elem_of_fmap in Hx as (? & -> & _), Hy as (? & -> & _). lia.
  - symmetry. apply bool_decide_eq_false. intros ->. done.
Qed.

(** ** Secrets *)

Lemma hex_no_underscore d : 0 <= d < 16 -> hex_digit d <> "_"%char.
Proof.
  intros Hd. assert (exists n, (n < 16)%nat /\ d = Z.of_nat n) as (n & Hn & ->) by (exists (Z.to_nat d); lia).
  do 16 (destruct n as [|n]; [by vm_compute|]). lia.
Qed.

Lemma token_no_underscore buf : Forall is_byte buf -> "_"%char ∉ chars (random_token buf).
Proof.
  unfold chars. induction 1 as [|b buf Hb Hbuf IH]; [apply not_elem_of_nil|]. cbn [random_token String.list_ascii_of_string].
  unfold is_byte in Hb. assert (0 <= b / 16 < 16) by (split; [apply Z.div_pos | apply Z.div_lt_upper_bound]; lia).
  pose proof (Z.mod_pos_bound b 16 ltac:(lia)).
  apply not_elem_of_cons. split; [by apply not_eq_sym, hex_no_underscore|].
  apply not_elem_of_cons. split; [by apply not_eq_sym, hex_no_underscore | done].
Qed.

Lemma token_nonempty buf : buf <> [] -> random_token buf <> ""%string.
Proof. by destruct buf. Qed.

Lemma key_id_of_issued id_bytes secret_bytes :
  Forall is_byte id_bytes -> id_bytes <> [] -> secret_bytes <> [] ->
  key_id_of ("ski_" +:+ random_token id_bytes +:+ "_" +:+ random_token secret_bytes) = Some (random_token id_bytes).
Proof.
  intros Hb Hi Hs. unfold key_id_of. rewrite strip_prefix_app. cbn [mbind option_bind].
  change ("_" +:+ random_token secret_bytes)%string with (String "_" (random_token secret_bytes)).
  rewrite split_once_app by by apply token_no_underscore. cbn [mbind option_bind].
  rewrite !bool_decide_false by by apply token_nonempty. done.
Qed.

(** ** Keys over time *)

Inductive Op :=
  | OpIssue (lbl : string) (rate : Z) (id_bytes secret_bytes : list Z) (now : Z)
  | OpRevoke (id : string) (now : Z)
  | OpVerify (secret : string).

(** An operation, whether it succeeds or fails. *)
Definition exec (s : Keys) (op : Op) : Keys :=
  let state {A} (r : Res Keys string A) := match r with Ok _ s' | Err _ s' => s' | Panic => s end in
  match op with
  | OpIssue lbl rate idb secb now => state (issue lbl rate idb secb now s)
  | OpRevoke id now => state (revoke id now s)
  | OpVerify secret => state (verify secret s)
  end.

Lemma statement_rows ctx s : match statement ctx s with Ok _ s' | Err _ s' => rows s' = rows s | Panic => False end.
Proof. unfold statement. by destruct (key_faults s) as [|[]]. Qed.

Definition revoked_row (now : Z) (r : KeyRow) : KeyRow :=
  let k := kr_record r in
  mkKeyRow (mkApiKeyRecord (key_id k) (label k) (rate_limit_per_minute k) (created_at k) (Some now)) (kr_secret_hash r).

Lemma find_mark id id' now l :
  find_row id (mark id' now <$> l) = mark id' now <$> find_row id l.
Proof.
  unfold find_row. induction l as [|r l IH]; [done|]. cbn.
  assert (with_id id (mark id' now r) = with_id id r) as ->.
  { unfold mark. by destruct (with_id id' r && negb (is_revoked (kr_record r))). }
  by destruct (with_id id r).
Qed.

Lemma find_row_id id l r : find_row id l = Some r -> key_id (kr_record r) = id.
Proof. unfold find_row. intros [_ Hr]%List.find_some. by apply bool_decide_eq_true in Hr. Qed.

Lemma find_app id l r r' : find_row id l = Some r -> find_row id (l ++ [r']) = Some r.
Proof. unfold find_row. induction l as [|x l IH]; [done|]. cbn. by destruct (with_id id x). Qed.

Lemma find_new id l r : find_row id l = None -> with_id id r = true -> find_row id (l ++ [r]) = Some r.
Proof.
  unfold find_row. induction l as [|x l IH]; cbn; [by intros _ ->|]. by destruct (with_id id x).
Qed.

(** A row stays where it is; only its own revocation changes it, once. *)
Lemma exec_find s op id r :
  find_row id (rows s) = Some r ->
  find_row id (rows (exec s op)) = Some r \/
  exists now, op = OpRevoke id now /\ is_revoked (kr_record r) = false /\
    find_row id (rows (exec s op)) = Some (revoked_row now r).
Proof.
  intros Hr. destruct op as [lbl rate idb secb now|id' now|secret]; cbn [exec].
  - left. unfold issue, mbind, M_bind. pose proof (statement_rows "issuing an api key" s) as Hs.
    destruct (statement _ s) as [[] s1|e s1|]; [|by rewrite Hs|done]. unfold gets. rewrite Hs.
    destruct (find_row (random_token idb) (rows s)); cbn; rewrite Hs; [done | by apply find_app].
  - unfold revoke, mbind, M_bind. pose proof (statement_rows "revoking an api key" s) as Hs.
    destruct (statement _ s) as [[] s1|e s1|]; [|left; by rewrite Hs|done]. cbn. rewrite Hs. rewrite find_mark, Hr. cbn.
    unfold mark. pose proof (find_row_id _ _ _ Hr) as Hid. unfold with_id. rewrite Hid.
    case_bool_decide as Hii; [|by left]. subst id'. destruct (is_revoked (kr_record r)) eqn:Hrev; [by left|].
    right. exists now. split_and!; [done..|]. unfold revoked_row. by rewrite Hid.
  - left. unfold verify. destruct (key_id_of secret); [|done]. unfold mbind, M_bind.
    pose proof (statement_rows "verifying an api key" s) as Hs.
    destruct (statement _ s) as [[] s1|e s1|]; cbn; [by rewrite Hs | by rewrite Hs | done].
Qed.

Lemma execs_find ops s id r :
  find_row id (rows s) = Some r -> (forall now, OpRevoke id now ∉ ops) \/ is_revoked (kr_record r) = true ->
  find_row id (rows (foldl exec s ops)) = Some r.
Proof.
  revert s. induction ops as [|op ops IH]; intros s Hr Hops; [done|]. cbn [foldl]. apply IH.
  - destruct (exec_find s op id r Hr) as [?|(now & -> & Hrev & _)]; [done|].
    destruct Hops as [Hops|Hops]; [|congruence]. exfalso. apply (Hops now). left.
  - destruct Hops as [Hops|]; [|by right]. left. intros now Hin. apply (Hops now). by right.
Qed.

(** What verification says, by the row of the id in the secret. *)
Lemma verify_result secret s r s' :
  verify secret s = Ok r s' ->
  r = match key_id_of secret ≫= fun id => find_row id (rows s) with
      | None => inl UnknownKey
      | Some row =>
          if bool_decide (hash_secret secret = kr_secret_hash row)
          then if is_revoked (kr_record row) then inl RevokedKey else inr (kr_record row)
          else inl UnknownKey
      end.
Proof.
  unfold verify. destruct (key_id_of secret) as [id|]; cbn [mbind option_bind]; [|by intros [= <- _]].
  unfold mbind, M_bind. pose proof (statement_rows "verifying an api key" s) as Hs.
  destruct (statement _ s) as [[] s1|e s1|]; [|done..]. cbn. rewrite Hs. intros [= <- _].
  destruct (find_row id (rows s)) as [row|]; [|done]. rewrite constant_time_eq_spec. by case_bool_decide.
Qed.

(** C35: API keys are honoured from issue to revocation, and not a request longer.
    A key that was issued is recognised - with the record it was issued with -
    whatever else is issued, revoked or presented meanwhile.  Once a revocation
    has gone through, no secret with that id is ever accepted again, whatever
    follows: the holder is told that the key is revoked, anyone else that it is
    unknown.  Whoever is accepted at all holds a secret whose hash is on record
    for an unrevoked key.  And a request that presents a key is never served as
    anonymous, not even when the store fails. *)
Theorem api_key_lifecycle :
  (forall lbl rate idb secb now s issued s1 ops r s',
     Forall is_byte idb -> idb <> [] -> secb <> [] ->
     issue lbl rate idb secb now s = Ok issued s1 -> (forall t, OpRevoke (key_id (ik_record issued)) t ∉ ops) ->
     verify (ik_secret issued) (foldl exec s1 ops) = Ok r s' -> r = inr (ik_record issued)) /\
  (forall id t s b s1 row ops secret r s',
     find_row id (rows s) = Some row -> revoke id t s = Ok b s1 -> key_id_of secret = Some id ->
     verify secret (foldl exec s1 ops) = Ok r s' ->
     r = if bool_decide (hash_secret secret = kr_secret_hash row) then inl RevokedKey else inl UnknownKey) /\
  (forall secret s record s', verify secret s = Ok (inr record) s' ->
     is_revoked record = false /\ exists row, row ∈ rows s /\ kr_record row = record /\
       kr_secret_hash row = hash_secret secret /\ key_id_of secret = Some (key_id record)) /\
  (forall hs s, caller_from hs s = inr Anonymous <-> presented_secret hs = None).
Proof.
  split_and!.
  - intros lbl rate idb secb now s issued s1 ops r s' Hb Hi Hs Hissue Hops Hv.
    assert (issued = mkIssuedApiKey (mkApiKeyRecord (random_token idb) lbl rate now None)
        ("ski_" +:+ random_token idb +:+ "_" +:+ random_token secb) /\
      find_row (random_token idb) (rows s1) = Some (mkKeyRow (ik_record issued) (hash_secret (ik_secret issued)))) as [Heq Hrow].
    { unfold issue, mbind, M_bind in Hissue. destruct (statement _ s) as [[] s0|e s0|]; [|done..]. cbn in Hissue.
      destruct (find_row (random_token idb) (rows s0)) eqn:Hf; [done|]. cbn in Hissue. injection Hissue as <- <-.
      split; [done|]. cbn. apply find_new; [done|]. by apply bool_decide_eq_true. }
    pose proof Hv as Hv'. apply verify_result in Hv'. subst r. rewrite Heq at 1. cbn [ik_secret].
    rewrite key_id_of_issued by done. cbn [mbind option_bind].
    rewrite (execs_find ops s1 _ _ Hrow); [|left; rewrite Heq in Hops; exact Hops]. cbn [kr_secret_hash kr_record].
    rewrite bool_decide_true by done. by rewrite Heq.
  - intros id t s b s1 row ops secret r s' Hrow Hrevoke Hid Hv. apply verify_result in Hv. subst r. rewrite Hid. cbn [mbind option_bind].
    assert (exists row', find_row id (rows s1) = Some row' /\ is_revoked (kr_record row') = true /\ kr_secret_hash row' = kr_secret_hash row)
      as (row' & Hrow' & Hrev & Hh).
    { unfold revoke, mbind, M_bind in Hrevoke. pose proof (statement_rows "revoking an api key" s) as Hs.
      destruct (statement _ s) as [[] s0|e s0|]; [|done..]. cbn in Hrevoke. injection Hrevoke as _ <-. cbn.
      rewrite Hs, find_mark, Hrow. cbn. eexists. split; [done|]. pose proof (find_row_id _ _ _ Hrow) as Hk.
      unfold mark, with_id. rewrite Hk, bool_decide_true by done. by destruct (is_revoked (kr_record row)) eqn:?. }
    rewrite (execs_find ops s1 _ _ Hrow') by by right. rewrite Hrev, Hh. done.
  - intros secret s record s' Hv. apply verify_result in Hv.
    destruct (key_id_of secret) as [id|] eqn:Hid; cbn [mbind option_bind] in Hv; [|done].
    destruct (find_row id (rows s)) as [row|] eqn:Hrow; [|done]. case_bool_decide as Hh; [|done].
    destruct (is_revoked (kr_record row)) eqn:Hrev; [done|]. injection Hv as ->. split; [done|]. exists row.
    pose proof (find_row_id _ _ _ Hrow) as ->. split_and!; try done.
    unfold find_row in Hrow. apply List.find_some in Hrow as [Hin _]. by apply list_elem_of_In.
  - intros hs s. unfold caller_from, authenticate. destruct (presented_secret hs) as [secret|]; [|done].
    split; [|done]. unfold mbind, M_bind. destruct (verify secret s) as [[e|record] s'|e s'|]; cbn; done.
Qed.
End Auth.

(** ** A run *)

#[local] Instance plain_hex : HexEncode := {| hex_bytes := random_token |}.
#[local] Instance plain_headers : HeaderValues := {| HeaderValue := string; to_str := Some |}.

Definition no_keys : Keys := mkKeys [] [].

(** What an operation answers, and the state it leaves. *)
Definition ran {A} (a : A) (r : Res Keys string A) : A * Keys := match r with Ok a s => (a, s) | Err _ s => (a, s) | Panic => (a, no_keys) end.

Definition no_key : IssuedApiKey := mkIssuedApiKey (mkApiKeyRecord "" "" 0 0 None) "".
Definition first := ran no_key (issue "bot" 60 [1; 2] [3; 4] 0 no_keys).
Definition second := ran no_key (issue "dashboard" 120 [5; 6] [7; 8] 1 first.2).
Definition revoked := ran false (revoke (key_id (ik_record first.1)) 2 second.2).

(** Two keys are issued and the first is revoked: from then on it is refused as
    revoked, the second is still recognised. *)
Lemma api_key_lifecycle_witness : exists r r',
  verify (ik_secret first.1) revoked.2 = Ok r revoked.2 /\ r = inl RevokedKey /\
  verify (ik_secret second.1) revoked.2 = Ok r' revoked.2 /\ r' = inr (ik_record second.1).
Proof.
  destruct api_key_lifecycle as (Hknown & Hgone & _ & _).
  assert (exists r, verify (ik_secret first.1) revoked.2 = Ok r revoked.2) as [r Hr] by (eexists; by vm_compute).
  assert (exists r, verify (ik_secret second.1) revoked.2 = Ok r revoked.2) as [r' Hr'] by (eexists; by vm_compute).
  exists r, r'. split; [done|]. split; [|split; [done|]].
  - assert (exists row, find_row (key_id (ik_record first.1)) (rows second.2) = Some row /\
      bool_decide (hash_secret (ik_secret first.1) = kr_secret_hash row) = true) as (row & Hrow & Hh).
    { eexists. split; by vm_compute. }
    rewrite (Hgone (key_id (ik_record first.1)) 2 second.2 revoked.1 revoked.2 row [] (ik_secret first.1) r revoked.2);
      [by rewrite Hh | done | by vm_compute | by vm_compute | done].
  - apply (Hknown "dashboard" 120 [5; 6] [7; 8] 1 first.2 second.1 second.2 [OpRevoke (key_id (ik_record first.1)) 2] r' revoked.2).
    + repeat constructor; lia.
    + done.
    + done.
    + by vm_compute.
    + intros t Hin%list_elem_of_singleton. apply (f_equal (fun op => match op with OpRevoke id _ => id | _ => ""%string end)) in Hin.
      by vm_compute in Hin.
    + assert (foldl exec second.2 [OpRevoke (key_id (ik_record first.1)) 2] = revoked.2) as -> by by vm_compute. exact Hr'.
Defined.
