(* ===== verification/IndexerRateLimit.v ===== *)
(** * Indexer: rate limiting

    src/indexer/src/api/rate_limit.rs: a token bucket per client, in binary64
    arithmetic ([SpecFloat]), and the middleware that authenticates a request
    before it charges a bucket.  The limiter's state is behind one mutex:
    [allow] is atomic.  Times are nanoseconds of a monotone clock. *)

From Stdlib Require Import SpecFloat.
From stdpp Require Import gmap.
From S2P Require Import Prelude RustText Host Sha256 IndexerAuth.

(** ** f64 *)

Definition f64 : Type := spec_float.
Definition f64_of (z : Z) : f64 := binary_normalize 53 1024 z 0 false.
Definition f64_add : f64 -> f64 -> f64 := SFadd 53 1024.
Definition f64_sub : f64 -> f64 -> f64 := SFsub 53 1024.
Definition f64_mul : f64 -> f64 -> f64 := SFmul 53 1024.
Definition f64_div : f64 -> f64 -> f64 := SFdiv 53 1024.
Definition is_nan (x : f64) : bool := match x with S754_nan => true | _ => false end.
Definition f64_min (a b : f64) : f64 :=
  if is_nan a then b else if is_nan b then a else if SFltb a b then a else b.
Definition f64_max (a b : f64) : f64 :=
  if is_nan a then b else if is_nan b then a else if SFltb b a then a else b.

(** [Duration::as_secs_f64] *)
Definition NANOS : Z := 10 ^ 9.
Definition as_secs_f64 (d : Z) : f64 := f64_add (f64_of (d / NANOS)) (f64_div (f64_of (d mod NANOS)) (f64_of NANOS)).

(** [Instant::duration_since] saturates at zero. *)
Definition duration_since (now earlier : Z) : Z := Z.max 0 (now - earlier).

(** ** Buckets *)

Definition DEFAULT_MAX_BUCKETS : Z := 10000.
Definition DEFAULT_BUCKET_TTL : Z := 300 * NANOS.

Record Bucket := mkBucket { tokens : f64; last_refill : Z; last_seen : Z }.

Record LimiterState := mkLimiterState { buckets : gmap string Bucket; last_cleanup : Z }.

(** A HashMap hands out its entries in some order. *)
Class BucketIter := {
  bucket_iter : gmap string Bucket -> list (string * Bucket);
  bucket_iter_perm m : bucket_iter m ≡ₚ map_to_list m;
}.

(** [RateLimiter]: the parts that never change. *)
Record RateLimiter := mkRateLimiter {
  requests_per_second : f64;
  burst : f64;
  max_buckets : Z;
  bucket_ttl : Z;
}.

Definition with_bounds (requests_per_second burst max_buckets bucket_ttl : Z) : RateLimiter :=
  mkRateLimiter (f64_of (Z.max requests_per_second 1)) (f64_of (Z.max burst 1)) (Z.max max_buckets 1) bucket_ttl.

Definition new_limiter (requests_per_second burst : Z) : RateLimiter :=
  with_bounds requests_per_second burst DEFAULT_MAX_BUCKETS DEFAULT_BUCKET_TTL.

Definition new_state (now : Z) : LimiterState := mkLimiterState ∅ now.

Section Limiter.
Context `{BucketIter} (l : RateLimiter).

Definition full (m : gmap string Bucket) : bool := bool_decide (Z.of_nat (size m) >= max_buckets l).

Definition known (client : string) (m : gmap string Bucket) : bool :=
  match m !! client with Some _ => true | None => false end.

(** [retain]: the buckets seen within [ttl]. *)
Definition retain_recent (now ttl : Z) (m : gmap string Bucket) : gmap string Bucket :=
  filter (fun kb => bool_decide (duration_since now (last_seen kb.2) < ttl) : Prop) m.

(** [min_by_key]: the first of the least recently seen. *)
Fixpoint stalest (bs : list (string * Bucket)) : option (string * Bucket) :=
  match bs with
  | [] => None
  | x :: bs =>
      match stalest bs with
      | Some y => if bool_decide (last_seen x.2 <= last_seen y.2) then Some x else Some y
      | None => Some x
      end
  end.

(** Eviction of idle buckets: every 30 seconds, and when there is no room. *)
Definition clean_up (client : string) (now : Z) (st : LimiterState) : LimiterState :=
  if bool_decide (duration_since now (last_cleanup st) >= 30 * NANOS) ||
     (negb (known client (buckets st)) && full (buckets st))
  then mkLimiterState (retain_recent now (bucket_ttl l) (buckets st)) now
  else st.

(** The hard bound. *)
Definition evict_stalest (client : string) (m : gmap string Bucket) : gmap string Bucket :=
  if negb (known client m) && full m then
    match stalest (bucket_iter m) with Some (k, _) => delete k m | None => m end
  else m.

(** Refilling, and taking one token if there is one. *)
Definition refill (rps burst : f64) (now : Z) (b : Bucket) : f64 :=
  let elapsed := as_secs_f64 (duration_since now (last_refill b)) in
  f64_min (f64_add (tokens b) (f64_mul elapsed rps)) burst.

Definition charge (rps burst : f64) (now : Z) (b : Bucket) : bool * Bucket :=
  let t := refill rps burst now b in
  if SFleb (f64_of 1) t then (true, mkBucket (f64_sub t (f64_of 1)) now now) else (false, mkBucket t now now).

Definition allow (client : string) (rps burst : f64) (now : Z) (st : LimiterState) : bool * LimiterState :=
  let st := clean_up client now st in
  let m := evict_stalest client (buckets st) in
  let '(ok, b) := charge rps burst now (default (mkBucket burst now now) (m !! client)) in
  (ok, mkLimiterState (<[client := b]> m) (last_cleanup st)).

Definition allow_default (client : string) : Z -> LimiterState -> bool * LimiterState :=
  allow client (requests_per_second l) (burst l).

Definition bucket_count (st : LimiterState) : Z := Z.of_nat (size (buckets st)).
Definition contains_identity (client : string) (st : LimiterState) : bool := known client (buckets st).
Definition evict_inactive (ttl now : Z) (st : LimiterState) : LimiterState :=
  mkLimiterState (retain_recent now ttl (buckets st)) (last_cleanup st).

(** ** The middleware *)

Context `{HexEncode} `{HeaderValues}.

Inductive Outcome :=
  | Refused (e : AuthError)
  | RateLimited
  | Passed (caller : Caller).

(** The rate and burst of a key's tier: never below the default ones. *)
Definition key_rps (record : ApiKeyRecord) : f64 :=
  f64_max (f64_div (f64_of (rate_limit_per_minute record)) (f64_of 60)) (requests_per_second l).
Definition key_burst (record : ApiKeyRecord) : f64 :=
  let burst_ratio := f64_max (f64_div (burst l) (requests_per_second l)) (f64_of 1) in
  f64_max (f64_mul (key_rps record) burst_ratio) (burst l).

(** [enforce]: [ip] is the transport address, if it is known. *)
Definition enforce (hs : Headers) (ip : option string) (now : Z) (keys : Keys) (st : LimiterState) :
    Outcome * Keys * LimiterState :=
  let charge_as (identity : string) (rps burst : f64) (caller : Caller) (keys : Keys) :=
    let '(ok, st) := allow identity rps burst now st in
    (if ok then Passed caller else RateLimited, keys, st) in
  match presented_secret hs with
  | Some secret =>
      match verify secret keys with
      | Ok (inr record) keys =>
          charge_as ("key:" +:+ key_id record) (key_rps record) (key_burst record) (Authenticated record) keys
      | Ok (inl e) keys => (Refused e, keys, st)
      | Err _ keys => (Refused UnknownKey, keys, st)
      | Panic => (Refused UnknownKey, keys, st)
      end
  | None =>
      charge_as match ip with Some ip => "ip:" +:+ ip | None => "unknown" end
        (requests_per_second l) (burst l) Anonymous keys
  end.

(** ** The bound on memory *)

Definition bounded_state (st : LimiterState) : Prop := Z.of_nat (size (buckets st)) <= max_buckets l.

Lemma stalest_elem bs x : stalest bs = Some x -> x ∈ bs.
Proof.
  revert x. induction bs as [|y bs IH]; intros x; [done|]. cbn. destruct (stalest bs) as [z|].
  - specialize (IH z eq_refl). case_bool_decide; intros [= <-]; set_solver.
  - intros [= <-]. set_solver.
Qed.

Lemma stalest_least bs x y : stalest bs = Some x -> y ∈ bs -> last_seen x.2 <= last_seen y.2.
Proof.
  revert x y. induction bs as [|z bs IH]; intros x y Hx Hy; [done|]. cbn in Hx.
  destruct (stalest bs) as [w|] eqn:Hw.
  - apply elem_of_cons in Hy as [->|Hy].
    + case_bool_decide; simplify_eq; lia.
    + specialize (IH w y eq_refl Hy). case_bool_decide; simplify_eq; lia.
  - destruct bs as [|b bs]; [|cbn in Hw; destruct (stalest bs); [by case_bool_decide|done]].
    simplify_eq. apply list_elem_of_singleton in Hy as ->. lia.
Qed.

Lemma stalest_None bs : stalest bs = None -> bs = [].
Proof. destruct bs as [|x bs]; [done|]. cbn. destruct (stalest bs); [by case_bool_decide | done]. Qed.

Lemma clean_up_sub client now st : buckets (clean_up client now st) ⊆ buckets st.
Proof. unfold clean_up. destruct (_ || _); [apply map_filter_subseteq | done]. Qed.

(** What eviction leaves room for. *)
Lemma evict_room client m :
  1 <= max_buckets l -> Z.of_nat (size m) <= max_buckets l ->
  let m' := evict_stalest client m in
  m' ⊆ m /\ Z.of_nat (size (<[client := mkBucket S754_nan 0 0]> m')) <= max_buckets l.
Proof.
  intros Hmax Hm. unfold evict_stalest, full, known. cbn zeta.
  destruct (m !! client) as [b|] eqn:Hc; cbn [negb andb].
  - split; [done|]. rewrite map_size_insert_Some; [done | by rewrite Hc].
  - case_bool_decide as Hfull.
    + destruct (stalest (bucket_iter m)) as [[k b]|] eqn:Hs.
      * split; [apply delete_subseteq|].
        assert (m !! k = Some b) as Hk.
        { apply elem_of_map_to_list. rewrite <- bucket_iter_perm. by apply stalest_elem. }
        assert (k <> client) as Hkc by (intros ->; congruence).
        rewrite map_size_insert_None by (by rewrite lookup_delete_ne).
        rewrite map_size_delete_Some by done.
        assert (size m <> 0%nat) as Hne.
        { intros He%map_size_empty_iff. by rewrite He, lookup_empty in Hk. }
        lia.
      * apply stalest_None in Hs. pose proof (bucket_iter_perm m) as Hp. rewrite Hs in Hp.
        apply Permutation.Permutation_nil in Hp. apply map_to_list_empty_iff in Hp. subst m.
        rewrite map_size_empty in Hfull. lia.
    + split; [done|]. rewrite map_size_insert_None by done. lia.
Qed.

Lemma size_insert_any {A} (m : gmap string A) k (v v' : A) : size (<[k := v]> m) = size (<[k := v']> m).
Proof. rewrite !fin_maps.map_size_insert. by destruct (m !! k). Qed.

Lemma allow_bounded client rps b now st :
  1 <= max_buckets l -> bounded_state st -> bounded_state (allow client rps b now st).2.
Proof.
  intros Hmax Hst. unfold allow. destruct (charge _ _ _ _) as [ok b']. unfold bounded_state. cbn.
  rewrite (size_insert_any _ _ _ (mkBucket S754_nan 0 0)).
  apply evict_room; [done|]. pose proof (map_subseteq_size _ _ (clean_up_sub client now st)). unfold bounded_state in Hst. lia.
Qed.

Lemma enforce_bounded hs ip now keys st :
  1 <= max_buckets l -> bounded_state st -> bounded_state (enforce hs ip now keys st).2.
Proof.
  intros Hmax Hst. unfold enforce.
  destruct (presented_secret hs) as [secret|]; [destruct (verify secret keys) as [[e|record] ks|e ks|]; try done|];
    match goal with |- context [allow ?c ?r ?b ?n ?s] =>
      pose proof (allow_bounded c r b n s Hmax Hst); by destruct (allow c r b n s) end.
Qed.

(** ** Other clients *)

Definition idle (now : Z) (b : Bucket) : Prop := bucket_ttl l <= duration_since now (last_seen b).

(** A client other than the one charged keeps its bucket as it is, or loses it
    because it was idle or because there was no room and it was the stalest of
    those left. *)
Lemma allow_others client other rps b now st bucket :
  other <> client -> buckets st !! other = Some bucket ->
  buckets (allow client rps b now st).2 !! other = Some bucket \/
  (buckets (allow client rps b now st).2 !! other = None /\
   (idle now bucket \/
    (max_buckets l <= Z.of_nat (size (buckets st)) /\
     forall k b', buckets (allow client rps b now st).2 !! k = Some b' -> k <> client -> last_seen bucket <= last_seen b'))).
Proof.
  intros Hne Ho. unfold allow. destruct (charge _ _ _ _) as [ok b']. cbn [snd buckets].
  rewrite !lookup_insert_ne by done.
  pose proof (map_subseteq_size _ _ (clean_up_sub client now st)) as Hsize.
  assert (buckets (clean_up client now st) !! other = Some bucket \/
    (buckets (clean_up client now st) !! other = None /\ idle now bucket)) as Hm.
  { unfold clean_up. destruct (_ || _); [|by left]. cbn. unfold retain_recent, idle.
    destruct (decide (duration_since now (last_seen bucket) < bucket_ttl l)) as [Hd|Hd].
    - left. apply map_lookup_filter_Some. split; [done|]. by apply bool_decide_pack.
    - right. split; [|lia]. apply map_lookup_filter_None. right. intros x Hx Hb. simplify_eq.
      by apply bool_decide_unpack in Hb. }
  set (m := buckets (clean_up client now st)) in *. unfold evict_stalest.
  destruct (negb (known client m) && full m) eqn:Hev.
  2:{ destruct Hm as [Hm|[Hm Hi]]; [by left | right; split; [done | by left]]. }
  destruct (stalest (bucket_iter m)) as [[k bk]|] eqn:Hs.
  2:{ destruct Hm as [Hm|[Hm Hi]]; [by left | right; split; [done | by left]]. }
  destruct (decide (k = other)) as [->|Hk].
  - right. rewrite lookup_delete_eq. split; [done|]. destruct Hm as [Hm|[_ Hi]]; [right|by left]. split.
    + apply andb_true_iff in Hev as [_ Hfull]. unfold full in Hfull. apply bool_decide_eq_true in Hfull. lia.
    + intros k' b'' Hk' Hkc. rewrite lookup_insert_ne in Hk' by done. apply lookup_delete_Some in Hk' as [_ Hk'].
      assert (m !! other = Some bk) as Hbk.
      { apply elem_of_map_to_list. rewrite <- bucket_iter_perm. by apply stalest_elem. }
      rewrite Hm in Hbk. simplify_eq. apply (stalest_least _ _ (k', b'') Hs).
      rewrite bucket_iter_perm. by apply elem_of_map_to_list.
  - rewrite lookup_delete_ne by done. destruct Hm as [Hm|[Hm Hi]]; [by left | right; split; [done | by left]].
Qed.

(** ** Tokens *)

Definition finite (x : f64) : Prop := match x with S754_finite _ _ _ | S754_zero _ => True | _ => False end.

Lemma SFcompare_antisym x y : SFcompare y x = CompOpp <$> SFcompare x y.
Proof.
  destruct x as [s|s| |s m e], y as [s'|s'| |s' m' e']; cbn; try done; repeat match goal with b : bool |- _ => destruct b end; try done.
  all: change (Pos.compare_cont Eq) with Pos.compare; rewrite (Z.compare_antisym e e'), (Pos.compare_antisym m m'); f_equal;
    destruct (e ?= e'), (m ?= m')%positive; done.
Qed.

Lemma SFltb_irrefl x : SFltb x x = false.
Proof.
  unfold SFltb. pose proof (SFcompare_antisym x x) as Ha. destruct (SFcompare x x) as [[]|]; try done.
Qed.

Lemma SFltb_asym x y : SFltb x y = true -> SFltb y x = false.
Proof. unfold SFltb. rewrite (SFcompare_antisym x y). by destruct (SFcompare x y) as [[]|]. Qed.

Lemma min_le x b : SFltb b (f64_min x b) = false.
Proof.
  unfold f64_min. destruct (is_nan x); [apply SFltb_irrefl|]. destruct (is_nan b) eqn:Hb; [by destruct b|].
  destruct (SFltb x b) eqn:Hx; [by apply SFltb_asym | apply SFltb_irrefl].
Qed.

Lemma refill_le rps b now bk : SFltb b (refill rps b now bk) = false.
Proof. apply min_le. Qed.

(** Nothing accrues in no time. *)
Lemma refill_now rps b now seen :
  finite rps -> finite b -> is_nan b = false ->
  f64_add b (f64_mul (as_secs_f64 0) rps) = b ->
  refill rps b now (mkBucket b now seen) = b.
Proof.
  intros Hr Hb Hn Hadd. unfold refill. cbn [tokens last_refill].
  assert (duration_since now now = 0) as -> by (unfold duration_since; lia).
  rewrite Hadd. unfold f64_min. rewrite Hn. by destruct (SFltb b b).
Qed.

Lemma add_nothing rps b : finite rps -> (exists s m e, b = S754_finite s m e) -> f64_add b (f64_mul (as_secs_f64 0) rps) = b.
Proof.
  intros Hr (s & m & e & ->). assert (as_secs_f64 0 = S754_zero false) as -> by by vm_compute.
  by destruct rps as [s'|s'| |s' m' e'].
Qed.

(** A client without a bucket is admitted, as long as the burst is a token. *)
Lemma first_request client rps b now st :
  finite rps -> SFleb (f64_of 1) b = true -> finite b ->
  buckets st !! client = None -> (allow client rps b now st).1 = true.
Proof.
  intros Hr Hb Hf Hnew. unfold allow.
  assert (evict_stalest client (buckets (clean_up client now st)) !! client = None) as ->.
  { pose proof (clean_up_sub client now st) as Hsub. unfold evict_stalest.
    assert (buckets (clean_up client now st) !! client = None) as Hc by by eapply lookup_weaken_None.
    destruct (_ && _); [|done]. destruct (stalest _) as [[k ?]|]; [|done]. rewrite fin_maps.lookup_delete. by case_decide. }
  cbn [default from_option]. unfold charge.
  assert (exists s m e, b = S754_finite s m e) as Hfin.
  { destruct b as [s|s| |s m e]; [by destruct s | done | done | by eexists _, _, _]. }
  rewrite refill_now; [by rewrite Hb | done | done | by destruct Hfin as (? & ? & ? & ->) | by apply add_nothing].
Qed.

(** [n] requests of one client at one instant. *)
Fixpoint at_once (n : nat) (rps burst : f64) (now : Z) (bk : Bucket) : list bool :=
  match n with
  | O => []
  | S n => let '(ok, bk) := charge rps burst now bk in ok :: at_once n rps burst now bk
  end.

Lemma at_once_shift n rps b now t seen :
  at_once n rps b now (mkBucket t now seen) = at_once n rps b 0 (mkBucket t 0 0).
Proof.
  revert t seen. induction n as [|n IH]; intros t seen; [done|]. cbn [at_once]. unfold charge, refill, duration_since.
  cbn [tokens last_refill]. rewrite Z.sub_diag. change (0 - 0) with 0. destruct (SFleb _ _); by rewrite IH.
Qed.
End Limiter.

(** ** Requests over time *)

Section Requests.
Context `{BucketIter} `{HexEncode} `{HeaderValues}.

Record Request := mkRequest { rq_headers : list (string * HeaderValue); rq_ip : option string; rq_at : Z }.

(** Requests in the order in which they are admitted or refused; keys may be
    issued and revoked in between. *)
Inductive Moment := Served (rq : Request) | Administered (op : Op).

Definition moment (l : RateLimiter) (s : Keys * LimiterState) (m : Moment) : Keys * LimiterState :=
  match m with
  | Served rq => let '(_, keys, st) := enforce l (rq_headers rq) (rq_ip rq) (rq_at rq) s.1 s.2 in (keys, st)
  | Administered op => (exec s.1 op, s.2)
  end.

(** C38: the rate limiter is bounded and fair.  Whoever sends whatever, with valid,
    invalid or forged keys: there are never more buckets than configured; a
    request whose key is refused leaves every bucket alone; no refill takes a
    bucket above its burst; a client without a bucket is let through; and one
    client's requests never touch another's bucket, which only disappears when
    it has been idle for the time-to-live, or when the map is full and it is
    the least recently seen.  With the default limits a new client has exactly
    40 requests at once. *)
Theorem limiter_bounded rps0 burst0 max ttl keys t0 ms rq :
  let l := with_bounds rps0 burst0 max ttl in
  let s := foldl (moment l) (keys, new_state t0) ms in
  let '(outcome, _, st) := enforce l (rq_headers rq) (rq_ip rq) (rq_at rq) s.1 s.2 in
  Z.of_nat (size (buckets s.2)) <= Z.max max 1 /\
  (forall e, outcome = Refused e -> st = s.2) /\
  (forall rps b now bk, SFltb b (refill rps b now bk) = false) /\
  (forall client rps b now, finite rps -> finite b -> SFleb (f64_of 1) b = true ->
     buckets s.2 !! client = None -> (allow l client rps b now s.2).1 = true) /\
  (forall client other rps b now bk, other <> client -> buckets s.2 !! other = Some bk ->
     let after := buckets (allow l client rps b now s.2).2 in
     after !! other = Some bk \/
     (after !! other = None /\
      (ttl <= duration_since now (last_seen bk) \/
       (Z.max max 1 <= Z.of_nat (size (buckets s.2)) /\
        forall k b', after !! k = Some b' -> k <> client -> last_seen bk <= last_seen b')))) /\
  (forall now, at_once 41 (f64_of 20) (f64_of 40) now (mkBucket (f64_of 40) now now) = replicate 40 true ++ [false]).
Proof.
  cbn zeta. set (l := with_bounds rps0 burst0 max ttl). set (s := foldl _ _ _).
  assert (1 <= max_buckets l) as Hmax by (cbn; lia).
  assert (bounded_state l s.2) as Hst.
  { unfold s. clear s. assert (bounded_state l (keys, new_state t0).2) as H0.
    { unfold bounded_state. cbn. rewrite map_size_empty. lia. }
    revert H0. generalize (keys, new_state t0) as s. induction ms as [|m ms IH]; intros s Hs; [done|]. cbn [foldl]. apply IH.
    destruct m as [r|op]; [|done]. cbn [moment].
    pose proof (enforce_bounded l (rq_headers r) (rq_ip r) (rq_at r) s.1 s.2 Hmax Hs). by destruct (enforce _ _ _ _ _ _) as [[? ?] ?]. }
  destruct (enforce l (rq_headers rq) (rq_ip rq) (rq_at rq) s.1 s.2) as [[outcome keys'] st] eqn:He. split_and!.
  - exact Hst.
  - intros e ->. revert He. unfold enforce. destruct (presented_secret _) as [secret|];
      [destruct (verify secret s.1) as [[e'|record] ks|e' ks|]; try (by intros [= <- <- <-])|];
      match goal with |- context [allow ?l ?c ?r ?b ?n ?s] => destruct (allow l c r b n s) as [[] ?]; by intros [= _ _ _] end.
  - apply refill_le.
  - intros client rps b now Hr Hf Hb Hnew. by apply first_request.
  - intros client other rps b now bk Hne Ho. by apply allow_others.
  - intros now. rewrite at_once_shift. by vm_compute.
Qed.
End Requests.

(** ** A run *)

#[local] Instance map_iter : BucketIter.
Proof. refine {| bucket_iter := map_to_list |}. done. Defined.
#[local] Instance token_hex : HexEncode := {| hex_bytes := random_token |}.
#[local] Instance text_headers : HeaderValues := {| HeaderValue := string; to_str := Some |}.

Definition from_ip (ip : string) (now : Z) : Moment := Served (mkRequest [] (Some ip) now).

(** Room for two buckets, and a third client: the least recently seen one goes. *)
Lemma limiter_bounded_witness :
  let l := with_bounds 20 40 2 DEFAULT_BUCKET_TTL in
  let s := foldl (moment l) (no_keys, new_state 0) [from_ip "10.0.0.1" 1; from_ip "10.0.0.2" 2] in
  Z.of_nat (size (buckets s.2)) <= 2 /\ (allow l "ip:10.0.0.3" (f64_of 20) (f64_of 40) 3 s.2).1 = true.
Proof.
  intros l s.
  pose proof (limiter_bounded 20 40 2 DEFAULT_BUCKET_TTL no_keys 0 [from_ip "10.0.0.1" 1; from_ip "10.0.0.2" 2]
    (mkRequest [] (Some "10.0.0.3") 3)) as Hb. cbn zeta in Hb. fold l in Hb. fold s in Hb.
  destruct (enforce _ _ _ _ _ _) as [[outcome keys] st]. destruct Hb as (Hsize & _ & _ & Hnew & _).
  split; [exact Hsize|]. apply Hnew; by vm_compute.
Defined.
