(* ===== verification/IndexerAlerts.v ===== *)
(** * Indexer: alerts

    src/indexer/src/alerts.rs: the rules, the tracker of open votes and the
    manager that deduplicates by incident.  The events come from a module the
    crate does not have (crate::event): they are an interface with the fields
    the rules look at.  An alert's timestamp and its metadata, copies of the
    event's fields for display, are left out. *)

From stdpp Require Import gmap pretty.
From S2P Require Import Prelude.

(** What the rules tell apart. *)
Inductive PayloadView :=
  | VAdminTransferred (old_admin new_admin : string)
  | VPaused (paused : bool)
  | VFeeUpdated (old_bps new_bps : Z)
  | VFeesSwept (treasury : string) (amount remaining : Z)
  | VProposalCreated (proposal_id : Z) (proposer : string) (eta : Z)
  | VVoteCast (proposal_id : Z) (voter : string)
  | VProposalExecuted (proposal_id : Z)
  | VProposalExecutionFailed (proposal_id : Z)
  | VProposalCancelled (proposal_id : Z)
  | VOther.

Record EventCursor := mkEventCursor { c_ledger : Z; c_tx_index : Z; c_event_index : Z }.

Class AlertEvents := {
  Event : Type;
  event_cursor : Event -> EventCursor;
  event_payload : Event -> PayloadView;
}.

Inductive AlertSeverity := Info | Warning | Critical.

Record Alert := mkAlert {
  incident : string;
  rule_id : string;
  severity : AlertSeverity;
  title : string;
  description : string;
  cursor : option EventCursor;
}.

Record TrackedProposal := mkTrackedProposal { proposal_id : Z; proposer : string; eta : Z }.

Record VotingTrackerState := mkTracker {
  proposals : gmap Z TrackedProposal;
  votes : gset (Z * string);
  closed : gset Z;
}.

Definition new_tracker : VotingTrackerState := mkTracker ∅ ∅ ∅.

(** [HashMap::values] *)
Class Values := {
  values : gmap Z TrackedProposal -> list TrackedProposal;
  values_perm m : values m ≡ₚ (map_to_list m).*2;
}.

(** The rules, the last with what its mutex guards. *)
Inductive AlertRule :=
  | AdminTransferredRule
  | PausedRule
  | FeeUpdatedRule
  | FeesSweptThresholdRule (min_amount : Z)
  | NewProposalRule
  | VotingWindowClosingSoonRule (closing_threshold_ledgers : Z) (token_holder : option string) (state : VotingTrackerState).

Definition id_of (r : AlertRule) : string :=
  match r with
  | AdminTransferredRule => "admin-transferred"
  | PausedRule => "protocol-paused"
  | FeeUpdatedRule => "fee-updated"
  | FeesSweptThresholdRule _ => "fees-swept-threshold"
  | NewProposalRule => "new-proposal"
  | VotingWindowClosingSoonRule _ _ _ => "voting-window-closing-soon"
  end.

Section Alerts.
Context `{AlertEvents} `{Values}.
Implicit Types (ev : Event).

(** "{id}:{ledger}:{tx_index}:{event_index}" *)
Definition cursor_incident (rule : string) (c : EventCursor) : string :=
  rule +:+ ":" +:+ pretty (c_ledger c) +:+ ":" +:+ pretty (c_tx_index c) +:+ ":" +:+ pretty (c_event_index c).

Definition cursor_alert (r : AlertRule) (s : AlertSeverity) (title description : string) ev : Alert :=
  mkAlert (cursor_incident (id_of r) (event_cursor ev)) (id_of r) s title description (Some (event_cursor ev)).

(** ** The tracker *)

(** [None]: the addition overflows. *)
Definition check_proposal_closing (threshold : Z) (token_holder : option string) (st : VotingTrackerState)
    (prop : TrackedProposal) (current_ledger : Z) : option (option Alert) :=
  reach ← checked_add u64 current_ledger threshold;
  Some (
    if bool_decide (reach >= eta prop) && bool_decide (current_ledger < eta prop) then
      let rule := "voting-window-closing-soon" in
      let title := "Voting Window Closing Soon for Proposal #" +:+ pretty (proposal_id prop) in
      let text := "Voting window for proposal #" +:+ pretty (proposal_id prop) +:+ " closes at ledger " +:+ pretty (eta prop)
        +:+ " (within " +:+ pretty threshold +:+ " ledgers)" in
      match token_holder with
      | Some target =>
          if bool_decide ((proposal_id prop, target) ∈ votes st) then None
          else Some (mkAlert (rule +:+ ":" +:+ pretty (proposal_id prop) +:+ ":" +:+ target) rule Warning title
                       (text +:+ "; token holder " +:+ target +:+ " has not yet voted") None)
      | None => Some (mkAlert (rule +:+ ":" +:+ pretty (proposal_id prop)) rule Warning title text None)
      end
    else None).

Definition track ev (st : VotingTrackerState) : VotingTrackerState :=
  match event_payload ev with
  | VProposalCreated id proposer eta => mkTracker (<[id := mkTrackedProposal id proposer eta]> (proposals st)) (votes st) (closed st)
  | VVoteCast id voter => mkTracker (proposals st) ({[(id, voter)]} ∪ votes st) (closed st)
  | VProposalExecuted id | VProposalExecutionFailed id | VProposalCancelled id =>
      mkTracker (proposals st) (votes st) ({[id]} ∪ closed st)
  | _ => st
  end.

Definition open_props (st : VotingTrackerState) : list TrackedProposal :=
  List.filter (fun p => negb (bool_decide (proposal_id p ∈ closed st))) (values (proposals st)).

(** The alerts of the open proposals. *)
Definition closing_alerts (threshold : Z) (token_holder : option string) (st : VotingTrackerState) (current_ledger : Z) :
    option (list Alert) :=
  alerts ← mapM (fun p => check_proposal_closing threshold token_holder st p current_ledger) (open_props st);
  Some (omap id alerts).

Definition with_cursor (c : EventCursor) (a : Alert) : Alert :=
  mkAlert (incident a) (rule_id a) (severity a) (title a) (description a) (Some c).

(** ** Rules *)

(** [AlertRule::evaluate] *)
Definition evaluate_rule (r : AlertRule) ev : option (list Alert * AlertRule) :=
  match r, event_payload ev with
  | AdminTransferredRule, VAdminTransferred old_admin new_admin =>
      Some ([cursor_alert r Critical "Admin Transferred"
               ("Admin transferred from " +:+ old_admin +:+ " to " +:+ new_admin) ev], r)
  | PausedRule, VPaused true =>
      Some ([cursor_alert r Critical "Protocol Paused" "Keeper registry contract has been paused by admin" ev], r)
  | FeeUpdatedRule, VFeeUpdated old_bps new_bps =>
      Some ([cursor_alert r Warning "Protocol Fee Updated"
               ("Protocol fee changed from " +:+ pretty old_bps +:+ " bps to " +:+ pretty new_bps +:+ " bps") ev], r)
  | FeesSweptThresholdRule min_amount, VFeesSwept treasury amount _ =>
      Some (if bool_decide (amount >= min_amount)
            then [cursor_alert r Info "High Value Fees Swept"
                    ("Fees swept to " +:+ treasury +:+ ": amount " +:+ pretty amount +:+ " stroops (threshold: "
                     +:+ pretty min_amount +:+ ")") ev]
            else [], r)
  | NewProposalRule, VProposalCreated id proposer eta =>
      Some ([mkAlert (id_of r +:+ ":" +:+ pretty id) (id_of r) Info ("New Governance Proposal #" +:+ pretty id)
               ("Proposal #" +:+ pretty id +:+ " created by " +:+ proposer +:+ " with voting deadline ETA " +:+ pretty eta)
               (Some (event_cursor ev))], r)
  | VotingWindowClosingSoonRule threshold holder st, _ =>
      let tracked := track ev st in
      match closing_alerts threshold holder tracked (c_ledger (event_cursor ev)) with
      | Some alerts =>
          Some (with_cursor (event_cursor ev) <$> alerts, VotingWindowClosingSoonRule threshold holder tracked)
      | None => None
      end
  | _, _ => Some ([], r)
  end.

(** [AlertRule::check_ledger] *)
Definition check_rule (r : AlertRule) (current_ledger : Z) : option (list Alert) :=
  match r with
  | VotingWindowClosingSoonRule threshold holder st => closing_alerts threshold holder st current_ledger
  | _ => Some []
  end.

(** ** The manager *)

(** [attempts]: the alerts handed to the transport, whose failures are only
    logged; newest last. *)
Record AlertManager := mkManager {
  rules : list AlertRule;
  active_incidents : gset string;
  attempts : list Alert;
}.

Definition new_manager (rules : list AlertRule) : AlertManager := mkManager rules ∅ [].

(** One alert: dispatched if its incident is new. *)
Definition dispatch (acc : gset string * list Alert) (a : Alert) : gset string * list Alert :=
  if bool_decide (incident a ∈ acc.1) then acc else ({[incident a]} ∪ acc.1, acc.2 ++ [a]).

Definition dispatch_all (alerts : list Alert) (m : AlertManager) (rules : list AlertRule) : list Alert * AlertManager :=
  let '(active, sent) := foldl dispatch (active_incidents m, []) alerts in
  (sent, mkManager rules active (attempts m ++ sent)).

Definition evaluate (m : AlertManager) ev : option (list Alert * AlertManager) :=
  rs ← mapM (fun r => evaluate_rule r ev) (rules m);
  Some (dispatch_all (mjoin rs.*1) m rs.*2).

Definition check_ledger (m : AlertManager) (ledger : Z) : option (list Alert * AlertManager) :=
  alerts ← mapM (fun r => check_rule r ledger) (rules m);
  Some (dispatch_all (mjoin alerts) m (rules m)).

Fixpoint process_events (m : AlertManager) (events : list Event) : option (list Alert * AlertManager) :=
  match events with
  | [] => Some ([], m)
  | ev :: events =>
      '(sent, m) ← evaluate m ev;
      '(rest, m) ← process_events m events;
      Some (sent ++ rest, m)
  end.

(** What a manager can be asked, and a run of it. *)
Inductive Call := Evaluate (ev : Event) | CheckLedger (ledger : Z).

Definition serve (m : AlertManager) (c : Call) : option (list Alert * AlertManager) :=
  match c with Evaluate ev => evaluate m ev | CheckLedger ledger => check_ledger m ledger end.

Fixpoint run (m : AlertManager) (calls : list Call) : option (list Alert * AlertManager) :=
  match calls with
  | [] => Some ([], m)
  | c :: calls =>
      '(sent, m) ← serve m c;
      '(rest, m) ← run m calls;
      Some (sent ++ rest, m)
  end.

Definition clear_incident (m : AlertManager) (i : string) : AlertManager :=
  mkManager (rules m) (active_incidents m ∖ {[i]}) (attempts m).

(** ** Configuration *)

Record AlertSystemConfig := mkAlertSystemConfig {
  alert_admin_transferred : bool;
  alert_protocol_paused : bool;
  alert_fee_updated : bool;
  fees_swept_threshold : option Z;
  alert_new_proposals : bool;
  voting_closing_threshold_ledgers : option Z;
  monitored_token_holder : option string;
}.

(** The rules of [build_manager]. *)
Definition build_manager (c : AlertSystemConfig) : AlertManager :=
  new_manager (
    (if alert_admin_transferred c then [AdminTransferredRule] else []) ++
    (if alert_protocol_paused c then [PausedRule] else []) ++
    (if alert_fee_updated c then [FeeUpdatedRule] else []) ++
    match fees_swept_threshold c with Some t => [FeesSweptThresholdRule t] | None => [] end ++
    (if alert_new_proposals c then [NewProposalRule] else []) ++
    match voting_closing_threshold_ledgers c with
    | Some t => [VotingWindowClosingSoonRule t (monitored_token_holder c) new_tracker]
    | None => []
    end).
End Alerts.
