(* ===== verification/IndexerAlertsSpec.v ===== *)
(** * Indexer: what the alerts promise

    A run of the manager, from the configuration on, set against the history
    of the calls alone: an incident is sent exactly when some call made it
    due, and once. *)

From stdpp Require Import gmap pretty.
From S2P Require Import Prelude IndexerAlerts.

Section Promise.
Context `{AlertEvents} `{Values}.
Implicit Types (ev : Event) (hist : list Event) (r : AlertRule).

#[global] Instance payload_eq_dec : EqDecision PayloadView.
Proof. solve_decision. Defined.

(** ** The history *)

Definition event_of (c : Call) : list Event := match c with Evaluate ev => [ev] | CheckLedger _ => [] end.

Definition ledger_of (c : Call) : Z :=
  match c with Evaluate ev => c_ledger (event_cursor ev) | CheckLedger ledger => ledger end.

(** The events among the calls. *)
Definition history (calls : list Call) : list Event := calls ≫= event_of.

(** The proposal as last created. *)
Definition creation (id : Z) ev : option TrackedProposal :=
  match event_payload ev with
  | VProposalCreated i proposer eta => if decide (i = id) then Some (mkTrackedProposal i proposer eta) else None
  | _ => None
  end.

Definition created hist (id : Z) : option TrackedProposal := list.last (omap (creation id) hist).

Definition votes_in ev (id : Z) (voter : string) : Prop := event_payload ev = VVoteCast id voter.

Definition closes ev (id : Z) : Prop :=
  event_payload ev = VProposalExecuted id \/ event_payload ev = VProposalExecutionFailed id \/
  event_payload ev = VProposalCancelled id.

(** The window of a proposal closes within [threshold] ledgers of [ledger],
    and the holder, if there is one, has not voted. *)
Definition closing hist (threshold : Z) (holder : option string) (ledger id : Z) : Prop :=
  (exists p, created hist id = Some p /\ ledger < eta p <= ledger + threshold) /\
  Forall (fun ev => ~ closes ev id) hist /\
  (forall target, holder = Some target -> Forall (fun ev => ~ votes_in ev id target) hist).

Definition closing_incident (holder : option string) (id : Z) : string :=
  match holder with
  | Some target => "voting-window-closing-soon" +:+ ":" +:+ pretty id +:+ ":" +:+ target
  | None => "voting-window-closing-soon" +:+ ":" +:+ pretty id
  end.

(** The incidents a call makes due, [hist] being the events up to and with it. *)
Definition due (cfg : AlertSystemConfig) hist (c : Call) (i : string) : Prop :=
  (exists ev, c = Evaluate ev /\
    (alert_admin_transferred cfg = true /\ (exists o n, event_payload ev = VAdminTransferred o n) /\
       i = cursor_incident "admin-transferred" (event_cursor ev) \/
     alert_protocol_paused cfg = true /\ event_payload ev = VPaused true /\
       i = cursor_incident "protocol-paused" (event_cursor ev) \/
     alert_fee_updated cfg = true /\ (exists o n, event_payload ev = VFeeUpdated o n) /\
       i = cursor_incident "fee-updated" (event_cursor ev) \/
     (exists least treasury amount remaining, fees_swept_threshold cfg = Some least /\
       event_payload ev = VFeesSwept treasury amount remaining /\ least <= amount /\
       i = cursor_incident "fees-swept-threshold" (event_cursor ev)) \/
     alert_new_proposals cfg = true /\
       (exists id proposer eta, event_payload ev = VProposalCreated id proposer eta /\
          i = "new-proposal" +:+ ":" +:+ pretty id))) \/
  (exists threshold id, voting_closing_threshold_ledgers cfg = Some threshold /\
     closing hist threshold (monitored_token_holder cfg) (ledger_of c) id /\
     i = closing_incident (monitored_token_holder cfg) id).

(** ** The tracker *)

Definition tracked hist : VotingTrackerState := foldl (fun st ev => track ev st) new_tracker hist.

Lemma tracked_snoc hist ev : tracked (hist ++ [ev]) = track ev (tracked hist).
Proof. unfold tracked. by rewrite foldl_app. Qed.

Lemma created_snoc hist ev id :
  created (hist ++ [ev]) id = match creation id ev with Some p => Some p | None => created hist id end.
Proof.
  unfold created. rewrite omap_app. cbn. destruct (creation id ev); cbn.
  - by rewrite list.last_snoc.
  - by rewrite app_nil_r.
Qed.

Lemma proposals_tracked hist id : proposals (tracked hist) !! id = created hist id.
Proof.
  induction hist as [|ev hist IH] using rev_ind; [apply lookup_empty|].
  rewrite tracked_snoc, created_snoc. unfold track, creation.
  destruct (event_payload ev) eqn:Hev; cbn; try exact IH.
  destruct (decide _) as [->|Hne].
  - by rewrite fin_maps.lookup_insert_eq.
  - by rewrite lookup_insert_ne.
Qed.

Lemma votes_tracked hist id voter :
  (id, voter) ∈ votes (tracked hist) <-> ~ Forall (fun ev => ~ votes_in ev id voter) hist.
Proof.
  induction hist as [|ev hist IH] using rev_ind.
  { cbn. split; [set_solver | intros []; constructor]. }
  rewrite tracked_snoc, Forall_app, list.Forall_singleton. unfold track, votes_in in *.
  destruct (event_payload ev) eqn:Hev; cbn; rewrite ?elem_of_union, ?elem_of_singleton, IH; try naive_solver.
  destruct (decide ((id, voter) = (proposal_id, voter0))) as [[= -> ->]|Hne]; naive_solver.
Qed.

Lemma closed_tracked hist id : id ∈ closed (tracked hist) <-> ~ Forall (fun ev => ~ closes ev id) hist.
Proof.
  induction hist as [|ev hist IH] using rev_ind.
  { cbn. split; [set_solver | intros []; constructor]. }
  rewrite tracked_snoc, Forall_app, list.Forall_singleton. unfold track, closes in *.
  destruct (event_payload ev) eqn:Hev; cbn; rewrite ?elem_of_union, ?elem_of_singleton, IH; try naive_solver.
  all: destruct (decide (id = proposal_id)) as [->|Hne]; naive_solver.
Qed.
#[local] Instance closes_dec ev id : Decision (closes ev id).
Proof. unfold closes. apply _. Defined.

#[local] Instance votes_in_dec ev id voter : Decision (votes_in ev id voter).
Proof. unfold votes_in. apply _. Defined.

(** Each proposal is tracked under its own id. *)
Lemma created_id hist id p : created hist id = Some p -> proposal_id p = id.
Proof.
  unfold created. intros Hp%list.last_Some_elem_of. apply list_elem_of_omap in Hp as (ev & _ & Hp).
  unfold creation in Hp. destruct (event_payload ev); try done. case_decide; by simplify_eq.
Qed.

Lemma elem_of_open_props hist p :
  p ∈ open_props (tracked hist) <->
  created hist (proposal_id p) = Some p /\ Forall (fun ev => ~ closes ev (proposal_id p)) hist.
Proof.
  unfold open_props. rewrite list_elem_of_In, List.filter_In, <- list_elem_of_In, values_perm, list_elem_of_fmap.
  rewrite negb_true_iff, bool_decide_eq_false, closed_tracked, <- proposals_tracked. split.
  - intros [([id q] & -> & Hq%elem_of_map_to_list) Hopen]. cbn in *. rewrite proposals_tracked in *.
    rewrite (created_id _ _ _ Hq) in *. split; [done | by apply dec_stable].
  - intros [Hp Hopen]. split; [|tauto]. exists (proposal_id p, p). by rewrite elem_of_map_to_list.
Qed.

Definition reaches (threshold ledger : Z) : Prop := in_range u64 (ledger + threshold).

(** The check of one proposal, when its addition does not overflow. *)
Lemma check_proposal_spec threshold holder st p ledger :
  reaches threshold ledger ->
  exists a, check_proposal_closing threshold holder st p ledger = Some a /\
    forall i, (exists b, a = Some b /\ incident b = i) <->
      ledger < eta p <= ledger + threshold /\
      (forall target, holder = Some target -> (proposal_id p, target) ∉ votes st) /\
      i = closing_incident holder (proposal_id p).
Proof.
  intros Hreach. unfold check_proposal_closing.
  rewrite (proj2 (checked_add_Some _ _ _ _) (conj eq_refl Hreach)). cbn.
  eexists. split; [done|]. intros i.
  case_bool_decide as E1; case_bool_decide as E2; cbn;
    try (split; [by intros (? & ? & ?) | intros (? & _); lia]).
  destruct holder as [target|]; [case_bool_decide as Hv|]; cbn; split.
  - by intros (? & ? & ?).
  - intros (_ & Hn & _). by destruct (Hn target).
  - intros (b & [= <-] & <-). split; [lia|]. split; [by intros ? [= <-] | done].
  - intros (_ & _ & ->). eauto.
  - intros (b & [= <-] & <-). split; [lia|]. done.
  - intros (_ & _ & ->). eauto.
Qed.

(** The alerts of the tracker are those of the windows that are closing. *)
Lemma closing_alerts_spec hist threshold holder ledger :
  reaches threshold ledger ->
  exists alerts, closing_alerts threshold holder (tracked hist) ledger = Some alerts /\
    forall i, i ∈ incident <$> alerts <->
      exists id, closing hist threshold holder ledger id /\ i = closing_incident holder id.
Proof.
  intros Hreach. unfold closing_alerts.
  assert (exists l, mapM (fun p => check_proposal_closing threshold holder (tracked hist) p ledger)
                      (open_props (tracked hist)) = Some l) as [l Hl].
  { apply mapM_is_Some_2, list.Forall_forall. intros p _.
    destruct (check_proposal_spec threshold holder (tracked hist) p ledger Hreach) as (a & Ha & _).
    by exists a. }
  rewrite Hl. cbn. eexists. split; [done|]. intros i. apply mapM_Some_1 in Hl.
  rewrite list_elem_of_fmap. setoid_rewrite list_elem_of_omap. split.
  - intros (b & -> & a & Ha & Hab). cbn in Hab. subst a.
    apply list_elem_of_lookup in Ha as [k Hk]. destruct (Forall2_lookup_r _ _ _ _ _ Hl Hk) as (p & Hp & Hc).
    apply list_elem_of_lookup_2, elem_of_open_props in Hp as [Hp Hopen].
    destruct (check_proposal_spec threshold holder (tracked hist) p ledger Hreach) as (a & Hc' & Hspec).
    rewrite Hc in Hc'. injection Hc' as <-.
    destruct (proj1 (Hspec (incident b))) as (Hwin & Hvotes & Hi); [eauto|].
    exists (proposal_id p). split; [|done]. split; [eauto|]. split; [done|].
    intros target Ht. apply dec_stable. rewrite <- votes_tracked. by apply Hvotes.
  - intros (id & ((p & Hp & Hwin) & Hopen & Hvotes) & ->). pose proof (created_id _ _ _ Hp). subst id.
    assert (p ∈ open_props (tracked hist)) as [k Hk]%list_elem_of_lookup by by apply elem_of_open_props.
    destruct (Forall2_lookup_l _ _ _ _ _ Hl Hk) as (a & Ha & Hc).
    destruct (check_proposal_spec threshold holder (tracked hist) p ledger Hreach) as (a' & Hc' & Hspec).
    rewrite Hc in Hc'. injection Hc' as <-.
    destruct (proj2 (Hspec (closing_incident holder (proposal_id p)))) as (b & -> & Hb).
    { split; [done|]. split; [|done]. intros target Ht. rewrite votes_tracked. specialize (Hvotes target Ht). tauto. }
    exists b. split; [done|]. eexists. split; [by eapply list_elem_of_lookup_2|done].
Qed.
(** ** The rules *)

Definition retrack (st : VotingTrackerState) r : AlertRule :=
  match r with VotingWindowClosingSoonRule threshold holder _ => VotingWindowClosingSoonRule threshold holder st | _ => r end.

(** What a rule has to raise. *)
Definition due_rule r hist (c : Call) (i : string) : Prop :=
  match r with
  | AdminTransferredRule => exists ev, c = Evaluate ev /\ (exists o n, event_payload ev = VAdminTransferred o n) /\
      i = cursor_incident "admin-transferred" (event_cursor ev)
  | PausedRule => exists ev, c = Evaluate ev /\ event_payload ev = VPaused true /\
      i = cursor_incident "protocol-paused" (event_cursor ev)
  | FeeUpdatedRule => exists ev, c = Evaluate ev /\ (exists o n, event_payload ev = VFeeUpdated o n) /\
      i = cursor_incident "fee-updated" (event_cursor ev)
  | FeesSweptThresholdRule least => exists ev treasury amount remaining, c = Evaluate ev /\
      event_payload ev = VFeesSwept treasury amount remaining /\ least <= amount /\
      i = cursor_incident "fees-swept-threshold" (event_cursor ev)
  | NewProposalRule => exists ev id proposer eta, c = Evaluate ev /\
      event_payload ev = VProposalCreated id proposer eta /\ i = "new-proposal" +:+ ":" +:+ pretty id
  | VotingWindowClosingSoonRule threshold holder _ => exists id,
      closing hist threshold holder (ledger_of c) id /\ i = closing_incident holder id
  end.

Definition within_reach r (ledger : Z) : Prop :=
  match r with VotingWindowClosingSoonRule threshold _ _ => reaches threshold ledger | _ => True end.

(** The call of the hypotheses is the event at hand. *)
Ltac same_event :=
  intros; destruct_and?; repeat match goal with He : ex _ |- _ => destruct He | He : _ /\ _ |- _ => destruct He end;
  repeat match goal with Hc : Evaluate _ = Evaluate _ |- _ => injection Hc as <- end;
  repeat match goal with H1 : event_payload ?e = _, H2 : event_payload ?e = _ |- _ => rewrite H1 in H2; clear H1 end;
  simplify_eq; try lia; eauto 10 using list_elem_of_here.

Ltac no_alert := eexists; split; [reflexivity|]; intros i; cbn; split; [by intros ?%not_elem_of_nil | same_event].

Ltac one_alert :=
  eexists; split; [reflexivity|]; intros i; cbn; rewrite list_elem_of_singleton; split; same_event.

Lemma evaluate_rule_spec r hist ev :
  within_reach r (c_ledger (event_cursor ev)) ->
  exists alerts, evaluate_rule (retrack (tracked hist) r) ev = Some (alerts, retrack (tracked (hist ++ [ev])) r) /\
    forall i, i ∈ incident <$> alerts <-> due_rule r (hist ++ [ev]) (Evaluate ev) i.
Proof.
  intros Hreach. destruct r as [| | |least| |threshold holder st]; unfold evaluate_rule, due_rule; cbn [retrack].
  1-5: destruct (event_payload ev) eqn:Hev.
  all: try (destruct paused). all: try no_alert. all: try one_alert.
  - case_bool_decide; [one_alert | no_alert].
    exists ev, treasury, amount, remaining. split; [done|]. split; [done|]. split; [lia|done].
  - rewrite <- tracked_snoc.
    destruct (closing_alerts_spec (hist ++ [ev]) threshold holder _ Hreach) as (alerts & -> & Hspec).
    eexists. split; [reflexivity|]. intros i. by rewrite <- Hspec, <- list_fmap_compose.
Qed.

Lemma check_rule_spec r hist ledger :
  within_reach r ledger ->
  exists alerts, check_rule (retrack (tracked hist) r) ledger = Some alerts /\
    forall i, i ∈ incident <$> alerts <-> due_rule r hist (CheckLedger ledger) i.
Proof.
  intros Hreach. destruct r as [| | |least| |threshold holder st]; cbn.
  1-5: no_alert. by apply closing_alerts_spec.
Qed.
(** ** The configuration *)

Lemma elem_of_flagged {A} (b : bool) (x y : A) : x ∈ (if b then [y] else []) <-> b = true /\ x = y.
Proof. destruct b; rewrite ?list_elem_of_singleton, ?elem_of_nil; naive_solver. Qed.

Lemma due_iff cfg hist c i :
  due cfg hist c i <-> exists r, r ∈ rules (build_manager cfg) /\ due_rule r hist c i.
Proof.
  unfold build_manager, new_manager. cbn [rules]. repeat setoid_rewrite list.elem_of_app. repeat setoid_rewrite elem_of_flagged.
  split.
  - intros [(ev & -> & [(?&?&?)|[(?&?&?)|[(?&?&?)|[(l & ? & ? & ? & Hl & ?&?&?)|(? & ? & ? & ? & ? & ->)]]]])
           |(t & id & Ht & ?)].
    + exists AdminTransferredRule. split; [tauto|]. by exists ev.
    + exists PausedRule. split; [tauto|]. by exists ev.
    + exists FeeUpdatedRule. split; [tauto|]. by exists ev.
    + exists (FeesSweptThresholdRule l). rewrite Hl, !list_elem_of_singleton. split; [tauto|]. cbn. eauto 10.
    + exists NewProposalRule. split; [tauto|]. cbn. eauto 10.
    + exists (VotingWindowClosingSoonRule t (monitored_token_holder cfg) new_tracker).
      rewrite Ht, !list_elem_of_singleton. split; [tauto|]. by exists id.
  - intros (r & [[? ->]|[[? ->]|[[? ->]|[Hr|[[? ->]|Hr]]]]] & Hdue); unfold due; cbn in Hdue.
    + destruct Hdue as (ev & ? & ? & ?). left. exists ev. auto 10.
    + destruct Hdue as (ev & ? & ? & ?). left. exists ev. auto 10.
    + destruct Hdue as (ev & ? & ? & ?). left. exists ev. auto 10.
    + destruct (fees_swept_threshold cfg) as [l|]; [|by apply elem_of_nil in Hr].
      apply list_elem_of_singleton in Hr as ->. destruct Hdue as (ev & t & a & x & ? & ? & ? & ?).
      left. exists ev. split; [done|]. do 3 right. left. eauto 10.
    + destruct Hdue as (ev & id & p & e & -> & Hev & ->). left. exists ev. split; [done|]. do 4 right. eauto 8.
    + destruct (voting_closing_threshold_ledgers cfg) as [t|] eqn:Ht; [|by apply elem_of_nil in Hr].
      apply list_elem_of_singleton in Hr as ->. cbn in Hdue. destruct Hdue as (id & ? & ->). right. eauto 6.
Qed.

Lemma rules_retrack cfg : retrack (tracked []) <$> rules (build_manager cfg) = rules (build_manager cfg).
Proof.
  unfold build_manager, new_manager. cbn [rules]. rewrite !list.fmap_app. repeat f_equal.
  all: by repeat case_match.
Qed.

(** ** The manager *)

(** Dispatch adds the incidents that are new, each once. *)
Lemma dispatch_spec alerts active sent :
  list_to_set (incident <$> sent) ⊆ active -> NoDup (incident <$> sent) ->
  let '(active', sent') := foldl dispatch (active, sent) alerts in
  active' = active ∪ list_to_set (incident <$> alerts) /\ sent `prefix_of` sent' /\
  NoDup (incident <$> sent') /\ active' = active ∪ list_to_set (incident <$> sent') /\
  (forall a, a ∈ sent' -> a ∈ sent \/ (a ∈ alerts /\ incident a ∉ active)).
Proof.
  revert active sent. induction alerts as [|a alerts IH]; intros active sent Hsub Hnd; cbn.
  { split; [set_solver|]. split; [done|]. split; [done|]. split; [set_solver|tauto]. }
  unfold dispatch at 2. cbn. case_bool_decide as Ha.
  - specialize (IH active sent Hsub Hnd). destruct (foldl _ _ alerts) as [active' sent'].
    destruct IH as (-> & ? & ? & IHs & IHe). split; [set_solver|]. split; [done|]. split; [done|]. split; [set_solver|].
    intros b Hb. rewrite list.elem_of_cons. naive_solver.
  - specialize (IH ({[incident a]} ∪ active) (sent ++ [a])). destruct (foldl _ _ alerts) as [active' sent'].
    destruct IH as (-> & Hpre & ? & IHs & IHe).
    { rewrite list.fmap_app, list_to_set_app. cbn. set_solver. }
    { rewrite list.fmap_app. apply list.NoDup_app. split; [done|]. split; [|apply NoDup_singleton].
      intros i Hi [= ->]%list_elem_of_singleton. set_solver. }
    split; [set_solver|]. split; [by eapply prefix_app_l|]. split; [done|]. split.
    + destruct Hpre as [k ->]. rewrite IHs, !list.fmap_app, !list_to_set_app_L. cbn. set_solver.
    + intros b Hb. rewrite list.elem_of_cons. destruct (IHe b Hb) as [Hs|[? Hn]].
      * apply list.elem_of_app in Hs as [?| ->%list_elem_of_singleton]; auto.
      * right. split; [auto|]. set_solver.
Qed.

Lemma dispatch_all_spec alerts m rs :
  exists sent, dispatch_all alerts m rs =
      (sent, mkManager rs (active_incidents m ∪ list_to_set (incident <$> sent)) (attempts m ++ sent)) /\
    NoDup (incident <$> sent) /\
    (forall i, i ∈ incident <$> sent <-> i ∈ incident <$> alerts /\ i ∉ active_incidents m).
Proof.
  unfold dispatch_all. pose proof (dispatch_spec alerts (active_incidents m) []) as Hd.
  destruct (foldl _ _ alerts) as [active sent].
  destruct Hd as (Hall & _ & Hnd & Hact & Hfrom); [set_solver | constructor|].
  exists sent. split; [by rewrite <- Hact|]. split; [done|].
  assert (Hnew : forall i, i ∈ incident <$> sent -> i ∈ incident <$> alerts /\ i ∉ active_incidents m).
  { intros i (a & -> & Ha)%list_elem_of_fmap. destruct (Hfrom a Ha) as [?%elem_of_nil|[??]]; [done|].
    split; [by apply list_elem_of_fmap_2|done]. }
  intros i. split; [apply Hnew|]. intros [Hi Hn].
  assert (i ∈ active) as Hin by (rewrite Hall; set_solver). rewrite Hact in Hin. set_solver.
Qed.
(** ** Runs *)

Lemma mapM_total {A B} (f : A -> option B) (P : A -> B -> Prop) l :
  (forall x, x ∈ l -> exists y, f x = Some y /\ P x y) -> exists k, mapM f l = Some k /\ Forall2 P l k.
Proof.
  induction l as [|x l IH]; intros Hf; [by exists []|].
  destruct (Hf x) as (y & Hy & HP); [apply list_elem_of_here|].
  destruct IH as (k & Hk & HPs); [intros; apply Hf; by apply list_elem_of_further|].
  exists (y :: k). cbn. rewrite Hy. cbn. rewrite Hk. split; [done | by constructor].
Qed.

Lemma mapM_fmap_l {A B C} (f : B -> option C) (g : A -> B) l : mapM f (g <$> l) = mapM (fun x => f (g x)) l.
Proof. induction l as [|x l IH]; [done|]. cbn. by rewrite IH. Qed.

(** What the rules raise, joined, is what the configuration makes due. *)
Lemma raised_due (rs : list AlertRule) (raised : list (list Alert)) hist c i :
  Forall2 (fun r alerts => forall i, i ∈ incident <$> alerts <-> due_rule r hist c i) rs raised ->
  i ∈ incident <$> mjoin raised <-> exists r, r ∈ rs /\ due_rule r hist c i.
Proof.
  induction 1 as [|r alerts rs raised Hr _ IH]; cbn [mjoin list_join].
  - cbn. setoid_rewrite elem_of_nil. naive_solver.
  - rewrite list.fmap_app, list.elem_of_app, Hr, IH. setoid_rewrite list.elem_of_cons. naive_solver.
Qed.

Definition rules_of (cfg : AlertSystemConfig) hist : list AlertRule :=
  retrack (tracked hist) <$> rules (build_manager cfg).

Definition affordable (cfg : AlertSystemConfig) (c : Call) : Prop :=
  forall threshold, voting_closing_threshold_ledgers cfg = Some threshold -> reaches threshold (ledger_of c).

Lemma affordable_reach cfg c r : affordable cfg c -> r ∈ rules (build_manager cfg) -> within_reach r (ledger_of c).
Proof.
  intros Hc. unfold build_manager, new_manager. cbn [rules].
  rewrite !list.elem_of_app, !elem_of_flagged.
  intros [[? ->]|[[? ->]|[[? ->]|[Hr|[[? ->]|Hr]]]]]; try done.
  - destruct (fees_swept_threshold cfg); [|by apply elem_of_nil in Hr]. by apply list_elem_of_singleton in Hr as ->.
  - destruct (voting_closing_threshold_ledgers cfg) eqn:Ht; [|by apply elem_of_nil in Hr].
    apply list_elem_of_singleton in Hr as ->. by apply Hc.
Qed.

Lemma evaluate_raises cfg hist ev :
  affordable cfg (Evaluate ev) ->
  exists rs, mapM (fun r => evaluate_rule r ev) (rules_of cfg hist) = Some rs /\
    rs.*2 = rules_of cfg (hist ++ [ev]) /\
    forall i, i ∈ incident <$> mjoin rs.*1 <-> due cfg (hist ++ [ev]) (Evaluate ev) i.
Proof.
  intros Hc. unfold rules_of.
  destruct (mapM_total (fun r => evaluate_rule (retrack (tracked hist) r) ev)
    (fun r x => x.2 = retrack (tracked (hist ++ [ev])) r /\
       forall i, i ∈ incident <$> x.1 <-> due_rule r (hist ++ [ev]) (Evaluate ev) i) (rules (build_manager cfg)))
    as (rs & Hrs & HP).
  { intros r Hr. destruct (evaluate_rule_spec r hist ev) as (alerts & Ha & Hspec).
    - by apply (affordable_reach cfg (Evaluate ev)).
    - by exists (alerts, retrack (tracked (hist ++ [ev])) r). }
  exists rs. split; [by rewrite mapM_fmap_l|]. split.
  - clear Hrs. induction HP as [|r x rules rs [Hx _] _ IH]; [done|]. cbn. by rewrite Hx, IH.
  - intros i. rewrite due_iff. apply raised_due. apply Forall2_fmap_r.
    eapply Forall2_impl; [|exact HP]. cbn. by intros r x [_ ?].
Qed.

Lemma check_raises cfg hist ledger :
  affordable cfg (CheckLedger ledger) ->
  exists raised : list (list Alert), mapM (fun r => check_rule r ledger) (rules_of cfg hist) = Some raised /\
    forall i, i ∈ incident <$> mjoin raised <-> due cfg hist (CheckLedger ledger) i.
Proof.
  intros Hc. unfold rules_of.
  destruct (mapM_total (fun r => check_rule (retrack (tracked hist) r) ledger)
    (fun r alerts => forall i, i ∈ incident <$> alerts <-> due_rule r hist (CheckLedger ledger) i)
    (rules (build_manager cfg))) as (raised & Hraised & HP).
  { intros r Hr. destruct (check_rule_spec r hist ledger) as (alerts & Ha & Hspec); eauto.
    by apply (affordable_reach cfg (CheckLedger ledger)). }
  exists raised. split; [by rewrite mapM_fmap_l|]. intros i. rewrite due_iff. by apply raised_due.
Qed.

(** One call. *)
Lemma serve_spec cfg hist m c :
  rules m = rules_of cfg hist -> affordable cfg c ->
  exists sent m', serve m c = Some (sent, m') /\ rules m' = rules_of cfg (hist ++ event_of c) /\
    active_incidents m' = active_incidents m ∪ list_to_set (incident <$> sent) /\
    attempts m' = attempts m ++ sent /\ NoDup (incident <$> sent) /\
    (forall i, i ∈ incident <$> sent <-> due cfg (hist ++ event_of c) c i /\ i ∉ active_incidents m).
Proof.
  intros Hm Hc. destruct c as [ev|ledger]; cbn [serve event_of].
  - unfold evaluate. rewrite Hm. destruct (evaluate_raises cfg hist ev Hc) as (rs & -> & Hrs & Hdue). cbn.
    destruct (dispatch_all_spec (mjoin rs.*1) m rs.*2) as (sent & -> & Hnd & Hsent).
    exists sent. eexists. split; [done|]. cbn. setoid_rewrite <- Hdue. auto.
  - unfold check_ledger. rewrite app_nil_r.
    destruct (check_raises cfg hist ledger Hc) as (raised & Hr & Hdue). rewrite <- Hm in Hr |- *. rewrite Hr. cbn.
    destruct (dispatch_all_spec (mjoin raised) m (rules m)) as (sent & -> & Hnd & Hsent).
    exists sent. eexists. split; [done|]. cbn. setoid_rewrite <- Hdue. auto.
Qed.

(** The incident became due at some call of the run. *)
Definition became_due (cfg : AlertSystemConfig) hist (calls : list Call) (i : string) : Prop :=
  exists pre c post, calls = pre ++ c :: post /\ due cfg (hist ++ history (pre ++ [c])) c i.

Lemma became_due_cons cfg hist c calls i :
  became_due cfg hist (c :: calls) i <->
  due cfg (hist ++ event_of c) c i \/ became_due cfg (hist ++ event_of c) calls i.
Proof.
  unfold became_due, history. split.
  - intros ([|c' pre] & d & post & [= -> ->] & Hdue); cbn in Hdue.
    + rewrite app_nil_r in Hdue. by left.
    + right. exists pre, d, post. by rewrite <- app_assoc.
  - intros [Hdue|(pre & d & post & -> & Hdue)].
    + exists [], c, calls. cbn. by rewrite app_nil_r.
    + exists (c :: pre), d, post. cbn. by rewrite app_assoc.
Qed.

Lemma run_spec cfg calls hist m :
  rules m = rules_of cfg hist -> Forall (affordable cfg) calls ->
  exists sent m', run m calls = Some (sent, m') /\
    active_incidents m' = active_incidents m ∪ list_to_set (incident <$> sent) /\
    attempts m' = attempts m ++ sent /\ NoDup (incident <$> sent) /\
    (forall i, i ∈ incident <$> sent <-> became_due cfg hist calls i /\ i ∉ active_incidents m).
Proof.
  intros Hm Hcalls. revert hist m Hm. induction Hcalls as [|c calls Hc _ IH]; intros hist m Hm.
  { exists [], m. split; [done|]. split; [set_solver|]. split; [by rewrite app_nil_r|]. split; [constructor|].
    intros i. cbn. rewrite elem_of_nil. split; [done|]. by intros [([|??] & ? & ? & ? & _) _]. }
  destruct (serve_spec cfg hist m c Hm Hc) as (sent & m1 & Hs & Hm1 & Hact & Hatt & Hnd & Hsent).
  destruct (IH _ m1 Hm1) as (rest & m2 & Hr & Hact2 & Hatt2 & Hnd2 & Hrest).
  exists (sent ++ rest), m2. cbn. rewrite Hs. cbn. rewrite Hr. split; [done|].
  rewrite list.fmap_app, list_to_set_app_L. split; [rewrite Hact2, Hact; set_solver|].
  split; [by rewrite Hatt2, Hatt, app_assoc|]. split.
  - apply list.NoDup_app. split; [done|]. split; [|done]. intros i Hi. rewrite Hrest, Hact. set_solver.
  - intros i. rewrite list.elem_of_app, Hsent, Hrest, Hact, became_due_cons, elem_of_union, elem_of_list_to_set, Hsent.
    destruct (decide (i ∈ incident <$> sent)) as [Hi|Hi]; rewrite Hsent in Hi; tauto.
Qed.

(** A batch is a run of evaluations. *)
Lemma process_events_run m events : process_events m events = run m (Evaluate <$> events).
Proof.
  revert m. induction events as [|ev events IH]; intros m; [done|]. cbn.
  destruct (evaluate m ev) as [[sent m']|]; cbn; [|done]. by rewrite IH.
Qed.

(** C34: from the configuration on, whatever events are evaluated and ledgers
    checked in whatever order, the manager never fails as long as its ledgers
    leave room for the threshold; an incident is sent exactly when some call
    made it due according to the events up to that call (an enabled event rule
    that matches, or a window of an open proposal closing on a holder who has
    not voted), and it is sent once; the incidents recorded are those sent. *)
Theorem alerts_exactly_once cfg calls :
  Forall (affordable cfg) calls ->
  exists sent m, run (build_manager cfg) calls = Some (sent, m) /\
    NoDup (incident <$> sent) /\ attempts m = sent /\
    active_incidents m = list_to_set (incident <$> sent) /\
    forall i, i ∈ incident <$> sent <-> became_due cfg [] calls i.
Proof.
  intros Hcalls. destruct (run_spec cfg calls [] (build_manager cfg)) as (sent & m & Hr & Hact & Hatt & Hnd & Hs).
  - unfold rules_of. by rewrite rules_retrack.
  - done.
  - exists sent, m. split; [done|]. split; [done|]. split; [by rewrite Hatt|].
    split; [rewrite Hact; set_solver|]. intros i. rewrite Hs. set_solver.
Qed.
End Promise.
