(* ===== verification/SdkRetry.v ===== *)
(** * SDK: retries

    src/rust-sdk/src/retry.rs.  A [Duration] is its number of nanoseconds.  The
    network, the random source and the timer are functions of the state [W] of
    the outside world. *)

From S2P Require Import Prelude.

Inductive TransportError := Timeout | ConnectionReset | SimulationUnavailable | OtherTransport (message : string).

Inductive RpcCallError (C : Type) := Transport (e : TransportError) | Contract (c : C).
Arguments Transport {C}.
Arguments Contract {C}.

Inductive ErrorClass := Transient | Permanent.

Definition default_classify {C} (err : RpcCallError C) : ErrorClass :=
  match err with Transport _ => Transient | Contract _ => Permanent end.

Definition is_permanent (c : ErrorClass) : bool := match c with Permanent => true | Transient => false end.

(** ** Durations *)

Definition NANOS : Z := 10 ^ 9.

(** [Duration::MAX] *)
Definition max_duration : Z := (2 ^ 64 - 1) * NANOS + (NANOS - 1).

Definition is_duration (d : Z) : Prop := 0 <= d <= max_duration.

Definition saturating_add_d (a b : Z) : Z := Z.min max_duration (a + b).
Definition saturating_mul_d (a : Z) (k : Z) : Z := Z.min max_duration (a * k).

(** [a + b] panics beyond the maximum. *)
Definition add_d (a b : Z) : option Z := if bool_decide (a + b <= max_duration) then Some (a + b) else None.

(** ** The policy *)

Record RetryPolicy := mkRetryPolicy {
  max_attempts : Z;
  base_delay : Z;
  jitter_min : Z;
  jitter_max : Z;
}.

Definition default_policy : RetryPolicy := mkRetryPolicy 4 (200 * 10 ^ 6) 0 (200 * 10 ^ 6).
Definition no_retry : RetryPolicy := mkRetryPolicy 1 0 0 0.

Definition is_policy (p : RetryPolicy) : Prop :=
  in_range u32 (max_attempts p) /\ is_duration (base_delay p) /\ is_duration (jitter_min p) /\
  is_duration (jitter_max p).

(** The outside world: a timer and [gen_range(0..range)]. *)
Class Runtime (W : Type) := {
  sleep : Z -> W -> W;
  gen_range : Z -> W -> Z * W;
  gen_range_spec range w : 0 < range -> 0 <= (gen_range range w).1 < range;
}.

Section Retry.
Context {W : Type} `{!Runtime W}.
Implicit Types (p : RetryPolicy) (w : W).

(** [None]: a panic. *)
Definition delay_for p (attempt : Z) w : option (Z * W) :=
  let backoff := saturating_mul_d (base_delay p) (Z.shiftl 1 (Z.min attempt 31)) in
  '(jitter, w) ←
    (if bool_decide (jitter_max p > jitter_min p) then
       let range := Z.max (jitter_max p - jitter_min p) 1 in
       let (sampled, w) := gen_range range w in
       jitter ← add_d (jitter_min p) (sampled mod 2 ^ 64);
       Some (jitter, w)
     else Some (jitter_min p, w));
  Some (saturating_add_d backoff jitter, w).

Section Run.
Context {T C : Type} (op : W -> (RpcCallError C + T) * W) (classify : RpcCallError C -> ErrorClass).

(** The loop of [RetryPolicy::run] from [attempt] on; [None]: a panic, or out
    of fuel. *)
Fixpoint run_from p (fuel : nat) (attempt : Z) w : option ((RpcCallError C + T) * W) :=
  match fuel with
  | O => None
  | S fuel =>
      let (result, w) := op w in
      match result with
      | inr value => Some (inr value, w)
      | inl err =>
          let is_last := bool_decide (attempt + 1 >= max_attempts p) in
          if is_permanent (classify err) || is_last then Some (inl err, w)
          else
            '(delay, w) ← delay_for p attempt w;
            run_from p fuel (attempt + 1) (sleep delay w)
      end
  end.

(** One more than the attempts the policy allows. *)
Definition run p w : option ((RpcCallError C + T) * W) := run_from p (S (Z.to_nat (max_attempts p))) 0 w.

(** ** What the loop does *)

Lemma delay_for_total p attempt w :
  is_policy p -> 0 <= attempt ->
  exists d w', delay_for p attempt w = Some (d, w') /\
    saturating_add_d (saturating_mul_d (base_delay p) (2 ^ Z.min attempt 31)) (jitter_min p) <= d /\
    d <= saturating_add_d (saturating_mul_d (base_delay p) (2 ^ Z.min attempt 31)) (Z.max (jitter_min p) (jitter_max p)).
Proof.
  intros (_ & [Hb0 Hb] & [Hj0 Hj] & [Hm0 Hm]) Ha. unfold delay_for. rewrite Z.shiftl_1_l.
  case_bool_decide as Hjit.
  - pose proof (gen_range_spec (Z.max (jitter_max p - jitter_min p) 1) w ltac:(lia)) as Hr.
    destruct (gen_range _ w) as [sampled w']; cbn in Hr |- *.
    assert (0 <= sampled mod 2 ^ 64 <= sampled) as Hs.
    { split; [apply Z.mod_pos_bound; lia | apply Z.mod_le; lia]. }
    unfold add_d. rewrite bool_decide_true by lia. cbn. eexists _, _. split; [done|].
    unfold saturating_add_d. lia.
  - cbn. eexists _, _. split; [done|]. unfold saturating_add_d. lia.
Qed.

(** The [i]-th call of [op], if the ones before are all retried. *)
Fixpoint call p (i : nat) w : option ((RpcCallError C + T) * W) :=
  match i with
  | O => Some (op w)
  | S i =>
      '(_, w) ← call p i w;
      '(delay, w) ← delay_for p (Z.of_nat i) w;
      Some (op (sleep delay w))
  end.

(** A call after which the loop goes on. *)
Definition retried p (i : nat) (r : RpcCallError C + T) : Prop :=
  exists err, r = inl err /\ classify err = Transient /\ Z.of_nat i + 1 < max_attempts p.

#[local] Lemma retried_dec p i r : {retried p i r} + {~ retried p i r}.
Proof.
  destruct r as [err|v]; [|right; by intros (? & [=] & _)].
  destruct (classify err) eqn:Hc; [|right; intros (? & [= <-] & Ht & _); congruence].
  destruct (decide (Z.of_nat i + 1 < max_attempts p)); [left; by exists err | right; by intros (? & _ & _ & ?)].
Defined.

Lemma run_from_step p fuel i w r w' :
  op w = (r, w') ->
  run_from p (S fuel) (Z.of_nat i) w =
  if retried_dec p i r
  then '(delay, w) ← delay_for p (Z.of_nat i) w'; run_from p fuel (Z.of_nat (S i)) (sleep delay w)
  else Some (r, w').
Proof.
  intros Hop. cbn [run_from]. rewrite Hop. destruct (retried_dec p i r) as [Hr|Hr].
  - destruct Hr as (err & -> & Ht & Hlt). rewrite Ht, bool_decide_false by lia. cbn.
    replace (Z.of_nat i + 1) with (Z.of_nat (S i)) by lia. done.
  - destruct r as [err|v]; [|done].
    destruct (classify err) eqn:Hc; cbn; [|done]. rewrite bool_decide_true; [done|].
    destruct (decide (Z.of_nat i + 1 >= max_attempts p)); [done|]. exfalso. apply Hr. exists err. split_and!; [done..|lia].
Qed.

Lemma run_from_spec p fuel i w w0 :
  is_policy p -> call p i w0 = Some (op w) -> max_attempts p < Z.of_nat (i + fuel) -> (0 < fuel)%nat ->
  Z.of_nat i < Z.max 1 (max_attempts p) ->
  exists n r w', run_from p fuel (Z.of_nat i) w = Some (r, w') /\ (i <= n)%nat /\ call p n w0 = Some (r, w') /\
    Z.of_nat n < Z.max 1 (max_attempts p) /\ ~ retried p n r /\
    forall j, (i <= j < n)%nat -> exists rj wj, call p j w0 = Some (rj, wj) /\ retried p j rj.
Proof.
  intros Hp. revert i w. induction fuel as [|fuel IH]; intros i w Hc Hf Hpos Hi; [lia|].
  destruct (op w) as [r w1] eqn:Hop. rewrite (run_from_step _ _ _ _ _ _ Hop).
  destruct (retried_dec p i r) as [Hr|Hr].
  - destruct (delay_for_total p (Z.of_nat i) w1 Hp ltac:(lia)) as (d & w2 & Hd & _). rewrite Hd. cbn.
    assert (call p (S i) w0 = Some (op (sleep d w2))) as Hc' by (cbn; by rewrite Hc; cbn; rewrite Hd).
    assert (Z.of_nat i + 1 < max_attempts p) as Hlt by (by destruct Hr as (? & _ & _ & ?)).
    destruct (IH (S i) _ Hc' ltac:(lia) ltac:(lia) ltac:(lia)) as (n & rn & wn & Hrun & Hn & Hcn & Hb & Hnr & Hj).
    exists n, rn, wn. split_and!; [done | lia | done..|]. intros j Hij.
    destruct (decide (j = i)) as [->|]; [by exists r, w1 | apply Hj; lia].
  - exists i, r, w1. split_and!; [done | lia | done | done | done |]. intros j ?. lia.
Qed.

(** The outcome of [run] is that of one of the calls. *)
Lemma run_outcome p w :
  is_policy p -> exists r w', run p w = Some (r, w') /\ exists w0, op w0 = (r, w').
Proof.
  intros Hp. unfold run.
  destruct (run_from_spec p (S (Z.to_nat (max_attempts p))) 0 w w Hp eq_refl ltac:(lia) ltac:(lia) ltac:(lia))
    as (n & r & w' & Hrun & _ & Hc & _). exists r, w'. split; [done|].
  destruct n; cbn in Hc; [by injection Hc; eauto|].
  destruct (call p n w) as [[? w1]|]; [|done]. cbn in Hc.
  destruct (delay_for p _ w1) as [[d w2]|]; [|done]. cbn in Hc. injection Hc. eauto.
Qed.

(** The retry loop ends and retries exactly what it should.  Under every
    policy [run] returns - no overflow, no panic - after at most
    max(1, max_attempts) calls; its result is that of the last call, all calls
    before it failed with an error classified transient, and the last one
    succeeded, failed for good, or used up the attempts.  The wait between two
    calls doubles from the base delay and adds a jitter between the bounds,
    saturating at the longest duration. *)
Theorem retry_exact p w :
  is_policy p ->
  (exists n r w', run p w = Some (r, w') /\ call p n w = Some (r, w') /\
     Z.of_nat n < Z.max 1 (max_attempts p) /\ ~ retried p n r /\
     forall j, (j < n)%nat -> exists rj wj, call p j w = Some (rj, wj) /\ retried p j rj) /\
  forall attempt w, 0 <= attempt -> exists d w', delay_for p attempt w = Some (d, w') /\
    saturating_add_d (saturating_mul_d (base_delay p) (2 ^ Z.min attempt 31)) (jitter_min p) <= d /\
    d <= saturating_add_d (saturating_mul_d (base_delay p) (2 ^ Z.min attempt 31)) (Z.max (jitter_min p) (jitter_max p)).
Proof.
  intros Hp. split; [|intros; by apply delay_for_total]. unfold run.
  destruct (run_from_spec p (S (Z.to_nat (max_attempts p))) 0 w w Hp eq_refl ltac:(lia) ltac:(lia) ltac:(lia))
    as (n & r & w' & Hrun & _ & Hc & Hb & Hnr & Hj).
  exists n, r, w'. split_and!; [done..|]. intros j ?. apply Hj. lia.
Qed.
End Run.
End Retry.
