(* ===== verification/SdkEvents.v ===== *)
(** * SDK: event decoders

    src/rust-sdk/src/events.rs against the events that
    src/contracts/keeper-registry/src/events.rs publishes.  XDR values and their
    conversions are the class [ScValCodec]. *)

From S2P Require Import Prelude Host RegistryTypes.

(** XDR values: scalars convert back to what they were made from; a tuple
    converts from a vector of exactly its length. *)
Class ScValCodec := {
  ScVal : Type;
  of_u32 : Z -> ScVal;
  of_u64 : Z -> ScVal;
  of_i128 : Z -> ScVal;
  of_bool : bool -> ScVal;
  of_address : Address -> ScVal;
  of_bytes : Bytes -> ScVal;
  of_symbol : Symbol -> ScVal;
  of_void : ScVal;
  of_vec : list ScVal -> ScVal;
  to_u32 : ScVal -> option Z;
  to_u64 : ScVal -> option Z;
  to_i128 : ScVal -> option Z;
  to_bool : ScVal -> option bool;
  to_address : ScVal -> option Address;
  to_bytes : ScVal -> option Bytes;
  to_symbol : ScVal -> option Symbol;
  (** [vec_unpack_to_slice] into an array of the given length. *)
  unpack : nat -> ScVal -> option (list ScVal);
}.

Class LawfulScVal `{ScValCodec} : Prop := {
  to_of_u32 z : to_u32 (of_u32 z) = Some z;
  to_of_u64 z : to_u64 (of_u64 z) = Some z;
  to_of_i128 z : to_i128 (of_i128 z) = Some z;
  to_of_bool b : to_bool (of_bool b) = Some b;
  to_of_address a : to_address (of_address a) = Some a;
  to_of_bytes b : to_bytes (of_bytes b) = Some b;
  to_of_symbol s : to_symbol (of_symbol s) = Some s;
  unpack_vec n vs : unpack n (of_vec vs) = if Nat.eqb (length vs) n then Some vs else None;
}.

(** ** Typed events *)

Inductive KeeperEvent :=
  | KTaskRegistered (task_id : Z) (owner : Address) (reward deadline : Z)
  | KTaskClaimed (task_id : Z) (keeper : Address) (ledger_sequence : Z)
  | KTaskExecuted (task_id : Z) (keeper : Address) (net_reward : Z) (proof : Bytes)
  | KTaskExpired (task_id : Z)
  | KTaskCancelled (task_id : Z) (owner : Address)
  | KRewardsWithdrawn (keeper : Address) (amount : Z)
  | KPaused (paused : bool)
  | KFeesSwept (recipient : Address) (amount remaining : Z)
  | KInitialized (admin reward_token : Address) (fee_bps : Z).

Inductive EventDecodeError :=
  | UnknownTopic (first second : Symbol)
  | MalformedPayload.

Section Events.
Context `{ScValCodec}.

Abbreviation Decoded := (sum EventDecodeError).

(** [TryFromVal] of the tuples. *)
Definition tuple1 {A} (f : ScVal -> option A) (v : ScVal) : option A :=
  vs ← unpack 1 v; match vs with [a] => f a | _ => None end.
Definition tuple2 {A B} (f : ScVal -> option A) (g : ScVal -> option B) (v : ScVal) : option (A * B) :=
  vs ← unpack 2 v;
  match vs with [a; b] => a ← f a; b ← g b; Some (a, b) | _ => None end.
Definition tuple3 {A B C} (f : ScVal -> option A) (g : ScVal -> option B) (h : ScVal -> option C)
    (v : ScVal) : option (A * B * C) :=
  vs ← unpack 3 v;
  match vs with [a; b; c] => a ← f a; b ← g b; c ← h c; Some (a, b, c) | _ => None end.
Definition tuple4 {A B C D} (f : ScVal -> option A) (g : ScVal -> option B) (h : ScVal -> option C)
    (i : ScVal -> option D) (v : ScVal) : option (A * B * C * D) :=
  vs ← unpack 4 v;
  match vs with
  | [a; b; c; d] => a ← f a; b ← g b; c ← h c; d ← i d; Some (a, b, c, d)
  | _ => None
  end.

(** [decode(env, value)?] and the constructor around it. *)
Definition or_malformed {A B} (f : A -> B) (o : option A) : Decoded B :=
  match o with Some a => inr (f a) | None => inl MalformedPayload end.

Definition decode_event (topics : list ScVal) (value : ScVal) : Decoded KeeperEvent :=
  match topics with
  | t0 :: t1 :: _ =>
      match to_symbol t0, to_symbol t1 with
      | Some first, Some second =>
          if bool_decide ((first, second) = ("reg", "task")%string) then
            or_malformed (fun '(task_id, owner, reward, deadline) => KTaskRegistered task_id owner reward deadline)
              (tuple4 to_u64 to_address to_i128 to_u64 value)
          else if bool_decide ((first, second) = ("claim", "task")%string) then
            or_malformed (fun '(task_id, keeper, ledger) => KTaskClaimed task_id keeper ledger)
              (tuple3 to_u64 to_address to_u32 value)
          else if bool_decide ((first, second) = ("exec", "task")%string) then
            or_malformed (fun '(task_id, keeper, net_reward, proof) => KTaskExecuted task_id keeper net_reward proof)
              (tuple4 to_u64 to_address to_i128 to_bytes value)
          else if bool_decide ((first, second) = ("exp", "task")%string) then
            or_malformed KTaskExpired (tuple1 to_u64 value)
          else if bool_decide ((first, second) = ("cancel", "task")%string) then
            or_malformed (fun '(task_id, owner) => KTaskCancelled task_id owner) (tuple2 to_u64 to_address value)
          else if bool_decide ((first, second) = ("wdraw", "reward")%string) then
            or_malformed (fun '(keeper, amount) => KRewardsWithdrawn keeper amount) (tuple2 to_address to_i128 value)
          else if bool_decide ((first, second) = ("paused", "admin")%string) then
            or_malformed KPaused (tuple1 to_bool value)
          else if bool_decide ((first, second) = ("sweep", "admin")%string) then
            or_malformed (fun '(recipient, amount, remaining) => KFeesSwept recipient amount remaining)
              (tuple3 to_address to_i128 to_i128 value)
          else if bool_decide ((first, second) = ("init", "admin")%string) then
            or_malformed (fun '(admin, reward_token, fee_bps) => KInitialized admin reward_token fee_bps)
              (tuple3 to_address to_address to_u32 value)
          else inl (UnknownTopic first second)
      | _, _ => inl MalformedPayload
      end
  | _ => inl MalformedPayload
  end.

(** ** What the registry publishes *)

Definition of_option (o : option Address) : ScVal := match o with Some a => of_address a | None => of_void end.

Definition published_topics (ev : Event) : list ScVal :=
  [of_symbol (event_topics ev).1; of_symbol (event_topics ev).2].

(** The payload tuple of each [emit_*]. *)
Definition published_value (ev : Event) : ScVal :=
  of_vec match ev with
  | TaskRegistered task_id owner reward deadline condition =>
      [of_u64 task_id; of_address owner; of_i128 reward; of_u64 deadline; of_option condition]
  | TaskConditionNotMet task_id condition => [of_u64 task_id; of_address condition]
  | TaskClaimed task_id keeper ledger => [of_u64 task_id; of_address keeper; of_u32 ledger]
  | TaskExecuted task_id keeper net_reward proof =>
      [of_u64 task_id; of_address keeper; of_i128 net_reward; of_bytes proof]
  | TaskExpired task_id => [of_u64 task_id]
  | TaskCancelled task_id owner => [of_u64 task_id; of_address owner]
  | RewardsWithdrawn keeper amount => [of_address keeper; of_i128 amount]
  | RewardIncreased task_id new_reward => [of_u64 task_id; of_i128 new_reward]
  | DeadlineExtended task_id new_deadline => [of_u64 task_id; of_u64 new_deadline]
  | PausedSet paused => [of_bool paused]
  | FeeUpdated old_bps new_bps => [of_u32 old_bps; of_u32 new_bps]
  | AdminTransferred old_admin new_admin => [of_address old_admin; of_address new_admin]
  | MinRewardUpdated old_min new_min => [of_i128 old_min; of_i128 new_min]
  | FeesSwept treasury amount remaining => [of_address treasury; of_i128 amount; of_i128 remaining]
  | Initialized admin reward_token fee_bps => [of_address admin; of_address reward_token; of_u32 fee_bps]
  | Upgraded admin new_wasm_hash => [of_address admin; of_bytes new_wasm_hash]
  | TaskVerificationFailed task_id keeper => [of_u64 task_id; of_address keeper]
  | VerifierAttached task_id verifier => [of_u64 task_id; of_address verifier]
  | VerifierUpdated task_id old_verifier new_verifier =>
      [of_u64 task_id; of_option old_verifier; of_option new_verifier]
  | StakeDeposited keeper amount new_total => [of_address keeper; of_i128 amount; of_i128 new_total]
  | UnbondInitiated keeper amount unlock_ledger => [of_address keeper; of_i128 amount; of_u32 unlock_ledger]
  | StakeWithdrawn keeper amount => [of_address keeper; of_i128 amount]
  | Slashed slash_id keeper amount reason =>
      [of_u64 slash_id; of_address keeper; of_i128 amount; of_symbol reason]
  | MinStakeUpdated old_min new_min => [of_i128 old_min; of_i128 new_min]
  | SlashAppealRaised slash_id keeper => [of_u64 slash_id; of_address keeper]
  | SlashAppealResolved slash_id upheld => [of_u64 slash_id; of_bool upheld]
  | DisputeWindowUpdated old_ledgers new_ledgers => [of_u32 old_ledgers; of_u32 new_ledgers]
  | ExecutionDisputed task_id keeper => [of_u64 task_id; of_address keeper]
  | ExecutionDisputeResolved task_id upheld => [of_u64 task_id; of_bool upheld]
  | RewardsFinalized keeper task_id amount => [of_address keeper; of_u64 task_id; of_i128 amount]
  | ReputationFloorUpdated old_floor_bps new_floor_bps => [of_u32 old_floor_bps; of_u32 new_floor_bps]
  | OraclePriceConditionSet task_id oracle asset threshold =>
      [of_u64 task_id; of_address oracle; of_symbol asset; of_i128 threshold]
  end.

(** The typed event for a published one, as the decoder yields it. *)
Definition understood (ev : Event) : Decoded KeeperEvent :=
  match ev with
  | TaskRegistered _ _ _ _ _ => inl MalformedPayload
  | TaskClaimed task_id keeper ledger => inr (KTaskClaimed task_id keeper ledger)
  | TaskExecuted task_id keeper net_reward proof => inr (KTaskExecuted task_id keeper net_reward proof)
  | TaskExpired task_id => inr (KTaskExpired task_id)
  | TaskCancelled task_id owner => inr (KTaskCancelled task_id owner)
  | RewardsWithdrawn keeper amount => inr (KRewardsWithdrawn keeper amount)
  | PausedSet paused => inr (KPaused paused)
  | FeesSwept treasury amount remaining => inr (KFeesSwept treasury amount remaining)
  | Initialized admin reward_token fee_bps => inr (KInitialized admin reward_token fee_bps)
  | _ => inl (UnknownTopic (event_topics ev).1 (event_topics ev).2)
  end.

(** Settles the comparison of two topic pairs. *)
Ltac decide_topics :=
  repeat match goal with
  | |- context [bool_decide (?a = ?b)] =>
      first [rewrite (bool_decide_false (a = b)) by done | rewrite (bool_decide_true (a = b)) by done]
  end.

(** Runs the conversions of a published tuple. *)
Ltac convert_fields :=
  unfold tuple1, tuple2, tuple3, tuple4; rewrite ?unpack_vec; cbn;
  repeat (first [rewrite to_of_u64 | rewrite to_of_u32 | rewrite to_of_i128 | rewrite to_of_bool
                |rewrite to_of_address | rewrite to_of_bytes]; cbn).

(** What an SDK consumer sees of each registry event.  Eight kinds decode to
    exactly their published fields; every kind without a typed event is
    reported as unknown under its own topics, never mistaken for another; and a
    task registration never decodes: the registry publishes five fields, the
    decoder expects four. *)
Theorem sdk_decode_exact `{!LawfulScVal} ev :
  decode_event (published_topics ev) (published_value ev) = understood ev.
Proof.
  destruct ev; unfold decode_event, published_topics, published_value; cbn [event_topics fst snd];
    rewrite !to_of_symbol; decide_topics; by convert_fields.
Qed.
End Events.
