(* ===== verification/SdkStream.v ===== *)
(** * SDK: the event stream

    src/rust-sdk/src/stream.rs over the RPC boundary [EventTransport].  [next]
    polls as often as its fuel says; out of fuel it is still polling, which is
    also what a caller that drops the future sees.  Then, over an honest
    transport, what a consumer gets that restarts from its last cursor. *)

From S2P Require Import Prelude Host RegistryTypes SdkRetry SdkEvents.

Section Stream.
Context `{HC : ScValCodec}.

Inductive EventStart := Ledger (l : Z) | Cursor (c : string).

Record EventPageRequest := mkEventPageRequest {
  rq_contract_id : string;
  rq_start_ledger : option Z;
  rq_cursor : option string;
  rq_limit : Z;
}.

Record RawContractEvent := mkRawContractEvent {
  rce_cursor : string;
  rce_topics : list ScVal;
  rce_value : ScVal;
}.

Record EventPage := mkEventPage { pg_events : list RawContractEvent; pg_cursor : string }.

Record StreamEvent := mkStreamEvent { se_cursor : string; se_event : KeeperEvent }.

Inductive EventStreamError :=
  | Rpc (err : RpcCallError unit)
  | Decode (cursor : string) (source : EventDecodeError).

(** [EventTransport::get_events]; [sleep] is the runtime's. *)
Class EventTransport (W : Type) := {
  get_events : EventPageRequest -> W -> (RpcCallError unit + EventPage) * W;
}.

Record RegistryEventStream := mkStream {
  contract_id : string;
  start_ledger : option Z;
  request_cursor : option string;
  current_cursor : option string;
  buffered : list RawContractEvent;
  retry : RetryPolicy;
  page_limit : Z;
  poll_interval : Z;
}.

Definition new_stream (contract_id : string) (start : EventStart) : RegistryEventStream :=
  let (start_ledger, cursor) :=
    match start with Ledger l => (Some l, None) | Cursor c => (None, Some c) end in
  mkStream contract_id start_ledger cursor cursor [] default_policy 100 (2 * NANOS).

Definition with_retry_policy (p : RetryPolicy) (st : RegistryEventStream) : RegistryEventStream :=
  mkStream (contract_id st) (start_ledger st) (request_cursor st) (current_cursor st) (buffered st) p
    (page_limit st) (poll_interval st).

Definition with_page_limit (limit : Z) (st : RegistryEventStream) : RegistryEventStream :=
  mkStream (contract_id st) (start_ledger st) (request_cursor st) (current_cursor st) (buffered st) (retry st)
    (Z.max limit 1) (poll_interval st).

Definition with_poll_interval (interval : Z) (st : RegistryEventStream) : RegistryEventStream :=
  mkStream (contract_id st) (start_ledger st) (request_cursor st) (current_cursor st) (buffered st) (retry st)
    (page_limit st) interval.

Context {W : Type} `{!Runtime W, !EventTransport W}.
Implicit Types (st : RegistryEventStream) (w : W).

Definition request st : EventPageRequest :=
  mkEventPageRequest (contract_id st) (start_ledger st) (request_cursor st) (page_limit st).

(** What [next] returns for an event taken from the buffer. *)
Definition item (raw : RawContractEvent) : EventStreamError + StreamEvent :=
  match decode_event (rce_topics raw) (rce_value raw) with
  | inr event => inr (mkStreamEvent (rce_cursor raw) event)
  | inl source => inl (Decode (rce_cursor raw) source)
  end.

Definition pop (raw : RawContractEvent) (rest : list RawContractEvent) st : RegistryEventStream :=
  mkStream (contract_id st) (start_ledger st) (request_cursor st) (Some (rce_cursor raw)) rest (retry st)
    (page_limit st) (poll_interval st).

(** After a page: an empty one moves the cursor along, any other is buffered. *)
Definition accept (page : EventPage) st : RegistryEventStream :=
  mkStream (contract_id st) None (Some (pg_cursor page))
    (match pg_events page with [] => Some (pg_cursor page) | _ => current_cursor st end)
    (buffered st ++ pg_events page) (retry st) (page_limit st) (poll_interval st).

(** [None]: a panic.  [Some (None, ..)]: still polling. *)
Fixpoint next (fuel : nat) st w : option (option (EventStreamError + StreamEvent) * RegistryEventStream * W) :=
  match buffered st with
  | raw :: rest => Some (Some (item raw), pop raw rest st, w)
  | [] =>
      match fuel with
      | O => Some (None, st, w)
      | S fuel =>
          '(page, w) ← run (get_events (request st)) default_classify (retry st) w;
          match page with
          | inl err => Some (Some (inl (Rpc err)), st, w)
          | inr page =>
              next fuel (accept page st)
                (match pg_events page with [] => sleep (poll_interval st) w | _ => w end)
          end
      end
  end.

(** A consumer's calls of [next], with the patience each has. *)
Fixpoint consume (fuels : list nat) st w : option (list (EventStreamError + StreamEvent) * RegistryEventStream * W) :=
  match fuels with
  | [] => Some ([], st, w)
  | fuel :: fuels =>
      '(r, st, w) ← next fuel st w;
      '(rs, st, w) ← consume fuels st w;
      Some (option_list r ++ rs, st, w)
  end.

(** Restarts: each session begins a stream where the last one's
    [current_cursor] stood. *)
Definition restart (start : EventStart) st : EventStart :=
  match current_cursor st with Some c => Cursor c | None => start end.

Fixpoint sessions (id : string) (start : EventStart) (ss : list (RetryPolicy * list nat)) w :
    option (list (EventStreamError + StreamEvent) * W) :=
  match ss with
  | [] => Some ([], w)
  | (p, fuels) :: ss =>
      '(rs, st, w) ← consume fuels (with_retry_policy p (new_stream id start)) w;
      '(rs', w) ← sessions id (restart start st) ss w;
      Some (rs ++ rs', w)
  end.
End Stream.

(** ** What the stream delivers

    The history of the contract is a list [feed]; a cursor stands for a
    position in it.  [HonestTransport] is what getEvents promises, for any
    mixture of failures, short pages and empty pages. *)

Section Spec.
Context `{HC : ScValCodec} {W : Type} `{!Runtime W, !EventTransport W}.
Implicit Types (st : RegistryEventStream) (w : W) (rq : EventPageRequest).

Context (id : string) (feed : list RawContractEvent) (pos : string -> nat) (from : Z -> nat).

(** Where a request or a stream's starting point is in the history. *)
Definition request_position rq : nat :=
  match rq_cursor rq with
  | Some c => pos c
  | None => match rq_start_ledger rq with Some l => from l | None => O end
  end.

Definition origin (start : EventStart) : nat := match start with Ledger l => from l | Cursor c => pos c end.

(** A page that comes back holds the events at the requested position, as many
    as the node likes, and the cursor after them. *)
Class HonestTransport : Prop := {
  honest_cursor i raw : feed !! i = Some raw -> pos (rce_cursor raw) = S i;
  honest_page rq w page w' :
    rq_contract_id rq = id -> get_events rq w = (inr page, w') ->
    pg_events page `prefix_of` drop (request_position rq) feed /\
    pos (pg_cursor page) = (request_position rq + length (pg_events page))%nat;
}.

(** At most [quiet w <= Q] more calls fail on the way or find nothing new
    before one delivers something, as long as there is something. *)
Class ResponsiveTransport (Q : nat) (quiet : W -> nat) : Prop := {
  quiet_bound w : (quiet w <= Q)%nat;
  quiet_sleep d w : (quiet (sleep d w) <= quiet w)%nat;
  quiet_range r w : (quiet (gen_range r w).2 <= quiet w)%nat;
  quiet_call rq w :
    rq_contract_id rq = id -> (request_position rq < length feed)%nat ->
    match get_events rq w with
    | (inr page, w') => pg_events page = [] -> (quiet w' < quiet w)%nat
    | (inl (Transport _), w') => (quiet w' < quiet w)%nat
    | (inl (Contract _), _) => False
    end;
}.

(** The next event to deliver is number [n]. *)
Record stream_at (start : EventStart) (n : nat) st : Prop := {
  at_id : contract_id st = id;
  at_cursor : n = match current_cursor st with Some c => pos c | None => origin start end;
  at_buffer : buffered st `prefix_of` drop n feed;
  at_request : request_position (request st) = (n + length (buffered st))%nat;
}.

(** Results that carry an event, decoded or not. *)
Definition delivery (r : EventStreamError + StreamEvent) : bool :=
  match r with inl (Rpc _) => false | _ => true end.
Definition deliveries (rs : list (EventStreamError + StreamEvent)) := base.filter (fun r => delivery r = true) rs.

Lemma delivery_item raw : delivery (item raw) = true.
Proof. unfold item. by destruct (decode_event _ _). Qed.

Lemma deliveries_items raws : deliveries (item <$> raws) = item <$> raws.
Proof.
  induction raws as [|raw raws IH]; [done|]. unfold deliveries in *.
  rewrite fmap_cons, (list.filter_cons_True (fun r => delivery r = true)) by apply delivery_item. by f_equal.
Qed.

Lemma deliveries_app rs rs' : deliveries (rs ++ rs') = deliveries rs ++ deliveries rs'.
Proof. apply list.filter_app. Qed.

(** ** Steps of the invariant *)

Lemma stream_at_new p start : stream_at start (origin start) (with_retry_policy p (new_stream id start)).
Proof. destruct start; split; cbn; try done; try apply prefix_nil; unfold request_position; cbn; lia. Qed.

Lemma stream_at_restart start n st : stream_at start n st -> origin (restart start st) = n.
Proof. intros [_ -> _ _]. unfold restart. by destruct (current_cursor st). Qed.

Context `{HT : !HonestTransport}.

Lemma prefix_drop_cons raw rest n :
  (raw :: rest : list RawContractEvent) `prefix_of` drop n feed -> feed !! n = Some raw /\ rest `prefix_of` drop (S n) feed.
Proof.
  intros [k Hk]. assert (feed !! n = Some raw) as Hn.
  { replace n with (n + 0)%nat by lia. rewrite <- lookup_drop, Hk. done. }
  split; [done|]. exists k. rewrite (drop_S _ _ _ Hn) in Hk. by injection Hk.
Qed.

Lemma stream_at_pop start n raw rest st :
  stream_at start n st -> buffered st = raw :: rest ->
  feed !! n = Some raw /\ stream_at start (S n) (pop raw rest st).
Proof.
  intros [Hid _ Hb Hr] Hbuf. rewrite Hbuf in Hb, Hr. apply prefix_drop_cons in Hb as [Hn Hb].
  split; [done|]. split; cbn; [done | by rewrite (honest_cursor n raw) | done |].
  cbn in Hr. unfold request_position in *. cbn in *. lia.
Qed.

Lemma stream_at_accept start n st w w' page :
  stream_at start n st -> buffered st = [] -> get_events (request st) w = (inr page, w') ->
  stream_at start n (accept page st).
Proof.
  intros [Hid Hc _ Hr] Hbuf Hget.
  destruct (honest_page (request st) w page w' Hid Hget) as [Hp Hpos].
  rewrite Hbuf in Hr. cbn in Hr. rewrite Nat.add_0_r in Hr. rewrite Hr in Hp, Hpos.
  split; cbn; rewrite ?Hbuf; cbn; try done.
  destruct (pg_events page); [cbn in Hpos; lia | done].
Qed.

(** ** The operations *)

Lemma next_spec start fuel : forall n st w,
  is_policy (retry st) -> stream_at start n st ->
  exists r st' w' n', next fuel st w = Some (r, st', w') /\ retry st' = retry st /\ (n <= n')%nat /\
    stream_at start n' st' /\ deliveries (option_list r) = item <$> take (n' - n) (drop n feed).
Proof.
  induction fuel as [|fuel IH]; intros n st w Hp Hat; cbn [next];
    (destruct (buffered st) as [|raw rest] eqn:Hbuf;
     [|destruct (stream_at_pop _ _ _ _ _ Hat Hbuf) as [Hn Hat'];
       eexists _, _, _, (S n); split_and!; [done | done | lia | done |];
       replace (S n - n)%nat with 1%nat by lia; rewrite (drop_S _ _ _ Hn);
       exact (deliveries_items [raw])]).
  - exists None, st, w, n. split_and!; try done. by rewrite Nat.sub_diag.
  - destruct (run_outcome (get_events (request st)) default_classify (retry st) w Hp) as (r & w1 & Hrun & w0 & Hop).
    rewrite Hrun. cbn. destruct r as [err|page].
    + eexists _, _, _, n. split_and!; try done. rewrite Nat.sub_diag. done.
    + apply (IH n (accept page st)); [done | by eapply stream_at_accept].
Qed.

Lemma take_split {A} (l : list A) n n' n'' :
  (n <= n')%nat -> (n' <= n'')%nat ->
  take (n' - n) (drop n l) ++ take (n'' - n') (drop n' l) = take (n'' - n) (drop n l).
Proof.
  intros. replace (n'' - n)%nat with ((n' - n) + (n'' - n'))%nat by lia.
  rewrite <- (take_take_drop (drop n l)), drop_drop. do 3 f_equal; lia.
Qed.

Lemma consume_spec start fuels : forall n st w,
  is_policy (retry st) -> stream_at start n st ->
  exists rs st' w' n', consume fuels st w = Some (rs, st', w') /\ (n <= n')%nat /\
    stream_at start n' st' /\ deliveries rs = item <$> take (n' - n) (drop n feed).
Proof.
  induction fuels as [|fuel fuels IH]; intros n st w Hp Hat; cbn [consume].
  - exists [], st, w, n. split_and!; try done. by rewrite Nat.sub_diag.
  - destruct (next_spec start fuel n st w Hp Hat) as (r & st1 & w1 & n1 & -> & Hr1 & Hn1 & Hat1 & Hd1). cbn.
    destruct (IH n1 st1 w1 ltac:(by rewrite Hr1) Hat1) as (rs & st2 & w2 & n2 & -> & Hn2 & Hat2 & Hd2). cbn.
    eexists _, _, _, n2. split_and!; [done | lia | done |].
    rewrite deliveries_app, Hd1, Hd2, <- fmap_app. by rewrite take_split.
Qed.

Lemma sessions_spec ss : forall start w,
  Forall is_policy ss.*1 ->
  exists rs w' n', sessions id start ss w = Some (rs, w') /\ (origin start <= n')%nat /\
    deliveries rs = item <$> take (n' - origin start) (drop (origin start) feed).
Proof.
  induction ss as [|[p fuels] ss IH]; intros start w Hps; cbn [sessions].
  - exists [], w, (origin start). split_and!; try done. by rewrite Nat.sub_diag.
  - cbn in Hps. apply list.Forall_cons in Hps as [Hp Hps].
    destruct (consume_spec start fuels _ (with_retry_policy p (new_stream id start)) w Hp (stream_at_new p start))
      as (rs & st & w1 & n1 & -> & Hn1 & Hat & Hd). cbn.
    destruct (IH (restart start st) w1 Hps) as (rs' & w2 & n2 & -> & Hn2 & Hd2). cbn.
    rewrite (stream_at_restart _ _ _ Hat) in Hn2, Hd2.
    eexists _, _, n2. split_and!; [done | lia |]. by rewrite deliveries_app, Hd, Hd2, <- fmap_app, take_split.
Qed.

(** ** Progress *)

Context (Q : nat) (quiet : W -> nat) `{HR : !ResponsiveTransport Q quiet}.

Lemma delay_quiet p attempt w d w' : delay_for p attempt w = Some (d, w') -> (quiet w' <= quiet w)%nat.
Proof.
  unfold delay_for. pose proof (quiet_range (Z.max (jitter_max p - jitter_min p) 1) w) as Hq.
  destruct (gen_range _ w) as [s w1]; cbn in Hq.
  case_bool_decide; [destruct (add_d _ _)|]; cbn; try done; intros [= _ <-]; [done | lia].
Qed.

(** A fetch at an undelivered position gets a page. *)
Lemma fetch_progress rq p fuel : forall i w,
  is_policy p -> rq_contract_id rq = id -> (request_position rq < length feed)%nat ->
  (quiet w < fuel)%nat -> Z.of_nat i + Z.of_nat (quiet w) < max_attempts p ->
  exists page w', run_from (get_events rq) default_classify p fuel (Z.of_nat i) w = Some (inr page, w') /\
    (pg_events page = [] -> (quiet w' < quiet w)%nat).
Proof.
  induction fuel as [|fuel IH]; intros i w Hp Hid Hpos Hf Hm; [lia|]. cbn [run_from].
  pose proof (quiet_call rq w Hid Hpos) as Hq. destruct (get_events rq w) as [[err|page] w1]; [|by exists page, w1].
  destruct err as [e|[]]; [|done]. cbn [default_classify is_permanent orb].
  rewrite bool_decide_false by lia.
  destruct (delay_for_total p (Z.of_nat i) w1 Hp ltac:(lia)) as (d & w2 & Hd & _).
  rewrite Hd. cbn. apply delay_quiet in Hd. pose proof (quiet_sleep d w2) as Hs.
  replace (Z.of_nat i + 1) with (Z.of_nat (S i)) by lia.
  destruct (IH (S i) (sleep d w2) Hp Hid Hpos ltac:(lia) ltac:(lia)) as (page & w' & Hrun & Hw').
  exists page, w'. split; [done|]. intros He. specialize (Hw' He). lia.
Qed.

Lemma next_progress start fuel : forall n st w,
  is_policy (retry st) -> Z.of_nat Q < max_attempts (retry st) -> stream_at start n st ->
  (n < length feed)%nat -> (quiet w < fuel)%nat ->
  exists raw st' w', next fuel st w = Some (Some (item raw), st', w') /\ retry st' = retry st /\
    feed !! n = Some raw /\ stream_at start (S n) st'.
Proof.
  induction fuel as [|fuel IH]; intros n st w Hp HQ Hat Hn Hf; [lia|]. cbn [next].
  destruct (buffered st) as [|raw rest] eqn:Hbuf.
  2:{ destruct (stream_at_pop _ _ _ _ _ Hat Hbuf) as [Hraw Hat']. by eexists raw, _, _. }
  pose proof Hat as [Hid _ _ Hr]. rewrite Hbuf in Hr. cbn [length] in Hr. rewrite Nat.add_0_r in Hr.
  pose proof (quiet_bound w) as Hqw.
  destruct (fetch_progress (request st) (retry st) (S (Z.to_nat (max_attempts (retry st)))) 0 w Hp Hid
              ltac:(lia) ltac:(lia) ltac:(lia)) as (page & w1 & Hrun & Hw1).
  destruct (run_outcome (get_events (request st)) default_classify (retry st) w Hp) as (r & w1' & Hrun' & w0 & Hop).
  assert (run (get_events (request st)) default_classify (retry st) w = Some (inr page, w1)) as Hrun0 by exact Hrun.
  rewrite Hrun0 in Hrun'. injection Hrun' as <- <-. rewrite Hrun0. cbn.
  pose proof (stream_at_accept _ _ _ _ _ _ Hat Hbuf Hop) as Hat'.
  destruct (pg_events page) as [|raw rest] eqn:Hev.
  - specialize (Hw1 eq_refl). pose proof (quiet_sleep (poll_interval st) w1).
    apply (IH n (accept page st)); [done.. | lia].
  - assert (buffered (accept page st) = raw :: rest) as Hbuf' by (cbn; by rewrite Hbuf, Hev).
    destruct (stream_at_pop _ _ _ _ _ Hat' Hbuf') as [Hraw Hat''].
    exists raw, (pop raw rest (accept page st)), w1. split_and!; [|done..]. destruct fuel; cbn [next]; by rewrite Hbuf'.
Qed.

Lemma consume_progress start fuels : forall n st w,
  is_policy (retry st) -> Z.of_nat Q < max_attempts (retry st) -> stream_at start n st ->
  (n + length fuels <= length feed)%nat -> Forall (fun f => Q < f)%nat fuels ->
  exists st' w', consume fuels st w = Some (item <$> take (length fuels) (drop n feed), st', w').
Proof.
  induction fuels as [|fuel fuels IH]; intros n st w Hp HQ Hat Hlen Hf; cbn [consume]; [by eexists _, _|].
  apply list.Forall_cons in Hf as [Hf Hfs]. cbn in Hlen. pose proof (quiet_bound w).
  destruct (next_progress start fuel n st w Hp HQ Hat ltac:(lia) ltac:(lia)) as (raw & st1 & w1 & -> & Hr1 & Hraw & Hat1).
  cbn. destruct (IH (S n) st1 w1 ltac:(by rewrite Hr1) ltac:(by rewrite Hr1) Hat1 ltac:(lia) Hfs) as (st2 & w2 & ->).
  cbn. rewrite (drop_S _ _ _ Hraw). by eexists _, _.
Qed.

(** C9: the event stream delivers every event exactly once, in order.  Over any
    number of restarts from the saved cursor, any retry policies, any failures,
    empty pages and calls given up half-way, no call panics and the items
    delivered - decoded, or reported undecodable - are exactly the events that
    follow the starting point, without a gap, a repetition or a reordering.  And
    when the node never fails or comes back empty more than [Q] times in a row,
    [Q + 1] attempts and as many polls make every call deliver. *)
Theorem stream_exactly_once start w :
  (forall ss, Forall is_policy ss.*1 ->
     exists rs w' m, sessions id start ss w = Some (rs, w') /\
       deliveries rs = item <$> take m (drop (origin start) feed)) /\
  forall p fuels, is_policy p -> Z.of_nat Q < max_attempts p -> Forall (fun f => Q < f)%nat fuels ->
    (origin start + length fuels <= length feed)%nat ->
    exists st' w', consume fuels (with_retry_policy p (new_stream id start)) w =
      Some (item <$> take (length fuels) (drop (origin start) feed), st', w').
Proof.
  split.
  - intros ss Hps. destruct (sessions_spec ss start w Hps) as (rs & w' & n' & Hs & _ & Hd). by exists rs, w', (n' - origin start)%nat.
  - intros p fuels Hp HQ Hf Hlen.
    by apply (consume_progress start fuels _ (with_retry_policy p (new_stream id start)) w Hp HQ (stream_at_new p start)).
Qed.
End Spec.
