(* ===== verification/IndexerRpc.v ===== *)
(** * Indexer: the JSON-RPC client

    src/indexer/src/rpc.rs: the [EventSource] that talks to a Soroban RPC
    node.  HTTP, JSON, XDR, hex and RFC 3339 are interfaces.  Then what
    the registry publishes, decoded; and the walk of backfill.rs over this client
    and a node that answers as documented. *)

From Stdlib Require Import Ascii Sorted.
From S2P Require Import Prelude RustText Host RegistryTypes IndexerEvents IndexerWire IndexerState IndexerAddress IndexerReorg IndexerProgress IndexerStore IndexerStoreSpec IndexerIngest IndexerIngestSpec IndexerBackfill SdkEvents.

(** ** XDR values *)

Inductive ScAddress := ScAccount (key : Bytes) | ScContract (hash : Bytes).

(** The cases the client tells apart; [ScOther] is any of the rest. *)
#[warnings="-register-all"]
Inductive ScVal :=
  | ScVoid
  | ScU32 (v : Z)
  | ScU64 (v : Z)
  | ScI128 (hi lo : Z)
  | ScBool (v : bool)
  | ScAddr (a : ScAddress)
  | ScBytes (b : Bytes)
  | ScSymbol (s : string)
  | ScVec (vs : option (list ScVal))
  | ScOther.

(** What the client takes from stellar-xdr, hex and chrono. *)
Class Encodings := {
  from_xdr_base64 : string -> option ScVal;
  xdr_base64 : ScVal -> string;
  from_to_base64 v : from_xdr_base64 (xdr_base64 v) = Some v;
  hex : Bytes -> string;
  parse_from_rfc3339 : string -> option Z;
}.

Inductive RpcError :=
  | TransportFailure (method : string)
  | HttpStatus (status : Z) (method : string)
  | NotJson (method : string)
  | RpcErrorMember (method : string)
  | NoResult (method : string)
  | Unhealthy (status : option string)
  | UnexpectedShape
  | NoSequence
  | NotXdr (b64 : string)
  | NotASymbol (got : ScVal)
  | UnexpectedValue (got : ScVal)
  | NotAVec (got : ScVal)
  | UnparseableTime (id : string).

Abbreviation R := (sum RpcError).

Definition or_err {A} (o : option A) (e : RpcError) : R A := match o with Some a => inr a | None => inl e end.

(** ** Events *)

(** One event as [getEvents] serves it, and the page around it. *)
Record RawRpcEvent := mkRawRpcEvent {
  rpc_id : string;
  rpc_ledger : Z;
  rpc_ledger_closed_at : string;
  rpc_tx_hash : string;
  rpc_topic : list string;
  rpc_value : string;
}.

Record RawEventsPage := mkRawEventsPage { rp_events : list RawRpcEvent; rp_latest_ledger : Z }.

(** [ScVal::Symbol] in a payload: the arm of decode_scval (rpc.rs:210) wraps the
    [Result] of [decode_symbol] and does not type-check, so what it makes of the
    symbol's text is left open. *)
Class SymbolArm := symbol_arm : string -> R RawValue.

Section Decode.
Context `{Strkey} `{Encodings} `{SymbolArm}.

Definition event_index_from_id (id : string) : Z := from_option Datatypes.id 0 (parse_uint u32 (rsplit_first "-" id)).

Definition decode_symbol (b64 : string) : R string :=
  v ← or_err (from_xdr_base64 b64) (NotXdr b64);
  match v with ScSymbol s => mret s | other => inl (NotASymbol other) end.

Definition decode_address (addr : ScAddress) : string :=
  let raw := match addr with ScAccount key => account_to_string key | ScContract h => contract_to_string h end in
  normalized_or_as_given raw.

Definition decode_scval (v : ScVal) : R RawValue :=
  match v with
  | ScVoid => mret Void
  | ScU32 v => mret (U32 v)
  | ScU64 v => mret (U64 v)
  | ScI128 hi lo => mret (I128 (Z.lor (Z.shiftl hi 64) lo))
  | ScBool v => mret (Bool v)
  | ScAddr a => mret (AddressV (decode_address a))
  | ScBytes b => mret (BytesV (hex b))
  | ScSymbol s => symbol_arm s
  | other => inl (UnexpectedValue other)
  end.

Definition decode_values (b64 : string) : R (list RawValue) :=
  v ← or_err (from_xdr_base64 b64) (NotXdr b64);
  match v with ScVec (Some vs) => mapM decode_scval vs | other => inl (NotAVec other) end.

Definition decode_event (raw : RawRpcEvent) : R RawEvent :=
  topics ← mapM decode_symbol (rpc_topic raw);
  values ← decode_values (rpc_value raw);
  time ← or_err (parse_from_rfc3339 (rpc_ledger_closed_at raw)) (UnparseableTime (rpc_id raw));
  mret (mkRawEvent (rpc_ledger raw) time (rpc_tx_hash raw) (event_index_from_id (rpc_id raw)) topics values).
End Decode.

(** ** The client *)

Inductive Params :=
  | NoParams
  | GetEventsParams (start_ledger : Z) (contract_id : string) (limit : Z).

(** A JSON value, as far as the client looks into it, and the node: what it
    answers to the [n]-th request - nothing, or a status and a body. *)
Class RpcNode := {
  Value : Type;
  get : string -> Value -> option Value;
  as_str : Value -> option string;
  as_u64_value : Value -> option Z;
  as_events_page : Value -> option RawEventsPage;
  post : nat -> string -> Params -> option (Z * option Value);
}.

Section Client.
Context `{Strkey} `{Encodings} `{SymbolArm} `{RpcNode}.

Definition call (n : nat) (method : string) (params : Params) : R Value :=
  '(status, body) ← or_err (post n method params) (TransportFailure method);
  if negb (bool_decide (200 <= status < 300)) then inl (HttpStatus status method)
  else
    envelope ← or_err body (NotJson method);
    match get "error" envelope with
    | Some _ => inl (RpcErrorMember method)
    | None => or_err (get "result" envelope) (NoResult method)
    end.

Definition get_health (n : nat) : R unit :=
  result ← call n "getHealth" NoParams;
  let status := v ← get "status" result; as_str v in
  if bool_decide (status = Some "healthy"%string) then mret tt else inl (Unhealthy status).

Definition rpc_get_events (n : nat) (contract_id : string) (start_ledger limit : Z) : R SourcePage :=
  result ← call n "getEvents" (GetEventsParams start_ledger contract_id limit);
  page ← or_err (as_events_page result) UnexpectedShape;
  events ← mapM decode_event (rp_events page);
  mret (mkSourcePage events (rp_latest_ledger page)).

Definition rpc_latest_ledger (n : nat) : R Z :=
  result ← call n "getLatestLedger" NoParams;
  or_err (as_u32 <$> (v ← get "sequence" result; as_u64_value v)) NoSequence.

Definition ok_of {A} (r : R A) : option A := match r with inr a => Some a | inl _ => None end.

Instance http_source : EventSource := {|
  get_events n c from limit := ok_of (rpc_get_events n c from limit);
  latest_ledger n := ok_of (rpc_latest_ledger n);
|}.
End Client.

(** ** What the registry publishes, in XDR *)

(** The registry's values as XDR; [sc_address] is the ledger's own address. *)
Section Published.
Context (sc_address : Address -> ScAddress) (address_of : ScAddress -> option Address).

Definition unpack_sc (n : nat) (v : ScVal) : option (list ScVal) :=
  match v with ScVec (Some vs) => if Nat.eqb (length vs) n then Some vs else None | _ => None end.

Definition xdr_codec : ScValCodec := {|
  SdkEvents.ScVal := ScVal;
  of_u32 := ScU32;
  of_u64 := ScU64;
  of_i128 z := ScI128 (Z.shiftr z 64) (Z.land z (Z.ones 64));
  of_bool := ScBool;
  of_address a := ScAddr (sc_address a);
  of_bytes := ScBytes;
  of_symbol := ScSymbol;
  of_void := ScVoid;
  of_vec vs := ScVec (Some vs);
  to_u32 v := match v with ScU32 z => Some z | _ => None end;
  to_u64 v := match v with ScU64 z => Some z | _ => None end;
  to_i128 v := match v with ScI128 hi lo => Some (Z.lor (Z.shiftl hi 64) lo) | _ => None end;
  to_bool v := match v with ScBool b => Some b | _ => None end;
  to_address v := match v with ScAddr a => address_of a | _ => None end;
  to_bytes v := match v with ScBytes b => Some b | _ => None end;
  to_symbol v := match v with ScSymbol s => Some s | _ => None end;
  unpack := unpack_sc;
|}.

Lemma i128_parts z : Z.lor (Z.shiftl (Z.shiftr z 64) 64) (Z.land z (Z.ones 64)) = z.
Proof.
  apply Z.bits_inj'. intros n Hn. rewrite Z.lor_spec, Z.land_spec, Z.shiftl_spec by lia.
  destruct (decide (n < 64)).
  - rewrite Z.testbit_neg_r by lia. rewrite Z.ones_spec_low by lia. by rewrite andb_true_r.
  - rewrite Z.shiftr_spec by lia. rewrite Z.ones_spec_high by lia. rewrite andb_false_r, orb_false_r. f_equal. lia.
Qed.

Lemma xdr_lawful : (forall a, address_of (sc_address a) = Some a) -> LawfulScVal (H := xdr_codec).
Proof.
  intros Ha. split; cbn; try done. intros z. by rewrite i128_parts.
Qed.
End Published.

Section Rpc.
Context `{HS : Strkey} `{HE : Encodings} `{HA : SymbolArm} (sc_address : Address -> ScAddress) (address_of : ScAddress -> option Address).
#[local] Instance published_codec : ScValCodec := xdr_codec sc_address address_of.

(** Addresses and bytes as the client renders them. *)
#[local] Instance rpc_encoding : Encoding := {|
  strkey a := decode_address (sc_address a);
  hex_encode := hex;
|}.

(** A symbol in the payload: the reason of a slash, the asset of a feed. *)
Definition payload_symbol (ev : Event) : option Symbol :=
  match ev with
  | Slashed _ _ _ reason => Some reason
  | OraclePriceConditionSet _ _ asset _ => Some asset
  | _ => None
  end.

(** The event as the node serves it. *)
Definition served_event (id tx_hash closed_at : string) (ledger : Z) (ev : Event) : RawRpcEvent :=
  mkRawRpcEvent id ledger closed_at tx_hash (xdr_base64 <$> published_topics ev)
    (xdr_base64 (published_value ev)).

Lemma decode_symbol_ok s : decode_symbol (xdr_base64 (ScSymbol s)) = inr s.
Proof. unfold decode_symbol. by rewrite from_to_base64. Qed.

Lemma decode_values_ok vs : decode_values (xdr_base64 (ScVec (Some vs))) = mapM decode_scval vs.
Proof. unfold decode_values. by rewrite from_to_base64. Qed.

Lemma decode_option o : decode_scval (of_option o) = inr (option_value o).
Proof. by destruct o. Qed.

Lemma decode_topics ev :
  mapM decode_symbol (xdr_base64 <$> published_topics ev) = inr [(event_topics ev).1; (event_topics ev).2].
Proof. unfold published_topics. cbn. by rewrite !decode_symbol_ok. Qed.

(** The arm of symbols keeps the symbol this event has, if it has one. *)
Definition keeps_symbol (ev : Event) : Prop :=
  forall sym, payload_symbol ev = Some sym -> symbol_arm sym = inr (SymbolV sym).

Lemma decode_published ev :
  keeps_symbol ev -> decode_values (xdr_base64 (published_value ev)) = inr (event_values ev).
Proof.
  intros Hs. unfold published_value. cbn [of_vec published_codec xdr_codec]. rewrite decode_values_ok.
  destruct ev; cbn [payload_symbol] in Hs; cbn -[of_option Z.shiftl Z.shiftr Z.land Z.ones];
    rewrite ?decode_option, ?i128_parts; cbn -[of_option Z.shiftl Z.shiftr Z.land Z.ones];
    rewrite ?decode_option, ?(Hs _ eq_refl); reflexivity.
Qed.

Lemma decode_published_symbol ev sym e :
  payload_symbol ev = Some sym -> symbol_arm sym = inl e ->
  decode_values (xdr_base64 (published_value ev)) = inl e.
Proof.
  intros Hs Hx. unfold published_value. cbn [of_vec published_codec xdr_codec]. rewrite decode_values_ok.
  destruct ev; cbn [payload_symbol] in Hs; try discriminate Hs; injection Hs as ->; cbn; by rewrite Hx.
Qed.

(** C39: what the RPC client makes of the registry's events.  An event served in
    XDR, if it carries no symbol in its payload, decodes to exactly the topics
    and fields the registry published - 128-bit amounts put together from their
    halves, addresses in canonical form.  Two events do carry one, the reason of
    a slash and the asset of an oracle feed; what becomes of it is up to an arm
    of decode_scval that does not type-check: whatever it does, these events
    decode as well if it keeps the symbol, and one it refuses takes the whole
    page with it. *)
Theorem rpc_roundtrip id tx_hash closed_at ledger time ev :
  parse_from_rfc3339 closed_at = Some time ->
  (keeps_symbol ev ->
   exists raw, decode_event (served_event id tx_hash closed_at ledger ev) = inr raw /\ carries raw ev /\
     re_ledger raw = ledger /\ re_ledger_close_time raw = time /\ re_tx_hash raw = tx_hash) /\
  (payload_symbol ev = None -> keeps_symbol ev) /\
  (forall sym e, payload_symbol ev = Some sym -> symbol_arm sym = inl e ->
   forall pre post, exists e, mapM decode_event (pre ++ served_event id tx_hash closed_at ledger ev :: post) = inl e).
Proof.
  intros Ht. assert (forall vs, decode_values (rpc_value (served_event id tx_hash closed_at ledger ev)) = vs ->
    decode_event (served_event id tx_hash closed_at ledger ev) =
    (values ← vs; mret (mkRawEvent ledger time tx_hash (event_index_from_id id)
       [(event_topics ev).1; (event_topics ev).2] values))) as Hdec.
  { intros vs Hvs. unfold decode_event. rewrite Hvs. cbn [served_event rpc_topic rpc_ledger_closed_at rpc_id rpc_ledger rpc_tx_hash].
    rewrite decode_topics, Ht. done. }
  split; [|split].
  - intros Hs. rewrite (Hdec _ (decode_published _ Hs)). by eexists.
  - intros Hs sym. by rewrite Hs.
  - intros sym e0 Hs Hx pre post. pose proof (Hdec _ (decode_published_symbol _ _ _ Hs Hx)) as He.
    induction pre as [|raw pre [e IH]]; cbn [mapM app].
    + rewrite He. by eexists.
    + destruct (decode_event raw) as [e'|]; [by eexists|]. cbn in *. rewrite IH. by eexists.
Qed.
End Rpc.

(** ** Backfill over the client

    [run_to_tip] on a node that answers getEvents as its documentation says: at
    most [limit] events from [startLedger] on, and as [latestLedger] the last
    ledger the node knows - which the client hands on as the last ledger the
    page covers. *)

Lemma sorted_sublist {A} (R : A -> A -> Prop) l l' :
  l `sublist_of` l' -> StronglySorted R l' -> StronglySorted R l.
Proof.
  induction 1 as [|x l l' Hl IH|x l l' Hl IH]; intros Hs; [done|..]; apply StronglySorted_inv in Hs as [Hs Hx]; [|by apply IH].
  constructor; [by apply IH|]. rewrite list.Forall_forall in Hx |- *. intros y Hy. apply Hx. by eapply elem_of_sublist.
Qed.

Section RpcBackfill.
Context `{JsonCodec} `{Strkey} `{ValuesCodec} `{Encodings} `{SymbolArm} `{RpcNode}.
Implicit Types (w : World).
Context (contract_id : string) (rpc_history : list RawRpcEvent) (tip : Z).

Definition replies (n : nat) (method : string) (params : Params) (result : Value) : Prop :=
  exists envelope, post n method params = Some (200, Some envelope) /\
    get "error" envelope = None /\ get "result" envelope = Some result.

(** A node that answers, its chain standing still at [tip]. *)
Record documented_node : Prop := {
  node_events n from limit : exists result,
    replies n "getEvents" (GetEventsParams from contract_id limit) result /\
    as_events_page result =
      Some (mkRawEventsPage (take (Z.to_nat limit) (filter (fun e => from <= rpc_ledger e) rpc_history)) tip);
  node_latest n : exists result v,
    replies n "getLatestLedger" NoParams result /\ get "sequence" result = Some v /\ as_u64_value v = Some tip;
}.

Lemma call_replies n method params result : replies n method params result -> call n method params = inr result.
Proof. intros (env & Hp & He & Hr). unfold call. rewrite Hp. cbn. by rewrite He, Hr. Qed.

(** ** Pages *)

Definition decodes (raw : RawRpcEvent) (e : RawEvent) : Prop := decode_event raw = inr e.

Lemma decodes_ledger raw e : decodes raw e -> re_ledger e = rpc_ledger raw.
Proof.
  unfold decodes, decode_event. destruct (mapM _ _); [done|]. cbn. destruct (decode_values _); [done|]. cbn.
  destruct (parse_from_rfc3339 _); [|done]. cbn. by intros [= <-].
Qed.

Lemma decode_all raws es : Forall2 decodes raws es -> mapM decode_event raws = inr es.
Proof. induction 1 as [|raw e raws es Hd _ IH]; [done|]. cbn. unfold decodes in Hd. rewrite Hd. cbn. by rewrite IH. Qed.

Lemma decodes_from from raws es :
  Forall2 decodes raws es -> Forall2 decodes (filter (fun e => from <= rpc_ledger e) raws) (from_ledger from es).
Proof.
  unfold from_ledger. induction 1 as [|raw e raws es Hd _ IH]; [done|]. rewrite !filter_cons.
  rewrite (decodes_ledger _ _ Hd). case_decide; [by constructor | done].
Qed.

Section Run.
Context (history : list RawEvent) (page_size start : Z).
Hypothesis Hnode : documented_node.
Hypothesis Hdecodes : Forall2 decodes rpc_history history.
Hypothesis Hhistory : honest_history history.
Hypothesis Htip : 0 <= tip < 2 ^ 32 - 1.
Hypothesis Hstart : 0 <= start <= tip.
Hypothesis Hpage : 1 <= page_size < 2 ^ 32.
#[local] Existing Instance http_source.

Definition first_page : list RawEvent := take (Z.to_nat page_size) (from_ledger start history).

Lemma page_served n : get_events n contract_id start page_size = Some (mkSourcePage first_page tip).
Proof.
  destruct (node_events Hnode n start page_size) as (result & Hr & Hpg).
  cbn. unfold rpc_get_events. rewrite (call_replies _ _ _ _ Hr). cbn. rewrite Hpg. cbn.
  rewrite (decode_all _ first_page); [done|]. by apply Forall2_take, decodes_from.
Qed.

Lemma tip_served n : latest_ledger n = Some tip.
Proof.
  destruct (node_latest Hnode n) as (result & v & Hr & Hs & Hv).
  cbn. unfold rpc_latest_ledger. rewrite (call_replies _ _ _ _ Hr). cbn. rewrite Hs. cbn. rewrite Hv. cbn.
  unfold as_u32. by rewrite Z.mod_small by lia.
Qed.

Lemma first_page_sublist : first_page `sublist_of` history.
Proof. etransitivity; [apply sublist_take | apply sublist_filter]. Qed.

Lemma first_page_honest : honest_history first_page.
Proof.
  split.
  - eapply sorted_sublist; [apply first_page_sublist | apply Hhistory].
  - eapply sublist_NoDup; [apply Hhistory|]. apply fmap_sublist, first_page_sublist.
  - apply Forall_take, Forall_filter, Hhistory.
Qed.

(** One page is all there is: it claims to reach the tip. *)
Lemma walk_first_page w report :
  faults w = [] -> holds (db w) [] -> d_sequence (db w) = 0 -> d_fingerprints (db w) = ∅ ->
  exists r w', walk contract_id page_size (walk_fuel start tip) start tip report w = Ok r w' /\
    b_last_ledger r = tip /\ b_pages r = b_pages report + 1 /\
    d_checkpoint (db w') = Some (mkCheckpoint tip true) /\ holds (db w') (recognised first_page).
Proof.
  intros Hf Hh Hseq Hfp. pose proof first_page_honest as Hp.
  assert (Z.of_nat (length first_page) <= 2 ^ 32) as Hshort.
  { unfold first_page. rewrite length_take. lia. }
  assert (walk_fuel start tip = S (Z.to_nat (tip - start))) as -> by (unfold walk_fuel; lia).
  cbn [walk]. rewrite bool_decide_true by lia.
  assert (wp (walk_page contract_id page_size start tip report) w
    (fun r w' => r = (with_last_ledger tip r.1, tip + 1) /\ b_pages r.1 = b_pages report + 1 /\
       d_checkpoint (db w') = Some (mkCheckpoint tip true) /\ holds (db w') (recognised first_page))
    (fun _ => False)) as Hwp.
  { unfold walk_page. apply wp_bind. unfold request. apply wp_bind, wp_gets, wp_bind, wp_modify.
    apply (wp_ok_or _ _ (mkSourcePage first_page tip)); [apply page_served|]. cbn [sp_events latest_ledger_scanned].
    set (w1 := w <| requests ::= S |>). apply wp_bind. eapply wp_mono.
    { apply (check_page_spec False first_page first_page w1 w1); [|done]. split_and!; try done; [by right|].
      intros l row. cbn. by rewrite Hfp, lookup_empty. }
    2: by intros w' [? _].
    intros [] w2 (Hc2 & He2 & Hs2 & _). apply wp_bind. eapply wp_mono.
    { apply (ingest_segment False (recognised first_page)
        ltac:(rewrite recognised_keys; apply NoDup_fmap_filter, Hp)
        first_page [] [] 0 0 w2 w2); [apply Hp | by rewrite app_nil_r | done | |right; cbn; lia].
      split_and!; [done..| | |right; done].
      - unfold holds, cursors in *. rewrite He2, Hs2. cbn. exact Hh.
      - rewrite Hs2. cbn. lia. }
    2: by intros w' [? _].
    intros outcome w3 (n' & _ & Hn' & Hc3 & _ & Hh3 & _). cbn [app] in Hn'. rewrite take_ge in Hh3 by done.
    assert (Z.max tip (Z.min (saturating_add u32 start (page_size - 1)) tip) = tip) as -> by lia.
    rewrite bool_decide_true by lia. apply wp_bind, (wp_execute False); [done | | done].
    intros w4 [fs ->] Hc4. apply wp_bind, wp_modify, wp_ret. cbn [fst].
    assert (saturating_add u32 tip 1 = tip + 1) as -> by (unfold saturating_add, clamp; cbn; lia).
    by split_and!. }
  unfold mbind, M_bind, wp in *. destruct (walk_page _ _ _ _ _ _) as [[r next] w'| |]; [|done..].
  destruct Hwp as ([= Hr Hnext] & Hpg & Hcp & Hh'). cbn [fst snd] in *. subst next.
  assert (forall fuel, walk contract_id page_size fuel (tip + 1) tip r w' = Ok r w') as ->.
  { intros [|fuel]; cbn [walk]; by rewrite bool_decide_false by lia. }
  exists r, w'. split_and!; try done. by rewrite Hr.
Qed.

(** Over a node that behaves as documented, a first backfill reads one page
    and no more.  The node's [latestLedger] is the tip of the chain, the client
    passes it on as the last ledger the page covers, and the walk ends: the run
    succeeds, the checkpoint says that everything up to the tip is in, and the
    store holds the events of the first [page_size] of the history only, however
    many follow; they are not asked for again. *)
Theorem rpc_backfill_one_page :
  exists r w', run_to_tip contract_id page_size start fresh = Ok r w' /\
    b_pages r = 1 /\ b_last_ledger r = tip /\ d_checkpoint (db w') = Some (mkCheckpoint tip true) /\
    holds (db w') (recognised (take (Z.to_nat page_size) (from_ledger start history))).
Proof.
  unfold run_to_tip, resume_ledger, checkpoint, mbind, M_bind. rewrite query_ok by done. cbn -[walk tip_served latest_ledger].
  unfold request, gets, modify, mbind, M_bind. rewrite tip_served. cbn -[walk latest_ledger].
  match goal with |- context [walk _ _ _ _ _ ?rep ?w] => destruct (walk_first_page w rep) as (r & w' & -> & Hl & Hp & Hc & Hh) end; try done; [apply holds_empty|].
  cbn in Hp. rewrite bool_decide_false by lia. unfold mret, M_ret. by eexists _, _.
Qed.
End Run.
End RpcBackfill.
