(* ===== verification/SdkClient.v ===== *)
(** * SDK: the RPC client

    [KeeperRegistryClient] of src/rust-sdk/src/client.rs: simulate, sign,
    submit, decode.  The transport and the signer act on the outside world [W];
    XDR values and the debug form of arguments are interfaces. *)

From stdpp Require Import pretty.
From S2P Require Import Prelude Host RegistryTypes SdkRetry SdkEvents.

(** ** Errors *)

Inductive SignerError := Failed (text : string) | InvalidConfig.

Record CallContext := mkCallContext { method : string; args : list string }.

Inductive RegistryClientError :=
  | ContractRejected (e : KeeperError)
  | UnknownContractError (code : Z)
  | TransportFailed (e : TransportError)
  | Decode
  | NoSigner
  | Signing (e : SignerError)
  | InCall (context : CallContext) (source : RegistryClientError).

Definition in_call (e : RegistryClientError) (context : CallContext) : RegistryClientError :=
  match e with InCall _ _ => e | other => InCall context other end.

Fixpoint root (e : RegistryClientError) : RegistryClientError :=
  match e with InCall _ source => root source | other => other end.

Definition context_of (e : RegistryClientError) : option CallContext :=
  match e with InCall context _ => Some context | _ => None end.

Definition all_errors : list KeeperError :=
  [AlreadyInitialized; Unauthorized; ContractPaused; TaskNotFound; InvalidTaskStatus; DeadlinePassed; DeadlineNotPassed;
   InvalidReward; LockPeriodActive; InvalidFeeBps; NotTaskOwner; NotTaskClaimer; NoRewardsAvailable; NotInitialized;
   TtlTooShort; CalldataTooLarge; InvalidTaskParams; ArithmeticOverflow; ProofTooLarge; IncompatibleVerifierInterface;
   VerificationFailed; BatchTooLarge; EmptyBatch; BatchRewardCeilingExceeded; InsufficientStake; UnbondNotReady;
   UnbondAlreadyPending; NoPendingUnbond; MinStakeNotMet; SlashNotFound; AppealWindowClosed; AppealAlreadyRaised;
   NotSlashedKeeper; NoPendingCredit; ExecutionAlreadyDisputed; DisputeWindowClosed; NoDisputedCredit;
   ReputationBelowFloor; InvalidReputationFloor; ConditionNotMet].

(** [KeeperError::try_from] a contract error. *)
Definition keeper_error_from (code : Z) : option KeeperError :=
  List.find (fun e => bool_decide (keeper_error_code e = code)) all_errors.

(** [From<RpcCallError<u32>>] *)
Definition of_rpc (err : RpcCallError Z) : RegistryClientError :=
  match err with
  | Transport t => TransportFailed t
  | Contract code => match keeper_error_from code with Some e => ContractRejected e | None => UnknownContractError code end
  end.

(** ** The outside *)

Section Client.
Context `{HC : ScValCodec} {W : Type} `{!Runtime W}.

Record InvocationRequest := mkInvocationRequest {
  iv_contract_id : string;
  iv_function : string;
  iv_args : list ScVal;
  iv_network_passphrase : string;
}.

Record SimulationOutcome := mkSimulationOutcome { return_value : ScVal; transaction : Bytes }.

Record SignedTransaction := mkSignedTransaction {
  st_request : InvocationRequest;
  st_transaction : Bytes;
  st_signature : Bytes;
}.

Record RpcTransport := mkRpcTransport {
  simulate : InvocationRequest -> W -> (RpcCallError Z + SimulationOutcome) * W;
  submit : SignedTransaction -> W -> (RpcCallError Z + ScVal) * W;
}.

Record TransactionSigner := mkTransactionSigner {
  address : Address;
  sign_payload : Bytes -> W -> (SignerError + Bytes) * W;
}.

(** What else the client encodes and decodes, and [{:?}]. *)
Record ClientCodec := mkClientCodec {
  debug : ScVal -> string;
  to_unit : ScVal -> option unit;
  to_task : ScVal -> option Task;
  of_task_type : TaskType -> option ScVal;
  of_calldata : Bytes -> option ScVal;
  of_verifier : option Address -> option ScVal;
}.

(** The client; its Env only decodes. *)
Record KeeperRegistryClient := mkClient {
  contract_id : string;
  network_passphrase : string;
  transport : RpcTransport;
  retry : RetryPolicy;
  signer : option TransactionSigner;
}.

Definition new_client (contract_id network_passphrase : string) (transport : RpcTransport) : KeeperRegistryClient :=
  mkClient contract_id network_passphrase transport default_policy None.

Definition with_signer (s : TransactionSigner) (c : KeeperRegistryClient) : KeeperRegistryClient :=
  mkClient (contract_id c) (network_passphrase c) (transport c) (retry c) (Some s).

Definition with_retry_policy (p : RetryPolicy) (c : KeeperRegistryClient) : KeeperRegistryClient :=
  mkClient (contract_id c) (network_passphrase c) (transport c) p (signer c).

Context (codec : ClientCodec).
Implicit Types (c : KeeperRegistryClient) (w : W).

Definition request c (function : string) (args : list ScVal) : InvocationRequest :=
  mkInvocationRequest (contract_id c) function args (network_passphrase c).

(** ** Plumbing.  [None]: a panic. *)

(** The loop of [simulate], which is written out like [RetryPolicy::run]. *)
Fixpoint simulate_from c (rq : InvocationRequest) (fuel : nat) (attempt : Z) w :
    option ((RegistryClientError + SimulationOutcome) * W) :=
  match fuel with
  | O => None
  | S fuel =>
      let (result, w) := simulate (transport c) rq w in
      match result with
      | inr outcome => Some (inr outcome, w)
      | inl err =>
          let last := bool_decide (attempt + 1 >= max_attempts (retry c)) in
          if is_permanent (default_classify err) || last then Some (inl (of_rpc err), w)
          else
            '(delay, w) ← delay_for (retry c) attempt w;
            simulate_from c rq fuel (attempt + 1) (sleep delay w)
      end
  end.

Definition simulated c (rq : InvocationRequest) w : option ((RegistryClientError + SimulationOutcome) * W) :=
  simulate_from c rq (S (Z.to_nat (max_attempts (retry c)))) 0 w.

(** [result.map_err(|e| e.in_call(context))] *)
Definition add_context {R} (context : CallContext) (r : RegistryClientError + R) : RegistryClientError + R :=
  match r with inl e => inl (in_call e context) | inr v => inr v end.

Definition decoded {R} (decode : ScVal -> option R) (v : ScVal) : RegistryClientError + R :=
  match decode v with Some r => inr r | None => inl Decode end.

Definition from_debug (function : string) (args : list ScVal) : CallContext := mkCallContext function (debug codec <$> args).

Definition read {R} (decode : ScVal -> option R) c (function : string) (args : list ScVal) w :
    option ((RegistryClientError + R) * W) :=
  let context := from_debug function args in
  '(result, w) ← simulated c (request c function args) w;
  Some (add_context context match result with inl e => inl e | inr outcome => decoded decode (return_value outcome) end, w).

(** The body of [write] before the context is attached. *)
Definition write_body {R} (decode : ScVal -> option R) c (function : string) (args : list ScVal) w :
    option ((RegistryClientError + R) * W) :=
  match signer c with
  | None => Some (inl NoSigner, w)
  | Some signer =>
      let rq := request c function args in
      '(result, w) ← simulated c rq w;
      match result with
      | inl e => Some (inl e, w)
      | inr outcome =>
          let (signature, w) := sign_payload signer (transaction outcome) w in
          match signature with
          | inl e => Some (inl (Signing e), w)
          | inr signature =>
              let (result, w) := submit (transport c) (mkSignedTransaction rq (transaction outcome) signature) w in
              Some (match result with inl e => inl (of_rpc e) | inr v => decoded decode v end, w)
          end
      end
  end.

Definition write {R} (decode : ScVal -> option R) c (function : string) (args : list ScVal) w :
    option ((RegistryClientError + R) * W) :=
  let context := from_debug function args in
  '(result, w) ← write_body decode c function args w;
  Some (add_context context result, w).

Definition signer_arg c : RegistryClientError + ScVal :=
  match signer c with Some s => inr (of_address (address s)) | None => inl NoSigner end.

(** [self.signer_arg().map_err(..)?] before a [write]. *)
Definition as_signer {R} c (function : string) (shown : list string) (go : ScVal -> W -> option ((RegistryClientError + R) * W)) w :
    option ((RegistryClientError + R) * W) :=
  match add_context (mkCallContext function shown) (signer_arg c) with
  | inl e => Some (inl e, w)
  | inr arg => go arg w
  end.

(** [self.encode(..)?] *)
Definition encoded {R} (v : option ScVal) (go : ScVal -> W -> option ((RegistryClientError + R) * W)) w :
    option ((RegistryClientError + R) * W) :=
  match v with Some v => go v w | None => Some (inl Decode, w) end.

(** ** Typed methods *)

Definition get_task c (task_id : Z) := read (to_task codec) c "get_task" [of_u64 task_id].
Definition get_fee_bps c := read to_u32 c "get_fee_bps" [].
Definition is_paused c := read to_bool c "is_paused" [].

Definition set_fee_bps c (new_bps : Z) :=
  as_signer c "set_fee_bps" [pretty new_bps] (fun admin =>
    write (to_unit codec) c "set_fee_bps" [admin; of_u32 new_bps]).

Definition register_task c (task_type : TaskType) (calldata : Bytes) (reward deadline ttl_ledgers lock_ledgers : Z)
    (verifier : option Address) :=
  as_signer c "register_task"
    [pretty reward; pretty deadline; pretty ttl_ledgers; pretty lock_ledgers] (fun owner =>
    encoded (of_task_type codec task_type) (fun task_type =>
    encoded (of_calldata codec calldata) (fun calldata =>
    encoded (of_verifier codec verifier) (fun verifier =>
    write to_u64 c "register_task"
      [owner; task_type; calldata; of_i128 reward; of_u64 deadline; of_u32 ttl_ledgers; of_u32 lock_ledgers; verifier])))).

Definition claim_task c (task_id : Z) :=
  as_signer c "claim_task" [pretty task_id] (fun keeper =>
    write (to_unit codec) c "claim_task" [keeper; of_u64 task_id]).

Definition execute_task c (task_id : Z) (proof : Bytes) :=
  as_signer c "execute_task" [pretty task_id] (fun keeper =>
    encoded (of_calldata codec proof) (fun proof =>
    write (to_unit codec) c "execute_task" [keeper; of_u64 task_id; proof])).

Definition withdraw_rewards c :=
  as_signer c "withdraw_rewards" [] (fun keeper => write to_i128 c "withdraw_rewards" [keeper]).
End Client.

(** ** Errors and contexts *)

Lemma keeper_error_from_code e : keeper_error_from (keeper_error_code e) = Some e.
Proof. by destruct e. Qed.

Lemma keeper_error_from_Some code e : keeper_error_from code = Some e -> keeper_error_code e = code.
Proof. intros [_ Hc]%List.find_some. by apply bool_decide_eq_true in Hc. Qed.

Lemma of_rpc_root err : root (of_rpc err) = of_rpc err.
Proof. destruct err as [t|code]; [done|]. unfold of_rpc. by destruct (keeper_error_from code). Qed.

(** ** Submissions, counted *)

(** The world with a log of what is submitted. *)
Section Logged.
Context `{HC : ScValCodec} {W : Type} `{HR : !Runtime W}.
Implicit Types (c : KeeperRegistryClient (W := W)) (w : W) (log : list SignedTransaction).

#[local] Instance logged_runtime : Runtime (W * list SignedTransaction).
Proof.
  refine {| sleep := fun d (w : W * list SignedTransaction) => (sleep d w.1, w.2);
            gen_range := fun r (w : W * list SignedTransaction) => ((gen_range r w.1).1, ((gen_range r w.1).2, w.2)) |}.
  intros range w. apply gen_range_spec.
Defined.

Definition logged_transport (t : RpcTransport (W := W)) : RpcTransport (W := W * list SignedTransaction) := {|
  simulate := fun rq (w : W * list SignedTransaction) => ((simulate t rq w.1).1, ((simulate t rq w.1).2, w.2));
  submit := fun signed (w : W * list SignedTransaction) => ((submit t signed w.1).1, ((submit t signed w.1).2, w.2 ++ [signed]));
|}.

Definition logged_signer (s : TransactionSigner (W := W)) : TransactionSigner (W := W * list SignedTransaction) := {|
  address := address s;
  sign_payload := fun payload (w : W * list SignedTransaction) => ((sign_payload s payload w.1).1, ((sign_payload s payload w.1).2, w.2));
|}.

Definition logged c : KeeperRegistryClient (W := W * list SignedTransaction) :=
  mkClient (contract_id c) (network_passphrase c) (logged_transport (transport c)) (retry c) (logged_signer <$> signer c).

(** The log only watches. *)
Lemma logged_delay p attempt w log :
  delay_for p attempt (w, log) =
  match delay_for p attempt w with Some (d, w') => Some (d, (w', log)) | None => None end.
Proof.
  unfold delay_for. case_bool_decide; [|done]. cbn. destruct (gen_range _ w) as [s w1]. cbn.
  by destruct (add_d _ _).
Qed.

Lemma logged_simulate_from c rq fuel attempt w log :
  simulate_from (logged c) rq fuel attempt (w, log) =
  match simulate_from c rq fuel attempt w with Some (r, w') => Some (r, (w', log)) | None => None end.
Proof.
  revert attempt w. induction fuel as [|fuel IH]; intros attempt w; [done|]. cbn.
  destruct (simulate (transport c) rq w) as [[err|outcome] w1]; cbn; [|done].
  destruct (_ || _); [done|]. rewrite logged_delay.
  destruct (delay_for (retry c) attempt w1) as [[d w2]|]; cbn; [|done]. apply IH.
Qed.

(** The loop is the policy's. *)
Lemma simulate_from_run c rq fuel attempt w :
  simulate_from c rq fuel attempt w =
  match run_from (simulate (transport c) rq) default_classify (retry c) fuel attempt w with
  | Some (inl err, w') => Some (inl (of_rpc err), w')
  | Some (inr outcome, w') => Some (inr outcome, w')
  | None => None
  end.
Proof.
  revert attempt w. induction fuel as [|fuel IH]; intros attempt w; [done|]. cbn.
  destruct (simulate (transport c) rq w) as [[err|outcome] w1]; cbn; [|done].
  destruct (_ || _); [done|]. destruct (delay_for (retry c) attempt w1) as [[d w2]|]; cbn; [|done]. apply IH.
Qed.

Lemma simulated_spec c rq w :
  is_policy (retry c) ->
  exists r w' w0, simulated c rq w = Some (match r with inl err => inl (of_rpc err) | inr o => inr o end, w') /\
    simulate (transport c) rq w0 = (r, w').
Proof.
  intros Hp. unfold simulated. rewrite simulate_from_run.
  destruct (run_outcome (simulate (transport c) rq) default_classify (retry c) w Hp) as (r & w' & Hr & w0 & H0).
  unfold run in Hr. rewrite Hr. exists r, w', w0. by destruct r.
Qed.

(** The results a write can have, and what it submitted. *)
Inductive write_result {R} (decode : ScVal -> option R) c (function : string) (args : list ScVal) :
    RegistryClientError + R -> list SignedTransaction -> Prop :=
  | Unsigned : signer c = None -> write_result decode c function args (inl NoSigner) []
  | NotSimulated err w w' :
      simulate (transport c) (request c function args) w = (inl err, w') ->
      write_result decode c function args (inl (of_rpc err)) []
  | NotSigned s outcome e w w' w2 :
      signer c = Some s -> simulate (transport c) (request c function args) w = (inr outcome, w') ->
      sign_payload s (transaction outcome) w' = (inl e, w2) ->
      write_result decode c function args (inl (Signing e)) []
  | Submitted s outcome signature result w w' w2 w3 :
      signer c = Some s -> simulate (transport c) (request c function args) w = (inr outcome, w') ->
      sign_payload s (transaction outcome) w' = (inr signature, w2) ->
      submit (transport c) (mkSignedTransaction (request c function args) (transaction outcome) signature) w2 = (result, w3) ->
      write_result decode c function args
        (match result with inl err => inl (of_rpc err) | inr v => decoded decode v end)
        [mkSignedTransaction (request c function args) (transaction outcome) signature].

#[local] Arguments simulated : simpl never.

Lemma logged_simulated c rq w log :
  simulated (logged c) rq (w, log) = match simulated c rq w with Some (r, w') => Some (r, (w', log)) | None => None end.
Proof. apply logged_simulate_from. Qed.

Lemma write_body_spec {R} (decode : ScVal -> option R) c function args w log :
  is_policy (retry c) ->
  exists r w' sent, write_body decode (logged c) function args (w, log) = Some (r, (w', log ++ sent)) /\
    write_result decode c function args r sent.
Proof.
  intros Hp. unfold write_body. cbn [signer logged]. destruct (signer c) as [s|] eqn:Hs; cbn.
  2: { exists (inl NoSigner), w, []. rewrite app_nil_r. split; [done | by constructor]. }
  change (request (logged c) function args) with (request c function args).
  rewrite logged_simulated.
  destruct (simulated_spec c (request c function args) w Hp) as (r & w1 & w0 & -> & Hsim).
  destruct r as [err|outcome]; cbn.
  { exists (inl (of_rpc err)), w1, []. rewrite app_nil_r. split; [done | by eapply NotSimulated]. }
  destruct (sign_payload s (transaction outcome) w1) as [[e|signature] w2] eqn:Hsig; cbn.
  { exists (inl (Signing e)), w2, []. rewrite app_nil_r. split; [done | by eapply NotSigned]. }
  destruct (submit (transport c) (mkSignedTransaction (request c function args) (transaction outcome) signature) w2)
    as [result w3] eqn:Hsub; cbn.
  eexists _, w3, _. split; [done|]. by eapply Submitted.
Qed.

Lemma write_result_root {R} (decode : ScVal -> option R) c function args e sent :
  write_result decode c function args (inl e) sent -> root e = e /\ context_of e = None.
Proof.
  inversion 1 as [|? ? ? ? He| |? ? ? [err|v] ? ? ? ? ? ? ? ? He]; subst; try done.
  - unfold of_rpc. destruct err as [|code]; [done|]. by destruct (keeper_error_from code).
  - unfold of_rpc. destruct err as [|code]; [done|]. by destruct (keeper_error_from code).
  - unfold decoded in He. by destruct (decode v); simplify_eq.
Qed.

(** C10: what a write does, over any network.  Under every policy it returns; it
    submits at most one transaction, never a second time whatever comes back,
    and that one only after a simulation of the very request succeeded and the
    signer signed the simulated transaction.  Its result is that of the
    submission, or the failure of the step that stopped it, under exactly one
    context that names the call; a contract's code comes back as the error the
    registry published it for, and a read submits nothing. *)
Theorem write_submits_once (codec : ClientCodec) {R} (decode : ScVal -> option R) c function args w log :
  is_policy (retry c) ->
  (exists r w' sent, write codec decode (logged c) function args (w, log) =
      Some (add_context (from_debug codec function args) r, (w', log ++ sent)) /\
    write_result decode c function args r sent /\ (length sent <= 1)%nat /\
    forall e, r = inl e -> root (in_call e (from_debug codec function args)) = e /\
      context_of (in_call e (from_debug codec function args)) = Some (from_debug codec function args)) /\
  (exists r w', read codec decode (logged c) function args (w, log) = Some (r, (w', log))) /\
  forall x, of_rpc (Contract (keeper_error_code x)) = ContractRejected x.
Proof.
  intros Hp. split; [|split].
  - unfold write. destruct (write_body_spec decode c function args w log Hp) as (r & w' & sent & -> & Hr).
    exists r, w', sent. cbn. split; [done|]. split; [done|]. split; [by destruct Hr; cbn; lia|].
    intros e ->. destruct (write_result_root _ _ _ _ _ _ Hr) as [Hroot Hctx]. by destruct e.
  - unfold read. rewrite logged_simulated.
    destruct (simulated_spec c (request (logged c) function args) w Hp) as (r & w1 & w0 & -> & _). cbn. by eexists _, w1.
  - intros x. unfold of_rpc. by rewrite keeper_error_from_code.
Qed.
End Logged.
