(* ===== verification/SdkInProcess.v ===== *)
(** * SDK: the in-process clients

    [KeeperClient] (src/rust-sdk/src/client.rs) and [TreasuryClient]
    (treasury_client.rs) invoke the contracts through an [Env]: here, the
    contracts' own models.  A generated [try_] method commits or rolls back
    ([Host.invoke]) and hands the error out; what [{:?}] makes of an error is
    kept as the error itself, what it makes of an argument is the class [Debug].
    At the end, the builder of cross_contract.rs, with the registry's entry
    points on the other side. *)

From stdpp Require Import pretty.
From S2P Require Import Prelude Host Contract RegistryTypes RegistryInternal RegistryReputation RegistryTask RegistryStaking RegistryAdmin RegistryBatch RegistryViews RegistrySystem SampleChain RegistrySample TreasuryTypes Treasury TreasurySystem SdkRetry SdkEvents SdkClient.

Class Debug (A : Type) := debug : A -> string.

#[export] Instance debug_int : Debug Z := pretty.
#[export] Instance debug_bool : Debug bool := fun b => if b then "true"%string else "false"%string.

(** What a [try_] call gives back instead of a value: a contract's error, or an
    invocation the host aborted. *)
Inductive InvokeFailure (E : Type) := ContractFailure (x : E) | Aborted.
Arguments ContractFailure {E} x.
Arguments Aborted {E}.

Module ClientError.
Section ClientError.
Context {E : Type}.

Inductive t :=
  | ContractError (f : InvokeFailure E)
  | SigningFailed (e : SignerError)
  | InCall (context : CallContext) (source : t).

Definition in_call (e : t) (context : CallContext) : t :=
  match e with InCall _ _ => e | other => InCall context other end.

Fixpoint root (e : t) : t := match e with InCall _ source => root source | other => other end.

Definition context (e : t) : option CallContext := match e with InCall context _ => Some context | _ => None end.
End ClientError.
Arguments t : clear implicits.
End ClientError.

Section Invoke.
Context {S E : Type}.

Definition try_ {A} (m : M S E A) (s : S) : (InvokeFailure E + A) * S :=
  match invoke m s with
  | (Returned a, s) => (inr a, s)
  | (Rejected x, s) => (inl (ContractFailure x), s)
  | (Trapped, s) => (inl Aborted, s)
  end.

Definition contract_call_err (method : string) (args : list string) (f : InvokeFailure E) : ClientError.t E :=
  ClientError.in_call (ClientError.ContractError f) (mkCallContext method args).

(** [raw_client.try_..(..).map_err(contract_call_err(..))?.map_err(..)] *)
Definition with_context {A} (method : string) (args : list string) (m : M S E A) (s : S) : (ClientError.t E + A) * S :=
  match try_ m s with
  | (inr a, s) => (inr a, s)
  | (inl f, s) => (inl (contract_call_err method args f), s)
  end.

(** The same without a context, as the treasury's client has it. *)
Definition without_context {A} (m : M S E A) (s : S) : (ClientError.t E + A) * S :=
  match try_ m s with
  | (inr a, s) => (inr a, s)
  | (inl f, s) => (inl (ClientError.ContractError f), s)
  end.

Definition discard {A} (call : S -> (ClientError.t E + A) * S) (s : S) : (ClientError.t E + unit) * S :=
  match call s with (inr _, s) => (inr tt, s) | (inl e, s) => (inl e, s) end.

Definition succeeded {A} (r : ClientError.t E + A) : bool := match r with inr _ => true | inl _ => false end.
End Invoke.

(** ** KeeperClient *)

Module KeeperClient.
Section KeeperClient.
Context `{Ledger} `{!Debug Address, !Debug Symbol, !Debug (list BatchTaskParams)}.
Context (e : Env) (signer : Address).
(** How the registry's batch reads the duplicated [verifier] of its entries. *)
Context (init : VerifierInit).
Implicit Types (st : RegistryTypes.Store).

Definition batch_register_tasks (tasks : list BatchTaskParams) (max_total_reward : Z) :=
  with_context "batch_register_tasks" [debug signer; debug tasks; debug max_total_reward]
    (RegistryBatch.batch_register_tasks e init signer tasks max_total_reward).
Definition initialize (reward_token : Address) (fee_bps : Z) :=
  with_context "initialize" [debug signer; debug reward_token; debug fee_bps]
    (RegistryAdmin.initialize e signer reward_token fee_bps).
Definition pause := with_context "pause" [debug signer] (RegistryAdmin.pause e signer).
Definition unpause := with_context "unpause" [debug signer] (RegistryAdmin.unpause e signer).
Definition set_fee_bps (new_fee_bps : Z) :=
  with_context "set_fee_bps" [debug signer; debug new_fee_bps] (RegistryAdmin.set_fee_bps e signer new_fee_bps).
Definition set_min_reward (min_reward : Z) :=
  with_context "set_min_reward" [debug signer; debug min_reward] (RegistryAdmin.set_min_reward e signer min_reward).
Definition sweep_fees (recipient : Address) (amount : Z) :=
  with_context "sweep_fees" [debug signer; debug recipient; debug amount] (RegistryAdmin.sweep_fees e signer recipient amount).
Definition stake_deposit (amount : Z) :=
  with_context "stake_deposit" [debug signer; debug amount] (RegistryStaking.stake_deposit e signer amount).
Definition initiate_unbond (amount : Z) :=
  with_context "initiate_unbond" [debug signer; debug amount] (RegistryStaking.initiate_unbond e signer amount).
Definition withdraw_stake := with_context "withdraw_stake" [debug signer] (RegistryStaking.withdraw_stake e signer).
Definition slash (keeper : Address) (amount : Z) (reason : Symbol) (treasury : Address) :=
  with_context "slash" [debug signer; debug keeper; debug amount; debug reason; debug treasury]
    (RegistryStaking.slash e signer keeper amount reason treasury).
Definition raise_slash_appeal (slash_id : Z) :=
  with_context "raise_slash_appeal" [debug signer; debug slash_id] (RegistryStaking.raise_slash_appeal e signer slash_id).
Definition resolve_slash_appeal (slash_id : Z) (uphold_appeal : bool) :=
  with_context "resolve_slash_appeal" [debug signer; debug slash_id; debug uphold_appeal]
    (RegistryStaking.resolve_slash_appeal e signer slash_id uphold_appeal).
Definition set_min_stake (min_stake : Z) :=
  with_context "set_min_stake" [debug signer; debug min_stake] (RegistryStaking.set_min_stake e signer min_stake).
Definition set_dispute_window (ledgers : Z) :=
  with_context "set_dispute_window" [debug signer; debug ledgers] (RegistryStaking.set_dispute_window e signer ledgers).
Definition dispute_execution (task_id : Z) :=
  with_context "dispute_execution" [debug signer; debug task_id] (RegistryStaking.dispute_execution e signer task_id).
Definition resolve_execution_dispute (task_id : Z) (uphold_dispute : bool) :=
  with_context "resolve_execution_dispute" [debug signer; debug task_id; debug uphold_dispute]
    (RegistryStaking.resolve_execution_dispute e signer task_id uphold_dispute).

(** The views; a generated method that is not a [try_] panics on an error. *)
Definition or_panic {A} (r : KeeperError + A) : option A := match r with inr a => Some a | inl _ => None end.

Definition get_tasks st (task_ids : list Z) : option (list (option Task)) := or_panic (RegistryBatch.get_tasks st task_ids).
Definition get_tasks_range st (start_id limit : Z) : option (list (option Task)) :=
  or_panic (RegistryBatch.get_tasks_range st start_id limit).
Definition keeper_stake st (keeper : Address) : Z := RegistryViews.keeper_stake st keeper.
Definition pending_unbond st (keeper : Address) : option UnbondRequest := RegistryViews.pending_unbond st keeper.
Definition min_stake st : Z := RegistryViews.min_stake st.
Definition get_slash st (slash_id : Z) : option SlashRecord := RegistryViews.get_slash st slash_id.
Definition dispute_window st : Z := RegistryViews.dispute_window st.
Definition pending_reward st (keeper : Address) : list PendingCredit := RegistryViews.pending_reward st keeper.

(** A call of the client, and what it asks of the registry. *)
Inductive Call :=
  | BatchRegisterTasks (tasks : list BatchTaskParams) (max_total_reward : Z)
  | Initialize (reward_token : Address) (fee_bps : Z)
  | Pause
  | Unpause
  | SetFeeBps (new_fee_bps : Z)
  | SetMinReward (min_reward : Z)
  | SweepFees (recipient : Address) (amount : Z)
  | StakeDeposit (amount : Z)
  | InitiateUnbond (amount : Z)
  | WithdrawStake
  | Slash (keeper : Address) (amount : Z) (reason : Symbol) (treasury : Address)
  | RaiseSlashAppeal (slash_id : Z)
  | ResolveSlashAppeal (slash_id : Z) (uphold_appeal : bool)
  | SetMinStake (min_stake : Z)
  | SetDisputeWindow (ledgers : Z)
  | DisputeExecution (task_id : Z)
  | ResolveExecutionDispute (task_id : Z) (uphold_dispute : bool).

Definition perform (c : Call) : RS -> (ClientError.t KeeperError + unit) * RS :=
  match c with
  | BatchRegisterTasks tasks max => discard (batch_register_tasks tasks max)
  | Initialize token bps => discard (initialize token bps)
  | Pause => discard pause
  | Unpause => discard unpause
  | SetFeeBps bps => discard (set_fee_bps bps)
  | SetMinReward reward => discard (set_min_reward reward)
  | SweepFees recipient amount => discard (sweep_fees recipient amount)
  | StakeDeposit amount => discard (stake_deposit amount)
  | InitiateUnbond amount => discard (initiate_unbond amount)
  | WithdrawStake => discard withdraw_stake
  | Slash keeper amount reason treasury => discard (slash keeper amount reason treasury)
  | RaiseSlashAppeal id => discard (raise_slash_appeal id)
  | ResolveSlashAppeal id uphold => discard (resolve_slash_appeal id uphold)
  | SetMinStake stake => discard (set_min_stake stake)
  | SetDisputeWindow ledgers => discard (set_dispute_window ledgers)
  | DisputeExecution id => discard (dispute_execution id)
  | ResolveExecutionDispute id uphold => discard (resolve_execution_dispute id uphold)
  end.

(** The operation of the registry, and its entry point. *)
Definition op_of (c : Call) : RegistrySystem.Op * string :=
  match c with
  | BatchRegisterTasks tasks max => (OpBatchRegisterTasks init signer tasks max, "batch_register_tasks")
  | Initialize token bps => (RegistrySystem.OpInitialize signer token bps, "initialize")
  | Pause => (RegistrySystem.OpPause signer, "pause")
  | Unpause => (RegistrySystem.OpUnpause signer, "unpause")
  | SetFeeBps bps => (OpSetFeeBps signer bps, "set_fee_bps")
  | SetMinReward reward => (OpSetMinReward signer reward, "set_min_reward")
  | SweepFees recipient amount => (OpSweepFees signer recipient amount, "sweep_fees")
  | StakeDeposit amount => (OpStakeDeposit signer amount, "stake_deposit")
  | InitiateUnbond amount => (OpInitiateUnbond signer amount, "initiate_unbond")
  | WithdrawStake => (OpWithdrawStake signer, "withdraw_stake")
  | Slash keeper amount reason treasury => (OpSlash signer keeper amount reason treasury, "slash")
  | RaiseSlashAppeal id => (OpRaiseSlashAppeal signer id, "raise_slash_appeal")
  | ResolveSlashAppeal id uphold => (OpResolveSlashAppeal signer id uphold, "resolve_slash_appeal")
  | SetMinStake stake => (OpSetMinStake signer stake, "set_min_stake")
  | SetDisputeWindow ledgers => (OpSetDisputeWindow signer ledgers, "set_dispute_window")
  | DisputeExecution id => (OpDisputeExecution signer id, "dispute_execution")
  | ResolveExecutionDispute id uphold => (OpResolveExecutionDispute signer id uphold, "resolve_execution_dispute")
  end%string.
End KeeperClient.
End KeeperClient.

(** ** TreasuryClient *)

Module TreasuryClient.
Section TreasuryClient.
Context `{Ledger}.
Context (e : Env) (signer : Address).
Implicit Types (st : TreasuryTypes.Store).

Definition initialize (reward_token : Address) := without_context (Treasury.initialize e signer reward_token).
Definition add_recipient (recipient : Address) (shares_bps : Z) :=
  without_context (Treasury.add_recipient e signer recipient shares_bps).
Definition remove_recipient (recipient : Address) := without_context (Treasury.remove_recipient e signer recipient).
Definition update_recipient_shares (recipient : Address) (new_shares_bps : Z) :=
  without_context (Treasury.update_recipient_shares e signer recipient new_shares_bps).
Definition distribute (amount : Z) := without_context (Treasury.distribute e signer amount).
Definition withdraw := without_context (Treasury.withdraw e signer).
Definition pause := without_context (Treasury.pause e signer).
Definition unpause := without_context (Treasury.unpause e signer).
Definition transfer_admin (new_admin : Address) := without_context (Treasury.transfer_admin e signer new_admin).
Definition upgrade (new_wasm_hash : Bytes) := without_context (Treasury.upgrade e signer new_wasm_hash).

Definition admin st : option Address := Treasury.admin st.
Definition is_paused st : bool := Treasury.is_paused st.
Definition reward_token_address st : option Address := Treasury.reward_token_address st.
Definition recipients st : list Recipient := Treasury.recipients st.
Definition recipient_shares st (recipient : Address) : Z := Treasury.recipient_shares st recipient.
Definition recipient_balance st (recipient : Address) : Z := Treasury.recipient_balance st recipient.
Definition recipient_total_received st (recipient : Address) : Z := Treasury.recipient_total_received st recipient.
Definition total_distributed st : Z := Treasury.total_distributed st.

Inductive Call :=
  | Initialize (reward_token : Address)
  | AddRecipient (recipient : Address) (shares_bps : Z)
  | RemoveRecipient (recipient : Address)
  | UpdateRecipientShares (recipient : Address) (new_shares_bps : Z)
  | Distribute (amount : Z)
  | Withdraw
  | Pause
  | Unpause
  | TransferAdmin (new_admin : Address)
  | Upgrade (new_wasm_hash : Bytes).

Definition perform (c : Call) : Sys TreasuryTypes.Store DataKey TreasuryTypes.Event ->
    (ClientError.t TreasuryError + unit) * Sys TreasuryTypes.Store DataKey TreasuryTypes.Event :=
  match c with
  | Initialize token => discard (initialize token)
  | AddRecipient recipient bps => discard (add_recipient recipient bps)
  | RemoveRecipient recipient => discard (remove_recipient recipient)
  | UpdateRecipientShares recipient bps => discard (update_recipient_shares recipient bps)
  | Distribute amount => discard (distribute amount)
  | Withdraw => discard withdraw
  | Pause => discard pause
  | Unpause => discard unpause
  | TransferAdmin new_admin => discard (transfer_admin new_admin)
  | Upgrade hash => discard (upgrade hash)
  end.

Definition op_of (c : Call) : TreasurySystem.Op :=
  match c with
  | Initialize token => TreasurySystem.OpInitialize signer token
  | AddRecipient recipient bps => OpAddRecipient signer recipient bps
  | RemoveRecipient recipient => OpRemoveRecipient signer recipient
  | UpdateRecipientShares recipient bps => OpUpdateShares signer recipient bps
  | Distribute amount => OpDistribute signer amount
  | Withdraw => OpWithdraw signer
  | Pause => TreasurySystem.OpPause signer
  | Unpause => TreasurySystem.OpUnpause signer
  | TransferAdmin new_admin => TreasurySystem.OpTransferAdmin signer new_admin
  | Upgrade hash => TreasurySystem.OpUpgrade signer hash
  end.
End TreasuryClient.
End TreasuryClient.

(** ** What a call comes to *)

Section Spec.
Context {S E : Type}.

(** The outcome of a call with its wrapper: the effect of the entry point on a
    commit and nothing otherwise, and the entry point's own error. *)
Definition faithful {A} (m : M S E A) (wrap : InvokeFailure E -> ClientError.t E) (s : S)
    (r : (ClientError.t E + unit) * S) : Prop :=
  r.2 = (invoke (forget m) s).2 /\
  succeeded r.1 = match m s with Ok _ _ => true | _ => false end /\
  forall err, r.1 = inl err -> exists f, err = wrap f /\
    match f with ContractFailure x => exists s1, m s = Err x s1 | Aborted => m s = Panic end.

Lemma with_context_faithful {A} method args (m : M S E A) s :
  faithful m (fun f => ClientError.InCall (mkCallContext method args) (ClientError.ContractError f)) s
    (discard (with_context method args m) s).
Proof.
  unfold faithful, discard, with_context, try_, invoke, forget, mbind, M_bind.
  destruct (m s) as [a s'|x s'|]; cbn; split_and!; try done; intros err [= <-]; eexists; split; try done. by exists s'.
Qed.

Lemma without_context_faithful {A} (m : M S E A) s :
  faithful m ClientError.ContractError s (discard (without_context m) s).
Proof.
  unfold faithful, discard, without_context, try_, invoke, forget, mbind, M_bind.
  destruct (m s) as [a s'|x s'|]; cbn; split_and!; try done; intros err [= <-]; eexists; split; try done. by exists s'.
Qed.

Lemma forget_unit (m : M S E unit) s : forget m s = m s.
Proof. unfold forget, mbind, M_bind. by destruct (m s) as [[]| |]. Qed.

Lemma faithful_forget {A} (m : M S E A) wrap s r : faithful m wrap s r -> faithful (forget m) wrap s r.
Proof.
  unfold faithful. intros (H1 & H2 & H3). split; [|split].
  - rewrite H1. unfold invoke. by rewrite forget_unit.
  - rewrite H2. unfold forget, mbind, M_bind. by destruct (m s).
  - intros err Herr. destruct (H3 err Herr) as (f & -> & Hf). exists f. split; [done|].
    unfold forget, mbind, M_bind. destruct f as [x|]; [destruct Hf as [s1 ->]; by exists s1 | by rewrite Hf].
Qed.
End Spec.

(** ** Calls from inside another contract *)

(** The host's values, with the conversions the builder and the generated entry
    points make; an integer fits its type. *)
Class HostValues := {
  Val : Type;
  val_address : Address -> Val; address_val : Val -> option Address;
  val_task_type : TaskType -> Val; task_type_val : Val -> option TaskType;
  val_bytes : Bytes -> Val; bytes_val : Val -> option Bytes;
  val_int : int_type -> Z -> Val; int_val : int_type -> Val -> option Z;
  val_option : option Address -> Val; option_val : Val -> option (option Address);
  address_val_address a : address_val (val_address a) = Some a;
  task_type_val_task_type t : task_type_val (val_task_type t) = Some t;
  bytes_val_bytes b : bytes_val (val_bytes b) = Some b;
  int_val_int t z : in_range t z -> int_val t (val_int t z) = Some z;
  option_val_option o : option_val (val_option o) = Some o;
}.

Module KeeperRegistryCrossContract.
Section CrossContract.
Context `{HostValues} `{Ledger}.

(** [CrossContractInvocation], whose [new] makes a [Symbol] of the name. *)
Record Invocation := mkInvocation { contract : Address; function : Symbol; args : list Val }.

Definition register_task (self owner : Address) (task_type : TaskType) (calldata : Bytes)
    (reward deadline ttl_ledgers lock_ledgers : Z) (verifier condition : option Address) : Invocation :=
  mkInvocation self "register_task"
    [val_address owner; val_task_type task_type; val_bytes calldata; val_int i128 reward; val_int u64 deadline;
     val_int u32 ttl_ledgers; val_int u32 lock_ledgers; val_option verifier; val_option condition].
Definition increase_reward (self owner : Address) (task_id additional : Z) : Invocation :=
  mkInvocation self "increase_reward" [val_address owner; val_int u64 task_id; val_int i128 additional].
Definition extend_deadline (self owner : Address) (task_id new_deadline : Z) : Invocation :=
  mkInvocation self "extend_deadline" [val_address owner; val_int u64 task_id; val_int u64 new_deadline].
Definition claim_task (self keeper : Address) (task_id : Z) : Invocation :=
  mkInvocation self "claim_task" [val_address keeper; val_int u64 task_id].
Definition execute_task (self keeper : Address) (task_id : Z) (proof : Bytes) : Invocation :=
  mkInvocation self "execute_task" [val_address keeper; val_int u64 task_id; val_bytes proof].
Definition cancel_task (self owner : Address) (task_id : Z) : Invocation :=
  mkInvocation self "cancel_task" [val_address owner; val_int u64 task_id].
Definition expire_task (self : Address) (task_id : Z) : Invocation :=
  mkInvocation self "expire_task" [val_int u64 task_id].
Definition withdraw_rewards (self keeper : Address) : Invocation :=
  mkInvocation self "withdraw_rewards" [val_address keeper].

(** The registry's end: an entry point takes its arguments by position, each of
    its type, and no others. *)
Definition entry_point (function : Symbol) (args : list Val) : option RegistrySystem.Op :=
  if bool_decide (function = "register_task"%string) then
    match args with
    | [owner; task_type; calldata; reward; deadline; ttl_ledgers; lock_ledgers; verifier; condition] =>
        owner ← address_val owner; task_type ← task_type_val task_type; calldata ← bytes_val calldata;
        reward ← int_val i128 reward; deadline ← int_val u64 deadline; ttl_ledgers ← int_val u32 ttl_ledgers;
        lock_ledgers ← int_val u32 lock_ledgers; verifier ← option_val verifier; condition ← option_val condition;
        Some (OpRegisterTask owner
          (mkBatchTaskParams task_type calldata reward deadline ttl_ledgers lock_ledgers verifier condition))
    | _ => None
    end
  else if bool_decide (function = "increase_reward"%string) then
    match args with
    | [owner; task_id; additional] =>
        owner ← address_val owner; task_id ← int_val u64 task_id; additional ← int_val i128 additional;
        Some (OpIncreaseReward owner task_id additional)
    | _ => None
    end
  else if bool_decide (function = "extend_deadline"%string) then
    match args with
    | [owner; task_id; new_deadline] =>
        owner ← address_val owner; task_id ← int_val u64 task_id; new_deadline ← int_val u64 new_deadline;
        Some (OpExtendDeadline owner task_id new_deadline)
    | _ => None
    end
  else if bool_decide (function = "execute_task"%string) then
    match args with
    | [keeper; task_id; proof] =>
        keeper ← address_val keeper; task_id ← int_val u64 task_id; proof ← bytes_val proof;
        Some (OpExecuteTask keeper task_id proof)
    | _ => None
    end
  else if bool_decide (function = "expire_task"%string) then
    match args with [task_id] => OpExpireTask <$> int_val u64 task_id | _ => None end
  else if bool_decide (function = "withdraw_rewards"%string) then
    match args with [keeper] => OpWithdrawRewards <$> address_val keeper | _ => None end
  else
    match args with
    | [caller; task_id] =>
        caller ← address_val caller; task_id ← int_val u64 task_id;
        if bool_decide (function = "claim_task"%string) then Some (OpClaimTask caller task_id)
        else if bool_decide (function = "cancel_task"%string) then Some (OpCancelTask caller task_id)
        else None
    | _ => None
    end.

(** [invoke_contract]: whatever goes wrong aborts the caller. *)
Definition invoke (e : Env) (inv : Invocation) : RegistryInternal.RM unit := fun s =>
  match entry_point (function inv) (args inv) with
  | Some op => match RegistrySystem.exec e op s with Ok _ s' => Ok tt s' | _ => Panic end
  | None => Panic
  end.

(** The builder's calls, as the operations they are to be. *)
Definition build (self : Address) (op : RegistrySystem.Op) : option Invocation :=
  match op with
  | OpRegisterTask owner p =>
      Some (register_task self owner (b_task_type p) (b_calldata p) (b_reward p) (b_deadline p) (b_ttl_ledgers p)
              (b_lock_ledgers p) (b_verifier p) (b_condition p))
  | OpIncreaseReward owner task_id additional => Some (increase_reward self owner task_id additional)
  | OpExtendDeadline owner task_id new_deadline => Some (extend_deadline self owner task_id new_deadline)
  | OpClaimTask keeper task_id => Some (claim_task self keeper task_id)
  | OpExecuteTask keeper task_id proof => Some (execute_task self keeper task_id proof)
  | OpCancelTask owner task_id => Some (cancel_task self owner task_id)
  | OpExpireTask task_id => Some (expire_task self task_id)
  | OpWithdrawRewards keeper => Some (withdraw_rewards self keeper)
  | _ => None
  end.

Lemma build_reaches self op inv :
  RegistrySystem.typed_op op -> build self op = Some inv -> contract inv = self /\ entry_point (function inv) (args inv) = Some op.
Proof.
  intros Ht Hb. destruct op; try done; injection Hb as <-; (split; [done|]); unfold entry_point; cbn in *;
    rewrite ?address_val_address; cbn; rewrite ?task_type_val_task_type; cbn;
    repeat (rewrite ?int_val_int, ?bytes_val_bytes, ?option_val_option by apply Ht; cbn); try done.
  by destruct params.
Qed.

(** The eight arguments of the RPC client's register_task reach no entry point. *)
Lemma eight_arguments vs : length vs = 8%nat -> entry_point "register_task" vs = None.
Proof. intros Hl. unfold entry_point. cbn. by do 9 (destruct vs as [|? vs]; try done). Qed.
End CrossContract.
End KeeperRegistryCrossContract.

Section Clients.
Context `{Ledger} `{!Debug Address, !Debug Symbol, !Debug (list BatchTaskParams)} `{HostValues}.

(** What the error of a committed-or-rolled-back operation says. *)
Definition explains {S E} (m : M S E unit) (s : S) (f : InvokeFailure E) : Prop :=
  match f with ContractFailure x => exists s1, m s = Err x s1 | Aborted => m s = Panic end.

Lemma call_of {St K Ev E Op} (exec : Env -> Op -> M (Sys St K Ev) E unit) e op s wrap r :
  faithful (exec e op) wrap s r ->
  r.2 = Contract.call exec e op s /\ succeeded r.1 = Contract.succeeds exec e op s /\
  forall err, r.1 = inl err -> exists f, err = wrap f /\ explains (exec e op) s f.
Proof.
  unfold faithful, Contract.call, Contract.succeeds. intros (H1 & H2 & H3). split; [|split; [done|exact H3]].
  rewrite H1. unfold invoke. by rewrite forget_unit.
Qed.

(** C33: the in-process clients are the contracts.  Every state-changing call of
    the registry's client, with the signer's address in the caller's place,
    leaves the registry exactly as the contract's own call does - committed or
    rolled back - and succeeds exactly if it commits; an error carries the name
    of the entry point, once, and the very error the contract returned (or that
    the host aborted).  The same for the treasury's client, without the name.
    And the calls that the cross-contract builder makes for another contract
    reach the entry points they name, with their arguments in place: the
    operation commits, or the caller is aborted.  (The clients' reads and the
    governance client are not covered.) *)
Theorem clients_refine_contracts e signer init :
  (forall c s, let '(op, name) := KeeperClient.op_of signer init c in
     let r := KeeperClient.perform e signer init c s in
     r.2 = RegistrySystem.call e op s /\ succeeded r.1 = RegistrySystem.succeeds e op s /\
     forall err, r.1 = inl err -> exists args f,
       err = ClientError.InCall (mkCallContext name args) (ClientError.ContractError f) /\
       explains (RegistrySystem.exec e op) s f) /\
  (forall c s, let op := TreasuryClient.op_of signer c in
     let r := TreasuryClient.perform e signer c s in
     r.2 = TreasurySystem.call e op s /\ succeeded r.1 = TreasurySystem.succeeds e op s /\
     forall err, r.1 = inl err -> exists f,
       err = ClientError.ContractError f /\ explains (TreasurySystem.exec e op) s f) /\
  (forall self op inv s, RegistrySystem.typed_op op -> KeeperRegistryCrossContract.build self op = Some inv ->
     KeeperRegistryCrossContract.contract inv = self /\
     KeeperRegistryCrossContract.invoke e inv s =
       match RegistrySystem.exec e op s with Ok _ s' => Ok tt s' | _ => Panic end).
Proof.
  split; [|split].
  - intros c s. assert (forall op name args r,
      faithful (RegistrySystem.exec e op) (fun f => ClientError.InCall (mkCallContext name args) (ClientError.ContractError f)) s r ->
      r.2 = RegistrySystem.call e op s /\ succeeded r.1 = RegistrySystem.succeeds e op s /\
      forall err, r.1 = inl err -> exists args f,
        err = ClientError.InCall (mkCallContext name args) (ClientError.ContractError f) /\
        explains (RegistrySystem.exec e op) s f) as Hgo.
    { intros op name args r Hr. destruct (call_of _ _ _ _ _ _ Hr) as (H1 & H2 & H3). split_and!; [done..|].
      intros err Herr. destruct (H3 err Herr) as (f & ? & ?). by exists args, f. }
    destruct c; cbn [KeeperClient.op_of]; eapply Hgo; cbn [RegistrySystem.exec KeeperClient.perform];
      first [apply with_context_faithful | apply faithful_forget, with_context_faithful].
  - intros c s. apply call_of.
    destruct c; cbn [TreasuryClient.op_of TreasurySystem.exec TreasuryClient.perform];
      first [apply without_context_faithful | apply faithful_forget, without_context_faithful].
  - intros self op inv s Ht Hb. destruct (KeeperRegistryCrossContract.build_reaches _ _ _ Ht Hb) as [Hc He].
    split; [exact Hc|]. unfold KeeperRegistryCrossContract.invoke. by rewrite He.
Qed.
End Clients.

(** ** A run *)

Inductive HostVal := VAddress (a : Address) | VTaskType (t : TaskType) | VBytes (b : Bytes) | VInt (z : Z) | VOption (o : option Address).

#[local] Instance tagged_values : HostValues.
Proof.
  refine {|
    val_address := VAddress; address_val v := match v with VAddress a => Some a | _ => None end;
    val_task_type := VTaskType; task_type_val v := match v with VTaskType t => Some t | _ => None end;
    val_bytes := VBytes; bytes_val v := match v with VBytes b => Some b | _ => None end;
    val_int t := VInt; int_val t v := match v with VInt z => Some z | _ => None end;
    val_option := VOption; option_val v := match v with VOption o => Some o | _ => None end |}; done.
Defined.

#[local] Instance silent {A} : Debug A := fun _ => ""%string.

(** Task 1 is executed from inside a contract; the admin pauses through the
    client, and somebody else is told why he cannot. *)
Lemma clients_refine_contracts_witness :
  let inv := KeeperRegistryCrossContract.execute_task self keeper0 1 [] in
  let pause signer := KeeperClient.perform (at_ledger 105 35) signer FromParams KeeperClient.Pause claimed_state in
  (exists s, KeeperRegistryCrossContract.invoke (at_ledger 105 35) inv claimed_state = Ok tt s /\
     t_status <$> s_task (store s) !! 1 = Some Executed) /\
  succeeded (pause admin0).1 = true /\
  (forall err, (pause keeper0).1 = inl err -> exists args f,
     err = ClientError.InCall (mkCallContext "pause" args) (ClientError.ContractError f)).
Proof.
  intros inv pause.
  destruct (clients_refine_contracts (at_ledger 105 35) admin0 FromParams) as (Hadmin & _ & Hcross).
  destruct (clients_refine_contracts (at_ledger 105 35) keeper0 FromParams) as (Hkeeper & _).
  split_and!.
  - destruct (Hcross self (OpExecuteTask keeper0 1 []) inv claimed_state ltac:(done) eq_refl) as [_ ->].
    assert (match RegistrySystem.exec (at_ledger 105 35) (OpExecuteTask keeper0 1 []) claimed_state with
      | Ok _ s => bool_decide (t_status <$> s_task (store s) !! 1 = Some Executed)
      | _ => false
      end = true) as Hs by by vm_compute.
    destruct (RegistrySystem.exec _ _ _) as [u s|x s|]; [|done..]. exists s. split; [done|].
    by apply bool_decide_eq_true in Hs.
  - destruct (Hadmin KeeperClient.Pause claimed_state) as (_ & Hok & _). etransitivity; [exact Hok | by vm_compute].
  - intros err Herr. destruct (Hkeeper KeeperClient.Pause claimed_state) as (_ & _ & He).
    destruct (He err Herr) as (args & f & -> & _). by exists args, f.
Defined.
