(* ===== verification/IndexerConfig.v ===== *)
(** * Indexer: configuration

    src/indexer/src/config.rs: reading the configuration from a source of
    variables, with every problem reported at once. *)

From Stdlib Require Import Ascii Permutation.
From S2P Require Import Prelude RustText Host.

Record Config := mkConfig {
  rpc_url : string;
  contract_id : string;
  database_url : string;
  start_ledger : Z;
  bind_address : string;
  poll_interval_secs : Z;
  backfill_page_size : Z;
  cache_ttl_secs : Z;
  rate_limit_per_second : Z;
  rate_limit_burst : Z;
  shutdown_drain_secs : Z;
  max_healthy_lag_ledgers : Z;
}.

Record ConfigError := mkConfigError { problems : list string }.

Definition DEFAULT_POLL_INTERVAL_SECS : Z := 5.
Definition DEFAULT_BACKFILL_PAGE_SIZE : Z := 200.
Definition DEFAULT_BIND_ADDRESS : string := "127.0.0.1:8080".
Definition DEFAULT_RATE_LIMIT_PER_SECOND : Z := 20.
Definition DEFAULT_RATE_LIMIT_BURST : Z := 40.
Definition DEFAULT_SHUTDOWN_DRAIN_SECS : Z := 30.
Definition DEFAULT_MAX_HEALTHY_LAG_LEDGERS : Z := 60.
Definition DEFAULT_TTL_SECS : Z := 10.

(** [starts_with] *)
Definition starts_with (prefix s : string) : bool := match strip_prefix prefix s with Some _ => true | None => false end.

(** [Display] of the error. *)
Definition newline : string := String (Ascii.ascii_of_nat 10) EmptyString.
Definition display (e : ConfigError) : string :=
  "invalid indexer configuration:" +:+ newline
  +:+ foldr (fun problem rest => "  - " +:+ problem +:+ newline +:+ rest)
        "set these in the environment or a .env file; see indexer/README.md" (problems e).

Section Config.
Context (get : string -> option string).

(** ** Reading, the problems so far threaded through *)

(** The closure [required]. *)
Definition required (key : string) (ps : list string) : string * list string :=
  match get key with
  | Some v =>
      if negb (bool_decide (trim v = ""%string)) then (trim v, ps)
      else (""%string, ps ++ [key +:+ " is set but empty"])
  | None => (""%string, ps ++ [key +:+ " is not set"])
  end.

Definition optional_string (key default : string) : string :=
  match get key with
  | Some v => if negb (bool_decide (trim v = ""%string)) then trim v else default
  | None => default
  end.

Definition optional_parsed (t : int_type) (key : string) (default : Z) (ps : list string) : Z * list string :=
  match get key with
  | Some v =>
      if negb (bool_decide (trim v = ""%string)) then
        match parse_uint t (trim v) with
        | Some parsed => (parsed, ps)
        | None => (default, ps ++ [key +:+ " must be a number, got " +:+ debug_str v])
        end
      else (default, ps)
  | None => (default, ps)
  end.

Definition parse_start_ledger (raw : string) (ps : list string) : Z * list string :=
  if bool_decide (raw = ""%string) then (0, ps)
  else
    match parse_uint u32 raw with
    | Some v => (v, ps)
    | None => (0, ps ++ ["INDEXER_START_LEDGER must be a ledger sequence number, got " +:+ debug_str raw])
    end.

Definition is_http (url : string) : bool := starts_with "http://" url || starts_with "https://" url.

Definition check_url (url : string) (ps : list string) : list string :=
  if negb (bool_decide (url = ""%string) || is_http url)
  then ps ++ ["INDEXER_RPC_URL must be an http(s) URL, got " +:+ debug_str url] else ps.

(** [if value == 0 { problems.push(..) }] *)
Definition require_positive (key : string) (value : Z) (ps : list string) : list string :=
  if bool_decide (value = 0) then ps ++ [key +:+ " must be greater than zero"] else ps.

Definition from_source : ConfigError + Config :=
  let '(rpc_url, ps) := required "INDEXER_RPC_URL" [] in
  let '(contract_id, ps) := required "INDEXER_CONTRACT_ID" ps in
  let '(database_url, ps) := required "INDEXER_DATABASE_URL" ps in
  let '(start_ledger_raw, ps) := required "INDEXER_START_LEDGER" ps in
  let '(start_ledger, ps) := parse_start_ledger start_ledger_raw ps in
  let ps := check_url rpc_url ps in
  let bind_address := optional_string "INDEXER_BIND_ADDRESS" DEFAULT_BIND_ADDRESS in
  let '(poll, ps) := optional_parsed u64 "INDEXER_POLL_INTERVAL_SECS" DEFAULT_POLL_INTERVAL_SECS ps in
  let '(page, ps) := optional_parsed u32 "INDEXER_BACKFILL_PAGE_SIZE" DEFAULT_BACKFILL_PAGE_SIZE ps in
  let ps := require_positive "INDEXER_BACKFILL_PAGE_SIZE" page ps in
  let '(ttl, ps) := optional_parsed u64 "INDEXER_CACHE_TTL_SECS" DEFAULT_TTL_SECS ps in
  let '(rate, ps) := optional_parsed u32 "INDEXER_RATE_LIMIT_PER_SECOND" DEFAULT_RATE_LIMIT_PER_SECOND ps in
  let '(burst, ps) := optional_parsed u32 "INDEXER_RATE_LIMIT_BURST" DEFAULT_RATE_LIMIT_BURST ps in
  let ps := require_positive "INDEXER_RATE_LIMIT_PER_SECOND" rate ps in
  let '(drain, ps) := optional_parsed u64 "INDEXER_SHUTDOWN_DRAIN_SECS" DEFAULT_SHUTDOWN_DRAIN_SECS ps in
  let '(lag, ps) := optional_parsed u32 "INDEXER_MAX_HEALTHY_LAG_LEDGERS" DEFAULT_MAX_HEALTHY_LAG_LEDGERS ps in
  let ps := require_positive "INDEXER_MAX_HEALTHY_LAG_LEDGERS" lag ps in
  match ps with
  | [] => inr (mkConfig rpc_url contract_id database_url start_ledger bind_address poll page ttl rate burst drain lag)
  | _ => inl (mkConfigError ps)
  end.

(** ** What is acceptable *)

(** The text a variable is set to, blank or unset counting for none. *)
Definition setting (key : string) : option string :=
  v ← get key; if bool_decide (trim v = ""%string) then None else Some (trim v).

(** The number a variable gives, its default where there is none. *)
Definition number (t : int_type) (key : string) (default : Z) : option Z :=
  match setting key with Some s => parse_uint t s | None => Some default end.

Definition some {A} (o : option A) : bool := match o with Some _ => true | None => false end.
Definition nonzero (o : option Z) : bool := match o with Some n => negb (bool_decide (n = 0)) | None => false end.

(** Every variable that can be at fault, and whether it is acceptable. *)
Definition variables : list (string * bool) := [
  ("INDEXER_RPC_URL", match setting "INDEXER_RPC_URL" with Some url => is_http url | None => false end);
  ("INDEXER_CONTRACT_ID", some (setting "INDEXER_CONTRACT_ID"));
  ("INDEXER_DATABASE_URL", some (setting "INDEXER_DATABASE_URL"));
  ("INDEXER_START_LEDGER", some (raw ← setting "INDEXER_START_LEDGER"; parse_uint u32 raw));
  ("INDEXER_POLL_INTERVAL_SECS", some (number u64 "INDEXER_POLL_INTERVAL_SECS" 5));
  ("INDEXER_BACKFILL_PAGE_SIZE", nonzero (number u32 "INDEXER_BACKFILL_PAGE_SIZE" 200));
  ("INDEXER_CACHE_TTL_SECS", some (number u64 "INDEXER_CACHE_TTL_SECS" 10));
  ("INDEXER_RATE_LIMIT_PER_SECOND", nonzero (number u32 "INDEXER_RATE_LIMIT_PER_SECOND" 20));
  ("INDEXER_RATE_LIMIT_BURST", some (number u32 "INDEXER_RATE_LIMIT_BURST" 40));
  ("INDEXER_SHUTDOWN_DRAIN_SECS", some (number u64 "INDEXER_SHUTDOWN_DRAIN_SECS" 30));
  ("INDEXER_MAX_HEALTHY_LAG_LEDGERS", nonzero (number u32 "INDEXER_MAX_HEALTHY_LAG_LEDGERS" 60))]%string.

Definition names (problem key : string) : Prop := exists rest, problem = (key +:+ " " +:+ rest)%string.

(** What is reported about one variable. *)
Definition report (key : string) (ok : bool) (l : list string) : Prop :=
  if ok then l = [] else exists problem, l = [problem] /\ names problem key.

Definition text_or_empty (o : option string) : string := from_option id ""%string o.

Lemma setting_some key s : setting key = Some s -> s <> ""%string.
Proof. unfold setting. destruct (get key); cbn; [|done]. case_bool_decide; [done|]. by intros [= <-]. Qed.

Lemma required_report key ps :
  exists l, required key ps = (text_or_empty (setting key), ps ++ l) /\ report key (some (setting key)) l.
Proof.
  unfold required, setting. destruct (get key) as [v|]; cbn; [case_bool_decide; cbn|].
  - eexists. split; [done|]. eexists. split; [done|]. by exists "is set but empty"%string.
  - exists []. by rewrite app_nil_r.
  - eexists. split; [done|]. eexists. split; [done|]. by exists "is not set"%string.
Qed.

Lemma optional_parsed_report t key d ps :
  exists l, optional_parsed t key d ps = (from_option id d (number t key d), ps ++ l) /\
    report key (some (number t key d)) l.
Proof.
  unfold optional_parsed, number, setting.
  destruct (get key) as [v|]; cbn; [case_bool_decide; cbn; [|destruct (parse_uint t (trim v)); cbn]|].
  all: try by (exists []; rewrite app_nil_r).
  eexists. split; [done|]. eexists. split; [done|]. by eexists ("must be a number, got " +:+ _)%string.
Qed.

Lemma positive_report key value ps :
  exists l, require_positive key value ps = ps ++ l /\ report key (negb (bool_decide (value = 0))) l.
Proof.
  unfold require_positive. case_bool_decide; cbn.
  - eexists. split; [done|]. eexists. split; [done|]. by eexists "must be greater than zero"%string.
  - exists []. by rewrite app_nil_r.
Qed.

(** A number read and then checked to be require_positive. *)
Lemma report_nonzero t key d l k :
  d <> 0 -> report key (some (number t key d)) l ->
  report key (negb (bool_decide (from_option id d (number t key d) = 0))) k ->
  report key (nonzero (number t key d)) (l ++ k).
Proof.
  intros Hd. destruct (number t key d) as [n|]; cbn; [by intros ->|].
  rewrite bool_decide_false by done. cbn. intros (p & -> & Hp) ->. by exists p.
Qed.

Lemma report_url l k :
  report "INDEXER_RPC_URL" (some (setting "INDEXER_RPC_URL")) l ->
  k = check_url (text_or_empty (setting "INDEXER_RPC_URL")) [] ->
  report "INDEXER_RPC_URL" (match setting "INDEXER_RPC_URL" with Some url => is_http url | None => false end) (l ++ k).
Proof.
  destruct (setting "INDEXER_RPC_URL") as [url|] eqn:Hs; cbn; intros Hl ->.
  - subst l. unfold check_url. rewrite bool_decide_false by by eapply setting_some. cbn.
    destruct (is_http url); cbn; [done|]. eexists. split; [done|]. by eexists ("must be an http(s) URL, got " +:+ _)%string.
  - destruct Hl as (p & -> & Hp). unfold check_url. rewrite bool_decide_true by done. cbn. by exists p.
Qed.

Lemma report_start l ps :
  report "INDEXER_START_LEDGER" (some (setting "INDEXER_START_LEDGER")) l ->
  exists k, parse_start_ledger (text_or_empty (setting "INDEXER_START_LEDGER")) ps =
      (from_option id 0 (raw ← setting "INDEXER_START_LEDGER"; parse_uint u32 raw), ps ++ k) /\
    report "INDEXER_START_LEDGER" (some (raw ← setting "INDEXER_START_LEDGER"; parse_uint u32 raw)) (l ++ k).
Proof.
  unfold parse_start_ledger. destruct (setting "INDEXER_START_LEDGER") as [raw|] eqn:Hs; cbn.
  - intros ->. rewrite bool_decide_false by by eapply setting_some. destruct (parse_uint u32 raw); cbn.
    + exists []. by rewrite app_nil_r.
    + eexists. split; [done|]. eexists. split; [done|]. by eexists ("must be a ledger sequence number, got " +:+ _)%string.
  - intros (p & -> & Hp). exists []. rewrite app_nil_r. split; [done|]. by exists p.
Qed.

Lemma check_url_app url ps : check_url url ps = ps ++ check_url url [].
Proof. unfold check_url. destruct (negb _); [done | by rewrite app_nil_r]. Qed.

(** The variables at fault, from what was reported about each. *)
Lemma reports_named (vs : list (string * bool)) ls :
  Forall2 (fun v l => report v.1 v.2 l) vs ls ->
  Forall2 names (mjoin ls) (filter (fun v => negb v.2 : bool) vs).*1.
Proof.
  induction 1 as [|[key ok] l vs ls Hl Hr IH]; [constructor|]. rewrite filter_cons. destruct ok; cbn in Hl.
  - subst l. by rewrite decide_False by by intros [].
  - destruct Hl as (p & -> & Hp). rewrite decide_True by done. by constructor.
Qed.

Lemma optional_string_eq key d : optional_string key d = from_option id d (setting key).
Proof. unfold optional_string, setting. destruct (get key); cbn; [by case_bool_decide | done]. Qed.

Definition read_config : Config :=
  mkConfig (text_or_empty (setting "INDEXER_RPC_URL")) (text_or_empty (setting "INDEXER_CONTRACT_ID"))
    (text_or_empty (setting "INDEXER_DATABASE_URL"))
    (from_option id 0 (raw ← setting "INDEXER_START_LEDGER"; parse_uint u32 raw))
    (from_option id DEFAULT_BIND_ADDRESS (setting "INDEXER_BIND_ADDRESS"))
    (from_option id 5 (number u64 "INDEXER_POLL_INTERVAL_SECS" 5))
    (from_option id 200 (number u32 "INDEXER_BACKFILL_PAGE_SIZE" 200))
    (from_option id 10 (number u64 "INDEXER_CACHE_TTL_SECS" 10))
    (from_option id 20 (number u32 "INDEXER_RATE_LIMIT_PER_SECOND" 20))
    (from_option id 40 (number u32 "INDEXER_RATE_LIMIT_BURST" 40))
    (from_option id 30 (number u64 "INDEXER_SHUTDOWN_DRAIN_SECS" 30))
    (from_option id 60 (number u32 "INDEXER_MAX_HEALTHY_LAG_LEDGERS" 60)).

(** The problems, grouped by variable. *)
Lemma from_source_reports :
  exists ps ls, from_source = match ps with [] => inr read_config | _ => inl (mkConfigError ps) end /\
    ps ≡ₚ mjoin ls /\ Forall2 (fun v l => report v.1 v.2 l) variables ls.
Proof.
  unfold from_source.
  destruct (required_report "INDEXER_RPC_URL" []) as (l1 & -> & H1). cbn zeta.
  edestruct (required_report "INDEXER_CONTRACT_ID") as (l2 & -> & H2).
  edestruct (required_report "INDEXER_DATABASE_URL") as (l3 & -> & H3).
  edestruct (required_report "INDEXER_START_LEDGER") as (l4 & -> & H4).
  edestruct (report_start l4) as (l5 & -> & H5); [exact H4|]. rewrite check_url_app, optional_string_eq.
  pose proof (report_url l1 _ H1 eq_refl) as H6. set (l6 := check_url _ []) in *. clearbody l6.
  edestruct (optional_parsed_report u64 "INDEXER_POLL_INTERVAL_SECS") as (l7 & -> & H7).
  edestruct (optional_parsed_report u32 "INDEXER_BACKFILL_PAGE_SIZE") as (l8 & -> & H8).
  edestruct (positive_report "INDEXER_BACKFILL_PAGE_SIZE") as (l9 & -> & H9).
  edestruct (optional_parsed_report u64 "INDEXER_CACHE_TTL_SECS") as (l10 & -> & H10).
  edestruct (optional_parsed_report u32 "INDEXER_RATE_LIMIT_PER_SECOND") as (l11 & -> & H11).
  edestruct (optional_parsed_report u32 "INDEXER_RATE_LIMIT_BURST") as (l12 & -> & H12).
  edestruct (positive_report "INDEXER_RATE_LIMIT_PER_SECOND") as (l13 & -> & H13).
  edestruct (optional_parsed_report u64 "INDEXER_SHUTDOWN_DRAIN_SECS") as (l14 & -> & H14).
  edestruct (optional_parsed_report u32 "INDEXER_MAX_HEALTHY_LAG_LEDGERS") as (l15 & -> & H15).
  edestruct (positive_report "INDEXER_MAX_HEALTHY_LAG_LEDGERS") as (l16 & -> & H16).
  exists ([] ++ l1 ++ l2 ++ l3 ++ l4 ++ l5 ++ l6 ++ l7 ++ l8 ++ l9 ++ l10 ++ l11 ++ l12 ++ l13 ++ l14 ++ l15 ++ l16).
  exists [l1 ++ l6; l2; l3; l4 ++ l5; l7; l8 ++ l9; l10; l11 ++ l13; l12; l14; l15 ++ l16].
  rewrite <- !app_assoc. split; [reflexivity|]. split; [cbn [mjoin list_join app]; rewrite app_nil_r; solve_Permutation|].
  unfold variables. repeat constructor; cbn [fst snd]; try done; by apply report_nonzero.
Qed.

(** C40: a configuration is taken or refused as a whole.  It is accepted exactly
    when every variable is acceptable - the four required ones set, the ledger a
    u32, the URL http(s), each number one of its width and three of them not
    zero - and is then what the variables say, defaults filled in; otherwise the
    error reports one problem for each unacceptable variable, every one of them
    and no other, whatever else is wrong. *)
Theorem config_reports_all :
  match from_source with
  | inr c => Forall (fun v => v.2 = true) variables /\ c = read_config
  | inl e => problems e <> [] /\ exists named, named ≡ₚ problems e /\
      Forall2 names named (filter (fun v => negb v.2 : bool) variables).*1
  end.
Proof.
  destruct from_source_reports as (ps & ls & -> & Hp & Hls). pose proof (reports_named _ _ Hls) as Hn.
  destruct ps as [|p ps].
  - split; [|done]. apply Permutation_nil in Hp. rewrite Hp in Hn. apply Forall2_nil_inv_l in Hn.
    apply fmap_nil_inv in Hn. apply list.Forall_forall. intros v Hv. destruct (v.2) eqn:Hok; [done|].
    assert (v ∈ filter (fun v => negb v.2 : bool) variables) as Hin by (apply list_elem_of_filter; by rewrite Hok).
    rewrite Hn in Hin. by apply elem_of_nil in Hin.
  - split; [done|]. exists (mjoin ls). by split.
Qed.
End Config.
