(* ===== verification/ServicesSample.v ===== *)
(** * The services around the index: a sample

    A codec for every interface of the RPC client, the address forms and the
    SDK: a value is written as the bits of its code.  On it, the witnesses of
    the theorems about the queries, the API, the RPC client, the alerts and the
    SDK. *)

From Stdlib Require Import Sorted Ascii.
From stdpp Require Import countable gmap sorting pretty.
From S2P Require Import Prelude RustText Host Contract RegistryTypes RegistrySample IndexerEvents IndexerWire IndexerState IndexerAddress IndexerReorg IndexerProgress IndexerStore IndexerStoreSpec IndexerGovernance IndexerPaging IndexerTasks IndexerIngest IndexerIngestSpec IndexerBackfill IndexerSample IndexerLeaderboard IndexerLeaderboardSpec IndexerCache IndexerApi IndexerWebsocket IndexerWebsocketSpec SdkRetry SdkEvents SdkStream SdkClient IndexerFeeds IndexerRpc IndexerAlerts IndexerAlertsSpec.

(** ** Codes as text *)

Fixpoint bits (p : positive) : string :=
  match p with
  | xH => "."
  | xO p => String "0"%char (bits p)
  | xI p => String "1"%char (bits p)
  end.

Fixpoint of_bits (s : string) : option positive :=
  match s with
  | String "0"%char s => xO <$> of_bits s
  | String "1"%char s => xI <$> of_bits s
  | String "."%char EmptyString => Some xH
  | _ => None
  end.

Lemma of_bits_bits p : of_bits (bits p) = Some p.
Proof. induction p as [p IH|p IH|]; cbn; by rewrite ?IH. Qed.

Section Text.
Context {A : Type} `{Countable A}.

(** A value under a prefix, and the canonical way back. *)
Definition write (tag : Ascii.ascii) (a : A) : string := String tag (bits (encode a)).

Definition read (tag : Ascii.ascii) (s : string) : option A :=
  match s with
  | String c rest =>
      a ← (p ← of_bits rest; decode p);
      if bool_decide (write tag a = s) then Some a else None
  | EmptyString => None
  end.

Lemma read_write tag s a : read tag s = Some a <-> write tag a = s.
Proof.
  split.
  - unfold read. destruct s as [|c rest]; [done|]. cbn. destruct (of_bits rest) as [p|]; cbn; [|done].
    destruct (decode p) as [a'|]; cbn; [|done]. case_bool_decide; [|done]. by intros [= <-].
  - intros <-. unfold read, write. rewrite of_bits_bits. cbn. rewrite decode_encode. cbn.
    by rewrite bool_decide_eq_true_2.
Qed.
End Text.

#[export] Instance byte_eq_dec : EqDecision Byte.byte.
Proof. intros x y. apply Byte.byte_eq_dec. Defined.

#[export] Instance byte_countable : Countable Byte.byte.
Proof. refine (inj_countable Byte.to_N Byte.of_N _). intros b. apply Byte.of_to_N. Defined.

(** Accounts under G, contracts under C; no muxed ones. *)
#[export] Instance text_strkey : Strkey := {|
  account_from_string := read "G"%char;
  account_to_string := write "G"%char;
  contract_from_string := read "C"%char;
  contract_to_string := write "C"%char;
  muxed_from_string s := None;
|}.

#[export] Instance text_strkey_lawful : LawfulStrkey.
Proof.
  split; cbn; intros.
  - apply read_write.
  - apply read_write.
  - destruct H as [a Ha]. apply read_write in Ha as <-. cbn.
    rewrite of_bits_bits. cbn. rewrite decode_encode. cbn. by rewrite bool_decide_eq_false_2.
Qed.

(** ** XDR values as text *)

#[export] Instance sc_address_eq_dec : EqDecision ScAddress.
Proof. solve_decision. Defined.

Definition address_sum (a : ScAddress) : Bytes + Bytes :=
  match a with ScAccount k => inl k | ScContract h => inr h end.
Definition sum_address (s : Bytes + Bytes) : ScAddress :=
  match s with inl k => ScAccount k | inr h => ScContract h end.

Abbreviation Leaf := (Z * Z + bool + (Bytes + Bytes) + Bytes + string)%type.

Fixpoint sc_tree (v : ScVal) : gen_tree Leaf :=
  match v with
  | ScVoid => GenNode 0 []
  | ScU32 z => GenNode 1 [GenLeaf (inl (inl (inl (inl (z, 0)))))]
  | ScU64 z => GenNode 2 [GenLeaf (inl (inl (inl (inl (z, 0)))))]
  | ScI128 hi lo => GenNode 3 [GenLeaf (inl (inl (inl (inl (hi, lo)))))]
  | ScBool b => GenLeaf (inl (inl (inl (inr b))))
  | ScAddr a => GenLeaf (inl (inl (inr (address_sum a))))
  | ScBytes b => GenLeaf (inl (inr b))
  | ScSymbol s => GenLeaf (inr s)
  | ScVec None => GenNode 4 []
  | ScVec (Some vs) => GenNode 5 (map sc_tree vs)
  | ScOther => GenNode 6 []
  end.

Fixpoint tree_sc (t : gen_tree Leaf) : ScVal :=
  match t with
  | GenNode 0 _ => ScVoid
  | GenNode 1 [GenLeaf (inl (inl (inl (inl (z, _)))))] => ScU32 z
  | GenNode 2 [GenLeaf (inl (inl (inl (inl (z, _)))))] => ScU64 z
  | GenNode 3 [GenLeaf (inl (inl (inl (inl (hi, lo)))))] => ScI128 hi lo
  | GenNode 4 _ => ScVec None
  | GenNode 5 ts => ScVec (Some (map tree_sc ts))
  | GenLeaf (inl (inl (inl (inr b)))) => ScBool b
  | GenLeaf (inl (inl (inr a))) => ScAddr (sum_address a)
  | GenLeaf (inl (inr b)) => ScBytes b
  | GenLeaf (inr s) => ScSymbol s
  | _ => ScOther
  end.

Lemma tree_sc_tree : forall v, tree_sc (sc_tree v) = v.
Proof.
  fix IH 1. intros [| | | | |[]| | |[vs|]|]; try reflexivity. cbn. do 2 f_equal.
  induction vs as [|v vs IHvs]; [reflexivity|]. cbn. rewrite IH, IHvs. reflexivity.
Qed.

#[export] Instance sc_val_eq_dec : EqDecision ScVal.
Proof.
  intros v1 v2. destruct (decide (sc_tree v1 = sc_tree v2)) as [He|He]; [left | right; by intros ->].
  by rewrite <- (tree_sc_tree v1), He, tree_sc_tree.
Defined.

#[export] Instance sc_val_countable : Countable ScVal.
Proof. refine (inj_countable' sc_tree tree_sc tree_sc_tree). Defined.

#[export] Instance text_encodings : Encodings := {|
  from_xdr_base64 := read "X"%char;
  xdr_base64 := write "X"%char;
  from_to_base64 v := proj2 (read_write "X"%char _ v) eq_refl;
  hex b := pretty (length b);
  parse_from_rfc3339 s := if decide (s = "noon"%string) then Some 1000 else None;
|}.

(** An arm for symbols that keeps all but one. *)
#[export] Instance picky_arm : SymbolArm :=
  fun s => if decide (s = "late"%string) then inl UnexpectedShape else inr (SymbolV s).

(** An address as the account with that many zero bytes. *)
Definition account_of (a : Address) : ScAddress := ScAccount (replicate (N.to_nat (addr_id a)) Byte.x00).
Definition of_account (a : ScAddress) : option Address :=
  match a with ScAccount k => Some (mkAddress (N.of_nat (length k))) | ScContract _ => None end.

Lemma of_account_of a : of_account (account_of a) = Some a.
Proof. destruct a as [n]. cbn. by rewrite length_replicate, N2Nat.id. Qed.

#[export] Instance text_codec : ScValCodec := xdr_codec account_of of_account.

#[export] Instance text_codec_lawful : LawfulScVal.
Proof. apply xdr_lawful, of_account_of. Qed.

(** ** The queries *)

#[export] Instance reverse_scan : Scan := {| scan rows := reverse rows; scan_perm := reverse_Permutation |}.

Lemma leaderboard_exact_witness :
  exists lb, leaderboard Reward None 5 (world_of (recognised sample_history)) =
      Ok lb (world_of (recognised sample_history)) /\ length (lb_entries lb) = 1%nat.
Proof.
  destruct (leaderboard_exact Reward None 5 (world_of (recognised sample_history)) (recognised sample_history))
    as [Hl _].
  - done.
  - apply world_of_holds, sample_typed.
  - unfold bounded. apply (bool_decide_unpack _). by vm_compute.
  - eexists. split; [exact Hl | by vm_compute].
Defined.

#[export] Instance listed_map {K V} `{Countable K} : MapIter K V := {| iter := map_to_list; iter_perm _ := reflexivity _ |}.

(** A miss, its computation, and a hit five seconds after. *)
Definition miss_served : IndexerCache.Response (K := Z) (V := Z) := mkResponse 7 7 0 0 false.
Definition miss_stored : IndexerCache.Stored (K := Z) (V := Z) := mkStored 7 7 0 0.

Definition hit_after_miss : IndexerCache.Process (K := Z) (V := Z) :=
  mkProcess 5 (mkCache {[7 := mkCacheEntry 7 0]} (mkCacheStats 1 1 0 0)) []
    [mkResponse 7 7 5 5 true; miss_served] [miss_stored].

Lemma hit_after_miss_run : IndexerCache.run 10 2 (fun t k => t + k) (IndexerCache.start 0) hit_after_miss.
Proof.
  set (missed := mkCacheStats 0 1 0 0). set (kept := mkCache {[7 := mkCacheEntry 7 0]} missed).
  set (before := fun x : IndexerCache.Computation => mkProcess (K := Z) (V := Z) 0 (mkCache ∅ missed) [x] [] []).
  set (after := fun t => mkProcess (K := Z) (V := Z) t kept [] [miss_served] [miss_stored]).
  apply (IndexerCache.Run_step _ _ _ _ (after 5)).
  2: exact (IndexerCache.Hit 10 2 _ (after 5) 7 7 _ eq_refl eq_refl).
  apply (IndexerCache.Run_step _ _ _ _ (after 0)).
  2: apply (IndexerCache.Time 10 2 _ (after 0) 5); cbn; lia.
  apply (IndexerCache.Run_step _ _ _ _ (before (mkComputation 7 0 (Some 7)))).
  2: apply (IndexerCache.Store 10 2 _ (before (mkComputation 7 0 (Some 7))) 7 0 7 [] [] (fun _ => 0));
     try reflexivity; cbn; lia.
  apply (IndexerCache.Run_step _ _ _ _ (before (mkComputation 7 0 None))).
  2: exact (IndexerCache.Compute 10 2 _ (before (mkComputation 7 0 None)) 7 0 [] [] eq_refl).
  apply (IndexerCache.Run_step _ _ _ _ (IndexerCache.start 0)); [apply IndexerCache.Run_refl|].
  exact (IndexerCache.Miss 10 2 _ (IndexerCache.start 0) 7 _ eq_refl eq_refl).
Qed.

Lemma cache_bounded_staleness_witness :
  Forall (well_stored (fun t k => t + k)) (stores hit_after_miss) /\
  Forall (well_served 10 (fun t k => t + k) (stores hit_after_miss)) (IndexerCache.served hit_after_miss).
Proof.
  destruct (cache_bounded_staleness 10 2 (fun t k => t + k) 0 hit_after_miss ltac:(lia) hit_after_miss_run)
    as (_ & Hl & Hs & _).
  split; [exact Hl | exact Hs].
Defined.

(** ** The API *)

(** The tasks registered so far. *)
Fixpoint registered_b (seen : list Z) (es : list Entry) : bool :=
  match es with
  | [] => true
  | x :: es =>
      let seen := match x.2 with EventPayload.TaskRegistered id _ _ _ _ => id :: seen | _ => seen end in
      match EventPayload.task_id x.2 with Some id => bool_decide (id ∈ seen) | None => true end && registered_b seen es
  end.

Lemma registered_b_sound pre es seen :
  (forall id, id ∈ seen -> exists j y, pre !! j = Some y /\ is_registration id y.2) -> registered_b seen es = true ->
  forall i x id, es !! i = Some x -> EventPayload.task_id x.2 = Some id ->
  exists j y, (j <= length pre + i)%nat /\ (pre ++ es) !! j = Some y /\ is_registration id y.2.
Proof.
  revert pre seen. induction es as [|x0 es IH]; intros pre seen Hseen Hb i x id Hi Hid; [done|].
  cbn [registered_b] in Hb. apply andb_true_iff in Hb as [Hx Hb]. revert Hx Hb.
  set (seen' := match x0.2 with EventPayload.TaskRegistered _ _ _ _ _ => _ | _ => _ end). intros Hx Hb.
  assert (forall id, id ∈ seen' -> exists j y, (pre ++ [x0]) !! j = Some y /\ is_registration id y.2) as Hseen'.
  { intros id' Hid'. assert (id' ∈ seen \/ is_registration id' x0.2) as [Hs|Hr].
    { unfold seen' in Hid'. destruct x0.2; auto. apply list.elem_of_cons in Hid' as [->|?]; [by right | by left]. }
    - destruct (Hseen id' Hs) as (j & y & Hj & Hr). exists j, y. split; [by apply lookup_app_l_Some | done].
    - exists (length pre), x0. by rewrite list_lookup_middle. }
  destruct i as [|i]; cbn in Hi.
  - injection Hi as ->. rewrite Hid in Hx. apply bool_decide_eq_true in Hx.
    destruct (Hseen' id Hx) as (j & y & Hj & Hr). exists j, y.
    pose proof (lookup_lt_Some _ _ _ Hj) as Hlt. rewrite length_app in Hlt. cbn in Hlt.
    split; [lia|]. split; [|done]. change (x :: es) with ([x] ++ es). rewrite app_assoc. by apply lookup_app_l_Some.
  - destruct (IH (pre ++ [x0]) seen' Hseen' Hb i x id Hi Hid) as (j & y & Hj & Hy & Hr). exists j, y.
    rewrite length_app in Hj. cbn in Hj. rewrite <- app_assoc in Hy. split; [lia | done].
Qed.

Lemma sample_registered_first : registered_first (recognised sample_history).
Proof.
  intros i x id. apply (registered_b_sound [] (recognised sample_history) []); [set_solver | by vm_compute].
Qed.

Definition sample_api : Api := mkApi (world_of (recognised sample_history)) IndexerCache.new_cache.

(** The same store at each of [n] requests. *)
Lemma sample_served n :
  Forall2 (serves (recognised sample_history)) (api_world <$> replicate n sample_api) (replicate n (recognised sample_history)).
Proof.
  rewrite fmap_replicate. apply Forall2_replicate. split; [reflexivity|]. split; [|reflexivity].
  apply world_of_holds, sample_typed.
Qed.

Lemma sample_steady n : StronglySorted prefix (replicate n (recognised sample_history)).
Proof. induction n as [|n IH]; constructor; [exact IH|]. by apply Forall_replicate. Qed.

Lemma task_pages_exact_witness :
  exists ts, traverse_tasks Owner (strkey owner0) (Some 1) None
    (replicate (S (length (recognised sample_history))) sample_api) = Some ts /\ StronglySorted newer ts.
Proof.
  destruct (task_pages_exact Owner (strkey owner0) (Some 1)
    (replicate (S (length (recognised sample_history))) sample_api)
    (replicate (S (length (recognised sample_history))) (recognised sample_history)) (recognised sample_history))
    as (ts & Hts & Hsorted & _).
  - apply sample_served.
  - apply sample_steady.
  - apply sample_registered_first.
  - rewrite length_replicate. apply Nat.lt_succ_diag_r.
  - exists ts. split; [exact Hts | exact Hsorted].
Defined.

(** ** A subscription from cursor 4, the second event *)

Definition sample_query : SubscribeQuery := mkSubscribeQuery None None (Some 4).

Definition sample_connected : System := mkSystem (world_of (recognised sample_history)) None (connect sample_query).

Definition replayed_once : System :=
  match events_after (Some 4) REPLAY_PAGE_SIZE None None (world_of (recognised sample_history)) with
  | Ok page w => mkSystem w None (move (replay_page page None).2 (replay_page page None).1 (connect sample_query))
  | _ => sample_connected
  end.

Definition last_cursor : option Z := Some (3 * Z.of_nat (length (recognised sample_history)) - 2).

Definition sample_live : System :=
  mkSystem (sys_world replayed_once) None
    (move (Live last_cursor) [Subscribed None None last_cursor] (session replayed_once)).

Lemma sample_live_run : IndexerWebsocket.run sample_query sample_connected sample_live.
Proof.
  apply (IndexerWebsocket.Run_step _ _ replayed_once).
  - eapply IndexerWebsocket.Run_step; [apply IndexerWebsocket.Run_refl|]. unfold replayed_once.
    destruct (events_after _ _ _ _ _) as [page w|?|] eqn:Hpage.
    + exact (Handle sample_query sample_connected _ _ (ReplayPage sample_query _ (connect sample_query) 4 None page w eq_refl Hpage)).
    + apply (f_equal (fun r => match r with Ok _ _ => true | _ => false end)) in Hpage. by vm_compute in Hpage.
    + apply (f_equal (fun r => match r with Ok _ _ => true | _ => false end)) in Hpage. by vm_compute in Hpage.
  - assert (phase (session replayed_once) = Announcing last_cursor) as Hp by by vm_compute.
    assert (fl_address (filters (session replayed_once)) = None) as Ha by by vm_compute.
    pose proof (Handle sample_query replayed_once _ _ (Announce sample_query _ _ _ Hp)) as Hs.
    rewrite Ha in Hs. replace (unsent replayed_once) with (@None IndexedEvent) in Hs by by vm_compute. exact Hs.
Qed.

Lemma subscription_exactly_once_witness :
  exists es', holds (db (sys_world sample_live)) es' /\
    delivered (out (session sample_live)) =
      base.filter (fun e => wanted_after 4 None None e : Prop) (contents (db (sys_world sample_live)) es').
Proof.
  destruct (subscription_exactly_once sample_query (world_of (recognised sample_history)) None
    (recognised sample_history) sample_live) as (es' & Hh & _ & Hdue).
  - apply world_of_holds, sample_typed.
  - done.
  - apply (bool_decide_unpack _). by vm_compute.
  - done.
  - exact sample_live_run.
  - by vm_compute.
  - exists es'. split; [done|]. destruct Hdue as [_ Hdue]. apply (Hdue last_cursor); by vm_compute.
Defined.

(** ** The SDK *)

(** A world that fails once, or not at all. *)
#[export] Instance flaky_runtime : Runtime bool.
Proof. refine {| sleep d w := w; gen_range r w := (0, w) |}. intros range w Hr. split; [reflexivity | exact Hr]. Defined.

Definition flaky (w : bool) : (RpcCallError unit + Z) * bool :=
  if w then (inl (Transport Timeout), false) else (inr 42, false).

Lemma default_is_policy : is_policy default_policy.
Proof. unfold is_policy, is_duration, in_range. split_and!; by vm_compute. Qed.

Lemma retry_exact_witness :
  exists r w', SdkRetry.run flaky default_classify default_policy true = Some (r, w').
Proof.
  destruct (retry_exact flaky default_classify default_policy true) as [(n & r & w' & Hr & _) _].
  - exact default_is_policy.
  - by exists r, w'.
Defined.

Lemma sdk_decode_exact_witness :
  SdkEvents.decode_event (published_topics (PausedSet true)) (published_value (PausedSet true)) = understood (PausedSet true).
Proof. apply (sdk_decode_exact (PausedSet true)). Defined.

(** A signer of empty payloads, and a registry that answers every simulation
    and every submission with [true]. *)
Definition sample_client : KeeperRegistryClient (W := bool) :=
  with_signer (mkTransactionSigner owner0 (fun payload w => (inr [], w)))
    (new_client "C" "net" (mkRpcTransport
      (fun rq w => (inr (mkSimulationOutcome (of_bool true) []), w))
      (fun signed w => (inr (of_bool true), w)))).

Definition sample_client_codec : ClientCodec :=
  mkClientCodec (write "X"%char) (fun v => None) (fun v => None) (fun t => None) (fun b => None) (fun v => None).

#[local] Existing Instance logged_runtime.

Lemma write_submits_once_witness :
  exists r w' sent, SdkClient.write sample_client_codec to_bool (logged sample_client) "claim_task" [] (true, []) =
    Some (r, (w', sent)) /\ length sent = 1%nat.
Proof.
  destruct (write_submits_once sample_client_codec to_bool sample_client "claim_task" [] true []) as [(r & w' & sent & Hw & _) _].
  - exact default_is_policy.
  - exists (add_context (from_debug sample_client_codec "claim_task" []) r), w', sent. split; [exact Hw|].
    apply (f_equal (fun r => match r with Some (_, (_, log)) => length log | None => O end)) in Hw.
    etransitivity; [symmetry; exact Hw|]. by vm_compute.
Defined.

(** Three events; a cursor is as many dots as events come before it. *)
Definition dots (n : nat) : string := String.string_of_list_ascii (replicate n "."%char).

Definition sdk_event (i : nat) (ev : RegistryTypes.Event) : RawContractEvent :=
  mkRawContractEvent (dots (S i)) (published_topics ev) (published_value ev).

Definition sdk_feed : list RawContractEvent :=
  [sdk_event 0 (PausedSet true); sdk_event 1 (TaskRegistered 1 owner0 100 900 None); sdk_event 2 (PausedSet false)].

Definition from_start (l : Z) : nat := O.

(** Fails once whenever it may, and serves two events a page. *)
#[export] Instance flaky_transport : EventTransport bool := {|
  SdkStream.get_events := fun (rq : EventPageRequest) (w : bool) =>
    if w then (inl (Transport Timeout), false)
    else
      let page := take 2 (drop (request_position String.length from_start rq) sdk_feed) in
      (inr (mkEventPage page (dots (request_position String.length from_start rq + length page))), true);
|}.

Lemma length_dots n : String.length (dots n) = n.
Proof. unfold dots. induction n as [|n IH]; [done|]. cbn. by rewrite IH. Qed.

Lemma flaky_honest : HonestTransport "C" sdk_feed String.length from_start.
Proof.
  split.
  - intros [|[|[|i]]] raw; cbn; try done; by intros [= <-].
  - intros rq [] page w' _ [= <- <-]. cbn [pg_events pg_cursor]. split; [apply prefix_take | apply length_dots].
Qed.

Lemma flaky_responsive :
  ResponsiveTransport "C" sdk_feed String.length from_start 1 (fun w : bool => if w then 1%nat else 0%nat).
Proof.
  split.
  - intros []; lia.
  - done.
  - done.
  - intros rq w _ Hlt. destruct w; cbn [SdkStream.get_events flaky_transport]; [lia|]. cbn [pg_events]. intros Hnil.
    apply (f_equal length) in Hnil. rewrite length_take, length_drop in Hnil. cbn [length] in Hnil. lia.
Qed.

Lemma stream_exactly_once_witness :
  exists st w, consume [2; 2; 2]%nat (SdkStream.with_retry_policy default_policy (new_stream "C" (Ledger 1))) true =
    Some (item <$> sdk_feed, st, w).
Proof.
  destruct (@stream_exactly_once _ bool _ _ "C" sdk_feed String.length from_start flaky_honest 1 _ flaky_responsive
    (Ledger 1) true) as [_ Hlive].
  apply (Hlive default_policy [2; 2; 2]%nat).
  - exact default_is_policy.
  - cbn. lia.
  - repeat constructor.
  - cbn. lia.
Defined.

(** ** The RPC client *)

Definition noon_event (ev : RegistryTypes.Event) : RawRpcEvent :=
  served_event account_of of_account "0000000429496729600-0000000000" "tx" "noon" 100 ev.

Lemma rpc_roundtrip_witness :
  (exists raw, IndexerRpc.decode_event (noon_event (PausedSet true)) = inr raw /\ re_ledger raw = 100) /\
  (exists raw, IndexerRpc.decode_event (noon_event (Slashed 1 keeper0 50 "idle")) = inr raw /\ re_tx_hash raw = "tx"%string) /\
  exists e, mapM IndexerRpc.decode_event
    ([noon_event (PausedSet true)] ++ noon_event (Slashed 1 keeper0 50 "late") :: [noon_event (PausedSet false)]) = inl e.
Proof.
  split; [|split].
  - destruct (rpc_roundtrip account_of of_account "0000000429496729600-0000000000" "tx" "noon" 100 1000 (PausedSet true))
      as (Hok & Hnone & _); [done|].
    destruct (Hok (Hnone eq_refl)) as (raw & Hraw & _ & Hl & _). by exists raw.
  - destruct (rpc_roundtrip account_of of_account "0000000429496729600-0000000000" "tx" "noon" 100 1000
      (Slashed 1 keeper0 50 "idle")) as (Hok & _ & _); [done|].
    destruct Hok as (raw & Hraw & _ & _ & _ & Htx); [intros sym [= <-]; reflexivity|].
    exists raw. split; [exact Hraw | exact Htx].
  - destruct (rpc_roundtrip account_of of_account "0000000429496729600-0000000000" "tx" "noon" 100 1000
      (Slashed 1 keeper0 50 "late")) as (_ & _ & Hbad); [done|].
    apply (Hbad "late"%string UnexpectedShape); by vm_compute.
Defined.

(** A node with three events, one a ledger. *)
Definition expired_at (l : Z) (tx : string) : RawRpcEvent :=
  served_event account_of of_account "1-0" tx "noon" l (TaskExpired l).

Definition rpc_sample : list RawRpcEvent := [expired_at 100 "tx1"; expired_at 101 "tx2"; expired_at 102 "tx3"].

Definition rpc_decoded : list RawEvent := Eval vm_compute in
  omap (fun raw => match IndexerRpc.decode_event raw with inr e => Some e | inl _ => None end) rpc_sample.

Inductive Reply := Wrapped (r : Reply) | EventsReply (page : RawEventsPage) | LedgerReply (l : Z).

#[export] Instance sample_node : RpcNode := {|
  Value := Reply;
  get := fun name v =>
    match v with
    | Wrapped r => if decide (name = "result"%string) then Some r else None
    | LedgerReply l => if decide (name = "sequence"%string) then Some (LedgerReply l) else None
    | EventsReply _ => None
    end;
  as_str := fun _ => None;
  as_u64_value := fun v => match v with LedgerReply l => Some l | _ => None end;
  as_events_page := fun v => match v with EventsReply page => Some page | _ => None end;
  post := fun n method params =>
    Some (200, Some (Wrapped
      match params with
      | GetEventsParams from id limit =>
          EventsReply (mkRawEventsPage (take (Z.to_nat limit) (base.filter (fun e => from <= rpc_ledger e) rpc_sample)) 110)
      | NoParams => LedgerReply 110
      end));
|}.

Lemma sample_node_documented : documented_node "C" rpc_sample 110.
Proof.
  split.
  - intros n from limit. eexists. split; [eexists; split_and!; reflexivity | reflexivity].
  - intros n. eexists _, _. split; [eexists; split_and!; reflexivity | split; reflexivity].
Qed.

Lemma rpc_decoded_honest : honest_history rpc_decoded.
Proof.
  split.
  - repeat constructor; unfold by_ledger; cbn; lia.
  - apply (bool_decide_unpack _). by vm_compute.
  - assert (forallb takes_b rpc_decoded = true) as Hb by by vm_compute.
    rewrite forallb_forall in Hb. apply list.Forall_forall. intros e He.
    apply takes_b_sound, Hb. by apply list_elem_of_In.
Qed.

(** Pages of two: the third event is lost. *)
Lemma rpc_backfill_one_page_witness :
  exists r w', run_to_tip (H1 := http_source) "C" 2 100 fresh = Ok r w' /\ b_last_ledger r = 110 /\
    holds (db w') (recognised (take 2 rpc_decoded)).
Proof.
  destruct (rpc_backfill_one_page "C" rpc_sample 110 rpc_decoded 2 100) as (r & w' & Hrun & _ & Hl & _ & Hh).
  - exact sample_node_documented.
  - repeat constructor; by vm_compute.
  - exact rpc_decoded_honest.
  - lia.
  - lia.
  - lia.
  - exists r, w'. split; [exact Hrun|]. split; [done|]. exact Hh.
Defined.

(** ** The alerts *)

#[export] Instance sample_alert_events : AlertEvents := {|
  IndexerAlerts.Event := EventCursor * PayloadView;
  event_cursor := fst;
  event_payload := snd;
|}.

#[export] Instance sample_values_order : Values := {| values m := (map_to_list m).*2; values_perm _ := reflexivity _ |}.

Definition sample_alert_config : AlertSystemConfig := mkAlertSystemConfig true true false (Some 500) true (Some 10) (Some "GA").

Definition sample_calls : list Call :=
  let at_ledger l p := Evaluate ((mkEventCursor l 0 0, p) : IndexerAlerts.Event) in
  [at_ledger 100 (VProposalCreated 7 "GP" 120); at_ledger 100 (VProposalCreated 7 "GP" 120);
   CheckLedger 110; at_ledger 112 (VPaused true); at_ledger 113 (VVoteCast 7 "GA"); CheckLedger 114].

Lemma alerts_exactly_once_witness :
  exists sent m, IndexerAlerts.run (build_manager sample_alert_config) sample_calls = Some (sent, m) /\
    incident <$> sent = ["new-proposal:7"; "voting-window-closing-soon:7:GA"; "protocol-paused:112:0:0"]%string.
Proof.
  destruct (alerts_exactly_once sample_alert_config sample_calls) as (sent & m & Hrun & _).
  - unfold sample_calls. rewrite !list.Forall_cons. split_and!; [..| by apply list.Forall_nil];
      intros threshold [= <-]; by vm_compute.
  - exists sent, m. split; [exact Hrun|].
    apply (f_equal (fun r => match r with Some (s, _) => incident <$> s | None => [] end)) in Hrun.
    rewrite <- Hrun. by vm_compute.
Defined.

(** ** Governance events *)

#[export] Instance text_numeric : SqlNumeric.
Proof.
  refine {| i128_to_sql := write "N"%char; i128_from_sql := read "N"%char;
            numeric_in := read "N"%char; numeric_out := write "N"%char |}; intros z _; by apply read_write.
Defined.

Definition sample_votes : list GovEvent := [
  mkGovEvent 100 0 0 (IndexerGovernance.ProposalCreated 7 "GP" 900 None);
  mkGovEvent 101 0 0 (IndexerGovernance.VoteCast 7 "GA" 1 (Some 50));
  mkGovEvent 102 0 0 (IndexerGovernance.VoteCast 7 "GB" 0 (Some 20));
  mkGovEvent 110 0 0 (IndexerGovernance.ProposalExecuted 7)].

Lemma sample_votes_consistent : IndexerGovernance.consistent sample_votes.
Proof.
  intros e1 e2 H1 H2. unfold sample_votes in H1, H2. rewrite !list.elem_of_cons, elem_of_nil in H1, H2.
  destruct H1 as [->|[->|[->|[->|[]]]]], H2 as [->|[->|[->|[->|[]]]]]; try done; intros Hk; by vm_compute in Hk.
Qed.

(** Twice the database fails on the way. *)
Lemma governance_views_exact_witness :
  exists l, proposal_lifecycle 7 (IndexerGovernance.stored sample_votes) = Ok (Some l) (IndexerGovernance.stored sample_votes) /\
    pl_voting_power_for l = 50 /\ pl_status l = "executed"%string.
Proof.
  destruct (governance_views_exact sample_votes [[true; false]; [true; true; true; false]]) as (_ & _ & Hl & _).
  - exact sample_votes_consistent.
  - repeat constructor; by vm_compute.
  - destruct (Hl 7) as (r & Hr & _).
    + unfold in_range; cbn; lia.
    + intros s Hs. assert (s = 0 \/ s = 1 \/ s = 2) as [->|[->| ->]] by lia; unfold in_range; split; by vm_compute.
    + pose proof (f_equal (fun r => match r with Ok (Some l) _ => (pl_voting_power_for l, pl_status l) | _ => (0, ""%string) end) Hr) as Hv.
      vm_compute in Hv. destruct r as [l|]; [|discriminate Hv]. injection Hv as H1 H2. exists l.
      split; [exact Hr|]. clear Hr. by split; symmetry.
Defined.
